(* ===== verification/_CoqProject ===== *)
-Q . S2P
Prelude.v
GoStrings.v
GoPath.v
Stats.v
Template.v
StatusPage.v
Types.v
DirEntries.v
Sql.v
Sqlite.v
Kernel.v
Syscalls.v
WorldPost.v
Md5.v
Metadata.v
MetadataSpec.v
MetadataProps.v
Content.v
ContentProps.v
Fs.v
FsLogic.v
FsProps.v
FsTheorems.v
Opening.v
CommandLine.v
Remote.v
FsTermination.v
Coherence.v
Growth.v
HandlerLogic.v
Served.v
NodeServed.v
Session.v
Requests.v
Simulation.v
SessionProofs.v
Scenario.v
SessionTheorems.v
Offline.v
Loop.v
LoopTheorems.v
WholeProgram.v
Mortal.v
Killed.v
Shared.v
Descriptors.v
SharedOs.v
Pool.v
PoolProofs.v
PoolTheorems.v
Progress.v
Liveness.v
Concurrent.v
