(* ===== verification/Prelude.v ===== *)
(** * sourcachefs: a caching file system, verified

    sourcachefs mounts a read-only view of a slow, never-changing remote tree.  The first access
    to an entry goes to the remote; what it delivers is kept in a local cache and answers every
    later access, also after a restart.  Attributes, directory listings and symlink targets are
    rows of a SQLite database; file contents are files named by their MD5 digest.  Paths outside
    a configured regular expression are "direct": they are never cached.

    ** The parts and how they interact

    A FUSE request arrives at a node of internal/fs (root.go, dir.go, file.go, symlink.go).  Its
    handler looks at the node's own data, then at the metadata cache (internal/cache/metadata.go),
    then at the remote through the counted system calls (internal/real/syscalls.go), and stores
    what it learned: rows through the retrying SQLite wrapper (internal/cache/sqlite.go), contents
    through the content cache (internal/cache/content.go).  Every step is accounted in the
    statistics (internal/stats/stats.go), which the status page shows (internal/stats/status.go,
    started by cmd/sourcachefs/main.go).  The main program opens the caches and calls Loop
    (root.go), which mounts the file system, serves it and watches for signals.

    ** The files

    - Prelude: errors, the effect monad [GoM], its loops, its program logic ([post], [halts],
      [frame]) and generic lemmas.
    - GoStrings, GoPath: what the program uses of strings, strconv and path/filepath.
    - Stats: stats.go.  [Stats] is the struct with its three maps of 64-bit counters.
    - Template: the part of html/template that the status page uses: parsing, contextual escaping
      and execution.  StatusPage: status.go, with its template, and runHTTPServer of main.go.
    - Types: types.go ([cachedRow], [cachedFileInfo], [OneDirEntry]), file modes, sqlTypeName.
    - DirEntries: the text format of stored listings (addDirEntry, parseDirEntries).
    - Sql: the database engine as an interface ([SqlEngine]) with laws ([SqlLaws]), and [MemDb].
    - Sqlite: sqlite.go, the loops that retry while the database is busy.
    - Kernel: the operating system as an interface ([Kernel], [KernelView], [KernelLaws]), and
      [MemOs].
    - Syscalls: syscalls.go.  [World] is the state a handler shares with the others: the
      statistics, the operating system and the database.
    - WorldPost: the program logic of functions on a [World].
    - Md5: MD5 and hexadecimal, computed.
    - Metadata: metadata.go, a definition per method, named after it.  MetadataSpec: the abstract
      cache, a map from paths to rows, and that each method implements its operation on the map.
      MetadataProps: the theorems.
    - Content: content.go (PutContents, GetFileForContents).  ContentProps: its invariant and
      theorems.
    - Fs: the nodes and their handlers, named after the method, with the type in front where the
      plain name is ambiguous ([Dir_Attr], [File_Attr]).  FsLogic: the logic of handlers ([settles]).  FsProps: what each
      handler settles on.  FsTheorems: the theorems.
    - FsTermination: every handler ends, on a system of its own or one it shares.
    - Opening: newSqliteDb, NewMetadataCache, NewCache and the Close methods, over database/sql as
      an interface ([SqlDriver]).
    - CommandLine: main.go, from the command line to the exit of the process.
    - Remote: the remote tree as something that does not change ([RemoteView], [RemoteLaws],
      [tree_ok]).  Coherence: rows that say what the tree says.  Growth: the metadata cache as its
      clients may rely on it when they are not alone ([GrowingLaws]), and every method on it.
    - HandlerLogic: the logic of handlers ([served]) over an interface, [OsProtocol], of what the
      kernel promises them.  Served: the protocol of a kernel that one handler has for itself.
      NodeServed: every handler in the logic, for any protocol.
    - Session: the whole mounted file system, with its tables of nodes and handles, as a
      transition system of requests and remounts; and the abstract file system [Spec].
      Requests: what a request does to the tables and that its answer is the abstract one's, for
      any protocol.  SessionProofs: the simulation between session and [Spec].  Scenario: a
      concrete installation that runs.  SessionTheorems: what users get.
    - Offline: what a node keeps, without any assumption on the remote.
    - Simulation: two runs of the program on two systems, function by function; and what all
      calls of the program keep.
    - Loop: Loop and unmountOnSignal as two goroutines, over any way of serving requests
      ([Server]).  LoopTheorems: the life of the process.
      WholeProgram: main, the process of Loop and the HTTP server put together.
    - Mortal: operating systems and databases that stop answering after a number of calls, and
      that they satisfy the laws.  Killed: what a killed process leaves.
    - Shared: a system that others use between any two calls.  Descriptors: the laws of a kernel
      with several users.  SharedOs: the protocol of such a kernel, by rely and guarantee.
      Pool: requests in flight, whose calls interleave.  PoolProofs: the invariant of a pool.
      PoolTheorems: what users get when requests are served at the same time.
    - Progress: a request in flight makes finitely many calls, and has then been answered.
      Liveness: every request is answered.
    - Concurrent: the pool as the [Server] of a process.

    ** The model

    A Go function that can fail is a [GoM S A]: a state transformer on [S] that returns, fails
    with an error value, panics, exits the process, or is still in a loop when its fuel ends.  An
    error keeps the state changes made before it, as in Go.  Integers are [Z] with the wrap-around
    of their width written out; Go maps are finite maps.  The fields of a node that are assigned
    once are its identity; those filled lazily under its lock are its data [N], and its handlers
    are [GoM (N * World)].

    A node's lock is held for the whole of a handler.  A session serves the requests one after
    the other; a pool (Pool.v) serves any number at the same time: each is where its last call
    of the kernel or the database has left it, and in every step one of them makes its next call,
    in the state that the others have made meanwhile, or a request arrives or is answered.  A
    request that is to work on a node arrives once the node's lock is free; reads of one handle
    take no lock and overlap.  Requests of different nodes meet in the kernel, in the database, and in
    the counters and random numbers, which can be anything when a request is answered
    (the interleavings of the counters are in Stats.v).  The logic that proves the handlers is
    about both: a handler that is alone and one that relies on what the others may do.

    What is not part of the program is a parameter.  SQLite is any [SqlEngine] that satisfies
    [SqlLaws]: statements act on the table as SQL says, with SQLite's column affinity, or fail and
    change nothing.  The operating system is any [Kernel] with [KernelLaws] about the cache
    directory; for the theorems on single handlers nothing is assumed about the remote tree,
    which may answer anything at any time.  The session theorems are about the use the program is
    made for, a remote that does not change: what [setup_ok] asks for is a tree of files,
    directories and symbolic links with names, digests and targets that the stored formats can
    hold (no name with the byte 1, no text that SQLite would take for a number), a cache
    directory outside of it, and no two different contents with one MD5 digest among those of the
    tree and the cache.  Calls of the kernel and the database may still fail at any time.
    With several requests in flight it is also asked that an open file and the name of a temporary
    file are never given out twice ([DescriptorLaws]), and that a call of the database is atomic.
    bazil.org/fuse numbers nodes and handles and dispatches requests, which [serve] does in its
    place; whether its Mount, Serve and Unmount fail is part of the steps of Loop.v.
    The regular expression of direct paths is a predicate;
    humanize.Bytes and regexp.Compile are functions, and the flags that glog registers are any.
    database/sql is [SqlDriver] with [SqlDriverLaws] where databases are opened and closed, and
    [StoreLaws] says that this leaves the rows alone.  [MemDb] and [MemOs] satisfy the laws and are
    executable; the instances of the theorems run on them.

    ** Fuel

    Two kinds of loop have no bound in the code.  The retries of sqlite.go run on [retry_fuel]:
    [RetryExec_finishes] shows that any fuel above the number of busy answers gives the result,
    [metadata_terminates] lifts it to every method of the metadata cache, and
    [Scan_never_returns] shows a case where no fuel is enough, as the code loops for ever there.
    The copy loop of PutContents runs on [copy_fuel]: [PutContents_ends] shows that fuel above the
    number of bytes the remote delivers is enough, the end of the file included; [handlers_end]
    lifts both to every handler, and [every_request_answered] to requests whose calls
    interleave (the one theorem that uses an axiom, Stdlib's epsilon: it collects what a request
    sees in an infinite run).  The theorems on handlers list what can hold after each outcome,
    also when a loop has not ended.

    ** The theorems

    - The mounted file system (SessionTheorems): every run of requests, failures and remounts is
      a run of the abstract file system that serves the remote tree ([session_refines_tree]);
      database and content cache agree with the tree at any time ([caches_agree_with_tree]); no
      request panics; caching and direct mode cannot be told apart by their answers
      ([modes_agree]); inode numbers are for life; replies are well typed and in range.
    - Answers that stay (Offline): the attributes, children, listing and target that a cached node
      has told once it tells for ever, as long as it is not forgotten and none of its handlers hangs.
    - Requests at the same time (PoolTheorems): in every interleaving of their calls the answers
      are those of the abstract file system, which serves one request after the other
      ([interleavings_refine_tree]), and no request panics; [racing_lookups_conflict] is the
      error that one of two requests can be answered with because a directory has two nodes.
      In a run that never ends and lets every request in flight get on, each is answered after
      finitely many turns ([every_request_answered], Liveness).
    - The process (LoopTheorems, WholeProgram, CommandLine): how it can end, what it leaves
      mounted, open and on the disk, which signals it dies of, and the race in which it does not;
      the whole way from the command line to the exit, for
      any way of serving ([main_ends]); killed between any two calls, also inside of a request,
      it leaves a disk on which the next process serves the tree ([killed_anywhere]), and so it
      does with any number of requests in flight ([killed_in_flight], Concurrent); the command
      lines that are errors, and exactly which command lines are read as which flags and arguments
      ([Parse_spelled], in both directions).
    - File system (FsTheorems): lookups of unknown and known names, with negative caching; hits
      touch neither the remote nor the database ([hits_are_served_from_memory]); opening a file
      fetches its contents at most once and reading it delivers the requested bytes; attributes,
      listings and targets are fetched on a miss, stored and returned; direct paths bypass the
      cache; no sequence of handler calls changes the inode of a path; one busy answer to a query of
      a row keeps a lookup, and also a mount, from ever returning
      ([contended_query_never_returns]).
    - Content cache (ContentProps): every file under a key has contents with that digest, whatever
      fails; stored contents never change; a returned key stands for what was read.
    - Metadata cache (MetadataProps): each method's effect on the map of rows, errors included;
      inode numbers never change; every method ends.
    - Opening and closing (Opening): a failure leaves nothing open but a database that could not be
      pinged; Close never closes the database under an open statement; after a failure to open,
      NewCache tries to remove the stored metadata and then the cache directory, and nothing else.
    - Listing format (DirEntries): the round trip, and the names that break it.
    - SQLite wrapper (Sqlite): the retries end with the answer of the first call that is not busy, after
      sleeps that grow by a random increment each.
    - Statistics (Stats, StatusPage): counters count exactly the events, in any interleaving; the
      page always renders, shows them, and keeps its markup whatever texts are put into it
      ([generateStatusPage_shows]), sorted as any algorithm on its sort.Interface would sort
      ([Sort_is_sort]); the endpoints answer as documented, also when the connection
      breaks.

    ** Not modelled

    The log is left out.  Of html/template only what the program's template exercises is there:
    other actions and contexts are errors of the model.  Release and Forget, which make at most
    one call, are served in one step of a pool.  A process can be killed between any two calls
    (Killed.v, Concurrent.v), but the machine does not fail: what a completed call has written
    stays.  Requests of one node are served in the order in which they get its lock, which is
    the order of their arrival here.  What the HTTP server serves is StatusPage.v; WholeProgram.v
    has how it ends the process.  Go iterates over a map in an unspecified order: listings are compared as the sets they are,
    and the status page takes the order as a parameter. *)
From stdpp Require Export base decidable list numbers gmap strings.
From Stdlib Require Export ZArith Lia Ascii.

#[export] Set Default Goal Selector "!".

Declare Scope go_scope.
Delimit Scope go_scope with go.
#[global] Open Scope Z_scope.

(** * Errors

    The error values the program creates, inspects or hands on.  Go's [error] is an open
    interface; the constructors are the dynamic types the code distinguishes, plus [ENew] for
    the opaque ones made by [errors.New] and [fmt.Errorf]. *)

(** Kernel error numbers.  [os.IsNotExist] and [os.IsExist] look at these. *)
Inductive errno : Type :=
  | ENOENT | EEXIST | ENOTEMPTY | EACCES | EIO | EOTHER (n : Z).

#[export] Instance errno_eq_dec : EqDecision errno.
Proof. solve_decision. Defined.

Inductive error : Type :=
  | EPath (op path : string) (no : errno)   (* *os.PathError and *os.LinkError *)
  | ESqlite (code : Z)                      (* sqlite3.Error, with its result code *)
  | ENoRows                                 (* sql.ErrNoRows *)
  | EEOF                                    (* io.EOF *)
  | EShortWrite                             (* io.ErrShortWrite *)
  | ENum (num : string) (range : bool)      (* *strconv.NumError: ErrRange or ErrSyntax *)
  | EFuseENOENT                             (* fuse.ENOENT *)
  | ENew (msg : string).                    (* errors.New, fmt.Errorf *)

#[export] Instance error_eq_dec : EqDecision error.
Proof. solve_decision. Defined.

(** The text [err.Error()] delivers; it only ever ends up inside other error messages. *)
Definition errno_string (no : errno) : string :=
  match no with
  | ENOENT => "no such file or directory"
  | EEXIST => "file exists"
  | ENOTEMPTY => "directory not empty"
  | EACCES => "permission denied"
  | EIO => "input/output error"
  | EOTHER _ => "errno"
  end.

Definition error_string (e : error) : string :=
  match e with
  | EPath op path no => op +:+ " " +:+ path +:+ ": " +:+ errno_string no
  | ESqlite _ => "sqlite3 error"
  | ENoRows => "sql: no rows in result set"
  | EEOF => "EOF"
  | EShortWrite => "short write"
  | ENum num true => "strconv.ParseUint: parsing " +:+ num +:+ ": value out of range"
  | ENum num false => "strconv.ParseUint: parsing " +:+ num +:+ ": invalid syntax"
  | EFuseENOENT => errno_string ENOENT
  | ENew msg => msg
  end.

(** [os.IsNotExist] and [os.IsExist]: true of an OS error with the right number, and false of
    every error that merely mentions one in its text. *)
Definition IsNotExist (e : error) : bool :=
  match e with EPath _ _ no => bool_decide (no = ENOENT) | _ => false end.

Definition IsExist (e : error) : bool :=
  match e with
  | EPath _ _ no => bool_decide (no = EEXIST) || bool_decide (no = ENOTEMPTY)
  | _ => false
  end.

(** * The effect monad

    A Go function of type [(T, error)] over a mutable state [S] is a state transformer that
    ends in one of five ways.  [Panic] is a run-time panic, [Fatal] is [glog.Fatal] (the process
    exits without running deferred calls) and [OutOfFuel] means that a loop did not end within
    the fuel of the model. *)
Inductive outcome (A : Type) : Type :=
  | Ret (a : A)
  | Err (e : error)
  | Panic (msg : string)
  | Fatal (msg : string)
  | OutOfFuel.
Arguments Ret {A} a.
Arguments Err {A} e.
Arguments Panic {A} msg.
Arguments Fatal {A} msg.
Arguments OutOfFuel {A}.

#[export] Instance outcome_eq_dec `{EqDecision A} : EqDecision (outcome A).
Proof. solve_decision. Defined.

Definition GoM (S A : Type) : Type := S → outcome A * S.

Section monad.
Context {S : Type}.

(** [if err != nil { return err }] and ordinary sequencing. *)
Definition go_bind {A B} (f : A → GoM S B) (m : GoM S A) : GoM S B := λ s,
  match m s with
  | (Ret a, s') => f a s'
  | (Err e, s') => (Err e, s')
  | (Panic p, s') => (Panic p, s')
  | (Fatal p, s') => (Fatal p, s')
  | (OutOfFuel, s') => (OutOfFuel, s')
  end.

Definition go_ret {A} (a : A) : GoM S A := λ s, (Ret a, s).
Definition go_err {A} (e : error) : GoM S A := λ s, (Err e, s).
Definition go_panic {A} (p : string) : GoM S A := λ s, (Panic p, s).
Definition go_fatal {A} (p : string) : GoM S A := λ s, (Fatal p, s).
Definition go_diverge {A} : GoM S A := λ s, (OutOfFuel, s).

(** [v, err := m] followed by code that looks at [err] itself. *)
Definition go_try {A} (m : GoM S A) : GoM S (error + A) := λ s,
  match m s with
  | (Ret a, s') => (Ret (inr a), s')
  | (Err e, s') => (Ret (inl e), s')
  | (Panic p, s') => (Panic p, s')
  | (Fatal p, s') => (Fatal p, s')
  | (OutOfFuel, s') => (OutOfFuel, s')
  end.

(** [if err != nil { return fmt.Errorf(...) }]: another error in its place. *)
Definition go_wrap {A} (f : error → error) (m : GoM S A) : GoM S A := λ s,
  match m s with (Err e, s') => (Err (f e), s') | r => r end.

(** [defer d] registered before [m] runs: [d] runs when [m] returns or panics, its own
    error is dropped, and [m]'s outcome stands. *)
Definition go_defer {A B} (d : GoM S B) (m : GoM S A) : GoM S A := λ s,
  match m s with
  | (Fatal p, s') => (Fatal p, s')
  | (OutOfFuel, s') => (OutOfFuel, s')
  | (o, s') =>
      match d s' with
      | (Panic p, s'') => (Panic p, s'')
      | (Fatal p, s'') => (Fatal p, s'')
      | (OutOfFuel, s'') => (OutOfFuel, s'')
      | (_, s'') => (o, s'')
      end
  end.

(** Call for the effect only: the returned error is ignored. *)
Definition go_ignore {A} (m : GoM S A) : GoM S () :=
  go_bind (λ _, go_ret ()) (go_try m).

Definition go_get : GoM S S := λ s, (Ret s, s).
Definition go_put (s : S) : GoM S () := λ _, (Ret (), s).
Definition go_modify (f : S → S) : GoM S () := λ s, (Ret (), f s).

(** A computation that cannot touch the state, given by its outcome. *)
Definition go_lift {A} (o : outcome A) : GoM S A := λ s, (o, s).

Definition go_of_sum {A} (r : error + A) : GoM S A :=
  match r with inl e => go_err e | inr a => go_ret a end.
End monad.

(** [for _, x := range l { f(x) }]. *)
Fixpoint go_for {S A} (l : list A) (f : A → GoM S ()) : GoM S () :=
  match l with
  | [] => go_ret ()
  | x :: l' => go_bind (λ _, go_for l' f) (f x)
  end.

#[export] Instance go_mbind S : MBind (GoM S) := λ A B f m, go_bind f m.
#[export] Instance go_mret S : MRet (GoM S) := λ A a, go_ret a.

(** A computation on one component of a larger state. *)
Definition go_zoom {S W A} (get : W → S) (set : S → W → W) (m : GoM S A) : GoM W A := λ w,
  let '(o, s') := m (get w) in (o, set s' w).

(** Pure outcomes form a monad too: the helpers that only compute live in it. *)
#[export] Instance outcome_mbind : MBind outcome := λ A B f o,
  match o with
  | Ret a => f a
  | Err e => Err e
  | Panic p => Panic p
  | Fatal p => Fatal p
  | OutOfFuel => OutOfFuel
  end.
#[export] Instance outcome_mret : MRet outcome := λ A a, Ret a.

(** * Reasoning about computations *)

Section laws.
Context {S : Type}.

Lemma go_bind_ret {A B} (a : A) (f : A → GoM S B) s : go_bind f (go_ret a) s = f a s.
Proof. done. Qed.

Lemma go_ret_bind {A} (m : GoM S A) s : go_bind go_ret m s = m s.
Proof. unfold go_bind, go_ret. by destruct (m s) as [[] ?]. Qed.

Lemma go_bind_assoc {A B C} (m : GoM S A) (f : A → GoM S B) (g : B → GoM S C) s :
  go_bind g (go_bind f m) s = go_bind (λ a, go_bind g (f a)) m s.
Proof. unfold go_bind. by destruct (m s) as [[] ?]. Qed.

Lemma go_bind_eq {A B} (m : GoM S A) (f : A → GoM S B) s o s' :
  m s = (o, s') →
  go_bind f m s = match o with
                  | Ret a => f a s' | Err e => (Err e, s') | Panic p => (Panic p, s')
                  | Fatal p => (Fatal p, s') | OutOfFuel => (OutOfFuel, s')
                  end.
Proof. unfold go_bind. by intros ->. Qed.
End laws.

(** ** Frames: what a computation may do to the state, whatever its outcome.

    [framed R m] says that the states before and after [m] are related by [R]; with [R] a
    preorder it is closed under every combinator, so that a frame of a whole handler follows
    from those of the primitive steps. *)
Definition framed {S A} (R : relation S) (m : GoM S A) : Prop := ∀ s, R s (m s).2.

Section framed.
Context {S : Type} (R : relation S) `{!PreOrder R}.

Lemma framed_const {A} (o : outcome A) : framed R (λ s, (o, s)).
Proof. intros s; simpl; reflexivity. Qed.

Lemma framed_bind {A B} (f : A → GoM S B) (m : GoM S A) :
  framed R m → (∀ a, framed R (f a)) → framed R (go_bind f m).
Proof.
  intros Hm Hf s. unfold go_bind. specialize (Hm s).
  destruct (m s) as [[a| | | |] s']; simpl in *; auto.
  etrans; [exact Hm | apply Hf].
Qed.

Lemma framed_try {A} (m : GoM S A) : framed R m → framed R (go_try m).
Proof. intros Hm s. unfold go_try. specialize (Hm s). by destruct (m s) as [[] ?]. Qed.

Lemma framed_wrap {A} f (m : GoM S A) : framed R m → framed R (go_wrap f m).
Proof. intros Hm s. unfold go_wrap. specialize (Hm s). by destruct (m s) as [[] ?]. Qed.

Lemma framed_defer {A B} (d : GoM S B) (m : GoM S A) :
  framed R m → framed R d → framed R (go_defer d m).
Proof.
  intros Hm Hd s. unfold go_defer. specialize (Hm s).
  destruct (m s) as [o s']; simpl in *. specialize (Hd s').
  destruct o; simpl; auto; destruct (d s') as [[] ?]; simpl in *; by etrans.
Qed.

Lemma framed_ignore {A} (m : GoM S A) : framed R m → framed R (go_ignore m).
Proof.
  intros Hm. unfold go_ignore. apply framed_bind; [by apply framed_try|].
  intros ?. apply framed_const.
Qed.

Lemma framed_of_sum {A} (r : error + A) : framed R (go_of_sum r).
Proof. destruct r; apply framed_const. Qed.

Lemma framed_for {A} (l : list A) (f : A → GoM S ()) :
  (∀ x, framed R (f x)) → framed R (go_for l f).
Proof.
  intros Hf. induction l as [|x l IH]; simpl; [apply framed_const|].
  by apply framed_bind.
Qed.

Lemma framed_modify (f : S → S) : (∀ s, R s (f s)) → framed R (go_modify f).
Proof. intros Hf s. apply Hf. Qed.
End framed.

Lemma framed_zoom {S W A} (R : relation W) (RS : relation S) (get : W → S) (set : S → W → W)
    (m : GoM S A) :
  framed RS m → (∀ w s', RS (get w) s' → R w (set s' w)) → framed R (go_zoom get set m).
Proof.
  intros Hm Hset w. unfold go_zoom. specialize (Hm (get w)).
  destruct (m (get w)) as [o s']; simpl in *. by apply Hset.
Qed.

(** ** Invariants: [keeps I m] says that [m] preserves [I] whatever its outcome. *)
Definition keeps {S A} (I : S → Prop) (m : GoM S A) : Prop := framed (λ s s', I s → I s') m.

#[export] Instance impl_preorder {S} (I : S → Prop) : PreOrder (λ s s', I s → I s').
Proof. split; [by intros ? | intros ??? ??; auto]. Qed.

(** ** Totality: [halts I W m] says that from a state with [I] the computation ends within its
    fuel, unless it stops in a state with [W], and in a state with [I]. *)
Definition halts {S A} (I W : S → Prop) (m : GoM S A) : Prop :=
  ∀ s, I s → ((m s).1 = OutOfFuel → W (m s).2) ∧ I (m s).2.

Section halts.
Context {S : Type} (I W : S → Prop).

Lemma halts_const {A} (o : outcome A) : o ≠ OutOfFuel → halts I W (λ s, (o, s)).
Proof. by intros Ho s Hs. Qed.

Lemma halts_bind {A B} (f : A → GoM S B) (m : GoM S A) :
  halts I W m → (∀ a, halts I W (f a)) → halts I W (go_bind f m).
Proof.
  intros Hm Hf s Hs. unfold go_bind. specialize (Hm s Hs).
  destruct (m s) as [[a| | | |] s']; simpl in *; destruct Hm as [Ho Hs']; try (by split; auto).
  by apply Hf.
Qed.

(** With a fact about the result, for the continuation. *)
Lemma halts_bind_post {A B} (Q : A → Prop) (f : A → GoM S B) (m : GoM S A) :
  halts I W m → (∀ s a, I s → (m s).1 = Ret a → Q a) → (∀ a, Q a → halts I W (f a)) →
  halts I W (go_bind f m).
Proof.
  intros Hm HQ Hf s Hs. unfold go_bind. specialize (Hm s Hs). specialize (HQ s).
  destruct (m s) as [[a| | | |] s']; simpl in *; destruct Hm as [Ho Hs']; try (by split; auto).
  apply Hf; [by apply HQ|done].
Qed.

Lemma halts_try {A} (m : GoM S A) : halts I W m → halts I W (go_try m).
Proof.
  intros Hm s Hs. unfold go_try. specialize (Hm s Hs). destruct (m s) as [[] ?]; simpl in *;
    destruct Hm; by split; auto.
Qed.

Lemma halts_wrap {A} f (m : GoM S A) : halts I W m → halts I W (go_wrap f m).
Proof.
  intros Hm s Hs. unfold go_wrap. specialize (Hm s Hs). destruct (m s) as [[] ?]; simpl in *;
    destruct Hm; by split; auto.
Qed.

Lemma halts_ignore {A} (m : GoM S A) : halts I W m → halts I W (go_ignore m).
Proof. intros Hm. apply halts_bind; [by apply halts_try|]. intros a. by apply halts_const. Qed.

Lemma halts_defer {A B} (d : GoM S B) (m : GoM S A) :
  halts I W m → halts I W d → halts I W (go_defer d m).
Proof.
  intros Hm Hd s Hs. unfold go_defer. specialize (Hm s Hs).
  destruct (m s) as [o s'] eqn:E; simpl in *. destruct Hm as [Ho Hs'].
  specialize (Hd s' Hs'). destruct o; simpl; try (by split; auto); destruct (d s') as [[] ?]; simpl in *;
    destruct Hd; by split; auto.
Qed.

Lemma halts_for {A} (l : list A) (f : A → GoM S ()) :
  (∀ x, halts I W (f x)) → halts I W (go_for l f).
Proof. intros Hf. induction l as [|x l IH]; simpl; [by apply halts_const|by apply halts_bind]. Qed.

(** What holds of a computation whose result is dropped holds of the computation. *)
Lemma halts_dropped {A} (m : GoM S A) : halts I W (_ ← m; mret ()) → halts I W m.
Proof.
  intros Hm s Hs. specialize (Hm s Hs). unfold mbind, go_mbind, go_bind in Hm.
  destruct (m s) as [[] ?]; simpl in *; destruct Hm; by split; auto.
Qed.

Lemma halts_get {B} (f : S → GoM S B) : (∀ a, halts I W (f a)) → halts I W (go_bind f go_get).
Proof. intros Hf s Hs. by apply Hf. Qed.
End halts.

Lemma halts_zoom {S T A} (I W : T → Prop) (J V : S → Prop) (get : T → S) (set : S → T → T)
    (m : GoM S A) :
  halts J V m → (∀ w, I w → J (get w)) → (∀ w s', I w → J s' → I (set s' w)) →
  (∀ w s', V s' → W (set s' w)) → halts I W (go_zoom get set m).
Proof.
  intros Hm Hget Hset HV w Hw. unfold go_zoom. specialize (Hm (get w) (Hget w Hw)).
  destruct (m (get w)) as [o s']; simpl in *. destruct Hm. auto.
Qed.

(** ** Postconditions: one for a result, one for an error and one for the other outcomes. *)
Definition post {S A} (Q : A → S → Prop) (E : error → S → Prop) (F : S → Prop)
    (r : outcome A * S) : Prop :=
  match r with (Ret a, s) => Q a s | (Err e, s) => E e s | (_, s) => F s end.

Section post.
Context {S : Type}.

Lemma post_weaken {A} (Q Q' : A → S → Prop) E E' (F F' : S → Prop) r :
  post Q E F r → (∀ a s, Q a s → Q' a s) → (∀ e s, E e s → E' e s) → (∀ s, F s → F' s) →
  post Q' E' F' r.
Proof. destruct r as [[] s]; simpl; auto. Qed.

Lemma post_bind {A B} (Q : B → S → Prop) E F (f : A → GoM S B) (m : GoM S A) s :
  post (λ a s', post Q E F (f a s')) E F (m s) → post Q E F (go_bind f m s).
Proof. unfold go_bind. by destruct (m s) as [[] s']. Qed.

Lemma post_try {A} (Q : error + A → S → Prop) E F (m : GoM S A) s :
  post (λ a, Q (inr a)) (λ e, Q (inl e)) F (m s) → post Q E F (go_try m s).
Proof. unfold go_try. by destruct (m s) as [[] s']. Qed.

Lemma post_ignore {A} (Q : () → S → Prop) E F (m : GoM S A) s :
  post (λ _, Q tt) (λ _, Q tt) F (m s) → post Q E F (go_ignore m s).
Proof. unfold go_ignore, go_bind, go_try. by destruct (m s) as [[] s']. Qed.

(** The deferred call, run from any state the body can leave. *)
Lemma post_defer {A B} (Q Q' : A → S → Prop) E E' F F' (d : GoM S B) (m : GoM S A) s :
  post Q E F (m s) →
  (∀ a s', Q a s' → post (λ _, Q' a) (λ _, Q' a) F' (d s')) →
  (∀ e s', E e s' → post (λ _, E' e) (λ _, E' e) F' (d s')) →
  (∀ s', F s' → post (λ _, F') (λ _, F') F' (d s')) → (∀ s', F s' → F' s') →
  post Q' E' F' (go_defer d m s).
Proof.
  intros Hm HQ HE HF HFF. unfold go_defer.
  destruct (m s) as [[a|e| | |] s']; simpl in *; [apply HQ in Hm|apply HE in Hm|apply HF in Hm|..];
    try by auto.
  all: by destruct (d s') as [[] ?].
Qed.

Lemma post_frame {A} (R : relation S) (m : GoM S A) s :
  post (λ _, R s) (λ _, R s) (R s) (m s) ↔ R s (m s).2.
Proof. unfold post. by destruct (m s) as [[] s']. Qed.
End post.

Lemma post_zoom {S W A} (get : W → S) (set : S → W → W) (Q : A → W → Prop) E F (m : GoM S A) w :
  post (λ a s, Q a (set s w)) (λ e s, E e (set s w)) (λ s, F (set s w)) (m (get w)) →
  post Q E F (go_zoom get set m w).
Proof. unfold go_zoom. by destruct (m (get w)) as [[] s']. Qed.

Create HintDb go.
#[export] Hint Resolve halts_wrap framed_wrap halts_try halts_ignore halts_defer halts_for : go.
#[export] Hint Resolve framed_const framed_try framed_defer framed_ignore framed_of_sum
  framed_for framed_modify : go.

(** Decomposes a [framed] goal along the structure of the computation. *)
Ltac framed_step :=
  match goal with
  | |- framed _ (mbind _ _) => apply framed_bind; [try apply _| |intros ?]
  | |- framed _ (go_bind _ _) => apply framed_bind; [try apply _| |intros ?]
  | |- framed _ (mret _) => apply framed_const; try apply _
  | |- framed _ (go_ret _) => apply framed_const; try apply _
  | |- framed _ (go_err _) => apply framed_const; try apply _
  | |- framed _ (go_panic _) => apply framed_const; try apply _
  | |- framed _ (go_fatal _) => apply framed_const; try apply _
  | |- framed _ go_diverge => apply framed_const; try apply _
  | |- framed _ (go_lift _) => apply framed_const; try apply _
  | |- framed _ go_get => apply framed_const; try apply _
  | |- framed _ (go_of_sum _) => apply framed_of_sum; try apply _
  | |- framed _ (go_try _) => apply framed_try; [try apply _..|]
  | |- framed _ (go_wrap _ _) => apply framed_wrap; [try apply _..|]
  | |- framed _ (go_ignore _) => apply framed_ignore; [try apply _..|]
  | |- framed _ (go_defer _ _) => apply framed_defer; [try apply _..| |]
  | |- framed _ (let '_ := ?x in _) => destruct x
  | |- framed _ (match ?x with _ => _ end) => destruct x
  end.
Ltac framed_solve := repeat (first [solve [eauto with go] | framed_step]).

(** The same for [halts]. *)
Ltac halts_step :=
  match goal with
  | |- halts _ _ (mbind _ _) => apply halts_bind; [|intros ?]
  | |- halts _ _ (go_bind _ _) => apply halts_bind; [|intros ?]
  | |- halts _ _ (mret _) => by apply halts_const
  | |- halts _ _ (go_ret _) => by apply halts_const
  | |- halts _ _ (go_err _) => by apply halts_const
  | |- halts _ _ (go_panic _) => by apply halts_const
  | |- halts _ _ (go_fatal _) => by apply halts_const
  | |- halts _ _ (go_lift _) => apply halts_const
  | |- halts _ _ (go_try _) => apply halts_try
  | |- halts _ _ (go_wrap _ _) => apply halts_wrap
  | |- halts _ _ (go_ignore _) => apply halts_ignore
  | |- halts _ _ (go_defer _ _) => apply halts_defer
  | |- halts _ _ (let '_ := ?x in _) => destruct x
  | |- halts _ _ (match ?x with _ => _ end) => destruct x
  | |- (match ?x with _ => _ end) ≠ OutOfFuel => destruct x
  | |- _ ≠ OutOfFuel => discriminate
  end.
Ltac halts_solve := repeat (first [solve [eauto with go] | halts_step]).

(** Destructs the scrutinee the goal (or a hypothesis) is stuck on. *)
Ltac go_case :=
  match goal with
  | |- context [match ?x with _ => _ end] =>
      lazymatch x with context [match _ with _ => _ end] => fail | _ => destruct x eqn:? end
  end.

(** * Machine integers *)

Definition two64 : Z := 2 ^ 64.
Definition MaxUint64 : Z := two64 - 1.
Definition MaxInt64 : Z := 2 ^ 63 - 1.

(** [uint64(x)] and the result of unsigned 64-bit arithmetic. *)
Definition uint64 (z : Z) : Z := z mod two64.
(** [int64(x)] and the result of signed 64-bit arithmetic. *)
Definition int64 (z : Z) : Z := (z + 2 ^ 63) mod two64 - 2 ^ 63.
(** [uint32(x)], the representation of [os.FileMode]. *)
Definition uint32 (z : Z) : Z := z mod 2 ^ 32.

Definition is_uint64 (z : Z) : Prop := 0 ≤ z < two64.
Definition is_int64 (z : Z) : Prop := - 2 ^ 63 ≤ z < 2 ^ 63.
Definition is_uint32 (z : Z) : Prop := 0 ≤ z < 2 ^ 32.

Lemma uint64_range z : is_uint64 (uint64 z).
Proof. unfold is_uint64, uint64, two64. apply Z.mod_pos_bound. lia. Qed.

Lemma uint64_small z : is_uint64 z → uint64 z = z.
Proof. apply Z.mod_small. Qed.

Lemma int64_range z : is_int64 (int64 z).
Proof.
  unfold is_int64, int64, two64. pose proof (Z.mod_pos_bound (z + 2 ^ 63) (2 ^ 64)). lia.
Qed.

Lemma int64_small z : is_int64 z → int64 z = z.
Proof. unfold is_int64, int64, two64. intros ?. rewrite Z.mod_small; lia. Qed.

Lemma uint32_small z : is_uint32 z → uint32 z = z.
Proof. apply Z.mod_small. Qed.

Lemma uint64_add_assoc a b c : uint64 (uint64 (a + b) + c) = uint64 (a + (b + c)).
Proof. unfold uint64. rewrite Zplus_mod_idemp_l. f_equal. lia. Qed.

#[export] Hint Resolve uint64_range int64_range : go.

(** * Byte strings

    A Go string is a sequence of bytes, like [String.string]. *)

Fixpoint has_char (c : ascii) (s : string) : bool :=
  match s with
  | EmptyString => false
  | String d s' => bool_decide (c = d) || has_char c s'
  end.

Lemma has_char_app c s1 s2 : has_char c (s1 +:+ s2) = has_char c s1 || has_char c s2.
Proof. induction s1 as [|d s1 IH]; simpl; [done|]. rewrite IH. by destruct (bool_decide _). Qed.

Lemma string_app_nil_r s : s +:+ "" = s.
Proof. induction s as [|c s IH]; [done|]. change (String c (s +:+ "") = String c s). by rewrite IH. Qed.

Lemma string_app_assoc (s1 s2 s3 : string) : (s1 +:+ s2) +:+ s3 = s1 +:+ (s2 +:+ s3).
Proof.
  induction s1 as [|c s1 IH]; [done|].
  change (String c ((s1 +:+ s2) +:+ s3) = String c (s1 +:+ (s2 +:+ s3))). by rewrite IH.
Qed.
