(* ===== verification/GoStrings.v ===== *)
(** The parts of Go's [strings] and [strconv] that the program uses: [strings.Split] and
    [strings.Join] with a one-byte separator, the decimal [%d] of an unsigned 64-bit integer and
    [strconv.ParseUint(s, 10, 64)], with the round trips that the directory-entry format of the
    metadata cache rests on. *)
From S2P Require Import Prelude.

(** * strings.Split and strings.Join *)

(** [strings.Split(s, sep)]: always at least one piece. *)
Fixpoint Split (sep : ascii) (s : string) : list string :=
  match s with
  | EmptyString => [EmptyString]
  | String c s' =>
      if bool_decide (c = sep) then EmptyString :: Split sep s'
      else match Split sep s' with
           | [] => [String c EmptyString]
           | p :: ps => String c p :: ps
           end
  end.

(** [strings.Join(elems, sep)]. *)
Fixpoint StrJoin (sep : string) (l : list string) : string :=
  match l with
  | [] => EmptyString
  | [s] => s
  | s :: l' => s +:+ sep +:+ StrJoin sep l'
  end.

Lemma Split_nonempty sep s : Split sep s ≠ [].
Proof. destruct s as [|c s]; simpl; [done|]. case_bool_decide; [done|]. by destruct (Split sep s). Qed.

Lemma Split_no_sep sep s : has_char sep s = false → Split sep s = [s].
Proof.
  induction s as [|c s IH]; simpl; [done|].
  intros [Hc Hs]%orb_false_elim. apply bool_decide_eq_false in Hc.
  rewrite bool_decide_eq_false_2 by congruence. by rewrite IH.
Qed.

Lemma Split_app sep s1 s2 :
  has_char sep s1 = false → Split sep (s1 +:+ String sep s2) = s1 :: Split sep s2.
Proof.
  induction s1 as [|c s1 IH]; simpl; intros H.
  - by rewrite bool_decide_eq_true_2.
  - apply orb_false_elim in H as [Hc Hs]. apply bool_decide_eq_false in Hc.
    rewrite bool_decide_eq_false_2 by congruence. by rewrite IH.
Qed.

(** [Split] undoes [Join] when no piece contains the separator. *)
Lemma Split_StrJoin sep l :
  l ≠ [] → Forall (λ s, has_char sep s = false) l → Split sep (StrJoin (String sep "") l) = l.
Proof.
  induction l as [|s l IH]; [done|]. intros _ [Hs Hl]%Forall_cons.
  destruct l as [|s2 l]; [by apply Split_no_sep|].
  change (StrJoin (String sep "") (s :: s2 :: l))
    with (s +:+ String sep (StrJoin (String sep "") (s2 :: l))).
  rewrite Split_app by done. by rewrite IH.
Qed.

(** [Join] undoes [Split]. *)
Lemma StrJoin_Split sep s : StrJoin (String sep "") (Split sep s) = s.
Proof.
  induction s as [|c s IH]; simpl; [done|]. case_bool_decide as Hc.
  - subst c. pose proof (Split_nonempty sep s). by destruct (Split sep s) eqn:E; [|simpl in *; rewrite IH].
  - pose proof (Split_nonempty sep s). destruct (Split sep s) as [|p [|q ps]] eqn:E; [done|..];
      simpl in *; by rewrite <- IH.
Qed.

Lemma StrJoin_empty sep l : StrJoin sep l = "" → l = [] ∨ ∃ l', l = "" :: l'.
Proof. destruct l as [|[|c s] [|s2 l]]; simpl; eauto; discriminate. Qed.

Lemma has_char_StrJoin c sep l :
  has_char c (StrJoin sep l) = true → has_char c sep = true ∨ Exists (λ s, has_char c s = true) l.
Proof.
  induction l as [|s [|s2 l] IH]; [done|simpl; auto|].
  change (StrJoin sep (s :: s2 :: l)) with (s +:+ sep +:+ StrJoin sep (s2 :: l)).
  rewrite !has_char_app. intros [H|[H|H]%orb_true_elim]%orb_true_elim; auto.
  destruct (IH H); auto.
Qed.

(** * strconv: unsigned decimals *)

Definition digit_char (d : Z) : ascii := ascii_of_N (Z.to_N (48 + d)).

(** The value of a decimal digit; [None] for any other byte. *)
Definition char_digit (c : ascii) : option Z :=
  let n := Z.of_N (N_of_ascii c) in
  if (48 <=? n) && (n <=? 57) then Some (n - 48) else None.

(** [formatBits] for base 10: digits are produced from the least significant one. *)
Fixpoint format_loop (fuel : nat) (u : Z) (acc : string) : string :=
  match fuel with
  | O => acc
  | S fuel =>
      let acc' := String (digit_char (u mod 10)) acc in
      if u <? 10 then acc' else format_loop fuel (u / 10) acc'
  end.

(** [fmt.Sprintf("%d", u)] for a [uint64]; 20 digits are enough below 2^64. *)
Definition FormatUint (u : Z) : string := format_loop 20 u "".

(** [strconv.ParseUint(s, 10, 64)] with its two overflow guards. *)
Definition parse_cutoff : Z := MaxUint64 / 10 + 1.

Fixpoint parse_loop (s0 s : string) (n : Z) : outcome Z :=
  match s with
  | EmptyString => Ret n
  | String c s' =>
      match char_digit c with
      | None => Err (ENum s0 false)
      | Some d =>
          if parse_cutoff <=? n then Err (ENum s0 true)
          else
            let n0 := uint64 (n * 10) in
            let n1 := uint64 (n0 + d) in
            if (n1 <? n0) || (MaxUint64 <? n1) then Err (ENum s0 true)
            else parse_loop s0 s' n1
      end
  end.

Definition ParseUint (s : string) : outcome Z :=
  match s with
  | EmptyString => Err (ENum s false)
  | _ => parse_loop s s 0
  end.

Lemma char_digit_digit_char d : 0 ≤ d < 10 → char_digit (digit_char d) = Some d.
Proof.
  intros Hd. unfold char_digit, digit_char.
  rewrite N_ascii_embedding by lia. rewrite Z2N.id by lia.
  replace (48 <=? 48 + d) with true by lia. replace (48 + d <=? 57) with true by lia.
  simpl. f_equal. lia.
Qed.

Lemma char_digit_range c d : char_digit c = Some d → 0 ≤ d < 10.
Proof.
  unfold char_digit. destruct (48 <=? _) eqn:?, (_ <=? 57) eqn:?; simpl; intros; simplify_eq. lia.
Qed.

Lemma parse_step s0 c s u d :
  char_digit c = Some d → 0 ≤ u → 0 ≤ u * 10 + d < two64 →
  parse_loop s0 (String c s) u = parse_loop s0 s (u * 10 + d).
Proof.
  intros Hc Hu0 Hu. pose proof (char_digit_range _ _ Hc). simpl. rewrite Hc.
  unfold parse_cutoff, MaxUint64, uint64, two64 in *.
  rewrite (Z.mod_small (u * 10)) by lia. rewrite Z.mod_small by lia.
  replace (_ <=? u) with false.
  { replace (u * 10 + d <? u * 10) with false by lia.
    by replace (2 ^ 64 - 1 <? u * 10 + d) with false by lia. }
  symmetry. apply Z.leb_gt. change ((2 ^ 64 - 1) / 10) with 1844674407370955161. lia.
Qed.

Lemma parse_format_loop s0 fuel u acc :
  0 ≤ u < 10 ^ Z.of_nat fuel → u < two64 → (0 < fuel)%nat →
  parse_loop s0 (format_loop fuel u acc) 0 = parse_loop s0 acc u.
Proof.
  revert u acc. induction fuel as [|fuel IH]; intros u acc Hu Hu64 Hf; [lia|].
  simpl. pose proof (Z.mod_pos_bound u 10). pose proof (Z.div_mod u 10).
  destruct (u <? 10) eqn:Hlt.
  - apply Z.ltb_lt in Hlt. rewrite Z.mod_small by lia.
    rewrite (parse_step _ _ _ 0 u); [done|apply char_digit_digit_char; lia|lia|lia].
  - apply Z.ltb_ge in Hlt.
    assert (0 ≤ u / 10 < 10 ^ Z.of_nat fuel).
    { rewrite Nat2Z.inj_succ, Z.pow_succ_r in Hu by lia.
      split; [apply Z.div_pos; lia|]. apply Z.div_lt_upper_bound; lia. }
    rewrite IH; [|done|lia|].
    + rewrite (parse_step _ _ _ _ (u mod 10)); [f_equal; lia| |lia|lia].
      apply char_digit_digit_char. lia.
    + destruct fuel; [|lia]. simpl in *. lia.
Qed.

Lemma format_loop_nonempty fuel u acc : (0 < fuel)%nat → format_loop fuel u acc ≠ "".
Proof.
  revert u acc. induction fuel as [|fuel IH]; intros u acc; [lia|]. intros _. simpl.
  destruct (u <? 10); [done|]. destruct fuel; [done|]. apply IH. lia.
Qed.

(** Round trip of an inode number through its decimal text. *)
Lemma ParseUint_FormatUint u : is_uint64 u → ParseUint (FormatUint u) = Ret u.
Proof.
  intros Hu. unfold ParseUint.
  destruct (FormatUint u) as [|c s] eqn:E.
  { exfalso. revert E. apply format_loop_nonempty. lia. }
  rewrite <- E at 2. unfold FormatUint, is_uint64, two64 in *.
  rewrite (parse_format_loop _ 20 u ""); [done|simpl; lia|unfold two64; lia|lia].
Qed.

Lemma FormatUint_inj u v : is_uint64 u → is_uint64 v → FormatUint u = FormatUint v → u = v.
Proof.
  intros Hu Hv H. apply (f_equal ParseUint) in H.
  rewrite !ParseUint_FormatUint in H by done. congruence.
Qed.

(** A decimal contains digits only. *)
Lemma has_char_format_loop c fuel u acc :
  char_digit c = None → has_char c acc = false → has_char c (format_loop fuel u acc) = false.
Proof.
  intros Hc. revert u acc. induction fuel as [|fuel IH]; intros u acc Hacc; simpl; [done|].
  assert (bool_decide (c = digit_char (u mod 10)) = false) as Hd.
  { apply bool_decide_eq_false_2. intros ->.
    rewrite char_digit_digit_char in Hc; [done|]. apply Z.mod_pos_bound. lia. }
  destruct (u <? 10); [|apply IH]; simpl; by rewrite Hd, Hacc.
Qed.

Lemma has_char_FormatUint c u : char_digit c = None → has_char c (FormatUint u) = false.
Proof. intros Hc. by apply has_char_format_loop. Qed.

(** What [ParseUint] accepts is a [uint64]. *)
Lemma parse_loop_range s0 s n m : is_uint64 n → parse_loop s0 s n = Ret m → is_uint64 m.
Proof.
  revert n. induction s as [|c s IH]; simpl; intros n Hn H; [by simplify_eq|].
  repeat case_match; simplify_eq. eapply IH; [|done]. apply uint64_range.
Qed.

Lemma ParseUint_range s m : ParseUint s = Ret m → is_uint64 m.
Proof.
  unfold ParseUint. destruct s; [done|]. apply parse_loop_range. unfold is_uint64, two64. lia.
Qed.

Lemma parse_loop_ret_or_err s0 s n :
  (∃ m, parse_loop s0 s n = Ret m) ∨ (∃ e, parse_loop s0 s n = Err e).
Proof.
  revert n. induction s as [|c s IH]; intros n; simpl; [left; by eexists|].
  destruct (char_digit c); [|right; by eexists].
  destruct (parse_cutoff <=? n); [right; by eexists|].
  destruct (_ || _); [right; by eexists|]. apply IH.
Qed.

Lemma ParseUint_ret_or_err s : (∃ m, ParseUint s = Ret m) ∨ (∃ e, ParseUint s = Err e).
Proof. unfold ParseUint. destruct s; [right; by eexists|]. apply parse_loop_ret_or_err. Qed.

#[export] Hint Resolve ParseUint_FormatUint has_char_FormatUint : go.
