(* ===== verification/GoPath.v ===== *)
(** The lexical part of Go's [path/filepath] (Unix): [Clean], [Join] and [Base], and the
    rooted paths the file system names its entries with.  A clean rooted path is [abs_path cs]
    for a list of good components; joining a name to it appends a component, and distinct names
    give distinct paths. *)
From S2P Require Import Prelude GoStrings.

Definition slash : ascii := "/".

(** The component loop of [filepath.Clean]; [out] is the output, last component first. *)
Fixpoint clean_comps (rooted : bool) (cs out : list string) : list string :=
  match cs with
  | [] => rev out
  | c :: cs' =>
      if bool_decide (c = "") || bool_decide (c = ".") then clean_comps rooted cs' out
      else if bool_decide (c = "..") then
        match out with
        | top :: out' =>
            if bool_decide (top = "..") then clean_comps rooted cs' (c :: out)
            else clean_comps rooted cs' out'
        | [] => clean_comps rooted cs' (if rooted then [] else [c])
        end
      else clean_comps rooted cs' (c :: out)
  end.

Definition is_rooted (p : string) : bool :=
  match p with String c _ => bool_decide (c = slash) | EmptyString => false end.

(** [filepath.Clean]. *)
Definition Clean (p : string) : string :=
  if bool_decide (p = "") then "."
  else
    let cs := clean_comps (is_rooted p) (Split slash p) [] in
    if is_rooted p then "/" +:+ StrJoin "/" cs
    else match cs with [] => "." | _ => StrJoin "/" cs end.

(** [filepath.Join]: leading empty elements are dropped, the rest is joined and cleaned. *)
Fixpoint Join (elems : list string) : string :=
  match elems with
  | [] => ""
  | e :: rest => if bool_decide (e = "") then Join rest else Clean (StrJoin "/" (e :: rest))
  end.

(** [filepath.Base]: the last non-empty component. *)
Definition Base (p : string) : string :=
  if bool_decide (p = "") then "."
  else match last (filter (λ c, c ≠ "") (Split slash p)) with
       | Some c => c
       | None => "/"
       end.

(** * Clean rooted paths *)

(** A name that can occur as one component of a path: what the kernel sends to [Lookup] and
    what [Readdir] lists. *)
Definition good_name (n : string) : bool :=
  bool_decide (n ≠ "") && bool_decide (n ≠ ".") && bool_decide (n ≠ "..") &&
  negb (has_char slash n).

Definition abs_path (cs : list string) : string := "/" +:+ StrJoin "/" cs.

Lemma good_name_spec n :
  good_name n = true ↔ n ≠ "" ∧ n ≠ "." ∧ n ≠ ".." ∧ has_char slash n = false.
Proof.
  unfold good_name. rewrite !andb_true_iff, !bool_decide_eq_true, negb_true_iff. tauto.
Qed.

Lemma good_names_no_slash cs :
  Forall (λ n, good_name n = true) cs → Forall (λ s, has_char slash s = false) cs.
Proof. intros H. eapply Forall_impl; [done|]. intros n. rewrite good_name_spec. tauto. Qed.

Lemma clean_comps_good rooted cs out :
  Forall (λ n, good_name n = true) cs → clean_comps rooted cs out = rev out ++ cs.
Proof.
  intros Hcs. revert out. induction Hcs as [|c cs Hc Hcs IH]; intros out; simpl.
  - by rewrite app_nil_r.
  - apply good_name_spec in Hc as (?&?&?&?).
    rewrite !bool_decide_eq_false_2 by done. simpl. rewrite IH. simpl.
    by rewrite <- app_assoc.
Qed.

(** Good components move to the output. *)
Lemma clean_comps_app rooted cs es out :
  Forall (λ n, good_name n = true) cs →
  clean_comps rooted (cs ++ es) out = clean_comps rooted es (rev cs ++ out).
Proof.
  intros Hcs. revert out. induction Hcs as [|c cs Hc Hcs IH]; intros out; [done|]. simpl.
  apply good_name_spec in Hc as (?&?&?&?). rewrite !bool_decide_eq_false_2 by done. simpl.
  rewrite IH. by rewrite <- app_assoc.
Qed.

Lemma clean_comps_skip rooted cs out : clean_comps rooted ("" :: cs) out = clean_comps rooted cs out.
Proof. done. Qed.

Lemma StrJoin_snoc cs n :
  cs ≠ [] → StrJoin "/" (cs ++ [n]) = StrJoin "/" cs +:+ "/" +:+ n.
Proof.
  induction cs as [|c [|c2 cs] IH]; [done|done|]. intros _.
  change ((c :: c2 :: cs) ++ [n]) with (c :: (c2 :: cs) ++ [n]).
  change (StrJoin "/" (c :: (c2 :: cs) ++ [n]))
    with (c +:+ "/" +:+ StrJoin "/" ((c2 :: cs) ++ [n])).
  rewrite IH by done.
  change (StrJoin "/" (c :: c2 :: cs)) with (c +:+ "/" +:+ StrJoin "/" (c2 :: cs)).
  by rewrite !string_app_assoc.
Qed.

Lemma Clean_abs_path cs :
  Forall (λ n, good_name n = true) cs → Clean (abs_path cs) = abs_path cs.
Proof.
  intros Hcs. unfold Clean, abs_path. rewrite bool_decide_eq_false_2 by done.
  change (Split slash ("/" +:+ StrJoin "/" cs)) with ("" :: Split slash (StrJoin "/" cs)).
  change (is_rooted _) with true. rewrite clean_comps_skip.
  destruct cs as [|c cs]; [done|].
  rewrite (Split_StrJoin slash) by eauto using good_names_no_slash.
  by rewrite clean_comps_good.
Qed.

(** Joining a name to a clean rooted path appends one component. *)
Lemma Join_abs_path cs n :
  Forall (λ n, good_name n = true) cs → good_name n = true →
  Join [abs_path cs; n] = abs_path (cs ++ [n]).
Proof.
  intros Hcs Hn. unfold Join. rewrite bool_decide_eq_false_2 by done.
  change (StrJoin "/" [abs_path cs; n]) with (abs_path cs +:+ "/" +:+ n).
  destruct cs as [|c cs].
  - unfold abs_path, Clean. rewrite bool_decide_eq_false_2 by done.
    change (Split slash _) with ("" :: "" :: Split slash n).
    change (is_rooted _) with true. rewrite !clean_comps_skip.
    pose proof Hn as (?&?&?&?)%good_name_spec.
    rewrite Split_no_sep by done. by rewrite (clean_comps_good true [n] []); [|constructor].
  - rewrite <- (Clean_abs_path ((c :: cs) ++ [n])); [|by apply Forall_app; auto].
    unfold abs_path. rewrite StrJoin_snoc by done. by rewrite !string_app_assoc.
Qed.

Lemma abs_path_inj cs1 cs2 :
  Forall (λ n, good_name n = true) cs1 → Forall (λ n, good_name n = true) cs2 →
  abs_path cs1 = abs_path cs2 → cs1 = cs2.
Proof.
  intros H1 H2 [= Heq].
  assert (∀ cs, Forall (λ n, good_name n = true) cs → cs ≠ [] →
                Split slash (StrJoin "/" cs) = cs) as Hsplit.
  { intros cs Hcs Hne. apply Split_StrJoin; eauto using good_names_no_slash. }
  assert (∀ cs, Forall (λ n, good_name n = true) cs → StrJoin "/" cs = "" → cs = []) as Hnil.
  { intros cs Hcs [->|[l' ->]]%StrJoin_empty; [done|].
    apply Forall_cons in Hcs as [Hg _]. by apply good_name_spec in Hg as [? _]. }
  destruct cs1 as [|c1 cs1]; [symmetry; by apply Hnil|].
  destruct cs2 as [|c2 cs2]; [by apply Hnil|].
  change (StrJoin "/" (c1 :: cs1) = StrJoin "/" (c2 :: cs2)) in Heq.
  rewrite <- (Hsplit (c1 :: cs1)), <- (Hsplit (c2 :: cs2)) by done. by rewrite Heq.
Qed.

(** Distinct names below one directory have distinct paths. *)
Lemma Join_abs_path_inj cs n1 n2 :
  Forall (λ n, good_name n = true) cs → good_name n1 = true → good_name n2 = true →
  Join [abs_path cs; n1] = Join [abs_path cs; n2] → n1 = n2.
Proof.
  intros Hcs H1 H2. rewrite !Join_abs_path by done. intros H%abs_path_inj.
  - by apply app_inj_tail in H as [_ ?].
  - by apply Forall_app; auto.
  - by apply Forall_app; auto.
Qed.

(** No child has the path of its directory. *)
Lemma Join_abs_path_ne cs n :
  Forall (λ n, good_name n = true) cs → good_name n = true → Join [abs_path cs; n] ≠ abs_path cs.
Proof.
  intros Hcs Hn. rewrite Join_abs_path by done. intros Heq%abs_path_inj; [|by apply Forall_app; auto|done].
  apply (f_equal length) in Heq. rewrite length_app in Heq. simpl in Heq. lia.
Qed.

Lemma abs_path_rooted cs : is_rooted (abs_path cs) = true.
Proof. done. Qed.

(** The last component of a joined path is the name again. *)
Lemma Base_abs_path cs n :
  Forall (λ n, good_name n = true) cs → good_name n = true → Base (abs_path (cs ++ [n])) = n.
Proof.
  intros Hcs Hn. unfold Base, abs_path. rewrite bool_decide_eq_false_2 by done.
  change (Split slash ("/" +:+ StrJoin "/" (cs ++ [n])))
    with ("" :: Split slash (StrJoin "/" (cs ++ [n]))).
  rewrite (Split_StrJoin slash); [|by destruct cs|].
  - rewrite filter_cons_False by naive_solver. rewrite filter_app, filter_cons_True.
    + by rewrite filter_nil, last_snoc.
    + by apply good_name_spec in Hn as [? _].
  - apply good_names_no_slash, Forall_app; auto.
Qed.

Example Clean_ex1 : Clean "a//b/../c/." = "a/c". Proof. reflexivity. Qed.
Example Clean_ex2 : Clean "/../x/" = "/x". Proof. reflexivity. Qed.
Example Clean_ex3 : Clean "../../x" = "../../x". Proof. reflexivity. Qed.
Example Join_ex1 : Join ["/"; "/"] = "/". Proof. reflexivity. Qed.
Example Join_ex2 : Join [""; "tmp"; "metadata.db"] = "tmp/metadata.db". Proof. reflexivity. Qed.
Example Base_ex1 : Base "../this/is/a/dir" = "dir". Proof. reflexivity. Qed.
Example Base_ex2 : Base "/" = "/". Proof. reflexivity. Qed.
