(* ===== verification/Stats.v ===== *)
(** The statistics of the file system: internal/stats/stats.go.

    [Stats] holds three Go maps of counters.  Each [Account*] method is one atomic 64-bit
    addition, so concurrent handlers interleave at the granularity of these operations: the
    model runs a list of [stat_event]s, and [account_all_perm] shows that the order of the
    events does not matter. *)
From S2P Require Import Prelude.

(** * Data *)

(** Go's [type OsOp int] with its iota constants. *)
Abbreviation OsOp := Z (only parsing).
Definition CloseOsOp : OsOp := 0.
Definition LstatOsOp : OsOp := 1.
Definition MkdirOsOp : OsOp := 2.
Definition OpenOsOp : OsOp := 3.
Definition ReadOsOp : OsOp := 4.
Definition ReaddirOsOp : OsOp := 5.
Definition ReadlinkOsOp : OsOp := 6.
Definition RemoveOsOp : OsOp := 7.
Definition RenameOsOp : OsOp := 8.

Definition allOsOps : list OsOp :=
  [CloseOsOp; LstatOsOp; MkdirOsOp; OpenOsOp; ReadOsOp; ReaddirOsOp; ReadlinkOsOp;
   RemoveOsOp; RenameOsOp].

Abbreviation OpDomain := Z (only parsing).
Definition LocalDomain : OpDomain := 0.
Definition RemoteDomain : OpDomain := 1.
Definition allDomains : list OpDomain := [LocalDomain; RemoteDomain].

Record PerOsOpStats : Type := { LocalCount : Z; RemoteCount : Z }.

Abbreviation FuseOp := Z (only parsing).
Definition AttrFuseOp : FuseOp := 0.
Definition LookupFuseOp : FuseOp := 1.
Definition OpenFuseOp : FuseOp := 2.
Definition ReadFuseOp : FuseOp := 3.
Definition ReaddirFuseOp : FuseOp := 4.
Definition ReadlinkFuseOp : FuseOp := 5.

Definition allFuseOps : list FuseOp :=
  [AttrFuseOp; LookupFuseOp; OpenFuseOp; ReadFuseOp; ReaddirFuseOp; ReadlinkFuseOp].

Record PerFuseOpStats : Type := { CacheHits : Z; CacheMisses : Z; Direct : Z }.

(** The maps hold pointers to the counters; nothing else refers to them, so each map holds the
    current values. *)
Record Stats : Type := {
  osOpStats : gmap Z PerOsOpStats;
  readStats : gmap Z Z;
  fuseOpStats : gmap Z PerFuseOpStats;
}.

(** * Operations *)

Definition NewStats : Stats := {|
  osOpStats := foldl (λ m op, <[op := {| LocalCount := 0; RemoteCount := 0 |}]> m) ∅ allOsOps;
  readStats := foldl (λ m d, <[d := 0]> m) ∅ allDomains;
  fuseOpStats :=
    foldl (λ m op, <[op := {| CacheHits := 0; CacheMisses := 0; Direct := 0 |}]> m) ∅ allFuseOps;
|}.

Definition set_osOpStats (m : gmap Z PerOsOpStats) (s : Stats) : Stats :=
  {| osOpStats := m; readStats := readStats s; fuseOpStats := fuseOpStats s |}.
Definition set_readStats (m : gmap Z Z) (s : Stats) : Stats :=
  {| osOpStats := osOpStats s; readStats := m; fuseOpStats := fuseOpStats s |}.
Definition set_fuseOpStats (m : gmap Z PerFuseOpStats) (s : Stats) : Stats :=
  {| osOpStats := osOpStats s; readStats := readStats s; fuseOpStats := m |}.

Definition nil_deref : string := "invalid memory address or nil pointer dereference".

(** The loops of [Clear] index the maps without checking: a missing key is a nil pointer. *)
Definition Clear : GoM Stats () :=
  go_for allOsOps (λ op s,
    match osOpStats s !! op with
    | Some _ => (Ret (), set_osOpStats
                   (<[op := {| LocalCount := 0; RemoteCount := 0 |}]> (osOpStats s)) s)
    | None => (Panic nil_deref, s)
    end);;
  go_for allDomains (λ d s,
    match readStats s !! d with
    | Some _ => (Ret (), set_readStats (<[d := 0]> (readStats s)) s)
    | None => (Panic nil_deref, s)
    end);;
  go_for allFuseOps (λ op s,
    match fuseOpStats s !! op with
    | Some _ => (Ret (), set_fuseOpStats
                   (<[op := {| CacheHits := 0; CacheMisses := 0; Direct := 0 |}]> (fuseOpStats s)) s)
    | None => (Panic nil_deref, s)
    end).

Definition getPerOsOpStats (op : OsOp) : GoM Stats PerOsOpStats := λ s,
  match osOpStats s !! op with
  | Some st => (Ret st, s)
  | None => (Panic "OS operation not previously registered in map", s)
  end.

Definition getPerFuseOpStats (op : FuseOp) : GoM Stats PerFuseOpStats := λ s,
  match fuseOpStats s !! op with
  | Some st => (Ret st, s)
  | None => (Panic "Fuse operation not previously registered in map", s)
  end.

(** [atomic.AddUint64] wraps around. *)
Definition AccountOsOp (domain : OpDomain) (op : OsOp) : GoM Stats () :=
  opStats ← getPerOsOpStats op;
  if domain =? LocalDomain then
    go_modify (λ s, set_osOpStats
      (<[op := {| LocalCount := uint64 (LocalCount opStats + 1);
                  RemoteCount := RemoteCount opStats |}]> (osOpStats s)) s)
  else if domain =? RemoteDomain then
    go_modify (λ s, set_osOpStats
      (<[op := {| LocalCount := LocalCount opStats;
                  RemoteCount := uint64 (RemoteCount opStats + 1) |}]> (osOpStats s)) s)
  else go_panic "Unknown domain".

Definition AccountReadBytes (domain : OpDomain) (bytes : Z) : GoM Stats () := λ s,
  match readStats s !! domain with
  | None => (Panic "Unknown domain", s)
  | Some count =>
      (Ret (), set_readStats (<[domain := uint64 (count + uint64 bytes)]> (readStats s)) s)
  end.

Definition AccountCacheHit (op : FuseOp) : GoM Stats () :=
  opStats ← getPerFuseOpStats op;
  go_modify (λ s, set_fuseOpStats
    (<[op := {| CacheHits := uint64 (CacheHits opStats + 1);
                CacheMisses := CacheMisses opStats;
                Direct := Direct opStats |}]> (fuseOpStats s)) s).

Definition AccountCacheMiss (op : FuseOp) : GoM Stats () :=
  opStats ← getPerFuseOpStats op;
  go_modify (λ s, set_fuseOpStats
    (<[op := {| CacheHits := CacheHits opStats;
                CacheMisses := uint64 (CacheMisses opStats + 1);
                Direct := Direct opStats |}]> (fuseOpStats s)) s).

Definition AccountDirect (op : FuseOp) : GoM Stats () :=
  opStats ← getPerFuseOpStats op;
  go_modify (λ s, set_fuseOpStats
    (<[op := {| CacheHits := CacheHits opStats;
                CacheMisses := CacheMisses opStats;
                Direct := uint64 (Direct opStats + 1) |}]> (fuseOpStats s)) s).

(** The getters copy the maps. *)
Definition GetOsOpStats (s : Stats) : gmap Z PerOsOpStats :=
  (λ d, {| LocalCount := LocalCount d; RemoteCount := RemoteCount d |}) <$> osOpStats s.
Definition GetReadStats (s : Stats) : gmap Z Z := (λ count, count) <$> readStats s.
Definition GetFuseOpStats (s : Stats) : gmap Z PerFuseOpStats :=
  (λ d, {| CacheHits := CacheHits d; CacheMisses := CacheMisses d; Direct := Direct d |})
    <$> fuseOpStats s.

(** * The abstract view: a function from counters to values *)

Inductive Counter : Type :=
  | COs (d : OpDomain) (op : OsOp)
  | CRead (d : OpDomain)
  | CHit (op : FuseOp)
  | CMiss (op : FuseOp)
  | CDirect (op : FuseOp).

#[export] Instance Counter_eq_dec : EqDecision Counter.
Proof. solve_decision. Defined.

Definition domain_count (d : OpDomain) (st : PerOsOpStats) : Z :=
  if d =? LocalDomain then LocalCount st else if d =? RemoteDomain then RemoteCount st else 0.

Definition counter (c : Counter) (s : Stats) : Z :=
  match c with
  | COs d op => from_option (domain_count d) 0 (osOpStats s !! op)
  | CRead d => default 0 (readStats s !! d)
  | CHit op => from_option CacheHits 0 (fuseOpStats s !! op)
  | CMiss op => from_option CacheMisses 0 (fuseOpStats s !! op)
  | CDirect op => from_option Direct 0 (fuseOpStats s !! op)
  end.

(** The counters the program registers. *)
Definition valid_counter (c : Counter) : Prop :=
  match c with
  | COs d op => d ∈ allDomains ∧ op ∈ allOsOps
  | CRead d => d ∈ allDomains
  | CHit op | CMiss op | CDirect op => op ∈ allFuseOps
  end.

#[export] Instance valid_counter_dec c : Decision (valid_counter c).
Proof. destruct c; simpl; apply _. Defined.

Record stats_wf (s : Stats) : Prop := {
  wf_os_dom : ∀ op, is_Some (osOpStats s !! op) ↔ op ∈ allOsOps;
  wf_read_dom : ∀ d, is_Some (readStats s !! d) ↔ d ∈ allDomains;
  wf_fuse_dom : ∀ op, is_Some (fuseOpStats s !! op) ↔ op ∈ allFuseOps;
  wf_range : ∀ c, is_uint64 (counter c s);
}.

(** One accounting call: which counter it touches and by how much. *)
Record stat_event : Type := { ev_counter : Counter; ev_amount : Z }.

Definition account (ev : stat_event) : GoM Stats () :=
  match ev_counter ev with
  | COs d op => AccountOsOp d op
  | CRead d => AccountReadBytes d (ev_amount ev)
  | CHit op => AccountCacheHit op
  | CMiss op => AccountCacheMiss op
  | CDirect op => AccountDirect op
  end.

(** Everything but [AccountReadBytes] counts by one. *)
Definition ev_delta (ev : stat_event) : Z :=
  match ev_counter ev with CRead _ => uint64 (ev_amount ev) | _ => 1 end.

(** A run of accounting calls, in the order in which the atomic additions take effect. *)
Definition account_all (evs : list stat_event) : GoM Stats () := go_for evs account.

(** What the events add to counter [c]. *)
Definition total (c : Counter) (evs : list stat_event) : Z :=
  foldr (λ ev acc, (if decide (ev_counter ev = c) then ev_delta ev else 0) + acc) 0 evs.

(** * Lemmas *)

Lemma elem_of_allDomains d : d ∈ allDomains ↔ d = LocalDomain ∨ d = RemoteDomain.
Proof. unfold allDomains. rewrite !elem_of_cons, elem_of_nil. tauto. Qed.

Lemma lookup_register {A} (v : A) (l : list Z) (m : gmap Z A) i :
  foldl (λ m k, <[k := v]> m) m l !! i = if decide (i ∈ l) then Some v else m !! i.
Proof.
  revert m. induction l as [|k l IH]; intros m; cbn [foldl].
  - rewrite decide_False; [done|apply not_elem_of_nil].
  - rewrite IH, lookup_insert. rewrite (decide_ext (i ∈ k :: l) (i = k ∨ i ∈ l)) by apply elem_of_cons.
    repeat case_decide; try done; intuition congruence.
Qed.

Lemma counter_NewStats c : counter c NewStats = 0.
Proof.
  destruct c as [d op|d|op|op|op]; cbn [counter NewStats osOpStats readStats fuseOpStats];
    rewrite lookup_register, lookup_empty; case_decide; try done.
  unfold domain_count. simpl. by repeat case_match.
Qed.

Lemma is_Some_register {A} (v : A) (l : list Z) i :
  is_Some (foldl (λ m k, <[k := v]> m) (∅ : gmap Z A) l !! i) ↔ i ∈ l.
Proof.
  rewrite lookup_register, lookup_empty. case_decide; [|split; [intros [? [=]]|done]].
  split; [done|by eexists].
Qed.

Lemma NewStats_wf : stats_wf NewStats.
Proof.
  split; try (intros; apply is_Some_register).
  intros c. rewrite counter_NewStats. unfold is_uint64, two64. lia.
Qed.

(** Two well-formed statistics with the same counters are the same. *)
Lemma stats_ext s1 s2 :
  stats_wf s1 → stats_wf s2 → (∀ c, valid_counter c → counter c s1 = counter c s2) → s1 = s2.
Proof.
  intros W1 W2 H. destruct s1 as [o1 r1 f1], s2 as [o2 r2 f2]. f_equal; apply map_eq; intros i.
  - pose proof (wf_os_dom _ W1 i) as D1. pose proof (wf_os_dom _ W2 i) as D2. simpl in *.
    pose proof (H (COs LocalDomain i)) as HL. pose proof (H (COs RemoteDomain i)) as HR.
    simpl in HL, HR.
    destruct (o1 !! i) as [[? ?]|], (o2 !! i) as [[? ?]|]; simpl in *; try done.
    + assert (i ∈ allOsOps) by (apply D1; eauto).
      unfold domain_count in *; simpl in *.
      rewrite HL, HR by (split; [apply elem_of_allDomains; auto|done]). done.
    + exfalso. assert (i ∈ allOsOps) as Hi by (apply D1; eauto). by apply D2 in Hi as [].
    + exfalso. assert (i ∈ allOsOps) as Hi by (apply D2; eauto). by apply D1 in Hi as [].
  - pose proof (wf_read_dom _ W1 i) as D1. pose proof (wf_read_dom _ W2 i) as D2. simpl in *.
    pose proof (H (CRead i)) as HL. simpl in HL.
    destruct (r1 !! i), (r2 !! i); simpl in *; try done.
    + rewrite HL; [done|]. apply D1; eauto.
    + exfalso. assert (i ∈ allDomains) as Hi by (apply D1; eauto). by apply D2 in Hi as [].
    + exfalso. assert (i ∈ allDomains) as Hi by (apply D2; eauto). by apply D1 in Hi as [].
  - pose proof (wf_fuse_dom _ W1 i) as D1. pose proof (wf_fuse_dom _ W2 i) as D2. simpl in *.
    pose proof (H (CHit i)) as HH. pose proof (H (CMiss i)) as HM.
    pose proof (H (CDirect i)) as HD. simpl in HH, HM, HD.
    destruct (f1 !! i) as [[? ? ?]|], (f2 !! i) as [[? ? ?]|]; simpl in *; try done.
    + assert (i ∈ allFuseOps) by (apply D1; eauto). by rewrite HH, HM, HD.
    + exfalso. assert (i ∈ allFuseOps) as Hi by (apply D1; eauto). by apply D2 in Hi as [].
    + exfalso. assert (i ∈ allFuseOps) as Hi by (apply D2; eauto). by apply D1 in Hi as [].
Qed.

(** What an accounting call does to a well-formed state: one counter moves. *)
Definition bumped (ev : stat_event) (s s' : Stats) : Prop :=
  (∀ op, is_Some (osOpStats s' !! op) ↔ is_Some (osOpStats s !! op)) ∧
  (∀ d, is_Some (readStats s' !! d) ↔ is_Some (readStats s !! d)) ∧
  (∀ op, is_Some (fuseOpStats s' !! op) ↔ is_Some (fuseOpStats s !! op)) ∧
  (∀ c, counter c s' =
        if decide (ev_counter ev = c) then uint64 (counter c s + ev_delta ev) else counter c s).

Lemma is_Some_insert_present {A} (m : gmap Z A) k v i :
  is_Some (m !! k) → is_Some (<[k := v]> m !! i) ↔ is_Some (m !! i).
Proof.
  intros Hk. rewrite lookup_insert. case_decide; [subst|done].
  split; [done|by eexists].
Qed.

Lemma counter_insert {A} (m : gmap Z A) k v i (f : A → Z) :
  from_option f 0 (<[k := v]> m !! i) = if decide (k = i) then f v else from_option f 0 (m !! i).
Proof. rewrite lookup_insert. by case_decide. Qed.

(** Compares the counters before and after an insertion, one kind of counter at a time. *)
Ltac bump_counters H :=
  intros [d' op'|d'|op'|op'|op']; simpl; try (by rewrite decide_False by congruence);
  rewrite ?counter_insert, ?lookup_insert;
  repeat case_decide; simplify_eq/=; rewrite ?H; try done.

Lemma account_bumped ev s :
  stats_wf s → valid_counter (ev_counter ev) →
  ∃ s', account ev s = (Ret (), s') ∧ bumped ev s s'.
Proof.
  intros W V. destruct ev as [[d op|d|op|op|op] amt]; unfold account; simpl in *.
  - destruct V as [Vd [st Hst]%(wf_os_dom _ W)].
    unfold AccountOsOp, mbind, go_mbind, go_bind, getPerOsOpStats. rewrite Hst.
    apply elem_of_allDomains in Vd as [-> | ->].
    all: eexists; split; [done|]; split_and!; try done;
      [intros; apply is_Some_insert_present; by eexists|].
    all: bump_counters Hst; unfold domain_count, LocalDomain, RemoteDomain in *; simpl;
      repeat case_match; try congruence.
    all: match goal with H : COs _ _ ≠ _ |- _ => exfalso; apply H; f_equal; lia end.
  - apply (wf_read_dom _ W) in V as [n Hn]. unfold AccountReadBytes. rewrite Hn.
    eexists; split; [done|]; split_and!; try done.
    + intros; apply is_Some_insert_present; by eexists.
    + bump_counters Hn.
  - apply (wf_fuse_dom _ W) in V as [n Hn].
    unfold AccountCacheHit, mbind, go_mbind, go_bind, getPerFuseOpStats. rewrite Hn.
    eexists; split; [done|]; split_and!; try done;
      [intros; apply is_Some_insert_present; by eexists|]. bump_counters Hn.
  - apply (wf_fuse_dom _ W) in V as [n Hn].
    unfold AccountCacheMiss, mbind, go_mbind, go_bind, getPerFuseOpStats. rewrite Hn.
    eexists; split; [done|]; split_and!; try done;
      [intros; apply is_Some_insert_present; by eexists|]. bump_counters Hn.
  - apply (wf_fuse_dom _ W) in V as [n Hn].
    unfold AccountDirect, mbind, go_mbind, go_bind, getPerFuseOpStats. rewrite Hn.
    eexists; split; [done|]; split_and!; try done;
      [intros; apply is_Some_insert_present; by eexists|]. bump_counters Hn.
Qed.

Lemma bumped_wf ev s s' : stats_wf s → bumped ev s s' → stats_wf s'.
Proof.
  intros W (Ho & Hr & Hf & Hc). split.
  - intros op. rewrite Ho. apply (wf_os_dom _ W).
  - intros d. rewrite Hr. apply (wf_read_dom _ W).
  - intros op. rewrite Hf. apply (wf_fuse_dom _ W).
  - intros c. rewrite Hc. case_decide; [apply uint64_range|apply (wf_range _ W)].
Qed.

Definition valid_events (evs : list stat_event) : Prop :=
  Forall (λ ev, valid_counter (ev_counter ev)) evs.

#[export] Instance valid_events_dec evs : Decision (valid_events evs).
Proof. apply _. Defined.

Lemma account_all_total evs s :
  stats_wf s → valid_events evs →
  ∃ s', account_all evs s = (Ret (), s') ∧ stats_wf s' ∧
        ∀ c, counter c s' = uint64 (counter c s + total c evs).
Proof.
  intros W V. revert s W. induction V as [|ev evs Hev V IH]; intros s W; simpl.
  - exists s. split_and!; [done..|]. intros c. rewrite Z.add_0_r, uint64_small; [done|].
    apply (wf_range _ W).
  - destruct (account_bumped ev s W Hev) as (s1 & E1 & B1).
    destruct (IH s1) as (s2 & E2 & W2 & C2); [by eapply bumped_wf|].
    exists s2. unfold account_all. simpl. unfold go_bind at 1. rewrite E1. split_and!; [done..|].
    intros c. rewrite C2. destruct B1 as (_ & _ & _ & ->).
    case_decide; [|done]. by rewrite uint64_add_assoc.
Qed.

Lemma total_perm c evs evs' : Permutation evs evs' → total c evs = total c evs'.
Proof. intros P. unfold total. induction P; simpl; lia. Qed.

(** * Properties *)

(** C39 (functional).  From any well-formed statistics, a run of accounting calls on registered
    counters never panics, keeps the statistics well-formed, and leaves every counter at its old
    value plus what the calls contributed to it, modulo 2^64; no other counter moves. *)
Theorem account_all_counts (evs : list stat_event) (s : Stats) :
  stats_wf s → valid_events evs →
  ∃ s', account_all evs s = (Ret (), s') ∧ stats_wf s' ∧
        ∀ c, counter c s' = uint64 (counter c s + total c evs).
Proof. apply account_all_total. Qed.

Lemma account_all_counts_witness :
  stats_wf NewStats ∧
  ∃ s', account_all [ {| ev_counter := CRead RemoteDomain; ev_amount := -1 |};
                      {| ev_counter := COs LocalDomain ReadOsOp; ev_amount := 0 |};
                      {| ev_counter := CRead RemoteDomain; ev_amount := 3 |} ] NewStats
          = (Ret (), s') ∧ counter (CRead RemoteDomain) s' = 2.
Proof.
  split; [exact NewStats_wf|].
  destruct (account_all_counts
    [ {| ev_counter := CRead RemoteDomain; ev_amount := -1 |};
      {| ev_counter := COs LocalDomain ReadOsOp; ev_amount := 0 |};
      {| ev_counter := CRead RemoteDomain; ev_amount := 3 |} ] NewStats)
    as (s' & E & _ & C); [exact NewStats_wf|by apply (bool_decide_unpack _); vm_compute|].
  exists s'. split; [exact E|]. rewrite C. vm_compute. reflexivity.
Defined.

(** Accounting is independent of interleaving: two schedules of the same
    accounting calls, in any order, end in the same statistics. *)
Theorem account_all_perm (evs evs' : list stat_event) (s : Stats) :
  stats_wf s → valid_events evs → Permutation evs evs' →
  account_all evs s = account_all evs' s.
Proof.
  intros W V P.
  destruct (account_all_total evs s W V) as (s1 & E1 & W1 & C1).
  destruct (account_all_total evs' s W) as (s2 & E2 & W2 & C2).
  { unfold valid_events. by rewrite <- P. }
  rewrite E1, E2. f_equal. apply stats_ext; [done..|].
  intros c _. rewrite C1, C2. by rewrite (total_perm c evs evs').
Qed.

Lemma account_all_perm_witness :
  account_all [ {| ev_counter := CHit OpenFuseOp; ev_amount := 0 |};
                {| ev_counter := CRead LocalDomain; ev_amount := 9 |} ] NewStats
  = account_all [ {| ev_counter := CRead LocalDomain; ev_amount := 9 |};
                  {| ev_counter := CHit OpenFuseOp; ev_amount := 0 |} ] NewStats.
Proof.
  apply account_all_perm;
    [exact NewStats_wf|by apply (bool_decide_unpack _); vm_compute|apply perm_swap].
Defined.

Lemma go_for_insert {A} (l : list Z) (v : A) (get : Stats → gmap Z A)
    (set : gmap Z A → Stats → Stats) s :
  (∀ m t, get (set m t) = m) → (∀ m m' t, set m (set m' t) = set m t) →
  (∀ t, set (get t) t = t) → (∀ k, k ∈ l → is_Some (get s !! k)) →
  go_for l (λ k s, match get s !! k with
                   | Some _ => (Ret (), set (<[k := v]> (get s)) s)
                   | None => (Panic nil_deref, s) end) s
  = (Ret (), set (foldl (λ m k, <[k := v]> m) (get s) l) s).
Proof.
  intros Hgs Hss Hsg. revert s. induction l as [|k l IH]; intros s Hl; simpl.
  { by rewrite Hsg. }
  unfold go_bind at 1. destruct (Hl k) as [x Hx]; [by left|]. rewrite Hx.
  rewrite IH.
  - by rewrite Hgs, Hss.
  - intros k' Hk'. rewrite Hgs, lookup_insert. case_decide; [by eexists|].
    apply Hl. by right.
Qed.

Lemma register_all {A} (v : A) (l : list Z) (m : gmap Z A) :
  (∀ i, is_Some (m !! i) ↔ i ∈ l) →
  foldl (λ m k, <[k := v]> m) m l = foldl (λ m k, <[k := v]> m) ∅ l.
Proof.
  intros Hm. apply map_eq. intros i. rewrite !lookup_register, lookup_empty.
  case_decide as Hi; [done|]. destruct (m !! i) eqn:E; [|done].
  destruct Hi. apply Hm. by eexists.
Qed.

Lemma go_clear_NewStats (s : Stats) : stats_wf s → Clear s = (Ret (), NewStats).
Proof.
  intros W. unfold Clear, mbind, go_mbind, go_bind.
  rewrite (go_for_insert _ _ osOpStats set_osOpStats);
    [|by intros [] ..|intros op; apply (wf_os_dom _ W)].
  rewrite (go_for_insert _ _ readStats set_readStats);
    [|by intros [] ..|intros d; apply (wf_read_dom _ W)].
  rewrite (go_for_insert _ _ fuseOpStats set_fuseOpStats);
    [|by intros [] ..|intros d; apply (wf_fuse_dom _ W)].
  f_equal. unfold set_fuseOpStats, set_readStats, set_osOpStats, NewStats.
  cbn [osOpStats readStats fuseOpStats]. f_equal.
  - apply register_all, (wf_os_dom _ W).
  - apply register_all, (wf_read_dom _ W).
  - apply register_all, (wf_fuse_dom _ W).
Qed.

(** [Clear] on well-formed statistics never panics and resets them to
    exactly what [NewStats] builds. *)
Theorem Clear_NewStats (s : Stats) : stats_wf s → Clear s = (Ret (), NewStats).
Proof. apply go_clear_NewStats. Qed.

Lemma Clear_NewStats_witness :
  stats_wf NewStats ∧
  (account_all [ {| ev_counter := CMiss AttrFuseOp; ev_amount := 0 |} ];; Clear) NewStats
  = (Ret (), NewStats).
Proof.
  split; [exact NewStats_wf|].
  destruct (account_all_total [ {| ev_counter := CMiss AttrFuseOp; ev_amount := 0 |} ] NewStats)
    as (s' & E & W & _); [exact NewStats_wf|by apply (bool_decide_unpack _); vm_compute|].
  unfold mbind, go_mbind, go_bind. rewrite E. apply (Clear_NewStats s' W).
Defined.

(** Accounting against an operation or domain that was never registered panics and
    changes nothing: no counter is created silently. *)
Theorem account_unregistered (ev : stat_event) (s : Stats) :
  stats_wf s → ¬ valid_counter (ev_counter ev) → ∃ msg, account ev s = (Panic msg, s).
Proof.
  intros W V. unfold account. destruct ev as [[d op|d|op|op|op] amt]; simpl in *;
    unfold AccountOsOp, AccountReadBytes, AccountCacheHit, AccountCacheMiss, AccountDirect,
      getPerOsOpStats, getPerFuseOpStats, mbind, go_mbind, go_bind.
  - destruct (osOpStats s !! op) as [st|] eqn:E; [|by eexists].
    assert (op ∈ allOsOps) as Hop by (apply (wf_os_dom _ W); by eexists).
    rewrite elem_of_allDomains in V.
    destruct (d =? LocalDomain) eqn:?; [exfalso; apply V; split; [left; lia|done]|].
    destruct (d =? RemoteDomain) eqn:?; [exfalso; apply V; split; [right; lia|done]|].
    by eexists.
  - destruct (readStats s !! d) eqn:E; [|by eexists].
    destruct V. apply (wf_read_dom _ W). by eexists.
  - destruct (fuseOpStats s !! op) eqn:E; [|by eexists].
    destruct V. apply (wf_fuse_dom _ W). by eexists.
  - destruct (fuseOpStats s !! op) eqn:E; [|by eexists].
    destruct V. apply (wf_fuse_dom _ W). by eexists.
  - destruct (fuseOpStats s !! op) eqn:E; [|by eexists].
    destruct V. apply (wf_fuse_dom _ W). by eexists.
Qed.

Lemma account_unregistered_witness :
  ∃ msg, AccountOsOp 2 CloseOsOp NewStats = (Panic msg, NewStats).
Proof.
  apply (account_unregistered {| ev_counter := COs 2 CloseOsOp; ev_amount := 0 |});
    [exact NewStats_wf|by apply (bool_decide_unpack _); vm_compute].
Defined.
