(* ===== verification/Template.v ===== *)
(** Go's [html/template], as far as the status page uses it: parsing of the text with its
    [{{ .Field }}], [{{ range .Field }}] and [{{ end }}] actions, the contextual escaping that is
    decided from the HTML around an action, and the execution of the escaped tree on a value,
    which writes to a writer piece by piece.

    What is outside of this fragment (other actions, actions in other places of the HTML) is an
    error of the model, never a guess; StatusPage.v shows that the program's own template is
    inside of it. *)
From S2P Require Import Prelude GoStrings.
#[local] Open Scope Z_scope.

(** A double quote. *)
Definition quote : string := String (ascii_of_N 34) "".
Definition quoted (s : string) : string := quote +:+ s +:+ quote.

(** * text/template: tokens and the tree *)

Inductive token : Type := TokText (text : string) | TokAction (body : string).

Definition text_token (acc : string) : list token :=
  match acc with EmptyString => [] | _ => [TokText acc] end.

(** Text up to a left delimiter, an action up to its right delimiter. *)
Fixpoint lex (inside : bool) (acc s : string) : outcome (list token) :=
  match s with
  | EmptyString => if inside then Err (ENew "unclosed action") else Ret (text_token acc)
  | String c s' =>
      match inside, c, s' with
      | false, "{"%char, String "{" s'' => toks ← lex true "" s''; Ret (text_token acc ++ toks)
      | true, "}"%char, String "}" s'' => toks ← lex false "" s''; Ret (TokAction acc :: toks)
      | _, _, _ => lex inside (acc +:+ String c "") s'
      end
  end.

Inductive action : Type := AField (name : string) | ARange (name : string) | AEnd.

Definition words (s : string) : list string := filter (λ w, w ≠ "") (Split " " s).

Definition parse_action (body : string) : outcome action :=
  match words body with
  | ["end"] => Ret AEnd
  | [String "." name] =>
      if has_char "." name || bool_decide (name = "") then Err (ENew "unsupported action")
      else Ret (AField name)
  | ["range"; String "." name] =>
      if has_char "." name || bool_decide (name = "") then Err (ENew "unsupported action")
      else Ret (ARange name)
  | _ => Err (ENew "unsupported action")
  end.

(** The tree; [E] is what is known of an action besides its field. *)
Inductive node (E : Type) : Type :=
  | TextNode (text : string)
  | FieldNode (name : string) (esc : E)
  | RangeNode (name : string) (body : list (node E)).
Arguments TextNode {E} text.
Arguments FieldNode {E} name esc.
Arguments RangeNode {E} name body.

(** The open ranges, the innermost one first, each with the nodes before it in reverse. *)
Fixpoint build_tree (toks : list token) (open : list (string * list (node ())))
    (before : list (node ())) : outcome (list (node ())) :=
  match toks with
  | [] =>
      match open with
      | [] => Ret (reverse before)
      | _ => Err (ENew "unexpected EOF")
      end
  | TokText text :: toks => build_tree toks open (TextNode text :: before)
  | TokAction body :: toks =>
      a ← parse_action body;
      match a, open with
      | AField name, _ => build_tree toks open (FieldNode name () :: before)
      | ARange name, _ => build_tree toks ((name, before) :: open) []
      | AEnd, (name, outer) :: open => build_tree toks open (RangeNode name (reverse before) :: outer)
      | AEnd, [] => Err (ENew "unexpected {{end}}")
      end
  end.

(** [template.New(...).Parse(text)]. *)
Definition Parse (text : string) : outcome (list (node ())) :=
  toks ← lex false "" text; build_tree toks [] [].

(** * Escapers *)

Fixpoint replace_chars (f : ascii → string) (s : string) : string :=
  match s with
  | EmptyString => EmptyString
  | String c s' => f c +:+ replace_chars f s'
  end.

(** [htmlReplacementTable]; a NUL becomes the replacement character. *)
Definition html_replacement (c : ascii) : string :=
  match N_of_ascii c with
  | 0%N => String (ascii_of_N 239) (String (ascii_of_N 191) (String (ascii_of_N 189) ""))
  | 34%N => "&#34;"
  | 38%N => "&amp;"
  | 39%N => "&#39;"
  | 43%N => "&#43;"
  | 60%N => "&lt;"
  | 62%N => "&gt;"
  | _ => String c ""
  end.

(** [htmlEscaper], [rcdataEscaper] and, on the output of the URL escapers, [attrEscaper]. *)
Definition html_escape : string → string := replace_chars html_replacement.

Definition lower_char (c : ascii) : ascii :=
  let n := N_of_ascii c in
  if ((65 <=? n) && (n <=? 90))%N then ascii_of_N (n + 32) else c.

Definition ToLower : string → string := replace_chars (λ c, String (lower_char c) "").

(** [isSafeURL] and [urlFilter]: a scheme other than these three is replaced as a whole. *)
Definition isSafeURL (s : string) : bool :=
  match Split ":" s with
  | protocol :: _ :: _ =>
      has_char "/" protocol || bool_decide (ToLower protocol ∈ ["http"; "https"; "mailto"])
  | _ => true
  end.

Definition url_filter (s : string) : string := if isSafeURL s then s else "#ZgotmplZ".

Definition is_alnum (c : ascii) : bool :=
  let n := N_of_ascii c in
  ((48 <=? n) && (n <=? 57) || (65 <=? n) && (n <=? 90) || (97 <=? n) && (n <=? 122))%N.

Definition is_hex (c : ascii) : bool :=
  let n := N_of_ascii c in
  ((48 <=? n) && (n <=? 57) || (65 <=? n) && (n <=? 70) || (97 <=? n) && (n <=? 102))%N.

(** A digit of [%02x]. *)
Definition hex_digit (n : N) : ascii :=
  if (n <? 10)%N then ascii_of_N (48 + n) else ascii_of_N (87 + n).

Definition percent (c : ascii) : string :=
  let n := N_of_ascii c in
  String "%" (String (hex_digit (n / 16)) (String (hex_digit (n mod 16)) "")).

(** [urlNormalizer]: reserved and unreserved characters and valid escapes stay. *)
Fixpoint url_normalize (s : string) : string :=
  match s with
  | EmptyString => EmptyString
  | String c s' =>
      (if is_alnum c || has_char c "!#$&*+,/:;=?@[]-._~" then String c ""
       else match c, s' with
            | "%"%char, String a (String b _) =>
                if is_hex a && is_hex b then "%" else percent c
            | _, _ => percent c
            end) +:+ url_normalize s'
  end.

Inductive escaper : Type := EscHtml | EscRcdata | EscUrlFilter | EscUrlNormalize | EscAttr.

Definition run_escaper (e : escaper) : string → string :=
  match e with
  | EscHtml | EscRcdata | EscAttr => html_escape
  | EscUrlFilter => url_filter
  | EscUrlNormalize => url_normalize
  end.

Definition run_pipeline (es : list escaper) (s : string) : string :=
  foldl (λ s e, run_escaper e s) s es.

(** * The context of an action

    The HTML before an action decides how its value is escaped.  [InElement] is the content of
    an element whose text is not parsed for tags ([title] and [style]) up to its end tag. *)
Inductive context : Type :=
  | InText
  | InElement (elem : string)
  | InTagName (name : string)
  | InTag (elem : string)
  | InAttrName (elem attr : string)
  | BeforeValue (elem attr : string)
  | InAttrValue (elem attr : string) (started : bool).

#[export] Instance context_eq_dec : EqDecision context.
Proof. solve_decision. Defined.

Definition after_tag (elem : string) : context :=
  if bool_decide (elem ∈ ["title"; "style"]) then InElement elem else InText.

Definition is_space (c : ascii) : bool :=
  let n := N_of_ascii c in (bool_decide (n ∈ [9; 10; 12; 13; 32]))%N.

(** One character [c] of HTML; [rest] begins with it. *)
Definition context_step (ctx : context) (c : ascii) (rest : string) : context :=
  match ctx with
  | InText => if bool_decide (c = "<"%char) then InTagName "" else InText
  | InElement elem => if String.prefix ("</" +:+ elem) rest then InTagName "" else InElement elem
  | InTagName name =>
      if bool_decide (c = ">"%char) then after_tag name
      else if is_space c then InTag name
      else InTagName (name +:+ String c "")
  | InTag elem =>
      if bool_decide (c = ">"%char) then after_tag elem
      else if is_space c then InTag elem
      else InAttrName elem (String c "")
  | InAttrName elem attr =>
      if bool_decide (c = "="%char) then BeforeValue elem attr
      else if bool_decide (c = ">"%char) then after_tag elem
      else if is_space c then InTag elem
      else InAttrName elem (attr +:+ String c "")
  | BeforeValue elem attr =>
      if bool_decide (String c "" = quote) then InAttrValue elem attr false
      else BeforeValue elem attr
  | InAttrValue elem attr started =>
      if bool_decide (String c "" = quote) then InTag elem
      else InAttrValue elem attr (started || negb (is_space c))
  end.

Fixpoint context_after (ctx : context) (s : string) : context :=
  match s with
  | EmptyString => ctx
  | String c s' => context_after (context_step ctx c s) s'
  end.

(** The escapers that are appended to the pipeline of an action. *)
Definition escapers_for (ctx : context) : outcome (list escaper) :=
  match ctx with
  | InText => Ret [EscHtml]
  | InElement "title" => Ret [EscRcdata]
  | InAttrValue "a" "href" false => Ret [EscUrlFilter; EscUrlNormalize; EscAttr]
  | _ => Err (ENew "action in an unsupported context")
  end.

(** The tree with the pipelines of its actions, and the context at its end.  The body of a range
    has to end in the context in which it starts. *)
Fixpoint escape_node (ctx : context) (n : node ()) {struct n} : outcome (node (list escaper) * context) :=
  match n with
  | TextNode text => Ret (TextNode text, context_after ctx text)
  | FieldNode name _ => es ← escapers_for ctx; Ret (FieldNode name es, ctx)
  | RangeNode name body =>
      '(body', ctx') ←
        (fix escape_list (ctx : context) (ns : list (node ())) {struct ns} :=
           match ns with
           | [] => Ret ([], ctx)
           | n :: ns =>
               '(n', ctx1) ← escape_node ctx n;
               '(ns', ctx2) ← escape_list ctx1 ns;
               Ret (n' :: ns', ctx2)
           end) ctx body;
      if bool_decide (ctx' = ctx) then Ret (RangeNode name body', ctx)
      else Err (ENew "range changes the context")
  end.

Fixpoint escape_list (ctx : context) (ns : list (node ()))
    : outcome (list (node (list escaper)) * context) :=
  match ns with
  | [] => Ret ([], ctx)
  | n :: ns =>
      '(n', ctx1) ← escape_node ctx n;
      '(ns', ctx2) ← escape_list ctx1 ns;
      Ret (n' :: ns', ctx2)
  end.

(** The template ends in text. *)
Definition escape (ns : list (node ())) : outcome (list (node (list escaper))) :=
  '(ns', ctx) ← escape_list InText ns;
  if bool_decide (ctx = InText) then Ret ns' else Err (ENew "ends in a non-text context").

(** * Execution *)

(** The Go values a template is executed on. *)
Inductive value : Type :=
  | VString (s : string)
  | VUint (u : Z)
  | VSlice (elems : list value)
  | VStruct (fields : list (string * value)).

Definition field_of (dot : value) (name : string) : outcome value :=
  match dot with
  | VStruct fields =>
      match find (λ f, bool_decide (f.1 = name)) fields with
      | Some (_, v) => Ret v
      | None => Err (ENew ("can't evaluate field " +:+ name))
      end
  | _ => Err (ENew ("can't evaluate field " +:+ name))
  end.

(** [fmt.Sprint] of a string or an unsigned number. *)
Definition print_value (v : value) : outcome string :=
  match v with
  | VString s => Ret s
  | VUint u => Ret (FormatUint u)
  | _ => Err (ENew "unsupported value")
  end.

Section execute.
Context {W : Type}.
Context (write : string → GoM W ()).

Fixpoint exec_node (n : node (list escaper)) (dot : value) : GoM W () :=
  match n with
  | TextNode text => write text
  | FieldNode name es =>
      s ← go_lift (v ← field_of dot name; print_value v);
      write (run_pipeline es s)
  | RangeNode name body =>
      v ← go_lift (field_of dot name);
      match v with
      | VSlice elems =>
          go_for elems (λ elem,
            (fix exec_list (ns : list (node (list escaper))) : GoM W () :=
               match ns with
               | [] => go_ret ()
               | n :: ns => exec_node n elem;; exec_list ns
               end) body)
      | _ => go_err (ENew ("range can't iterate over " +:+ name))
      end
  end.

Fixpoint exec_list (ns : list (node (list escaper))) (dot : value) : GoM W () :=
  match ns with
  | [] => go_ret ()
  | n :: ns => exec_node n dot;; exec_list ns dot
  end.

(** [t.Execute(writer, data)]: the first execution escapes the tree. *)
Definition Execute (t : list (node ())) (data : value) : GoM W () :=
  ns ← go_lift (escape t);
  exec_list ns data.
End execute.

(** * Escaped text *)

(** What no replacement contains, the result does not contain. *)
Lemma has_char_replace_chars c f s :
  (∀ d, has_char c (f d) = false) → has_char c (replace_chars f s) = false.
Proof.
  intros Hf. induction s as [|d s IH]; [done|]. cbn [replace_chars].
  by rewrite has_char_app, Hf, IH.
Qed.

(** The characters that could end a text or an attribute value. *)
Definition is_markup (c : ascii) : bool := has_char c ("<>'" +:+ quote).

Lemma has_char_html_escape c s : is_markup c = true → has_char c (html_escape s) = false.
Proof.
  intros Hc. apply has_char_replace_chars. intros d.
  assert (c ∈ ["<"; ">"; "'"; ascii_of_N 34]%char) as Hin.
  { unfold is_markup in Hc. simpl in Hc. rewrite !orb_true_iff, !bool_decide_eq_true in Hc.
    set_solver. }
  destruct d as [[] [] [] [] [] [] [] []]; set_unfold; naive_solver.
Qed.

(** Every pipeline ends with an escaper of markup. *)
Definition ends_escaped (es : list escaper) : bool :=
  match last es with Some EscHtml | Some EscRcdata | Some EscAttr => true | _ => false end.

Lemma has_char_run_pipeline c es s :
  ends_escaped es = true → is_markup c = true → has_char c (run_pipeline es s) = false.
Proof.
  intros He Hc. destruct es as [|e es _] using rev_ind; [done|].
  unfold ends_escaped in He. rewrite last_snoc in He.
  unfold run_pipeline. rewrite foldl_app. simpl.
  destruct e; try done; by apply has_char_html_escape.
Qed.

(** * Execution writes pieces

    Whatever the writer, an execution is a fixed sequence of writes and then a fixed outcome. *)
Definition writes_pieces (m : ∀ W, (string → GoM W ()) → GoM W ()) (pieces : list string)
    (o : outcome ()) : Prop :=
  ∀ W (write : string → GoM W ()) w, m W write w = (go_for pieces write;; go_lift o) w.

Lemma go_for_app {S A} (l1 l2 : list A) (f : A → GoM S ()) s :
  go_for (l1 ++ l2) f s = go_bind (λ _, go_for l2 f) (go_for l1 f) s.
Proof.
  revert s. induction l1 as [|x l1 IH]; intros s; simpl; [done|].
  rewrite go_bind_assoc.
  unfold go_bind in *. by destruct (f x s) as [[] s1].
Qed.

Lemma go_for_ext {S A} (l : list A) (f g : A → GoM S ()) s :
  (∀ x, f x = g x) → go_for l f s = go_for l g s.
Proof.
  intros H. revert s. induction l as [|x l IH]; intros s; simpl; [done|].
  unfold go_bind. rewrite H. by destruct (g x s) as [[] ?].
Qed.

Lemma writes_nothing (o : outcome ()) : writes_pieces (λ W write, go_lift o) [] o.
Proof. by intros W write w. Qed.

Lemma writes_one piece : writes_pieces (λ W write, write piece) [piece] (Ret ()).
Proof.
  intros W write w. simpl. unfold mbind, go_mbind, go_bind, go_ret, go_lift.
  by destruct (write piece w) as [[[]| | | |] ?].
Qed.

Lemma writes_bind m1 m2 ps1 ps2 o1 o2 :
  writes_pieces m1 ps1 o1 → writes_pieces m2 ps2 o2 →
  ∃ ps o, writes_pieces (λ W write, m1 W write;; m2 W write) ps o.
Proof.
  intros H1 H2. destruct o1 as [[]|e|p|p|] eqn:Ho; subst o1.
  1: exists (ps1 ++ ps2), o2.
  2-5: eexists ps1, _.
  all: intros W write w; pose proof (H1 W write w) as E1; revert E1.
  all: unfold mbind, go_mbind; try unfold go_bind at 3; try rewrite go_for_app.
  all: unfold go_bind, go_lift; intros ->.
  all: by destruct (go_for ps1 write w) as [[[]| | | |] w1].
Qed.

Lemma writes_for {A} (l : list A) (m : A → ∀ W, (string → GoM W ()) → GoM W ()) :
  (∀ x, ∃ ps o, writes_pieces (m x) ps o) →
  ∃ ps o, writes_pieces (λ W write, go_for l (λ x, m x W write)) ps o.
Proof.
  intros Hm. induction l as [|x l (ps2 & o2 & IH)].
  - exists [], (Ret ()). apply writes_nothing.
  - destruct (Hm x) as (ps1 & o1 & Hx). eapply writes_bind; [apply Hx|apply IH].
Qed.
(** Induction on a tree through the lists of its ranges. *)
Lemma node_list_ind {E} (P : node E → Prop) :
  (∀ text, P (TextNode text)) → (∀ name e, P (FieldNode name e)) →
  (∀ name body, Forall P body → P (RangeNode name body)) → ∀ n, P n.
Proof.
  intros Ht Hf Hr. fix IH 1. intros [text|name e|name body]; [apply Ht|apply Hf|].
  apply Hr. induction body; constructor; auto.
Qed.

Lemma exec_list_inner {W} (write : string → GoM W ()) ns dot :
  (fix exec_list (ns : list (node (list escaper))) : GoM W () :=
     match ns with
     | [] => go_ret ()
     | n :: ns => exec_node write n dot;; exec_list ns
     end) ns = exec_list write ns dot.
Proof. induction ns as [|n ns IH]; simpl; [done|]. by rewrite IH. Qed.

Lemma exec_list_pieces ns dot :
  Forall (λ n, ∀ dot, ∃ ps o, writes_pieces (λ W write, exec_node write n dot) ps o) ns →
  ∃ ps o, writes_pieces (λ W write, exec_list write ns dot) ps o.
Proof.
  induction 1 as [|n ns Hn _ (ps2 & o2 & IH)].
  - exists [], (Ret ()). apply writes_nothing.
  - destruct (Hn dot) as (ps1 & o1 & H1). eapply writes_bind; [apply H1|apply IH].
Qed.

Lemma exec_node_pieces n dot : ∃ ps o, writes_pieces (λ W write, exec_node write n dot) ps o.
Proof.
  revert dot. induction n as [text|name es|name body IH] using node_list_ind; intros dot; simpl.
  - exists [text], (Ret ()). apply writes_one.
  - destruct (v ← field_of dot name; print_value v) as [s| | | |].
    1: by exists [run_pipeline es s], (Ret ()); intros W write w; rewrite <- writes_one.
    1: by exists [], (Err e). all: by eexists [], _.
  - destruct (field_of dot name) as [[| |elems|]| | | |]; try by eexists [], _.
    assert (∀ elem, ∃ ps o, writes_pieces (λ W write, exec_list write body elem) ps o) as Hb
      by (intros elem; by apply exec_list_pieces).
    destruct (writes_for elems _ Hb) as (ps & o & H).
    exists ps, o. intros W write w. rewrite <- H. simpl.
    unfold mbind, go_mbind, go_bind, go_lift. apply go_for_ext.
    intros elem. apply exec_list_inner.
Qed.
