(* ===== verification/StatusPage.v ===== *)
(** The status page and its HTTP endpoints: internal/stats/status.go, and the HTTP server of
    cmd/sourcachefs/main.go.

    Go iterates over a map in an unspecified order: [range] is any function that lists the
    pairs of a map.  [humanize.Bytes] (a package the program imports) and the writing of a
    piece of the response, which can fail, are parameters of the model.  The template is the
    program's own text, parsed, escaped and executed by Template.v. *)
From stdpp Require Import sorting.
From S2P Require Import Prelude GoStrings Stats Template.
#[local] Open Scope Z_scope.

(** The text of the template, line by line. *)
Definition newline : string := String (ascii_of_N 10) "".

Definition statusHTML : string := StrJoin newline
  ["";
   "<html>";
   "<head>";
   "<title>sourcachefs on {{ .StatsRoot }}</title>";
   "<style type=" +:+ quoted "text/css" +:+ ">";
   "h1, h2 {";
   "  background-color: #ddddff;";
   "  padding: 5px;";
   "}";
   "table th, td {";
   "  border: 1px solid;";
   "}";
   "</style>";
   "</head>";
   "";
   "<body>";
   "<h1>sourcachefs on {{ .MountPoint }}</h1>";
   "";
   "<p>Built on: {{ .BuildTimestamp }} by {{ .BuildWhere }}<br/>";
   "Git revision: {{ .GitRevision }}</p>";
   "";
   "<p><a href=" +:+ quoted "/debug/pprof/" +:+ ">pprof</a></p>";
   "";
   "<p><a href=" +:+ quoted "{{ .StatsRoot }}/clear" +:+ ">Clear stats</a></p>";
   "";
   "<h2>Fuse layer</h2>";
   "";
   "<p>Operation counts:</p>";
   "";
   "<table>";
   "  <tr>";
   "    <th>Operation</th>";
   "    <th>Cache hits</th>";
   "    <th>Cache misses</th>";
   "    <th>Direct</th>";
   "  </tr>";
   "";
   "  {{ range .FuseOpStats }}";
   "    <tr>";
   "      <td>{{ .Name }}</td>";
   "      <td>{{ .CacheHits }}</td>";
   "      <td>{{ .CacheMisses }}</td>";
   "      <td>{{ .Direct }}</td>";
   "    </tr>";
   "  {{ end }}";
   "</table>";
   "";
   "<h2>OS syscall layer</h2>";
   "";
   "<p>Operation counts:</p>";
   "";
   "<table>";
   "  <tr>";
   "    <th>Operation</th>";
   "    <th>Local</th>";
   "    <th>Remote</th>";
   "  </tr>";
   "";
   "  {{ range .OsOpStats }}";
   "    <tr>";
   "      <td>{{ .Name }}</td>";
   "      <td>{{ .LocalCount }}</td>";
   "      <td>{{ .RemoteCount }}</td>";
   "    </tr>";
   "  {{ end }}";
   "</table>";
   "";
   "<p>Data processed:</p>";
   "";
   "<table>";
   "  <tr>";
   "    <th>Rx/Tx</th>";
   "    <th>Local</th>";
   "    <th>Remote</th>";
   "  </tr>";
   "";
   "  <tr>";
   "    <td>Read</td>";
   "    <td>{{ .LocalBytes }}</td>";
   "    <td>{{ .RemoteBytes }}</td>";
   "  </tr>";
   "</table>";
   "";
   "<p>Note: read counters do not account for file content served from the kernel";
   "buffer cache.</p>";
   "";
   "</body>";
   "</html>";
   ""].

Definition osOpNames : gmap Z string := list_to_map
  [(CloseOsOp, "Close"); (LstatOsOp, "Lstat"); (MkdirOsOp, "Mkdir"); (OpenOsOp, "Open");
   (ReadOsOp, "Read"); (ReaddirOsOp, "Readdir"); (ReadlinkOsOp, "Readlink");
   (RemoveOsOp, "Remove"); (RenameOsOp, "Rename")].

Definition fuseOpNames : gmap Z string := list_to_map
  [(AttrFuseOp, "Attr"); (LookupFuseOp, "Lookup"); (OpenFuseOp, "Open"); (ReadFuseOp, "Read");
   (ReaddirFuseOp, "Readdir"); (ReadlinkFuseOp, "Readlink")].

Record osOpStatsRow : Type :=
  { osName : string; osLocalCount : Z; osRemoteCount : Z }.

Record fuseOpStatsRow : Type :=
  { fuName : string; fuCacheHits : Z; fuCacheMisses : Z; fuDirect : Z }.

(** [strings.Compare(a, b) == -1]. *)
Definition name_less (a b : string) : bool :=
  match String.compare a b with Lt => true | _ => false end.

Definition osOpStatsSlice_Less (a b : osOpStatsRow) : bool := name_less (osName a) (osName b).
Definition fuseOpStatsSlice_Less (a b : fuseOpStatsRow) : bool := name_less (fuName a) (fuName b).

(** [sort.Interface], of which an index out of range is a run-time panic. *)
Class SortInterface (L : Type) : Type := {
  Len : L → nat;
  Less : L → nat → nat → outcome bool;
  Swap : nat → nat → GoM L ();
}.

(** The code of both slices, on the order [less] of their elements. *)
Definition slice_Less {A} (less : A → A → bool) (slice : list A) (i j : nat) : outcome bool :=
  match slice !! i, slice !! j with
  | Some a, Some b => Ret (less a b)
  | _, _ => Panic "index out of range"
  end.
Definition slice_Swap {A} (i j : nat) : GoM (list A) () := λ slice,
  match slice !! i, slice !! j with
  | Some a, Some b => (Ret (), <[j := a]> (<[i := b]> slice))
  | _, _ => (Panic "index out of range", slice)
  end.

#[export] Instance osOpStatsSlice : SortInterface (list osOpStatsRow) :=
  {| Len := length; Less := slice_Less osOpStatsSlice_Less; Swap := slice_Swap |}.
#[export] Instance fuseOpStatsSlice : SortInterface (list fuseOpStatsRow) :=
  {| Len := length; Less := slice_Less fuseOpStatsSlice_Less; Swap := slice_Swap |}.

(** What a sorting algorithm does to a slice that it only knows through its interface: it swaps
    elements in range until none is [Less] than one before it. *)
Inductive swapped {L} `{SortInterface L} (l : L) : L → Prop :=
  | swapped_nil : swapped l l
  | swapped_snoc l1 i j l2 : swapped l l1 → Swap i j l1 = (Ret tt, l2) → swapped l l2.
Definition in_order {L} `{SortInterface L} (l : L) : Prop :=
  ∀ i j, (i < j < Len l)%nat → Less l j i = Ret false.

(** [sort.Sort]: the slice in an order where no element is [Less] than one before it;
    [Sort_is_sort] shows that it is the only one that swaps can lead to. *)
Definition not_after {A} (less : A → A → bool) : relation A := λ a b, less b a = false.

#[export] Instance not_after_dec {A} (less : A → A → bool) : RelDecision (not_after less).
Proof. intros a b. unfold not_after. apply _. Defined.

Definition Sort {A} (less : A → A → bool) (l : list A) : list A := merge_sort (not_after less) l.

Record StatusData : Type := {
  BuildTimestamp : string; BuildWhere : string; GitRevision : string;
  StatsRoot : string; MountPoint : string;
  OsOpStats : list osOpStatsRow; FuseOpStats : list fuseOpStatsRow;
  LocalBytes : string; RemoteBytes : string;
}.

(** The variables the linker sets with -X. *)
Record BuildInfo : Type :=
  { buildTimestamp : string; buildWhere : string; gitRevision : string }.

(** The data as the template sees it. *)
Definition os_value (row : osOpStatsRow) : value :=
  VStruct [("Name", VString (osName row)); ("LocalCount", VUint (osLocalCount row));
           ("RemoteCount", VUint (osRemoteCount row))].

Definition fuse_value (row : fuseOpStatsRow) : value :=
  VStruct [("Name", VString (fuName row)); ("CacheHits", VUint (fuCacheHits row));
           ("CacheMisses", VUint (fuCacheMisses row)); ("Direct", VUint (fuDirect row))].

Definition data_value (data : StatusData) : value :=
  VStruct [("BuildTimestamp", VString (BuildTimestamp data));
           ("BuildWhere", VString (BuildWhere data));
           ("GitRevision", VString (GitRevision data));
           ("StatsRoot", VString (StatsRoot data));
           ("MountPoint", VString (MountPoint data));
           ("OsOpStats", VSlice (os_value <$> OsOpStats data));
           ("FuseOpStats", VSlice (fuse_value <$> FuseOpStats data));
           ("LocalBytes", VString (LocalBytes data));
           ("RemoteBytes", VString (RemoteBytes data))].

(** What a handler does to an [http.ResponseWriter]. *)
Inductive Effect : Type :=
  | Wrote (piece : string)
  | HttpError (msg : string)
  | Redirect (to : string).

(** [w.Write]: a piece of the response is accepted, or the connection is broken. *)
Definition write_response (accepts : list Effect → string → option error) (piece : string)
    : GoM (list Effect) () := λ resp,
  match accepts resp piece with
  | Some err => (Err err, resp)
  | None => (Ret (), resp ++ [Wrote piece])
  end.

Definition respond (e : Effect) : GoM (list Effect) () := go_modify (λ resp, resp ++ [e]).

(** The closures installed on [http.DefaultServeMux]. *)
Inductive Handler : Type := SummaryHandler | ClearHandler | RootHandler.

Section page.
Context (range : ∀ {A : Type}, gmap Z A → list (Z * A)).
Context (humanizeBytes : Z → string).
Context (build : BuildInfo).

Definition osRows (s : Stats) : list osOpStatsRow :=
  (λ '(op, data), {| osName := default "" (osOpNames !! op);
                     osLocalCount := LocalCount data;
                     osRemoteCount := RemoteCount data |}) <$> range _ (GetOsOpStats s).

Definition fuseRows (s : Stats) : list fuseOpStatsRow :=
  (λ '(op, data), {| fuName := default "" (fuseOpNames !! op);
                     fuCacheHits := CacheHits data;
                     fuCacheMisses := CacheMisses data;
                     fuDirect := Direct data |}) <$> range _ (GetFuseOpStats s).

Definition statusData (root mountPoint : string) (s : Stats) : StatusData :=
  let readStats := GetReadStats s in
  {| BuildTimestamp := buildTimestamp build;
     BuildWhere := buildWhere build;
     GitRevision := gitRevision build;
     StatsRoot := root;
     MountPoint := mountPoint;
     OsOpStats := Sort osOpStatsSlice_Less (osRows s);
     FuseOpStats := Sort fuseOpStatsSlice_Less (fuseRows s);
     LocalBytes := humanizeBytes (default 0 (readStats !! LocalDomain));
     RemoteBytes := humanizeBytes (default 0 (readStats !! RemoteDomain)) |}.

(** [template.Must] panics on a template that does not parse. *)
Definition Must {A} (o : outcome A) : outcome A :=
  match o with Err e => Panic (error_string e) | _ => o end.

Definition generateStatusPage {W} (write : string → GoM W ()) (root mountPoint : string)
    (s : Stats) : GoM W () :=
  statusTemplate ← go_lift (Must (Parse statusHTML));
  Execute write statusTemplate (data_value (statusData root mountPoint s)).

(** [http.HandleFunc] panics on a second registration of a pattern. *)
Definition HandleFunc (pattern : string) (h : Handler) : GoM (gmap string Handler) () := λ mux,
  match mux !! pattern with
  | Some _ => (Panic "http: multiple registrations", mux)
  | None => (Ret (), <[pattern := h]> mux)
  end.

Definition SetupHTTPHandlers (root : string) : GoM (gmap string Handler) () :=
  if (String.length (buildTimestamp build) =? 0)%nat then go_panic "Missing build timestamp"
  else if (String.length (buildWhere build) =? 0)%nat then go_panic "Missing build where"
  else if (String.length (gitRevision build) =? 0)%nat then go_panic "Missing git revision"
  else
    HandleFunc (root +:+ "/summary") SummaryHandler;;
    HandleFunc (root +:+ "/clear") ClearHandler.

(** [listen] is what [http.ListenAndServe] comes to: it does not return while the server runs. *)
Definition runHTTPServer (listen : outcome ()) : GoM (gmap string Handler) () :=
  SetupHTTPHandlers "/stats";;
  HandleFunc "/" RootHandler;;
  r ← go_try (go_lift listen);
  match r with
  | inl err => go_fatal ("cannot start HTTP server: " +:+ error_string err)
  | inr _ => go_ret ()
  end.

(** What each closure does with a request. *)
Definition on_stats {A} : GoM Stats A → GoM (Stats * list Effect) A :=
  go_zoom fst (λ s st, (s, st.2)).
Definition on_response {A} : GoM (list Effect) A → GoM (Stats * list Effect) A :=
  go_zoom snd (λ resp st, (st.1, resp)).

Definition serve (accepts : list Effect → string → option error) (root mountPoint : string)
    (h : Handler) : GoM (Stats * list Effect) () :=
  match h with
  | SummaryHandler =>
      s ← on_stats go_get;
      r ← go_try (on_response (generateStatusPage (write_response accepts) root mountPoint s));
      match r with
      | inl err => on_response (respond (HttpError (error_string err)))
      | inr _ => go_ret ()
      end
  | ClearHandler => on_stats Clear;; on_response (respond (Redirect (root +:+ "/summary")))
  | RootHandler => on_response (respond (Redirect "/stats/summary"))
  end.
End page.

(** * Sorting rows by name *)

Lemma not_after_le (a b : string) : name_less b a = false ↔ String.le a b.
Proof.
  unfold name_less, String.le, String.leb. rewrite String.compare_antisym.
  destruct (String.compare a b); simpl; naive_solver.
Qed.

Section sort_by_name.
Context {A : Type} (name : A → string).
Let less (a b : A) : bool := name_less (name a) (name b).

#[local] Instance not_after_trans : Transitive (not_after less).
Proof. intros a b c. unfold not_after, less. rewrite !not_after_le. apply transitivity. Qed.
#[local] Instance not_after_total : Total (not_after less).
Proof. intros a b. unfold not_after, less. rewrite !not_after_le. apply String.le_total. Qed.

(** With distinct names the sorted slice is determined by the set of its rows. *)
Lemma Sort_unique (l sorted : list A) :
  Permutation l sorted → Sorted (not_after less) sorted → NoDup (name <$> sorted) →
  Sort less l = sorted.
Proof.
  intros P Hs Hnd. unfold Sort.
  apply (Sorted_unique_strong (not_after less)).
  - intros x1 x2 H1 H2. unfold not_after, less. rewrite !not_after_le. intros L1 L2.
    assert (name x1 = name x2) as E by (by apply (anti_symm String.le)).
    assert (x1 ∈ sorted) as H1'.
    { rewrite <- P. by rewrite merge_sort_Permutation in H1. }
    clear -E H1' H2 Hnd. induction sorted as [|y l' IH]; [by apply elem_of_nil in H1'|].
    rewrite fmap_cons in Hnd. apply NoDup_cons in Hnd as [Hy Hnd].
    apply elem_of_cons in H1' as [->|H1'], H2 as [->|H2].
    + done.
    + destruct Hy. rewrite E. by apply list_elem_of_fmap_2.
    + destruct Hy. rewrite <- E. by apply list_elem_of_fmap_2.
    + by apply IH.
  - apply Sorted_merge_sort. apply _.
  - done.
  - by rewrite merge_sort_Permutation.
Qed.

Lemma Swap_permutes i j (l l' : list A) :
  slice_Swap i j l = (Ret tt, l') → Permutation l l'.
Proof.
  unfold slice_Swap. destruct (l !! i) as [a|] eqn:Hi, (l !! j) as [b|] eqn:Hj; intros [= <-].
  apply Permutation_inj. split; [by rewrite !length_insert|].
  exists (λ k, if decide (k = i) then j else if decide (k = j) then i else k). split.
  - intros k k'. repeat case_decide; congruence.
  - intros k. pose proof (lookup_lt_Some _ _ _ Hi). pose proof (lookup_lt_Some _ _ _ Hj).
    repeat case_decide; subst; rewrite ?list_lookup_insert_eq by (by rewrite ?length_insert); [done| |].
    + by rewrite list_lookup_insert_ne, list_lookup_insert_eq by done.
    + by rewrite !list_lookup_insert_ne by done.
Qed.

Lemma in_order_sorted (l : list A) :
  (∀ i j, (i < j < length l)%nat → slice_Less less l j i = Ret false) → Sorted (not_after less) l.
Proof.
  intros Hl. apply StronglySorted_Sorted. induction l as [|a l IH]; [constructor|].
  apply StronglySorted_cons. split.
  - apply Forall_lookup. intros j b Hj. specialize (Hl 0%nat (S j)). unfold slice_Less in Hl.
    simpl in Hl. rewrite Hj in Hl. apply lookup_lt_Some in Hj. unfold not_after.
    assert (Ret (less b a) = Ret false) as [= ->] by (apply Hl; lia). done.
  - apply IH. intros i j Hij. apply (Hl (S i) (S j)). simpl. lia.
Qed.

(** Whatever a sorting algorithm does, it ends with [Sort]'s list. *)
Lemma Sort_any (l l' : list A) :
  NoDup (name <$> l) → Permutation l l' →
  (∀ i j, (i < j < length l')%nat → slice_Less less l' j i = Ret false) → l' = Sort less l.
Proof.
  intros Hnd Hp Ho. symmetry. apply Sort_unique; [done|by apply in_order_sorted|].
  by rewrite <- Hp.
Qed.
End sort_by_name.

Lemma swapped_permutes {A} (less : A → A → bool) (l l' : list A) :
  swapped (H := {| Len := length; Less := slice_Less less; Swap := slice_Swap |}) l l' →
  Permutation l l'.
Proof. induction 1 as [|l1 i j l2 _ IH Hs]; [done|]. etrans; [exact IH|by eapply Swap_permutes]. Qed.

(** Any algorithm that orders the rows of the page, which have different names, through the
    methods of [sort.Interface] ends with the rows in the order of [Sort]. *)
Lemma Sort_is_sort (oss oss' : list osOpStatsRow) (fuses fuses' : list fuseOpStatsRow) :
  (NoDup (osName <$> oss) → swapped oss oss' → in_order oss' → oss' = Sort osOpStatsSlice_Less oss) ∧
  (NoDup (fuName <$> fuses) → swapped fuses fuses' → in_order fuses' →
   fuses' = Sort fuseOpStatsSlice_Less fuses).
Proof.
  split; intros Hnd Hs Ho; (eapply Sort_any; [exact Hnd|by eapply swapped_permutes|exact Ho]).
Qed.

(** A map whose keys are the members of a duplicate-free list, as the list of its pairs. *)
Lemma map_to_list_keys {A} (m : gmap Z A) (d : A) (ks : list Z) :
  NoDup ks → (∀ k, is_Some (m !! k) ↔ k ∈ ks) →
  Permutation (map_to_list m) ((λ k, (k, default d (m !! k))) <$> ks).
Proof.
  intros Hnd Hk. apply NoDup_Permutation.
  - apply NoDup_map_to_list.
  - apply NoDup_fmap_2; [|done]. by intros ?? [= ->].
  - intros [k v]. rewrite elem_of_map_to_list, list_elem_of_fmap. split.
    + intros Hm. exists k. rewrite Hm. split; [done|]. apply Hk. by eexists.
    + intros (k' & [= -> ->] & Hin). apply Hk in Hin as [v' Hv']. by rewrite Hv'.
Qed.

(** The rows of the page in the order in which it shows them. *)
Definition page_os_rows (s : Stats) : list osOpStatsRow :=
  (λ op, {| osName := default "" (osOpNames !! op);
            osLocalCount := counter (COs LocalDomain op) s;
            osRemoteCount := counter (COs RemoteDomain op) s |}) <$> allOsOps.

Definition page_fuse_rows (s : Stats) : list fuseOpStatsRow :=
  (λ op, {| fuName := default "" (fuseOpNames !! op);
            fuCacheHits := counter (CHit op) s;
            fuCacheMisses := counter (CMiss op) s;
            fuDirect := counter (CDirect op) s |}) <$> allFuseOps.

Lemma osRows_sorted (range : ∀ {A : Type}, gmap Z A → list (Z * A)) (s : Stats) :
  (∀ A (m : gmap Z A), Permutation (range m) (map_to_list m)) → stats_wf s →
  Sort osOpStatsSlice_Less (osRows (@range) s) = page_os_rows s.
Proof.
  intros Hr W. apply (Sort_unique osName).
  - unfold osRows. rewrite Hr. unfold GetOsOpStats.
    rewrite (map_to_list_keys _ {| LocalCount := 0; RemoteCount := 0 |} allOsOps).
    + rewrite <- list_fmap_compose. unfold page_os_rows. apply reflexive_eq, list_fmap_ext.
      intros i op Hi. simpl. rewrite lookup_fmap.
      destruct (osOpStats s !! op); simpl; done.
    + by apply (bool_decide_unpack _); vm_compute.
    + intros k. rewrite lookup_fmap, fmap_is_Some. apply (wf_os_dom _ W).
  - repeat constructor.
  - by apply (bool_decide_unpack _); vm_compute.
Qed.

Lemma fuseRows_sorted (range : ∀ {A : Type}, gmap Z A → list (Z * A)) (s : Stats) :
  (∀ A (m : gmap Z A), Permutation (range m) (map_to_list m)) → stats_wf s →
  Sort fuseOpStatsSlice_Less (fuseRows (@range) s) = page_fuse_rows s.
Proof.
  intros Hr W. apply (Sort_unique fuName).
  - unfold fuseRows. rewrite Hr. unfold GetFuseOpStats.
    rewrite (map_to_list_keys _ {| CacheHits := 0; CacheMisses := 0; Direct := 0 |} allFuseOps).
    + rewrite <- list_fmap_compose. unfold page_fuse_rows. apply reflexive_eq, list_fmap_ext.
      intros i op Hi. simpl. rewrite lookup_fmap.
      destruct (fuseOpStats s !! op); simpl; done.
    + by apply (bool_decide_unpack _); vm_compute.
    + intros k. rewrite lookup_fmap, fmap_is_Some. apply (wf_fuse_dom _ W).
  - repeat constructor.
  - by apply (bool_decide_unpack _); vm_compute.
Qed.

(** * The page as a browser reads it

    A reader of HTML that delivers the tags of a page and the texts of its table cells. *)
Inductive event : Type := Tag (tag : string) | Cell (text : string).

Inductive reading : Type :=
  | ReadTag (tag : string)             (* after "<" *)
  | ReadText (cell : option string).   (* between tags; the text so far when in a cell *)

Definition read_char (r : reading) (c : ascii) : list event * reading :=
  match r with
  | ReadTag tag =>
      if bool_decide (c = ">"%char) then
        ([Tag tag], ReadText (if bool_decide (tag = "td") then Some "" else None))
      else ([], ReadTag (tag +:+ String c ""))
  | ReadText cell =>
      if bool_decide (c = "<"%char) then
        (match cell with Some text => [Cell text] | None => [] end, ReadTag "")
      else ([], ReadText ((λ text, text +:+ String c "") <$> cell))
  end.

Fixpoint read_html (r : reading) (s : string) : list event * reading :=
  match s with
  | EmptyString => ([], r)
  | String c s' =>
      let '(es1, r1) := read_char r c in
      let '(es2, r2) := read_html r1 s' in
      (es1 ++ es2, r2)
  end.

Lemma read_html_app r s1 s2 :
  read_html r (s1 +:+ s2) =
    let '(es1, r1) := read_html r s1 in
    let '(es2, r2) := read_html r1 s2 in (es1 ++ es2, r2).
Proof.
  revert r. induction s1 as [|c s1 IH]; intros r.
  - change ("" +:+ s2) with s2. simpl. by destruct (read_html r s2).
  - change (String c s1 +:+ s2) with (String c (s1 +:+ s2)). simpl.
    destruct (read_char r c) as [es1 r1]. rewrite IH.
    destruct (read_html r1 s1) as [es2 r2]. destruct (read_html r2 s2) as [es3 r3].
    by rewrite app_assoc.
Qed.

Lemma read_text_inert cell v :
  has_char "<" v = false →
  read_html (ReadText cell) v = ([], ReadText ((λ text, text +:+ v) <$> cell)).
Proof.
  revert cell. induction v as [|c v IH]; intros cell H; simpl.
  - destruct cell; simpl; by rewrite ?string_app_nil_r.
  - simpl in H. apply orb_false_elim in H as [Hc Hv]. apply bool_decide_eq_false in Hc.
    rewrite bool_decide_eq_false_2 by (intros ->; by destruct Hc). rewrite IH by done.
    destruct cell; simpl; by rewrite ?string_app_assoc.
Qed.

Lemma read_tag_inert tag v :
  has_char ">" v = false → read_html (ReadTag tag) v = ([], ReadTag (tag +:+ v)).
Proof.
  revert tag. induction v as [|c v IH]; intros tag H; simpl.
  - by rewrite string_app_nil_r.
  - simpl in H. apply orb_false_elim in H as [Hc Hv]. apply bool_decide_eq_false in Hc.
    rewrite bool_decide_eq_false_2 by (intros ->; by destruct Hc). rewrite IH by done.
    by rewrite string_app_assoc.
Qed.

(** A writer that reads what is written to it. *)
Definition read_write (piece : string) : GoM (list event * reading) () := λ '(es, r),
  let '(es', r') := read_html r piece in (Ret (), (es ++ es', r')).

Definition concat_string (pieces : list string) : string := foldr String.append "" pieces.

Lemma read_write_pieces pieces es r :
  go_for pieces read_write (es, r) =
    (Ret (), (es ++ (read_html r (concat_string pieces)).1, (read_html r (concat_string pieces)).2)).
Proof.
  revert es r. induction pieces as [|p ps IH]; intros es r; simpl.
  - unfold go_ret. by rewrite app_nil_r.
  - unfold go_bind, read_write at 1. rewrite read_html_app.
    destruct (read_html r p) as [es1 r1]. rewrite IH.
    destruct (read_html r1 (concat_string ps)) as [es2 r2]. simpl. by rewrite app_assoc.
Qed.

(** The tags and cells the page has to have. *)
Definition td (text : string) : list event := [Tag "td"; Cell text; Tag "/td"].
Definition th : list event := [Tag "th"; Tag "/th"].
Definition tr (cells : list event) : list event := Tag "tr" :: cells ++ [Tag "/tr"].
Definition elem (name : string) (body : list event) : list event :=
  Tag name :: body ++ [Tag ("/" +:+ name)].
Definition link (href : string) : list event := [Tag ("a href=" +:+ quoted href); Tag "/a"].

Definition fuse_events (row : fuseOpStatsRow) : list event :=
  tr (td (html_escape (fuName row)) ++ td (html_escape (FormatUint (fuCacheHits row))) ++
      td (html_escape (FormatUint (fuCacheMisses row))) ++
      td (html_escape (FormatUint (fuDirect row)))).

Definition os_events (row : osOpStatsRow) : list event :=
  tr (td (html_escape (osName row)) ++ td (html_escape (FormatUint (osLocalCount row))) ++
      td (html_escape (FormatUint (osRemoteCount row)))).

(** The value of an [href] attribute that starts with a Go string. *)
Definition url_attr (url : string) : string := html_escape (url_normalize (url_filter url)).

Definition page_events (root local remote : string) (fuses : list fuseOpStatsRow)
    (oss : list osOpStatsRow) : list event :=
  elem "html" (
    elem "head" (
      elem "title" [] ++ [Tag ("style type=" +:+ quoted "text/css"); Tag "/style"]) ++
    elem "body" (
      elem "h1" [] ++ elem "p" [Tag "br/"] ++ elem "p" (link "/debug/pprof/") ++
      elem "p" (link (url_attr root +:+ "/clear")) ++
      elem "h2" [] ++ elem "p" [] ++
      elem "table" (tr (th ++ th ++ th ++ th) ++ (fuses ≫= fuse_events)) ++
      elem "h2" [] ++ elem "p" [] ++
      elem "table" (tr (th ++ th ++ th) ++ (oss ≫= os_events)) ++
      elem "p" [] ++
      elem "table" (tr (th ++ th ++ th) ++
                    tr (td "Read" ++ td (html_escape local) ++ td (html_escape remote))) ++
      elem "p" [])).

(** The template, parsed and escaped. *)
Definition status_tree : list (node (list escaper)) :=
  Eval vm_compute in
    match t ← Parse statusHTML; escape t with Ret ns => ns | _ => [] end.

Lemma status_tree_parsed : (t ← Parse statusHTML; escape t) = Ret status_tree.
Proof. vm_compute. reflexivity. Qed.

(** ** Executing the template into the reader *)

Lemma exec_text text ns dot es r es' r' w :
  read_html r text = (es', r') →
  exec_list read_write ns dot (es ++ es', r') = w →
  exec_list read_write (TextNode text :: ns) dot (es, r) = w.
Proof. intros H <-. simpl. unfold mbind, go_mbind, go_bind, read_write at 1. by rewrite H. Qed.

(** Text that ends a tag with a part that is not known. *)
Lemma exec_text_tag v rest text ns dot es tag es' r' w :
  text = v +:+ String ">" rest → has_char ">" v = false →
  bool_decide (tag +:+ v = "td") = false →
  read_html (ReadText None) rest = (es', r') →
  exec_list read_write ns dot (es ++ Tag (tag +:+ v) :: es', r') = w →
  exec_list read_write (TextNode text :: ns) dot (es, ReadTag tag) = w.
Proof.
  intros -> Hv Htd Hr. apply exec_text. rewrite read_html_app, read_tag_inert by done.
  simpl. by rewrite Htd, Hr.
Qed.

Lemma exec_field name esc ns dot s v es r w :
  field_of dot name = Ret v → print_value v = Ret s →
  exec_list read_write ns dot (es ++ (read_html r (run_pipeline esc s)).1,
                               (read_html r (run_pipeline esc s)).2) = w →
  exec_list read_write (FieldNode name esc :: ns) dot (es, r) = w.
Proof.
  intros Hv Hs <-. simpl. unfold mbind, go_mbind, go_bind, outcome_mbind, go_lift.
  rewrite Hv, Hs. unfold read_write at 1. by destruct (read_html _ _).
Qed.

(** A field in the text of the page or in a cell, and one in a tag. *)
Lemma exec_field_text name esc ns dot s v es cell w :
  field_of dot name = Ret v → print_value v = Ret s → ends_escaped esc = true →
  (∀ t, t = run_pipeline esc s →
     exec_list read_write ns dot (es, ReadText ((λ text, text +:+ t) <$> cell)) = w) →
  exec_list read_write (FieldNode name esc :: ns) dot (es, ReadText cell) = w.
Proof.
  intros Hv Hs He Hw. eapply exec_field; [done..|]. rewrite <- (Hw _ eq_refl).
  rewrite read_text_inert by by apply has_char_run_pipeline. by rewrite app_nil_r.
Qed.

Lemma exec_field_tag name esc ns dot s v es tag w :
  field_of dot name = Ret v → print_value v = Ret s → ends_escaped esc = true →
  (∀ t, t = run_pipeline esc s →
     exec_list read_write ns dot (es, ReadTag (tag +:+ t)) = w) →
  exec_list read_write (FieldNode name esc :: ns) dot (es, ReadTag tag) = w.
Proof.
  intros Hv Hs He Hw. eapply exec_field; [done..|]. rewrite <- (Hw _ eq_refl).
  rewrite read_tag_inert by by apply has_char_run_pipeline. by rewrite app_nil_r.
Qed.

Lemma exec_range {A} (val : A → value) (f : A → list event) name body ns dot rows es w :
  field_of dot name = Ret (VSlice (val <$> rows)) →
  (∀ row es, exec_list read_write body (val row) (es, ReadText None)
             = (Ret (), (es ++ f row, ReadText None))) →
  exec_list read_write ns dot (es ++ (rows ≫= f), ReadText None) = w →
  exec_list read_write (RangeNode name body :: ns) dot (es, ReadText None) = w.
Proof.
  intros Hv Hrow <-. simpl. unfold mbind at 1 2, go_mbind, go_bind, go_lift. rewrite Hv.
  rewrite (go_for_ext _ _ (exec_list read_write body)) by (intros; apply exec_list_inner).
  enough (go_for (val <$> rows) (exec_list read_write body) (es, ReadText None)
          = (Ret (), (es ++ (rows ≫= f), ReadText None))) as -> by done.
  clear -Hrow. revert es. induction rows as [|row rows IH]; intros es; simpl.
  - by rewrite app_nil_r.
  - unfold go_bind. rewrite Hrow, IH. by rewrite app_assoc.
Qed.

Ltac exec_node :=
  lazymatch goal with
  | |- exec_list _ (TextNode _ :: _) _ _ = _ =>
      eapply exec_text; [vm_compute; reflexivity|]
  | |- exec_list _ (FieldNode _ _ :: _) _ (_, ReadText _) = _ =>
      eapply exec_field_text; [reflexivity|reflexivity|reflexivity|intros ? ?]
  | |- exec_list _ (FieldNode _ _ :: _) _ (_, ReadTag _) = _ =>
      eapply exec_field_tag; [reflexivity|reflexivity|reflexivity|intros ? ?]
  end.
Ltac exec_nodes := repeat exec_node.

(** The bodies of the two ranges. *)
Definition range_body (field : string) : list (node (list escaper)) :=
  foldr (λ n body, match n with
                   | RangeNode name b => if bool_decide (name = field) then b else body
                   | _ => body
                   end) [] status_tree.

Ltac eval_body :=
  match goal with
  | |- context [range_body ?f] =>
      let b := eval vm_compute in (range_body f) in change (range_body f) with b
  end.

Lemma exec_fuse_row row es :
  exec_list read_write (range_body "FuseOpStats") (fuse_value row) (es, ReadText None)
  = (Ret (), (es ++ fuse_events row, ReadText None)).
Proof.
  eval_body. exec_nodes. cbn [exec_list]. subst. unfold go_ret. do 2 f_equal.
  unfold fuse_events, tr, td. simpl. by rewrite <- !app_assoc.
Qed.

Lemma exec_os_row row es :
  exec_list read_write (range_body "OsOpStats") (os_value row) (es, ReadText None)
  = (Ret (), (es ++ os_events row, ReadText None)).
Proof.
  eval_body. exec_nodes. cbn [exec_list]. subst. unfold go_ret. do 2 f_equal.
  unfold os_events, tr, td. simpl. by rewrite <- !app_assoc.
Qed.

(** What a reader makes of the page for the data [d]. *)
Lemma exec_status d :
  exec_list read_write status_tree (data_value d) ([], ReadText None)
  = (Ret (), (page_events (StatsRoot d) (LocalBytes d) (RemoteBytes d) (FuseOpStats d)
                (OsOpStats d), ReadText None)).
Proof.
  unfold status_tree. do 12 exec_node.
  eapply (exec_text_tag ("/clear" +:+ quote)); [reflexivity..|vm_compute; reflexivity|].
  exec_nodes.
  eapply (exec_range fuse_value fuse_events); [reflexivity|intros; apply exec_fuse_row|].
  exec_nodes.
  eapply (exec_range os_value os_events); [reflexivity|intros; apply exec_os_row|].
  exec_nodes. cbn [exec_list]. subst. unfold go_ret. do 2 f_equal.
  unfold page_events, elem, link, quoted, tr, th, td. simpl.
  rewrite <- !app_assoc. simpl.
  rewrite <- !app_assoc, !string_app_assoc. reflexivity.
Qed.

Section page_theorems.
Context (range : ∀ {A : Type}, gmap Z A → list (Z * A)).
Context (humanizeBytes : Z → string).
Context (build : BuildInfo).

Lemma generateStatusPage_exec {W} (write : string → GoM W ()) root mountPoint s w :
  generateStatusPage (@range) humanizeBytes build write root mountPoint s w =
  exec_list write status_tree
    (data_value (statusData (@range) humanizeBytes build root mountPoint s)) w.
Proof.
  unfold generateStatusPage, Execute, mbind, go_mbind, go_bind, go_lift.
  pose proof status_tree_parsed as H. unfold mbind, outcome_mbind in H.
  destruct (Parse statusHTML) as [t| | | |]; try discriminate. simpl. by rewrite H.
Qed.
End page_theorems.

(** The page of well-formed statistics, as a sequence of writes. *)
Lemma page_pieces (range : ∀ {A : Type}, gmap Z A → list (Z * A))
    (humanizeBytes : Z → string) (build : BuildInfo) (root mountPoint : string) (s : Stats) :
  (∀ A (m : gmap Z A), Permutation (range m) (map_to_list m)) → stats_wf s →
  ∃ pieces,
    (∀ W (write : string → GoM W ()) w,
       generateStatusPage (@range) humanizeBytes build write root mountPoint s w =
       go_for pieces write w) ∧
    read_html (ReadText None) (concat_string pieces) =
      (page_events root (humanizeBytes (counter (CRead LocalDomain) s))
         (humanizeBytes (counter (CRead RemoteDomain) s)) (page_fuse_rows s) (page_os_rows s),
       ReadText None).
Proof.
  intros Hr W. set (d := statusData (@range) humanizeBytes build root mountPoint s).
  destruct (exec_list_pieces status_tree (data_value d)) as (ps & o & Hps).
  { apply Forall_forall. auto using exec_node_pieces. }
  pose proof (exec_status d) as E. rewrite (Hps _ read_write) in E.
  unfold mbind, go_mbind, go_bind, go_lift in E. rewrite read_write_pieces in E.
  destruct (read_html _ (concat_string ps)) as [es r] eqn:Er. simpl in E.
  injection E as -> -> ->. exists ps. split.
  - intros W' write w. rewrite generateStatusPage_exec, (Hps _ write).
    unfold mbind, go_mbind, go_bind, go_lift. by destruct (go_for ps write w) as [[[]| | | |] ?].
  - rewrite Er. unfold d, statusData. cbn [StatsRoot LocalBytes RemoteBytes FuseOpStats OsOpStats].
    rewrite osRows_sorted, fuseRows_sorted by done. unfold GetReadStats. rewrite !lookup_fmap.
    simpl. by destruct (readStats s !! LocalDomain), (readStats s !! RemoteDomain).
Qed.

(** * Properties *)

(** C40 (functional).  Whatever order the runtime iterates over the maps in and whatever becomes
    of the response, the handler of well-formed statistics writes the pieces of one page, in
    order and as far as the connection takes them: neither the template nor its execution ever
    fails.  Read as HTML, the page has the tags of the template, whatever the texts put into it,
    and its tables hold one row per FUSE operation and per OS operation, in alphabetical order
    of their names, each with its current counters, and the bytes read per domain. *)
Theorem generateStatusPage_shows (range : ∀ {A : Type}, gmap Z A → list (Z * A))
    (humanizeBytes : Z → string) (build : BuildInfo) (root mountPoint : string) (s : Stats) :
  (∀ A (m : gmap Z A), Permutation (range m) (map_to_list m)) → stats_wf s →
  ∃ pieces,
    (∀ W (write : string → GoM W ()) w,
       generateStatusPage (@range) humanizeBytes build write root mountPoint s w =
       go_for pieces write w) ∧
    read_html (ReadText None) (concat_string pieces) =
      (page_events root (humanizeBytes (counter (CRead LocalDomain) s))
         (humanizeBytes (counter (CRead RemoteDomain) s)) (page_fuse_rows s) (page_os_rows s),
       ReadText None).
Proof. apply page_pieces. Qed.

Lemma generateStatusPage_shows_witness :
  ∃ pieces,
    (∀ W (write : string → GoM W ()) w,
       generateStatusPage (λ A m, reverse (map_to_list m)) (λ _, "<0 B>")
         {| buildTimestamp := "t"; buildWhere := "w"; gitRevision := "r" |} write "/stats"
         "/mnt/<script>" NewStats w = go_for pieces write w) ∧
    read_html (ReadText None) (concat_string pieces) =
      (page_events "/stats" "<0 B>" "<0 B>" (page_fuse_rows NewStats) (page_os_rows NewStats),
       ReadText None).
Proof.
  apply (generateStatusPage_shows (λ A m, reverse (map_to_list m))).
  - intros A m. apply reverse_Permutation.
  - exact NewStats_wf.
Defined.

(** The start and the rows of that page. *)
Example page_example :
  let page := generateStatusPage (λ A, map_to_list) (λ _, "<0 B>")
                {| buildTimestamp := "t"; buildWhere := "w"; gitRevision := "r" |}
                (λ piece page, (Ret (), page +:+ piece)) "/stats" "/mnt/<script>" NewStats "" in
  page.1 = Ret () ∧
  String.prefix (newline +:+ "<html>" +:+ newline +:+ "<head>" +:+ newline
                 +:+ "<title>sourcachefs on /stats</title>") page.2 = true ∧
  String.index 0 "<h1>sourcachefs on /mnt/&lt;script&gt;</h1>" page.2 <> None ∧
  String.index 0 ("<a href=" +:+ quoted "/stats/clear" +:+ ">Clear stats</a>") page.2 <> None ∧
  String.index 0 "<td>&lt;0 B&gt;</td>" page.2 <> None.
Proof. vm_compute. repeat split; discriminate. Qed.

(** The HTTP server panics, before installing any endpoint, exactly when one of the three
    linker-provided variables is empty; otherwise it installs the summary, the clear and the root
    handler, and then exits the process when it cannot listen. *)
Theorem runHTTPServer_spec (build : BuildInfo) (listen : outcome ()) :
  (∃ msg, runHTTPServer build listen ∅ = (Panic msg, ∅)) ∧
    (buildTimestamp build = "" ∨ buildWhere build = "" ∨ gitRevision build = "")
  ∨ buildTimestamp build ≠ "" ∧ buildWhere build ≠ "" ∧ gitRevision build ≠ "" ∧
    runHTTPServer build listen ∅ =
      (match listen with Err e => Fatal ("cannot start HTTP server: " +:+ error_string e) | o => o end,
       {["/" := RootHandler; "/stats/clear" := ClearHandler; "/stats/summary" := SummaryHandler]}).
Proof.
  destruct build as [t w r]. unfold runHTTPServer, SetupHTTPHandlers,
    mbind, go_mbind, go_bind; simpl.
  destruct t; [left; split; [by eexists|auto]|].
  destruct w; [left; split; [by eexists|auto]|].
  destruct r; [left; split; [by eexists|auto]|].
  right. split_and!; [done..|]. by destruct listen as [[]| | | |].
Qed.

(** Writing to a connection: the pieces that it takes, and an error for the first one that it
    does not. *)
Lemma write_pieces accepts pieces resp :
  ∃ sent, sent `prefix_of` pieces ∧
    ((sent = pieces ∧
        go_for pieces (write_response accepts) resp = (Ret (), resp ++ (Wrote <$> sent))) ∨
     ∃ err, go_for pieces (write_response accepts) resp = (Err err, resp ++ (Wrote <$> sent))).
Proof.
  revert resp. induction pieces as [|p ps IH]; intros resp; simpl.
  - exists []. split; [done|]. left. split; [done|]. unfold go_ret. by rewrite app_nil_r.
  - unfold go_bind.
    assert (write_response accepts p resp = match accepts resp p with
      | Some err => (Err err, resp) | None => (Ret (), resp ++ [Wrote p]) end) as -> by done.
    destruct (accepts resp p) as [err|].
    + exists []. split; [apply prefix_nil|]. right. exists err. simpl. by rewrite app_nil_r.
    + destruct (IH (resp ++ [Wrote p])) as (sent & Hp & H). exists (p :: sent).
      split; [by apply prefix_cons|]. rewrite fmap_cons.
      destruct H as [[Hs H]|[err H]]; [left; subst sent; split; [done|]|right; exists err].
      all: by rewrite <- app_assoc in H.
Qed.

(** A request for the summary leaves the statistics alone and always returns: it has sent the
    page, or the part of the page that the connection took and then an attempt at an error. *)
Theorem serve_summary (range : ∀ {A : Type}, gmap Z A → list (Z * A))
    (humanizeBytes : Z → string) (build : BuildInfo) accepts root mountPoint s :
  (∀ A (m : gmap Z A), Permutation (range m) (map_to_list m)) → stats_wf s →
  ∃ pieces sent,
    sent `prefix_of` pieces ∧
    (read_html (ReadText None) (concat_string pieces)).1 =
      page_events root (humanizeBytes (counter (CRead LocalDomain) s))
        (humanizeBytes (counter (CRead RemoteDomain) s)) (page_fuse_rows s) (page_os_rows s) ∧
    (sent = pieces ∧
       serve (@range) humanizeBytes build accepts root mountPoint SummaryHandler (s, [])
       = (Ret (), (s, Wrote <$> sent)) ∨
     ∃ err,
       serve (@range) humanizeBytes build accepts root mountPoint SummaryHandler (s, [])
       = (Ret (), (s, (Wrote <$> sent) ++ [HttpError (error_string err)]))).
Proof.
  intros Hr W.
  destruct (page_pieces (@range) humanizeBytes build root mountPoint s Hr W)
    as (pieces & Hgen & Hread).
  destruct (write_pieces accepts pieces []) as (sent & Hp & H).
  exists pieces, sent. split; [done|]. split; [by rewrite Hread|].
  unfold serve, on_stats, on_response, mbind, go_mbind, go_bind, go_try, go_zoom, go_get.
  cbn [fst snd]. rewrite Hgen. destruct H as [[-> ->]|[err ->]]; simpl; eauto.
Qed.

(** A request to the clear endpoint of well-formed statistics redirects to the summary and
    leaves every counter at zero; the root handler redirects and leaves the statistics alone. *)
Theorem serve_redirects (range : ∀ {A : Type}, gmap Z A → list (Z * A))
    (humanizeBytes : Z → string) (build : BuildInfo) accepts root mountPoint s :
  stats_wf s →
  (∃ s', serve (@range) humanizeBytes build accepts root mountPoint ClearHandler (s, [])
         = (Ret (), (s', [Redirect (root +:+ "/summary")])) ∧ ∀ c, counter c s' = 0) ∧
  serve (@range) humanizeBytes build accepts root mountPoint RootHandler (s, [])
  = (Ret (), (s, [Redirect "/stats/summary"])).
Proof.
  intros W. split; [|done]. exists NewStats. split; [|apply counter_NewStats].
  unfold serve, on_stats, on_response, mbind, go_mbind, go_bind, go_zoom. simpl.
  by rewrite go_clear_NewStats.
Qed.
