(* ===== verification/Types.v ===== *)
(** Shared data: internal/cache/types.go, the parts of [os.FileMode] and [os.FileInfo] the
    program uses, and file modes as the type names of the metadata database
    (sqlTypeName of internal/cache/metadata.go). *)
From S2P Require Import Prelude GoStrings GoPath.
#[local] Open Scope Z_scope.

(** * os.FileMode: a [uint32] whose high bits are the file type *)

Definition ModeDir : Z := 2 ^ 31.
Definition ModeSymlink : Z := 2 ^ 27.
Definition ModeDevice : Z := 2 ^ 26.
Definition ModeNamedPipe : Z := 2 ^ 25.
Definition ModeSocket : Z := 2 ^ 24.
Definition ModeCharDevice : Z := 2 ^ 21.
Definition ModeIrregular : Z := 2 ^ 19.

(** [os.ModeType], the mask for the type bits. *)
Definition ModeType : Z :=
  foldr Z.lor 0 [ModeDir; ModeSymlink; ModeNamedPipe; ModeSocket; ModeDevice; ModeCharDevice;
                 ModeIrregular].

(** [^os.ModeType] on 32 bits. *)
Definition NotModeType : Z := Z.lxor ModeType (2 ^ 32 - 1).

Definition FileMode_IsDir (m : Z) : bool := negb (Z.land m ModeDir =? 0).

(** * os.FileInfo

    [os.Lstat] and [Readdir] return one, and [cachedFileInfo] implements the interface from the
    database; the program reads these four fields.  [ModTime] is a point in time, counted in
    nanoseconds from the Unix epoch. *)
Record FileInfo : Type := { Name : string; Size : Z; Mode : Z; ModTime : Z }.

#[export] Instance FileInfo_eq_dec : EqDecision FileInfo.
Proof. solve_decision. Defined.

Definition newFileInfo (path : string) (size mode mtime : Z) : FileInfo :=
  {| Name := Base path; Size := size; Mode := mode; ModTime := mtime |}.

Definition cachedFileInfo_IsDir (fi : FileInfo) : bool := FileMode_IsDir (Mode fi).

(** The values that occur: [int64] sizes and [uint32] modes. *)
Record FileInfo_wf (fi : FileInfo) : Prop := {
  fi_size : is_int64 (Size fi);
  fi_mode : is_uint32 (Mode fi);
}.

(** [time.Time.UnixNano] and [time.Unix(0, ns)]. *)
Definition UnixNano (t : Z) : Z := int64 t.
Definition Unix (sec nsec : Z) : Z := sec * 1000000000 + nsec.

(** * The cache's rows *)

Record OneDirEntry : Type := { Valid : bool; EntInode : Z; EntModeType : Z }.

#[export] Instance OneDirEntry_eq_dec : EqDecision OneDirEntry.
Proof. solve_decision. Defined.

(** [type Key string]: a digest in hexadecimal. *)
Abbreviation Key := string (only parsing).

(** Nil-able pointers and maps are options; the program never writes through the pointers of a
    row, it only replaces them, so a row is a value. *)
Record CachedRow : Type := {
  Inode : Z;
  TypeName : string;
  RowFileInfo : option FileInfo;
  DidReadDir : bool;
  DirEntries : option (gmap string OneDirEntry);
  ContentHash : option Key;
  Target : option string;
}.

#[export] Instance CachedRow_eq_dec : EqDecision CachedRow.
Proof. solve_decision. Defined.

(** * Type names *)

Definition sqlTypeName (modeType : Z) : outcome string :=
  if negb (Z.land modeType NotModeType =? 0) then Panic "Input modeType contains permissions"
  else if modeType =? 0 then Ret "file"
  else if modeType =? ModeDir then Ret "directory"
  else if modeType =? ModeSymlink then Ret "symlink"
  else Panic "Unknown entry type".

(** The entry a type name stands for; [None] for a name the program does not know. *)
Definition entry_of_type (inode : Z) (typeName : string) : option OneDirEntry :=
  if bool_decide (typeName = "directory") then
    Some {| Valid := true; EntInode := inode; EntModeType := ModeDir |}
  else if bool_decide (typeName = "file") then
    Some {| Valid := true; EntInode := inode; EntModeType := 0 |}
  else if bool_decide (typeName = "noentry") then
    Some {| Valid := false; EntInode := inode; EntModeType := 0 |}
  else if bool_decide (typeName = "symlink") then
    Some {| Valid := true; EntInode := inode; EntModeType := ModeSymlink |}
  else None.

Definition mode_type (m : Z) : Z := Z.land m ModeType.

(** The type names the program stores. *)
Definition type_names : list string := ["file"; "directory"; "symlink"; "noentry"].

Lemma land_type_not_type m : Z.land (mode_type m) NotModeType = 0.
Proof.
  unfold mode_type. rewrite <- Z.land_assoc.
  replace (Z.land ModeType NotModeType) with 0 by (vm_compute; reflexivity). apply Z.land_0_r.
Qed.

(** [sqlTypeName] on masked modes: three names, and a panic for every other kind of file. *)
Lemma sqlTypeName_mode_type m :
  sqlTypeName (mode_type m) =
    if mode_type m =? 0 then Ret "file"
    else if mode_type m =? ModeDir then Ret "directory"
    else if mode_type m =? ModeSymlink then Ret "symlink"
    else Panic "Unknown entry type".
Proof. unfold sqlTypeName. by rewrite land_type_not_type. Qed.

Lemma sqlTypeName_names m t : sqlTypeName m = Ret t → t ∈ ["file"; "directory"; "symlink"].
Proof.
  unfold sqlTypeName. intros H. repeat case_match; simplify_eq; rewrite !elem_of_cons; auto.
Qed.

Lemma sqlTypeName_no_err m e : sqlTypeName m ≠ Err e.
Proof. unfold sqlTypeName. by repeat case_match. Qed.

(** What [sqlTypeName] writes, [entry_of_type] reads back. *)
Lemma entry_of_sqlTypeName inode m t :
  sqlTypeName m = Ret t →
  entry_of_type inode t = Some {| Valid := true; EntInode := inode; EntModeType := m |}.
Proof.
  unfold sqlTypeName. intros H.
  destruct (negb _) eqn:?; [done|].
  destruct (m =? 0) eqn:E0; [apply Z.eqb_eq in E0 as ->; by simplify_eq|].
  destruct (m =? ModeDir) eqn:E1; [apply Z.eqb_eq in E1 as ->; by simplify_eq|].
  destruct (m =? ModeSymlink) eqn:E2; [apply Z.eqb_eq in E2 as ->; by simplify_eq|done].
Qed.

(** The nanosecond time stamp survives the database when it fits in an [int64]. *)
Lemma Unix_UnixNano t : is_int64 t → Unix 0 (UnixNano t) = t.
Proof. unfold Unix, UnixNano. intros H. rewrite int64_small by done. lia. Qed.
