(* ===== verification/DirEntries.v ===== *)
(** The directory-entry text of the metadata cache (addDirEntry, parseDirEntries and the
    formatting in PutDirEntries of internal/cache/metadata.go): one string per directory, the
    entries separated by a slash and the fields of an entry by the byte 1. *)
From S2P Require Import Prelude GoStrings GoPath Types.
#[local] Open Scope Z_scope.

Definition dirEntrySeparator : ascii := "/".
Definition dirEntryFieldSeparator : ascii := ascii_of_nat 1.

(** The Go functions update the map behind a pointer; it is the state here. *)
Abbreviation EntryMap := (gmap string OneDirEntry) (only parsing).

Definition addDirEntry (inode : Z) (basename typeName : string) : GoM EntryMap () := λ m,
  match m !! basename with
  | Some _ => (Ret (), m)
  | None =>
      match entry_of_type inode typeName with
      | Some dirEntry => (Ret (), <[basename := dirEntry]> m)
      | None => (Err (ENew ("Invalid type " +:+ typeName)), m)
      end
  end.

Definition index_panic : string := "runtime error: index out of range".

(** [parts[i]]. *)
Definition index (parts : list string) (i : nat) : outcome string :=
  match parts !! i with Some p => Ret p | None => Panic index_panic end.

(** One iteration of the loop of [parseDirEntries]. *)
Definition parseOneEntry (one : string) : GoM EntryMap () :=
  let parts := Split dirEntryFieldSeparator one in
  basename ← go_lift (index parts 0);
  field1 ← go_lift (index parts 1);
  inode ← go_lift (ParseUint field1);
  typeName ← go_lift (index parts 2);
  addDirEntry inode basename typeName.

Definition parseDirEntries (all : string) : GoM EntryMap () :=
  if (String.length all =? 0)%nat then go_ret ()
  else go_for (Split dirEntrySeparator all) parseOneEntry.

(** [fmt.Sprintf("%s%s%d%s%s", name, sep, inode, sep, typeName)]. *)
Definition formatEntry (name : string) (inode : Z) (typeName : string) : string :=
  name +:+ String dirEntryFieldSeparator
    (FormatUint inode +:+ String dirEntryFieldSeparator typeName).

(** A listed entry: name, inode and type name. *)
Record entry : Type := { en_name : string; en_inode : Z; en_type : string }.

Definition formatEntries (es : list entry) : string :=
  StrJoin (String dirEntrySeparator "")
    ((λ e, formatEntry (en_name e) (en_inode e) (en_type e)) <$> es).

(** * Round trip *)

(** A name that the format can carry: no slash (no file name has one) and no byte 1. *)
Definition plain_name (n : string) : bool :=
  negb (has_char dirEntrySeparator n) && negb (has_char dirEntryFieldSeparator n).

Record entry_ok (e : entry) : Prop := {
  eok_name : plain_name (en_name e) = true;
  eok_inode : is_uint64 (en_inode e);
  eok_type : en_type e ∈ type_names;
}.

Definition entry_value (e : entry) : OneDirEntry :=
  default {| Valid := false; EntInode := 0; EntModeType := 0 |}
    (entry_of_type (en_inode e) (en_type e)).

(** First one wins, as in [addDirEntry]. *)
Definition add_entry (m : gmap string OneDirEntry) (e : entry) : gmap string OneDirEntry :=
  match m !! en_name e with Some _ => m | None => <[en_name e := entry_value e]> m end.

Lemma type_names_spec t :
  t ∈ type_names → t = "file" ∨ t = "directory" ∨ t = "symlink" ∨ t = "noentry".
Proof. unfold type_names. rewrite !elem_of_cons, elem_of_nil. tauto. Qed.

Lemma entry_of_type_ok e : entry_ok e → entry_of_type (en_inode e) (en_type e) = Some (entry_value e).
Proof.
  intros [_ _ Ht]. unfold entry_value.
  by destruct (type_names_spec _ Ht) as [->|[->|[->| ->]]].
Qed.

Lemma type_no_char c e : entry_ok e → c = dirEntrySeparator ∨ c = dirEntryFieldSeparator →
  has_char c (en_type e) = false.
Proof. intros [_ _ Ht] Hc. by destruct (type_names_spec _ Ht) as [->|[->|[->| ->]]], Hc as [-> | ->]. Qed.

Lemma plain_name_spec n : plain_name n = true →
  has_char dirEntrySeparator n = false ∧ has_char dirEntryFieldSeparator n = false.
Proof. unfold plain_name. rewrite andb_true_iff, !negb_true_iff. tauto. Qed.

Lemma format_no_separator e : entry_ok e →
  has_char dirEntrySeparator (formatEntry (en_name e) (en_inode e) (en_type e)) = false.
Proof.
  intros He. pose proof (plain_name_spec _ (eok_name _ He)) as [Hs _].
  unfold formatEntry. rewrite has_char_app, Hs. simpl.
  rewrite has_char_app, has_char_FormatUint by done. simpl.
  apply type_no_char; auto.
Qed.

Lemma parse_formatEntry e m : entry_ok e →
  parseOneEntry (formatEntry (en_name e) (en_inode e) (en_type e)) m = (Ret (), add_entry m e).
Proof.
  intros He. pose proof (plain_name_spec _ (eok_name _ He)) as [_ Hf].
  unfold parseOneEntry, formatEntry.
  rewrite Split_app by done. rewrite Split_app by (by apply has_char_FormatUint).
  rewrite Split_no_sep by (apply type_no_char; auto).
  unfold mbind, go_mbind, go_bind, go_lift, index; simpl.
  rewrite ParseUint_FormatUint by apply He.
  unfold addDirEntry, add_entry. destruct (m !! en_name e); [done|].
  by rewrite entry_of_type_ok.
Qed.

Lemma formatEntry_nonempty n i t : formatEntry n i t ≠ "".
Proof. unfold formatEntry. by destruct n. Qed.

Lemma parse_formatEntries_fold es m : Forall entry_ok es →
  parseDirEntries (formatEntries es) m = (Ret (), foldl add_entry m es).
Proof.
  intros Hes. unfold parseDirEntries, formatEntries.
  destruct es as [|e es]; [done|].
  destruct (String.length _) as [|n] eqn:Hlen.
  { exfalso. destruct (StrJoin _ _) eqn:E in Hlen; [|done].
    apply StrJoin_empty in E as [?|[l' [= E _]]]; [done|]. by eapply formatEntry_nonempty. }
  clear Hlen. cbn [Nat.eqb].
  rewrite Split_StrJoin; [|done|].
  - revert m. induction Hes as [|e' es' He Hes IH]; intros m; [done|].
    rewrite fmap_cons. cbn [go_for]. unfold go_bind at 1.
    rewrite parse_formatEntry by done. simpl. apply IH.
  - apply Forall_fmap. eapply Forall_impl; [done|]. apply format_no_separator.
Qed.

Definition entry_pair (e : entry) : string * OneDirEntry := (en_name e, entry_value e).

(** With distinct names the parsed map is the map of the entries. *)
Lemma foldl_add_entry es m :
  NoDup (en_name <$> es) → (∀ e, e ∈ es → m !! en_name e = None) →
  foldl add_entry m es = list_to_map (entry_pair <$> es) ∪ m.
Proof.
  revert m. induction es as [|e es IH]; intros m Hnd Hm; simpl.
  { by rewrite (left_id_L ∅ (∪)). }
  apply NoDup_cons in Hnd as [He Hnd]. unfold add_entry at 2.
  rewrite Hm by (by left). rewrite IH; [|done|].
  - rewrite <- insert_union_r, insert_union_l; [done|].
    apply not_elem_of_list_to_map_1. intros Hin. apply He.
    rewrite <- list_fmap_compose in Hin. exact Hin.
  - intros e' He'. rewrite lookup_insert_ne; [by apply Hm; right|].
    intros Heq. apply He. rewrite Heq. by apply list_elem_of_fmap_2.
Qed.

(** Every entry the parser adds is the value of a type name. *)
Definition entries_wf (m : gmap string OneDirEntry) : Prop :=
  ∀ n d, m !! n = Some d → is_uint64 (EntInode d) ∧
    (EntModeType d = 0 ∨ EntModeType d = ModeDir ∨ EntModeType d = ModeSymlink).

Lemma entry_of_type_wf i t d : entry_of_type i t = Some d → EntInode d = i ∧
  (EntModeType d = 0 ∨ EntModeType d = ModeDir ∨ EntModeType d = ModeSymlink).
Proof. unfold entry_of_type. intros H. repeat case_match; simplify_eq/=; auto. Qed.

Lemma go_for_keeps {S A} (I : S → Prop) (l : list A) (f : A → GoM S ()) :
  (∀ x, keeps I (f x)) → keeps I (go_for l f).
Proof. intros Hf. apply framed_for; [apply _|done]. Qed.

Lemma parseOneEntry_wf one : keeps entries_wf (parseOneEntry one).
Proof.
  intros m Hm. unfold parseOneEntry, mbind, go_mbind, go_bind, go_lift.
  destruct (index _ 0); simpl; try done.
  destruct (index _ 1); simpl; try done.
  destruct (ParseUint _) eqn:Hp; simpl; try done.
  destruct (index _ 2); simpl; try done.
  unfold addDirEntry. destruct (m !! _); simpl; [done|].
  destruct (entry_of_type _ _) as [d|] eqn:Hd; simpl; [|done].
  intros n d'. rewrite lookup_insert. case_decide; [|apply Hm].
  intros [= <-]. apply entry_of_type_wf in Hd as [-> ?]. split; [|done].
  by eapply ParseUint_range.
Qed.

Lemma parseDirEntries_wf all : keeps entries_wf (parseDirEntries all).
Proof.
  unfold parseDirEntries. destruct (_ =? _)%nat; [by intros m Hm|].
  apply go_for_keeps, parseOneEntry_wf.
Qed.

(** A decimal is not a type name. *)
Lemma entry_of_type_FormatUint i u : entry_of_type i (FormatUint u) = None.
Proof.
  assert (∀ t c t', t = String c t' → char_digit c = None →
                    bool_decide (FormatUint u = t) = false) as Hne.
  { intros t c t' -> Hc. apply bool_decide_eq_false_2. intros E.
    pose proof (has_char_FormatUint c u Hc) as H. rewrite E in H. simpl in H.
    by rewrite bool_decide_eq_true_2 in H. }
  unfold entry_of_type. by rewrite !(Hne _ _ _ eq_refl).
Qed.

(** * Properties *)

(** C36 (roundtrip).  A listing of distinct names without the byte 1, with 64-bit inode numbers
    and known type names, is read back from its text as exactly the map from each name to the
    entry for its inode and type; the empty listing is included. *)
Theorem parse_formatEntries (es : list entry) :
  Forall entry_ok es → NoDup (en_name <$> es) →
  parseDirEntries (formatEntries es) ∅ = (Ret (), list_to_map (entry_pair <$> es)).
Proof.
  intros Hes Hnd. rewrite parse_formatEntries_fold by done.
  rewrite foldl_add_entry; [|done|by intros; apply lookup_empty].
  by rewrite (right_id_L ∅ (∪)).
Qed.

Definition sample_entries : list entry :=
  [ {| en_name := "a"; en_inode := 1; en_type := "file" |};
    {| en_name := "b c"; en_inode := MaxUint64; en_type := "directory" |} ].

Lemma sample_entries_ok : Forall entry_ok sample_entries.
Proof. repeat constructor; try (by apply (bool_decide_unpack _); vm_compute); done. Qed.

Lemma parse_formatEntries_witness :
  formatEntries sample_entries ≠ "" ∧
  parseDirEntries (formatEntries sample_entries) ∅
  = (Ret (), list_to_map (entry_pair <$> sample_entries)).
Proof.
  split; [done|]. apply parse_formatEntries; [exact sample_entries_ok|].
  by apply (bool_decide_unpack _); vm_compute.
Defined.

(** A file name that contains the byte 1 once, which Unix allows, is written to
    the database without complaint but its text is never read back: parsing it fails, so the
    directory's entries can no longer be loaded. *)
Theorem parse_separator_in_name (a b typeName : string) (inode : Z) (m : gmap string OneDirEntry) :
  has_char dirEntryFieldSeparator a = false → has_char dirEntryFieldSeparator b = false →
  has_char dirEntrySeparator (a +:+ b) = false → m !! a = None →
  has_char dirEntrySeparator typeName = false →
  ∃ e, parseDirEntries
         (formatEntry (a +:+ String dirEntryFieldSeparator b) inode typeName) m = (Err e, m).
Proof.
  intros Ha Hb Hs Hm Ht. rewrite has_char_app in Hs. apply orb_false_elim in Hs as [Hs1 Hs2].
  unfold parseDirEntries.
  destruct (String.length _) eqn:Hlen; [by destruct a|]. clear Hlen. cbn [Nat.eqb].
  rewrite Split_no_sep; cycle 1.
  { unfold formatEntry. rewrite !has_char_app, Hs1. simpl. rewrite Hs2. simpl.
    rewrite has_char_app, has_char_FormatUint by done. simpl. done. }
  cbn [go_for]. unfold go_bind at 1, parseOneEntry, formatEntry.
  rewrite string_app_assoc. cbn [String.append].
  change (String dirEntryFieldSeparator b +:+ ?x) with (String dirEntryFieldSeparator (b +:+ x)).
  rewrite !Split_app by (try done; by apply has_char_FormatUint).
  unfold mbind, go_mbind, go_bind, go_lift, index; simpl.
  destruct (ParseUint b) as [i| | | |] eqn:Hb'; [|by eexists|..].
  - unfold addDirEntry. rewrite Hm, entry_of_type_FormatUint. by eexists.
  - by destruct (ParseUint_ret_or_err b) as [[? ?]|[? ?]]; congruence.
  - by destruct (ParseUint_ret_or_err b) as [[? ?]|[? ?]]; congruence.
  - by destruct (ParseUint_ret_or_err b) as [[? ?]|[? ?]]; congruence.
Qed.

Lemma parse_separator_in_name_witness :
  ∃ e, parseDirEntries (formatEntry ("a" +:+ String dirEntryFieldSeparator "7") 3 "file") ∅
       = (Err e, ∅).
Proof. by apply (parse_separator_in_name "a" "7" "file" 3 ∅). Defined.
