(* ===== verification/Sql.v ===== *)
(** The database behind the metadata cache: SQLite, reached through database/sql, is not part
    of the program.  [SqlEngine] is its interface, restricted to the statements that
    internal/cache/metadata.go prepares against the schema it declares, and [SqlLaws] the
    documented behaviour the program relies on.  [MemDb] is an executable engine that satisfies
    the laws; it can be told to fail. *)
From S2P Require Import Prelude GoStrings Types.
#[local] Open Scope Z_scope.

(** * Values and rows *)

(** A stored value with its storage class; a REAL is represented by the text that
    [Scan] delivers for it. *)
Inductive SqlValue : Type :=
  | SqlNull | SqlInt (z : Z) | SqlReal (text : string) | SqlText (s : string).

#[export] Instance SqlValue_eq_dec : EqDecision SqlValue.
Proof. solve_decision. Defined.

(** A row of the table [paths], with its ROWID. *)
Record prow : Type := {
  r_rowid : Z;
  r_path : SqlValue; r_type : SqlValue;
  r_mode : SqlValue; r_size : SqlValue; r_mtime_nsec : SqlValue;
  r_dirEntries : SqlValue; r_contentHash : SqlValue; r_target : SqlValue;
}.

#[export] Instance prow_eq_dec : EqDecision prow.
Proof. solve_decision. Defined.

(** The prepared statements that modify the table, with their bound arguments. *)
Inductive SqlStmt : Type :=
  | updateEntryStmt (typeName path : string)
  | putNewEntryStmt (path typeName : string)
  | putFileInfoStmt (mode size mtime_nsec rowid : Z)
  | putContentHashStmt (hash : string) (rowid : Z)
  | putSymlinkTargetStmt (target : string) (rowid : Z)
  | putDirEntriesStmt (dirEntries : string) (rowid : Z).

(** The prepared queries. *)
Inductive SqlQuery : Type :=
  | getDirEntriesStmt (rowid : Z)
  | getInodeStmt (path : string)
  | getFullEntryStmt (path : string).

(** sql.Result: the number of rows affected and the ROWID of the last insertion. *)
Record SqlResult : Type := { RowsAffected : Z; LastInsertId : Z }.

(** A byte that can occur in the text of an SQL number, blanks included. *)
Definition number_char (c : ascii) : bool :=
  match char_digit c with
  | Some _ => true
  | None => bool_decide (c ∈ ["+"; "-"; "."; "e"; "E"; " "; ascii_of_nat 9; ascii_of_nat 10;
                              ascii_of_nat 11; ascii_of_nat 12; ascii_of_nat 13]%char)
  end.

Fixpoint all_number_chars (s : string) : bool :=
  match s with EmptyString => true | String c s' => number_char c && all_number_chars s' end.

Fixpoint all_digits (s : string) : bool :=
  match s with
  | EmptyString => true
  | String c s' => bool_decide (is_Some (char_digit c)) && all_digits s'
  end.

(** A text that SQLite might read as a number. *)
Definition number_like (s : string) : bool := negb (bool_decide (s = "")) && all_number_chars s.

(** * The meaning of the statements *)
Section meaning.
(** Columns declared STRING have NUMERIC affinity: what a bound text is stored as. *)
Context (affinity : string → SqlValue).

Definition path_is (p : string) (r : prow) : bool := bool_decide (r_path r = affinity p).
Definition rowid_is (i : Z) (r : prow) : bool := r_rowid r =? i.

Definition set_type (v : SqlValue) (r : prow) : prow :=
  {| r_rowid := r_rowid r; r_path := r_path r; r_type := v; r_mode := r_mode r;
     r_size := r_size r; r_mtime_nsec := r_mtime_nsec r; r_dirEntries := r_dirEntries r;
     r_contentHash := r_contentHash r; r_target := r_target r |}.
Definition set_info (mode size mtime : Z) (r : prow) : prow :=
  {| r_rowid := r_rowid r; r_path := r_path r; r_type := r_type r; r_mode := SqlInt mode;
     r_size := SqlInt size; r_mtime_nsec := SqlInt mtime; r_dirEntries := r_dirEntries r;
     r_contentHash := r_contentHash r; r_target := r_target r |}.
Definition set_dirEntries (v : SqlValue) (r : prow) : prow :=
  {| r_rowid := r_rowid r; r_path := r_path r; r_type := r_type r; r_mode := r_mode r;
     r_size := r_size r; r_mtime_nsec := r_mtime_nsec r; r_dirEntries := v;
     r_contentHash := r_contentHash r; r_target := r_target r |}.
Definition set_contentHash (v : SqlValue) (r : prow) : prow :=
  {| r_rowid := r_rowid r; r_path := r_path r; r_type := r_type r; r_mode := r_mode r;
     r_size := r_size r; r_mtime_nsec := r_mtime_nsec r; r_dirEntries := r_dirEntries r;
     r_contentHash := v; r_target := r_target r |}.
Definition set_target (v : SqlValue) (r : prow) : prow :=
  {| r_rowid := r_rowid r; r_path := r_path r; r_type := r_type r; r_mode := r_mode r;
     r_size := r_size r; r_mtime_nsec := r_mtime_nsec r; r_dirEntries := r_dirEntries r;
     r_contentHash := r_contentHash r; r_target := v |}.

Definition new_row (id : Z) (path typeName : string) : prow :=
  {| r_rowid := id; r_path := affinity path; r_type := affinity typeName; r_mode := SqlNull;
     r_size := SqlNull; r_mtime_nsec := SqlNull; r_dirEntries := SqlNull;
     r_contentHash := SqlNull; r_target := SqlNull |}.

(** UPDATE paths SET ... WHERE ... *)
Definition sql_update (where_ : prow → bool) (f : prow → prow) (rows : list prow) : list prow :=
  (λ r, if where_ r then f r else r) <$> rows.
Definition sql_count (where_ : prow → bool) (rows : list prow) : Z :=
  Z.of_nat (length (filter (λ r, where_ r = true) rows)).

(** The condition and assignment of an UPDATE; INSERT is apart. *)
Definition update_of (st : SqlStmt) : option ((prow → bool) * (prow → prow)) :=
  match st with
  | updateEntryStmt t p => Some (path_is p, set_type (affinity t))
  | putNewEntryStmt _ _ => None
  | putFileInfoStmt m s t i => Some (rowid_is i, set_info m s t)
  | putContentHashStmt h i => Some (rowid_is i, set_contentHash (affinity h))
  | putSymlinkTargetStmt t i => Some (rowid_is i, set_target (affinity t))
  | putDirEntriesStmt d i => Some (rowid_is i, set_dirEntries (affinity d))
  end.

(** What a successful statement does.  INSERT finds the path unused (it is the primary key)
    and picks an unused positive ROWID. *)
Inductive sql_effect (st : SqlStmt) (rows : list prow) : SqlResult → list prow → Prop :=
  | effect_update where_ f last :
      update_of st = Some (where_, f) →
      sql_effect st rows
        {| RowsAffected := sql_count where_ rows; LastInsertId := last |}
        (sql_update where_ f rows)
  | effect_insert path typeName id :
      st = putNewEntryStmt path typeName →
      Forall (λ r, path_is path r = false) rows →
      Forall (λ r, r_rowid r ≠ id) rows →
      1 ≤ id ≤ MaxInt64 →
      sql_effect st rows {| RowsAffected := 1; LastInsertId := id |}
        (rows ++ [new_row id path typeName]).

(** The rows a query yields, in the order of its column list. *)
Definition sql_select (q : SqlQuery) (rows : list prow) : list (list SqlValue) :=
  match q with
  | getDirEntriesStmt i =>
      (λ r, [r_dirEntries r]) <$> filter (λ r, rowid_is i r = true) rows
  | getInodeStmt p =>
      (λ r, [SqlInt (r_rowid r)]) <$> filter (λ r, path_is p r = true) rows
  | getFullEntryStmt p =>
      (λ r, [SqlInt (r_rowid r); r_type r; r_mode r; r_size r; r_mtime_nsec r;
             r_dirEntries r; r_contentHash r; r_target r])
        <$> filter (λ r, path_is p r = true) rows
  end.
End meaning.

(** * The engine *)

Class SqlEngine (DB : Type) : Type := {
  db_rows : DB → list prow;
  db_affinity : string → SqlValue;
  db_exec : SqlStmt → GoM DB SqlResult;
  db_query : SqlQuery → GoM DB (list (list SqlValue));
}.

(** How texts are stored.  A text that cannot be a number is stored as it is; plain decimal
    digits are stored as an integer, or as a floating-point number (read back in exponent
    notation, or as "+Inf" beyond the largest one) when they do not fit in 64 signed bits; a text
    is never stored as NULL. *)
Class AffinityLaws (DB : Type) `{SqlEngine DB} : Prop := {
  affinity_text s : number_like s = false → db_affinity s = SqlText s;
  affinity_int s z : ParseUint s = Ret z → z ≤ MaxInt64 → db_affinity s = SqlInt z;
  affinity_real s :
    s ≠ "" → all_digits s = true → (∀ z, ParseUint s = Ret z → MaxInt64 < z) →
    ∃ t, db_affinity s = SqlReal t ∧ (has_char "e" t = true ∨ t = "+Inf");
  affinity_not_null s : db_affinity s ≠ SqlNull;
}.

(** A statement either has its effect or fails with an SQLite error and has none. *)
Class SqlLaws (DB : Type) `{SqlEngine DB} : Prop := {
  #[export] sql_affinity :: AffinityLaws DB;
  exec_spec st d :
    match db_exec st d with
    | (Ret res, d') => sql_effect db_affinity st (db_rows d) res (db_rows d')
    | (Err (ESqlite _), d') => db_rows d' = db_rows d
    | _ => False
    end;
  query_spec q d :
    match db_query q d with
    | (Ret rs, d') => rs = sql_select db_affinity q (db_rows d) ∧ db_rows d' = db_rows d
    | (Err (ESqlite _), d') => db_rows d' = db_rows d
    | _ => False
    end;
}.

(** * An engine in memory *)

(** [mem_faults] lists what happens to the coming calls: [Some code] makes one fail. *)
Record MemDb : Type := { mem_rows : list prow; mem_faults : list (option Z) }.

#[export] Instance MemDb_eq_dec : EqDecision MemDb.
Proof. solve_decision. Defined.

(** The floating-point notation keeps one digit here. *)
Definition mem_real (s : string) : SqlValue :=
  match s with
  | EmptyString => SqlText s
  | String c s' => SqlReal (String c ("e+" +:+ FormatUint (Z.of_nat (String.length s'))))
  end.

Definition mem_affinity (s : string) : SqlValue :=
  match ParseUint s with
  | Ret z => if z <=? MaxInt64 then SqlInt z else mem_real s
  | _ => if all_digits s then mem_real s else SqlText s
  end.

Definition next_rowid (rows : list prow) : Z := foldr (λ r m, Z.max (r_rowid r) m) 0 rows + 1.

Definition mem_step {A} (body : list prow → outcome A * list prow) : GoM MemDb A := λ d,
  match mem_faults d with
  | Some code :: fs => (Err (ESqlite code), {| mem_rows := mem_rows d; mem_faults := fs |})
  | fs => let '(o, rows) := body (mem_rows d) in
          (o, {| mem_rows := rows; mem_faults := tail fs |})
  end.

(** SQLITE_CONSTRAINT and SQLITE_FULL. *)
Definition mem_exec (st : SqlStmt) : GoM MemDb SqlResult := mem_step (λ rows,
  match update_of mem_affinity st with
  | Some (where_, f) =>
      (Ret {| RowsAffected := sql_count where_ rows; LastInsertId := 0 |},
       sql_update where_ f rows)
  | None =>
      match st with
      | putNewEntryStmt path typeName =>
          if existsb (path_is mem_affinity path) rows then (Err (ESqlite 19), rows)
          else if next_rowid rows <=? MaxInt64 then
            (Ret {| RowsAffected := 1; LastInsertId := next_rowid rows |},
             rows ++ [new_row mem_affinity (next_rowid rows) path typeName])
          else (Err (ESqlite 13), rows)
      | _ => (Err (ESqlite 21), rows)
      end
  end).

Definition mem_query (q : SqlQuery) : GoM MemDb (list (list SqlValue)) :=
  mem_step (λ rows, (Ret (sql_select mem_affinity q rows), rows)).

#[export] Instance MemDb_engine : SqlEngine MemDb := {|
  db_rows := mem_rows;
  db_affinity := mem_affinity;
  db_exec := mem_exec;
  db_query := mem_query;
|}.

Lemma parse_loop_digits s0 s n m : parse_loop s0 s n = Ret m → all_number_chars s = true.
Proof.
  revert n. induction s as [|c s IH]; intros n; simpl; [done|]. intros H.
  unfold number_char. destruct (char_digit c); [|done]. simpl.
  repeat case_match; try done. by eapply IH.
Qed.

Lemma ParseUint_number_like s m : ParseUint s = Ret m → number_like s = true.
Proof.
  unfold ParseUint, number_like. destruct s as [|c s]; [done|].
  intros H%parse_loop_digits. by rewrite H.
Qed.

Lemma all_digits_number_chars s : all_digits s = true → all_number_chars s = true.
Proof.
  induction s as [|c s IH]; [done|]. simpl. rewrite !andb_true_iff, bool_decide_eq_true.
  intros [[d Hd] Hs]. unfold number_char. rewrite Hd. auto.
Qed.

Lemma mem_affinity_text s : number_like s = false → mem_affinity s = SqlText s.
Proof.
  intros Hs. unfold mem_affinity. destruct (ParseUint s) eqn:E.
  1: { apply ParseUint_number_like in E. congruence. }
  all: destruct (all_digits s) eqn:Hd; [|done].
  all: apply all_digits_number_chars in Hd; unfold number_like in Hs; rewrite Hd in Hs.
  all: by destruct s.
Qed.

Lemma mem_real_spec s :
  s ≠ "" → ∃ t, mem_real s = SqlReal t ∧ (has_char "e" t = true ∨ t = "+Inf").
Proof.
  destruct s as [|c s]; [done|]. intros _. eexists. split; [done|]. left.
  simpl. by rewrite orb_true_r.
Qed.

Lemma mem_affinity_real s :
  s ≠ "" → all_digits s = true → (∀ z, ParseUint s = Ret z → MaxInt64 < z) →
  ∃ t, mem_affinity s = SqlReal t ∧ (has_char "e" t = true ∨ t = "+Inf").
Proof.
  intros Hs Hd Hz. unfold mem_affinity. rewrite Hd.
  destruct (ParseUint s) eqn:E; try by apply mem_real_spec.
  rewrite (proj2 (Z.leb_gt _ _)) by (by apply Hz). by apply mem_real_spec.
Qed.

Lemma mem_affinity_not_null s : mem_affinity s ≠ SqlNull.
Proof.
  unfold mem_affinity. repeat case_match; try done; unfold mem_real; by destruct s.
Qed.

Lemma next_rowid_fresh rows r : r ∈ rows → r_rowid r < next_rowid rows.
Proof.
  unfold next_rowid. induction rows as [|r' rows IH]; simpl; [by intros ?%elem_of_nil|].
  intros [->|Hr]%elem_of_cons; [lia|]. specialize (IH Hr). lia.
Qed.

Lemma next_rowid_pos rows : 1 ≤ next_rowid rows.
Proof. unfold next_rowid. induction rows as [|r rows IH]; simpl; lia. Qed.

#[export] Instance MemDb_affinity : AffinityLaws MemDb.
Proof.
  split.
  - apply mem_affinity_text.
  - intros s z Hs Hz. simpl. unfold mem_affinity. rewrite Hs. by rewrite (proj2 (Z.leb_le _ _)).
  - apply mem_affinity_real.
  - apply mem_affinity_not_null.
Qed.

#[export] Instance MemDb_laws : SqlLaws MemDb.
Proof.
  split.
  - apply _.
  - intros st [rows faults]. simpl. unfold mem_exec, mem_step; simpl.
    assert (∀ fs, match
      (let '(o, rows0) :=
         match update_of mem_affinity st with
         | Some (where_, f) =>
            (Ret {| RowsAffected := sql_count where_ rows; LastInsertId := 0 |},
              sql_update where_ f rows)
         | None =>
            match st with
            | putNewEntryStmt path typeName =>
                if existsb (path_is mem_affinity path) rows then (Err (ESqlite 19), rows)
                else if next_rowid rows <=? MaxInt64 then
                  (Ret {| RowsAffected := 1; LastInsertId := next_rowid rows |},
                   rows ++ [new_row mem_affinity (next_rowid rows) path typeName])
                else (Err (ESqlite 13), rows)
            | _ => (Err (ESqlite 21), rows)
            end
         end in (o, {| mem_rows := rows0; mem_faults := fs |})) with
      | (Ret res, d') => sql_effect mem_affinity st rows res (mem_rows d')
      | (Err (ESqlite _), d') => mem_rows d' = rows
      | _ => False
      end) as Hgo.
    { intros fs. destruct (update_of mem_affinity st) as [[where_ f]|] eqn:Hu; simpl.
      - by constructor.
      - destruct st; simpl in *; try done.
        destruct (existsb _ _) eqn:Hex; [done|].
        destruct (_ <=? _) eqn:Hle; [|done]. simpl.
        econstructor; [done|..].
        + apply Forall_forall. intros r Hr. apply not_true_iff_false. intros Hp.
          apply not_true_iff_false in Hex. apply Hex, existsb_exists.
          exists r. split; [by apply list_elem_of_In|done].
        + apply Forall_forall. intros r Hr%next_rowid_fresh. lia.
        + pose proof (next_rowid_pos rows). lia. }
    destruct faults as [|[code|] fs]; [apply (Hgo [])|done|apply (Hgo fs)].
  - intros q [rows faults]. simpl. unfold mem_query, mem_step; simpl.
    by destruct faults as [|[code|] fs].
Qed.
