(* ===== verification/Sqlite.v ===== *)
(** The retrying SQLite wrapper: internal/cache/sqlite.go.

    Each wrapper repeats its call while the database reports contention, sleeping in between.
    The loops have no bound in the code, so they run on fuel here: [OutOfFuel] is a loop that
    is still going.  [RetryExec_finishes] shows that fuel above the number of busy answers is
    enough, [Scan_never_returns] that no fuel is enough for a busy [sql.Row]. *)
From S2P Require Import Prelude GoStrings Types Sql.
#[local] Open Scope Z_scope.

(** How far the model follows the unbounded loops. *)
Class Fuel : Type := { retry_fuel : nat; copy_fuel : nat }.

(** sqlite3.ErrBusy. *)
Definition ErrBusy : Z := 5.

(** Durations are [int64] nanoseconds. *)
Definition Millisecond : Z := 1000000.
Definition baseDelay : Z := 100 * Millisecond.
Definition backoffMaxDelay : Z := 500 * Millisecond.

(** The runtime's random generator and clock: the numbers [math/rand] will draw, how many were
    drawn, and the sleeps so far, the last one first. *)
Record Runtime : Type := { rt_rand : nat → Z; rt_drawn : nat; rt_slept : list Z }.

(** An open [sqliteDB]. *)
Record Conn (DB : Type) : Type := { c_db : DB; c_rt : Runtime }.
Arguments c_db {DB} c.
Arguments c_rt {DB} c.
Arguments Build_Conn {DB} _ _.

Definition set_db {DB} (d : DB) (c : Conn DB) : Conn DB := {| c_db := d; c_rt := c_rt c |}.

(** [rand.Int63n(n)]: a number in [0, n). *)
Definition Int63n {DB} (n : Z) : GoM (Conn DB) Z := λ c,
  let rt := c_rt c in
  (Ret (rt_rand rt (rt_drawn rt) mod n),
   {| c_db := c_db c;
      c_rt := {| rt_rand := rt_rand rt; rt_drawn := S (rt_drawn rt); rt_slept := rt_slept rt |} |}).

(** [time.Sleep(d)]. *)
Definition Sleep {DB} (d : Z) : GoM (Conn DB) () := λ c,
  let rt := c_rt c in
  (Ret (),
   {| c_db := c_db c;
      c_rt := {| rt_rand := rt_rand rt; rt_drawn := rt_drawn rt; rt_slept := d :: rt_slept rt |} |}).

(** The delay accumulator behind the pointer is passed in and returned. *)
Definition waitOrErr {DB} (err : error) (delay : Z) : GoM (Conn DB) Z :=
  match err with
  | ESqlite code =>
      if code =? ErrBusy then
        increment ← Int63n backoffMaxDelay;
        let delay := int64 (delay + increment) in
        Sleep delay;;
        mret delay
      else go_err err
  | _ => go_err err
  end.

Section retry.
Context {DB : Type} `{SqlEngine DB, Fuel}.

(** [retry: r, err := attempt; if err != nil { ...; goto retry }]. *)
Fixpoint retry_loop {A} (fuel : nat) (attempt : GoM (Conn DB) A) (delay : Z) : GoM (Conn DB) A :=
  match fuel with
  | O => go_diverge
  | S fuel =>
      r ← go_try attempt;
      match r with
      | inr a => mret a
      | inl err =>
          delay ← waitOrErr err delay;
          retry_loop fuel attempt delay
      end
  end.

Definition on_db {A} (m : GoM DB A) : GoM (Conn DB) A := go_zoom c_db set_db m.

(** database/sql refuses a [uint64] argument with the high bit set. *)
Definition high_bit_error : error :=
  ENew "sql: converting argument type: uint64 values with high bit set are not supported".
Definition uint64_arg (z : Z) : outcome Z := if z <=? MaxInt64 then Ret z else Err high_bit_error.

(** The argument of a statement that is an inode number, a [uint64] in the program. *)
Definition stmt_rowid (st : SqlStmt) : Z :=
  match st with
  | updateEntryStmt _ _ | putNewEntryStmt _ _ => 0
  | putFileInfoStmt _ _ _ i | putContentHashStmt _ i | putSymlinkTargetStmt _ i
  | putDirEntriesStmt _ i => i
  end.
Definition query_rowid (q : SqlQuery) : Z :=
  match q with getDirEntriesStmt i => i | getInodeStmt _ | getFullEntryStmt _ => 0 end.

(** sql.Stmt.Exec and sql.Stmt.Query. *)
Definition Exec (st : SqlStmt) : GoM (Conn DB) SqlResult :=
  _ ← go_lift (uint64_arg (stmt_rowid st));
  on_db (db_exec st).
Definition Query (q : SqlQuery) : GoM (Conn DB) (list (list SqlValue)) :=
  _ ← go_lift (uint64_arg (query_rowid q));
  on_db (db_query q).

Definition RetryExec (st : SqlStmt) : GoM (Conn DB) SqlResult :=
  retry_loop retry_fuel (Exec st) baseDelay.

Definition RetryQuery (q : SqlQuery) : GoM (Conn DB) (list (list SqlValue)) :=
  retry_loop retry_fuel (Query q) baseDelay.

(** sql.Row: the result of one query.  An error is kept in the row, and every [Scan] of that
    row returns it again. *)
Inductive sql_Row : Type := RowErr (e : error) | RowNone | RowVals (vals : list SqlValue).

(** sql.Stmt.QueryRow never fails itself. *)
Definition RetryQueryRow (q : SqlQuery) : GoM (Conn DB) sql_Row :=
  r ← go_try (Query q);
  match r with
  | inl e => mret (RowErr e)
  | inr [] => mret RowNone
  | inr (vals :: _) => mret (RowVals vals)
  end.

Definition row_Scan {A} (row : sql_Row) (dest : list SqlValue → outcome A) : GoM (Conn DB) A :=
  match row with
  | RowErr e => go_err e
  | RowNone => go_err ENoRows
  | RowVals vals => go_lift (dest vals)
  end.

(** RetriableRow.Scan. *)
Definition Scan {A} (row : sql_Row) (dest : list SqlValue → outcome A) : GoM (Conn DB) A :=
  retry_loop retry_fuel (row_Scan row dest) baseDelay.
End retry.

(** * Scanning values into Go variables (database/sql's convertAssign) *)

Definition FormatInt (z : Z) : string :=
  if z <? 0 then "-" +:+ FormatUint (- z) else FormatUint z.

Definition scan_error : error := ENew "sql: Scan error on column".

(** Into an [int64]; text in an integer column is never a number. *)
Definition scan_int64 (v : SqlValue) : outcome Z :=
  match v with SqlInt z => Ret z | _ => Err scan_error end.
(** Into a [string]. *)
Definition scan_string (v : SqlValue) : outcome string :=
  match v with
  | SqlText s => Ret s
  | SqlInt z => Ret (FormatInt z)
  | SqlReal t => Ret t
  | SqlNull => Err scan_error
  end.
(** Into a [sql.NullInt64] and a [sql.NullString]: [None] when not [Valid]. *)
Definition scan_NullInt64 (v : SqlValue) : outcome (option Z) :=
  match v with SqlNull => Ret None | _ => n ← scan_int64 v; mret (Some n) end.
Definition scan_NullString (v : SqlValue) : outcome (option string) :=
  match v with SqlNull => Ret None | _ => s ← scan_string v; mret (Some s) end.

Lemma FormatInt_nonneg z : 0 ≤ z → FormatInt z = FormatUint z.
Proof. intros Hz. unfold FormatInt. by rewrite (proj2 (Z.ltb_ge _ _)). Qed.

(** * Lemmas *)

Section lemmas.
Context {DB : Type} `{SqlEngine DB, Fuel}.

(** The wait after a busy answer. *)
Definition backed_off (delay : Z) (rt : Runtime) : Runtime :=
  {| rt_rand := rt_rand rt; rt_drawn := S (rt_drawn rt); rt_slept := delay :: rt_slept rt |}.
Definition next_delay (delay : Z) (rt : Runtime) : Z :=
  int64 (delay + rt_rand rt (rt_drawn rt) mod backoffMaxDelay).

Lemma waitOrErr_busy delay (c : Conn DB) :
  waitOrErr (ESqlite ErrBusy) delay c =
    (Ret (next_delay delay (c_rt c)),
     {| c_db := c_db c; c_rt := backed_off (next_delay delay (c_rt c)) (c_rt c) |}).
Proof. done. Qed.

Lemma waitOrErr_other err delay (c : Conn DB) :
  err ≠ ESqlite ErrBusy → waitOrErr err delay c = (Err err, c).
Proof.
  intros Hne. unfold waitOrErr. destruct err; try done.
  destruct (code =? ErrBusy) eqn:E; [|done]. apply Z.eqb_eq in E. congruence.
Qed.

Lemma retry_loop_busy {A} fuel (attempt : GoM (Conn DB) A) delay c c1 :
  attempt c = (Err (ESqlite ErrBusy), c1) →
  retry_loop (S fuel) attempt delay c =
    retry_loop fuel attempt (next_delay delay (c_rt c1))
      {| c_db := c_db c1; c_rt := backed_off (next_delay delay (c_rt c1)) (c_rt c1) |}.
Proof.
  intros E. cbn [retry_loop]. unfold mbind, go_mbind, go_bind, go_try. by rewrite E.
Qed.

Lemma retry_loop_done {A} fuel (attempt : GoM (Conn DB) A) delay c o c1 :
  attempt c = (o, c1) → o ≠ Err (ESqlite ErrBusy) →
  retry_loop (S fuel) attempt delay c = (o, c1).
Proof.
  intros E Hne. cbn [retry_loop]. unfold mbind, go_mbind, go_bind, go_try. rewrite E.
  destruct o; try done. rewrite waitOrErr_other by congruence. done.
Qed.

(** One query, whatever its answer: an error is kept in the row. *)
Lemma RetryQueryRow_call q (c : Conn DB) :
  query_rowid q ≤ MaxInt64 →
  RetryQueryRow q c =
    let '(o, d') := db_query q (c_db c) in
    (match o with
     | Ret [] => Ret RowNone
     | Ret (vals :: _) => Ret (RowVals vals)
     | Err e => Ret (RowErr e)
     | Panic msg => Panic msg
     | Fatal msg => Fatal msg
     | OutOfFuel => OutOfFuel
     end, set_db d' c).
Proof.
  intros Hid. unfold RetryQueryRow, Query, uint64_arg. rewrite (proj2 (Z.leb_le _ _)) by done.
  unfold mbind, go_mbind, go_bind, go_try, go_lift, on_db, go_zoom.
  by destruct (db_query q (c_db c)) as [[[|]|?| | |] d'].
Qed.

(** [busy_answers call n d d']: starting from [d], the call is answered [n] times in a row that
    the database is busy, which takes it to [d']. *)
Inductive busy_answers {A} (call : GoM DB A) : nat → DB → DB → Prop :=
  | busy_none d : busy_answers call 0 d d
  | busy_once n d d1 d2 :
      call d = (Err (ESqlite ErrBusy), d1) → busy_answers call n d1 d2 →
      busy_answers call (S n) d d2.

(** The random increment that the [i]-th retry draws, and its sleep, when the delay is [D] before
    the first: the one before with the increment added. *)
Definition increment (rt : Runtime) (i : nat) : Z := rt_rand rt (rt_drawn rt + i) mod backoffMaxDelay.
Fixpoint sleep_at (D : Z) (rt : Runtime) (i : nat) : Z :=
  match i with
  | O => D + increment rt 0
  | S j => sleep_at D rt j + increment rt (S j)
  end.

(** The runtime after [n] retries; the last sleep comes first. *)
Definition retried (D : Z) (n : nat) (rt : Runtime) : Runtime :=
  {| rt_rand := rt_rand rt; rt_drawn := rt_drawn rt + n;
     rt_slept := reverse (sleep_at D rt <$> seq 0 n) ++ rt_slept rt |}.

Lemma retried_S D n rt :
  let D1 := D + increment rt 0 in retried D1 n (backed_off D1 rt) = retried D (S n) rt.
Proof.
  intros D1. assert (∀ i, increment (backed_off D1 rt) i = increment rt (S i)) as Hi
    by (intros i; unfold increment; simpl; do 2 f_equal; lia).
  assert (∀ i, sleep_at D1 (backed_off D1 rt) i = sleep_at D rt (S i)) as Hs.
  { intros i. induction i as [|i IH]; simpl; rewrite Hi; [done|]. rewrite IH. done. }
  unfold retried. simpl. f_equal; [lia|]. rewrite reverse_cons, <- app_assoc. simpl.
  f_equal. f_equal. rewrite <- (fmap_S_seq 0 n), <- list_fmap_compose.
  apply list_fmap_ext. intros j i _. apply Hs.
Qed.

(** A call without random numbers or sleeps of its own. *)
Definition only_db {A} (attempt : GoM (Conn DB) A) (call : GoM DB A) : Prop :=
  ∀ d rt, attempt {| c_db := d; c_rt := rt |} = ((call d).1, {| c_db := (call d).2; c_rt := rt |}).

Lemma on_db_only {A} (call : GoM DB A) : only_db (on_db call) call.
Proof. intros d rt. unfold on_db, go_zoom. simpl. by destruct (call d). Qed.
Lemma Exec_only st : stmt_rowid st ≤ MaxInt64 → only_db (Exec st) (db_exec st).
Proof. intros Hid. unfold Exec, uint64_arg. rewrite (proj2 (Z.leb_le _ _)) by done. apply on_db_only. Qed.
Lemma Query_only q : query_rowid q ≤ MaxInt64 → only_db (Query q) (db_query q).
Proof. intros Hid. unfold Query, uint64_arg. rewrite (proj2 (Z.leb_le _ _)) by done. apply on_db_only. Qed.

Lemma retry_loop_answers {A} (attempt : GoM (Conn DB) A) call n d d' o d'' fuel D rt :
  only_db attempt call → busy_answers call n d d' →
  call d' = (o, d'') → o ≠ Err (ESqlite ErrBusy) → (n < fuel)%nat →
  0 ≤ D → D + Z.of_nat n * backoffMaxDelay < 2 ^ 63 →
  retry_loop fuel attempt D {| c_db := d; c_rt := rt |} = (o, {| c_db := d''; c_rt := retried D n rt |}).
Proof.
  intros Hatt Hbusy Ho Hne. revert fuel D rt.
  induction Hbusy as [d|n d d1 d2 Hd Hbusy IH]; intros fuel D rt Hfuel HD Hmax;
    (destruct fuel as [|fuel]; [lia|]).
  - assert (retried D 0 rt = rt) as -> by (unfold retried; rewrite Nat.add_0_r; by destruct rt).
    apply retry_loop_done; [|done]. by rewrite Hatt, Ho.
  - erewrite retry_loop_busy by (by rewrite Hatt, Hd). simpl.
    assert (0 ≤ increment rt 0 < backoffMaxDelay) as Hinc by (by apply Z.mod_pos_bound).
    assert (next_delay D rt = D + increment rt 0) as ->.
    { unfold next_delay, increment in *. rewrite Nat.add_0_r in *. apply int64_small.
      unfold is_int64, backoffMaxDelay, Millisecond in *. lia. }
    unfold backoffMaxDelay, Millisecond in *. rewrite IH, retried_S by (done || lia). done.
Qed.
End lemmas.

(** The clock after [n] more sleeps. *)
Definition slept_more (n : nat) (rt rt' : Runtime) : Prop :=
  ∃ ds, length ds = n ∧ rt_slept rt' = ds ++ rt_slept rt ∧ rt_drawn rt' = (rt_drawn rt + n)%nat.

Lemma retry_loop_stuck {DB A} `{SqlEngine DB, Fuel} (attempt : GoM (Conn DB) A) fuel delay (c : Conn DB) :
  (∀ c, attempt c = (Err (ESqlite ErrBusy), c)) →
  ∃ rt, retry_loop fuel attempt delay c = (OutOfFuel, {| c_db := c_db c; c_rt := rt |}) ∧
        slept_more fuel (c_rt c) rt.
Proof.
  intros Hatt. revert delay c. induction fuel as [|fuel IH]; intros delay c.
  - exists (c_rt c). split; [by destruct c|]. exists []. split_and!; [done..|lia].
  - erewrite retry_loop_busy by apply Hatt.
    destruct (IH (next_delay delay (c_rt c))
                {| c_db := c_db c; c_rt := backed_off (next_delay delay (c_rt c)) (c_rt c) |})
      as (rt & -> & ds & Hn & Hds & Hdrawn).
    exists rt. split; [done|]. exists (ds ++ [next_delay delay (c_rt c)]). simpl in *.
    rewrite length_app, <- app_assoc. split_and!; [simpl; lia|done|lia].
Qed.

(** * Properties *)

(** C37 (termination).  If the database answers [n] times that it is busy and then gives any
    other answer, [RetryExec] and [RetryQuery] return that answer.  Before it they sleep exactly
    [n] times: the first time for the base delay and a random increment, then each time for the
    time before and another one; nothing else of the clock or the random numbers is used. *)
Theorem RetryExec_finishes {DB} `{SqlEngine DB, Fuel} (n : nat) (rt : Runtime) :
  (n < retry_fuel)%nat → Z.of_nat n ≤ 10 ^ 10 →
  (∀ st (d d' d'' : DB) o, stmt_rowid st ≤ MaxInt64 → busy_answers (db_exec st) n d d' →
     db_exec st d' = (o, d'') → o ≠ Err (ESqlite ErrBusy) →
     RetryExec st {| c_db := d; c_rt := rt |} = (o, {| c_db := d''; c_rt := retried baseDelay n rt |})) ∧
  (∀ q (d d' d'' : DB) o, query_rowid q ≤ MaxInt64 → busy_answers (db_query q) n d d' →
     db_query q d' = (o, d'') → o ≠ Err (ESqlite ErrBusy) →
     RetryQuery q {| c_db := d; c_rt := rt |} = (o, {| c_db := d''; c_rt := retried baseDelay n rt |})).
Proof.
  intros Hn Hmax. split; intros x d d' d'' o Hid Hbusy Ho Hne.
  - eapply retry_loop_answers; [by apply Exec_only|done..|].
    unfold baseDelay, backoffMaxDelay, Millisecond. lia.
  - eapply retry_loop_answers; [by apply Query_only|done..|].
    unfold baseDelay, backoffMaxDelay, Millisecond. lia.
Qed.

Definition sample_runtime : Runtime :=
  {| rt_rand := λ n, 7000000 * Z.of_nat (S n); rt_drawn := 0; rt_slept := [] |}.

(** Two busy answers: sleeps of 107 and 121 milliseconds. *)
Lemma RetryExec_finishes_witness :
  let _ : Fuel := {| retry_fuel := 3; copy_fuel := 0 |} in
  RetryExec (putNewEntryStmt "/a" "file")
    {| c_db := {| mem_rows := []; mem_faults := [Some ErrBusy; Some ErrBusy] |};
       c_rt := sample_runtime |}
  = (Ret {| RowsAffected := 1; LastInsertId := 1 |},
     {| c_db := {| mem_rows := [new_row mem_affinity 1 "/a" "file"]; mem_faults := [] |};
        c_rt := {| rt_rand := rt_rand sample_runtime; rt_drawn := 2;
                   rt_slept := [121 * Millisecond; 107 * Millisecond] |} |}).
Proof.
  intros F. assert (2 < retry_fuel)%nat as Hf by (simpl; lia).
  assert (Z.of_nat 2 ≤ 10 ^ 10) as Hmax by lia.
  apply (proj1 (RetryExec_finishes (DB := MemDb) 2 sample_runtime Hf Hmax)
           (putNewEntryStmt "/a" "file") _ {| mem_rows := []; mem_faults := [] |});
    [by vm_compute| |done|done].
  eapply busy_once; [reflexivity|]. eapply busy_once; [reflexivity|]. apply busy_none.
Defined.

(** C38 (error).  [RetriableRow.Scan] never recovers from contention: when the query of its row
    ended with the busy error, the loop retries the scan of the same row, which returns the same
    error, so no amount of fuel lets it return, whatever happens to the database meanwhile. *)
Theorem Scan_never_returns {DB A} `{SqlEngine DB, Fuel} (dest : list SqlValue → outcome A)
    (c : Conn DB) :
  ∃ c', Scan (RowErr (ESqlite ErrBusy)) dest c = (OutOfFuel, c') ∧ c_db c' = c_db c.
Proof.
  destruct (retry_loop_stuck (row_Scan (RowErr (ESqlite ErrBusy)) dest) retry_fuel baseDelay c)
    as (rt & E & _); [done|]. by eexists.
Qed.

(** An error other than contention is returned at once by all three wrappers:
    one attempt, no sleep. *)
Theorem retry_other_errors {DB A} `{SqlEngine DB, Fuel} (attempt : GoM (Conn DB) A)
    (e : error) (c c' : Conn DB) :
  attempt c = (Err e, c') → e ≠ ESqlite ErrBusy → (0 < retry_fuel)%nat →
  retry_loop retry_fuel attempt baseDelay c = (Err e, c').
Proof.
  intros E Hne Hf. destruct retry_fuel; [lia|]. apply retry_loop_done; congruence.
Qed.

Lemma retry_other_errors_witness :
  let _ : Fuel := {| retry_fuel := 1; copy_fuel := 0 |} in
  let c := {| c_db := {| mem_rows := [new_row mem_affinity 1 "/a" "file"]; mem_faults := [] |};
              c_rt := sample_runtime |} in
  retry_loop retry_fuel (Exec (putNewEntryStmt "/a" "file")) baseDelay c
  = (Err (ESqlite 19), c).
Proof. intros F c. by apply retry_other_errors; [reflexivity| |vm_compute; lia]. Defined.

(** Without faults to come, the engine is never busy. *)
Lemma mem_exec_quiet st (d : MemDb) :
  mem_faults d = [] →
  (db_exec st d).1 ≠ Err (ESqlite ErrBusy) ∧ mem_faults (db_exec st d).2 = [].
Proof.
  destruct d as [rows fs]. simpl. intros ->. unfold mem_exec, mem_step. simpl.
  destruct (update_of _ _) as [[]|]; [done|]. destruct st; try done. simpl.
  destruct (existsb _ _); [done|]. by destruct (_ <=? _).
Qed.

Lemma mem_query_quiet q (d : MemDb) :
  mem_faults d = [] →
  (db_query q d).1 ≠ Err (ESqlite ErrBusy) ∧ mem_faults (db_query q d).2 = [].
Proof. destruct d as [rows fs]. simpl. by intros ->. Qed.
