(* ===== verification/Kernel.v ===== *)
(** The operating system under the program: the calls of Go's [os] and [io/ioutil] that
    internal/real/syscalls.go and internal/cache/content.go issue.

    [Kernel] is the interface.  The remote tree is arbitrary and may change at any time, so
    nothing is assumed about what a remote call returns.  The cache directory belongs to the
    program: [KernelView] names what the proofs look at in a kernel state, and [KernelLaws] is
    the documented effect of each call on it.  [MemOs] is an executable kernel with a local and
    a remote tree that satisfies the laws; it can be told to fail. *)
From S2P Require Import Prelude GoStrings GoPath Types.
#[local] Open Scope Z_scope.

Abbreviation bytes := (list ascii) (only parsing).

(** An open [*os.File]: its descriptor and the name it was opened with. *)
Record File : Type := { f_fd : Z; f_name : string }.

(** [Read], [ReadAt] and [Write] return a count together with an error; the count is the
    length of the data for the reading calls. *)
Class Kernel (OS : Type) : Type := {
  os_Lstat : string → GoM OS FileInfo;
  os_Mkdir : string → Z → GoM OS ();
  os_Open : string → GoM OS File;
  os_Readlink : string → GoM OS string;
  os_Remove : string → GoM OS ();
  os_Rename : string → string → GoM OS ();
  os_TempFile : string → string → GoM OS File;
  file_Read : File → nat → GoM OS (bytes * option error);
  file_ReadAt : File → nat → Z → GoM OS (bytes * option error);
  file_Write : File → bytes → GoM OS (nat * option error);
  file_Readdir : File → GoM OS (list FileInfo);
  file_Close : File → GoM OS ();
}.

(** What is at a path of the cache directory. *)
Inductive node : Type := Regular (content : bytes) | Other.

#[export] Instance node_eq_dec : EqDecision node.
Proof. solve_decision. Defined.

Class KernelView (OS : Type) : Type := {
  is_local : string → bool;              (* the paths of the cache directory *)
  os_local : OS → gmap string node;      (* what is at them *)
  os_stream : OS → gmap Z bytes;         (* what a descriptor's reads are still to deliver *)
  os_image : OS → gmap Z bytes;          (* the contents behind a descriptor of a local file *)
  os_writable : OS → gmap Z string;      (* the temporary file a descriptor writes to *)
}.

(** A call answers or fails; it never panics. *)
Definition answers {A} (o : outcome A) : Prop :=
  match o with Ret _ | Err _ => True | _ => False end.

Class KernelLaws (OS : Type) `{Kernel OS, KernelView OS} : Prop := {
  Lstat_spec p s :
    let '(o, s') := os_Lstat p s in
    answers o ∧ os_local s' = os_local s ∧ os_stream s' = os_stream s ∧
    os_writable s' = os_writable s ∧
    (is_local p = true →
     match o with
     | Ret _ => is_Some (os_local s !! p)
     | Err e => IsNotExist e = true → os_local s !! p = None
     | _ => True
     end);
  Mkdir_spec p m s :
    let '(o, s') := os_Mkdir p m s in
    answers o ∧ os_stream s' = os_stream s ∧ os_writable s' = os_writable s ∧
    (is_local p = true →
     match o with
     | Ret _ => os_local s !! p = None ∧ os_local s' = <[p := Other]> (os_local s)
     | _ => os_local s' = os_local s
     end);
  Open_spec p s :
    let '(o, s') := os_Open p s in
    answers o ∧ os_local s' = os_local s ∧ os_writable s' = os_writable s ∧
    match o with
    | Ret f =>
        (∃ c, os_stream s' = <[f_fd f := c]> (os_stream s)) ∧
        (is_local p = true → ∀ c, os_local s !! p = Some (Regular c) →
           os_image s' !! f_fd f = Some c)
    | _ => os_stream s' = os_stream s
    end;
  Readlink_spec p s :
    let '(o, s') := os_Readlink p s in
    answers o ∧ os_local s' = os_local s ∧ os_stream s' = os_stream s ∧
    os_writable s' = os_writable s;
  Remove_spec p s :
    let '(o, s') := os_Remove p s in
    answers o ∧
    (is_local p = true →
     match o with
     | Ret _ => os_local s' = delete p (os_local s)
     | _ => os_local s' = os_local s
     end) ∧
    (is_local p = false → os_local s' = os_local s);
  Rename_spec p q s :
    let '(o, s') := os_Rename p q s in
    answers o ∧
    (is_local p = true → is_local q = true →
     match o with
     | Ret _ => ∃ n, os_local s !! p = Some n ∧
                     os_local s' = <[q := n]> (delete p (os_local s))
     | _ => os_local s' = os_local s
     end);
  TempFile_spec dir prefix s :
    let '(o, s') := os_TempFile dir prefix s in
    answers o ∧ (∀ fd c, os_stream s !! fd = Some c → os_stream s' !! fd = Some c) ∧
    match o with
    | Ret f =>
        (∃ i, is_uint64 i ∧ f_name f = Join [dir; prefix +:+ FormatUint i]) ∧
        os_writable s' = <[f_fd f := f_name f]> (os_writable s) ∧
        (is_local (f_name f) = true →
           os_local s !! f_name f = None ∧
           os_local s' = <[f_name f := Regular []]> (os_local s))
    | _ => os_local s' = os_local s
    end;
  Read_spec f n s :
    let '(o, s') := file_Read f n s in
    os_local s' = os_local s ∧ os_writable s' = os_writable s ∧
    ∃ data err, o = Ret (data, err) ∧ (length data ≤ n)%nat ∧
      (err = None → data ≠ [] ∨ n = 0%nat) ∧
      ∀ c, os_stream s !! f_fd f = Some c →
        ∃ rest, c = data ++ rest ∧ os_stream s' = <[f_fd f := rest]> (os_stream s) ∧
                (err = Some EEOF → rest = []);
  ReadAt_spec f n off s :
    let '(o, s') := file_ReadAt f n off s in
    os_local s' = os_local s ∧
    ∃ data err, o = Ret (data, err) ∧ (length data ≤ n)%nat ∧
      ∀ c, os_image s !! f_fd f = Some c → 0 ≤ off → err = None ∨ err = Some EEOF →
        data = take n (drop (Z.to_nat off) c);
  Write_spec f data s :
    let '(o, s') := file_Write f data s in
    os_stream s' = os_stream s ∧ os_writable s' = os_writable s ∧
    ∃ n err, o = Ret (n, err) ∧ (n ≤ length data)%nat ∧
      (n ≠ length data → err ≠ None) ∧
      ∀ p c, os_writable s !! f_fd f = Some p → os_local s !! p = Some (Regular c) →
        os_local s' = <[p := Regular (c ++ take n data)]> (os_local s);
  Readdir_spec f s :
    let '(o, s') := file_Readdir f s in
    answers o ∧ os_local s' = os_local s;
  Close_spec f s :
    let '(o, s') := file_Close f s in
    answers o ∧ os_local s' = os_local s;
}.

(** * A kernel in memory *)

(** An entry of the remote tree. *)
Inductive rnode : Type :=
  | RFile (info : FileInfo) (content : bytes)
  | RDir (info : FileInfo) (entries : list FileInfo)
  | RLink (info : FileInfo) (target : string).

Record handle : Type := {
  h_stream : bytes; h_image : bytes; h_writes : option string; h_entries : list FileInfo;
}.

(** [mo_drawn] are the names that [TempFile] has given out; [mo_faults] lists what happens to the coming calls: [Some errno] makes one fail. *)
Record MemOs : Type := {
  mo_local : gmap string node;
  mo_remote : gmap string rnode;
  mo_handles : gmap Z handle;
  mo_next : Z;
  mo_drawn : gset string;
  mo_faults : list (option errno);
}.

#[export] Instance rnode_eq_dec : EqDecision rnode.
Proof. solve_decision. Defined.
#[export] Instance handle_eq_dec : EqDecision handle.
Proof. solve_decision. Defined.
#[export] Instance MemOs_eq_dec : EqDecision MemOs.
Proof. solve_decision. Defined.

Definition mem_is_local (p : string) : bool := String.prefix "/cache/" p.

Definition mo_set_local (l : gmap string node) (s : MemOs) : MemOs :=
  {| mo_local := l; mo_remote := mo_remote s; mo_handles := mo_handles s;
     mo_next := mo_next s; mo_drawn := mo_drawn s; mo_faults := mo_faults s |}.
Definition mo_set_handle (fd : Z) (h : handle) (s : MemOs) : MemOs :=
  {| mo_local := mo_local s; mo_remote := mo_remote s; mo_handles := <[fd := h]> (mo_handles s);
     mo_next := mo_next s; mo_drawn := mo_drawn s; mo_faults := mo_faults s |}.
Definition mo_set_next (n : Z) (s : MemOs) : MemOs :=
  {| mo_local := mo_local s; mo_remote := mo_remote s; mo_handles := mo_handles s;
     mo_next := n; mo_drawn := mo_drawn s; mo_faults := mo_faults s |}.
Definition mo_set_faults (fs : list (option errno)) (s : MemOs) : MemOs :=
  {| mo_local := mo_local s; mo_remote := mo_remote s; mo_handles := mo_handles s;
     mo_next := mo_next s; mo_drawn := mo_drawn s; mo_faults := fs |}.

Definition mo_draw (p : string) (s : MemOs) : MemOs :=
  {| mo_local := mo_local s; mo_remote := mo_remote s; mo_handles := mo_handles s;
     mo_next := mo_next s; mo_drawn := {[p]} ∪ mo_drawn s; mo_faults := mo_faults s |}.

(** A call consumes one planned fault. *)
Definition with_fault {A} (fail : errno → A) (body : GoM MemOs A) : GoM MemOs A := λ s,
  match mo_faults s with
  | Some no :: fs => (Ret (fail no), mo_set_faults fs s)
  | _ => body (mo_set_faults (tail (mo_faults s)) s)
  end.

Definition fallible {A} (op path : string) (body : MemOs → (errno + A) * MemOs) : GoM MemOs A :=
  λ s, match with_fault inl (λ s, let '(r, s') := body s in (Ret r, s')) s with
       | (Ret (inl no), s') => (Err (EPath op path no), s')
       | (Ret (inr a), s') => (Ret a, s')
       | (_, s') => (Err (EPath op path EIO), s')
       end.

Definition local_info (p : string) (n : node) : FileInfo :=
  match n with
  | Regular c => {| Name := Base p; Size := Z.of_nat (length c); Mode := 384; ModTime := 0 |}
  | Other => {| Name := Base p; Size := 0; Mode := ModeDir + 493; ModTime := 0 |}
  end.

Definition remote_info (n : rnode) : FileInfo :=
  match n with RFile i _ | RDir i _ | RLink i _ => i end.

Definition mem_Lstat (p : string) : GoM MemOs FileInfo := fallible "lstat" p (λ s,
  if mem_is_local p then
    match mo_local s !! p with Some n => (inr (local_info p n), s) | None => (inl ENOENT, s) end
  else
    match mo_remote s !! p with Some n => (inr (remote_info n), s) | None => (inl ENOENT, s) end).

Definition mem_has (p : string) (s : MemOs) : bool :=
  if mem_is_local p then bool_decide (is_Some (mo_local s !! p))
  else bool_decide (is_Some (mo_remote s !! p)).

(** An injected ENOENT gets another number when the path does exist. *)
Definition no_false_enoent (p : string) (m : GoM MemOs FileInfo) : GoM MemOs FileInfo := λ s,
  match m s with
  | (Err (EPath op q no), s') =>
      if bool_decide (no = ENOENT) && mem_has p s
      then (Err (EPath op q EIO), s') else (Err (EPath op q no), s')
  | r => r
  end.

Definition mem_Mkdir (p : string) (mode : Z) : GoM MemOs () := fallible "mkdir" p (λ s,
  match mo_local s !! p with
  | Some _ => (inl EEXIST, s)
  | None => (inr (), mo_set_local (<[p := Other]> (mo_local s)) s)
  end).

Definition new_handle (p : string) (h : handle) (s : MemOs) : (errno + File) * MemOs :=
  match mo_handles s !! mo_next s with
  | Some _ => (inl (EOTHER 24), s)
  | None => (inr {| f_fd := mo_next s; f_name := p |},
             mo_set_next (mo_next s + 1) (mo_set_handle (mo_next s) h s))
  end.

Definition mem_Open (p : string) : GoM MemOs File := fallible "open" p (λ s,
  let reading c es := {| h_stream := c; h_image := c; h_writes := None; h_entries := es |} in
  if mem_is_local p then
    match mo_local s !! p with
    | Some (Regular c) => new_handle p (reading c []) s
    | Some Other => new_handle p (reading [] []) s
    | None => (inl ENOENT, s)
    end
  else
    match mo_remote s !! p with
    | Some (RFile _ c) => new_handle p (reading c []) s
    | Some (RDir _ es) => new_handle p (reading [] es) s
    | Some (RLink _ _) | None => (inl ENOENT, s)
    end).

Definition mem_Readlink (p : string) : GoM MemOs string := fallible "readlink" p (λ s,
  match mo_remote s !! p with
  | Some (RLink _ t) => (inr t, s)
  | Some _ => (inl (EOTHER 22), s)
  | None => (inl ENOENT, s)
  end).

Definition mem_Remove (p : string) : GoM MemOs () := fallible "remove" p (λ s,
  if mem_is_local p then
    match mo_local s !! p with
    | Some _ => (inr (), mo_set_local (delete p (mo_local s)) s)
    | None => (inl ENOENT, s)
    end
  else (inl ENOTEMPTY, s)).

Definition mem_Rename (p q : string) : GoM MemOs () := fallible "rename" p (λ s,
  match mo_local s !! p with
  | Some n => (inr (), mo_set_local (<[q := n]> (delete p (mo_local s))) s)
  | None => (inl ENOENT, s)
  end).

#[local] Arguments Join : simpl never.

Definition mem_TempFile (dir prefix : string) : GoM MemOs File := fallible "open" dir (λ s,
  let p := Join [dir; prefix +:+ FormatUint (uint64 (mo_next s))] in
  if bool_decide (is_Some (mo_local s !! p) ∨ p ∈ mo_drawn s) then (inl EEXIST, s)
  else
    let '(r, s') := new_handle p
      {| h_stream := []; h_image := []; h_writes := Some p; h_entries := [] |} s in
    match r with
    | inr f => (inr f, mo_draw p (mo_set_local (<[p := Regular []]> (mo_local s')) s'))
    | inl e => (inl e, s')
    end).

Definition mem_Read (f : File) (n : nat) : GoM MemOs (bytes * option error) :=
  with_fault (λ no, ([], Some (EPath "read" (f_name f) no))) (λ s,
  match mo_handles s !! f_fd f with
  | None => (Ret ([], Some (EPath "read" (f_name f) (EOTHER 9))), s)
  | Some h =>
      if (n =? 0)%nat then (Ret ([], None), s)
      else match h_stream h with
           | [] => (Ret ([], Some EEOF), s)
           | c => (Ret (take n c, None),
                   mo_set_handle (f_fd f)
                     {| h_stream := drop n c; h_image := h_image h; h_writes := h_writes h;
                        h_entries := h_entries h |} s)
           end
  end).

Definition mem_ReadAt (f : File) (n : nat) (off : Z) : GoM MemOs (bytes * option error) :=
  with_fault (λ no, ([], Some (EPath "read" (f_name f) no))) (λ s,
  match mo_handles s !! f_fd f with
  | None => (Ret ([], Some (EPath "read" (f_name f) (EOTHER 9))), s)
  | Some h =>
      if off <? 0 then (Ret ([], Some (EPath "readat" (f_name f) (EOTHER 22))), s)
      else let data := take n (drop (Z.to_nat off) (h_image h)) in
           (Ret (data, if (length data <? n)%nat then Some EEOF else None), s)
  end).

Definition mem_Write (f : File) (data : bytes) : GoM MemOs (nat * option error) :=
  with_fault (λ no, (0%nat, Some (EPath "write" (f_name f) no))) (λ s,
  match h ← mo_handles s !! f_fd f; h_writes h with
  | None => (Ret (0%nat, Some (EPath "write" (f_name f) (EOTHER 9))), s)
  | Some p =>
      match mo_local s !! p with
      | Some (Regular c) =>
          (Ret (length data, None), mo_set_local (<[p := Regular (c ++ data)]> (mo_local s)) s)
      | _ => (Ret (length data, None), s)
      end
  end).

Definition mem_Readdir (f : File) : GoM MemOs (list FileInfo) :=
  fallible "readdirent" (f_name f) (λ s,
  match mo_handles s !! f_fd f with
  | Some h => (inr (h_entries h), s)
  | None => (inl (EOTHER 9), s)
  end).

Definition mem_Close (f : File) : GoM MemOs () := fallible "close" (f_name f) (λ s,
  match mo_handles s !! f_fd f with
  | Some _ => (inr (), s)
  | None => (inl (EOTHER 9), s)
  end).

#[export] Instance MemOs_kernel : Kernel MemOs := {|
  os_Lstat p := no_false_enoent p (mem_Lstat p);
  os_Mkdir := mem_Mkdir;
  os_Open := mem_Open;
  os_Readlink := mem_Readlink;
  os_Remove := mem_Remove;
  os_Rename := mem_Rename;
  os_TempFile := mem_TempFile;
  file_Read := mem_Read;
  file_ReadAt := mem_ReadAt;
  file_Write := mem_Write;
  file_Readdir := mem_Readdir;
  file_Close := mem_Close;
|}.

#[export] Instance MemOs_view : KernelView MemOs := {|
  is_local := mem_is_local;
  os_local := mo_local;
  os_stream s := h_stream <$> mo_handles s;
  os_image s := h_image <$> mo_handles s;
  os_writable s := omap h_writes (mo_handles s);
|}.

Lemma fallible_cases {A} op p (body : MemOs → (errno + A) * MemOs) s :
  (∃ no fs, fallible op p body s = (Err (EPath op p no), mo_set_faults fs s)) ∨
  (∃ fs, fallible op p body s =
     let '(r, s') := body (mo_set_faults fs s) in
     (match r with inl no => Err (EPath op p no) | inr a => Ret a end, s')).
Proof.
  unfold fallible, with_fault. destruct (mo_faults s) as [|[no|] fs].
  - right. exists []. simpl. by destruct (body (mo_set_faults [] s)) as [[?|?] ?].
  - left. by exists no, fs.
  - right. exists fs. simpl. by destruct (body (mo_set_faults fs s)) as [[?|?] ?].
Qed.

Lemma with_fault_cases {A} (fail : errno → A) (body : GoM MemOs A) s :
  (∃ no fs, with_fault fail body s = (Ret (fail no), mo_set_faults fs s)) ∨
  (∃ fs, with_fault fail body s = body (mo_set_faults fs s)).
Proof.
  unfold with_fault. destruct (mo_faults s) as [|[no|] fs];
    [right|left|right]; repeat eexists.
Qed.

Ltac mem_cases :=
  match goal with
  | |- context [fallible ?op ?p ?body ?s] =>
      destruct (fallible_cases op p body s) as [(no & fs & ->)|[fs ->]]
  | |- context [with_fault ?fail ?body ?s] =>
      destruct (with_fault_cases fail body s) as [(no & fs & ->)|[fs ->]]
  end; simpl.

Lemma new_handle_cases p h s :
  (∃ e, new_handle p h s = (inl e, s)) ∨
  (mo_handles s !! mo_next s = None ∧
   new_handle p h s = (inr {| f_fd := mo_next s; f_name := p |},
                       mo_set_next (mo_next s + 1) (mo_set_handle (mo_next s) h s))).
Proof. unfold new_handle. destruct (mo_handles s !! mo_next s); [left; by eexists|by right]. Qed.

Lemma omap_insert_None {A B} (f : A → option B) (m : gmap Z A) i x :
  m !! i = None → f x = None → omap f (<[i := x]> m) = omap f m.
Proof.
  intros Hm Hf. apply map_eq. intros j. rewrite !lookup_omap, lookup_insert.
  case_decide; [subst|done]. by rewrite Hm.
Qed.

Lemma omap_insert_Some_eq {A B} (f : A → option B) (m : gmap Z A) i x y :
  f x = Some y → omap f (<[i := x]> m) = <[i := y]> (omap f m).
Proof.
  intros Hf. apply map_eq. intros j. rewrite lookup_omap, !lookup_insert.
  case_decide; [done|]. by rewrite lookup_omap.
Qed.

Lemma omap_insert_same {A B} (f : A → option B) (m : gmap Z A) i x y :
  m !! i = Some y → f x = f y → omap f (<[i := x]> m) = omap f m.
Proof.
  intros Hm Hf. apply map_eq. intros j. rewrite !lookup_omap, lookup_insert.
  case_decide; [subst|done]. by rewrite Hm.
Qed.

Lemma mem_Lstat_spec p s :
  let '(o, s') := no_false_enoent p (mem_Lstat p) s in
  answers o ∧ mo_local s' = mo_local s ∧ mo_handles s' = mo_handles s ∧
  (mem_is_local p = true →
   match o with
   | Ret _ => is_Some (mo_local s !! p)
   | Err e => IsNotExist e = true → mo_local s !! p = None
   | _ => True
   end).
Proof.
  unfold no_false_enoent, mem_Lstat, mem_has. mem_cases.
  - destruct (mem_is_local p) eqn:Hp; (destruct (bool_decide (no = ENOENT)) eqn:Hno;
      [destruct (bool_decide (is_Some _)) eqn:Hs|]); simpl; split_and!; try done; rewrite ?Hno; try done.
    intros _ _. apply bool_decide_eq_false in Hs. by apply eq_None_not_Some.
  - destruct (mem_is_local p) eqn:Hp; simpl.
    + destruct (mo_local s !! p) eqn:Hl; simpl; by split_and!.
    + destruct (mo_remote s !! p) eqn:Hl; simpl; by split_and!.
Qed.

Lemma mem_Open_spec p s :
  let '(o, s') := mem_Open p s in
  answers o ∧ mo_local s' = mo_local s ∧
  omap h_writes (mo_handles s') = omap h_writes (mo_handles s) ∧
  match o with
  | Ret f =>
      (∃ c, h_stream <$> mo_handles s' = <[f_fd f := c]> (h_stream <$> mo_handles s)) ∧
      (mem_is_local p = true → ∀ c, mo_local s !! p = Some (Regular c) →
         (h_image <$> mo_handles s') !! f_fd f = Some c)
  | _ => h_stream <$> mo_handles s' = h_stream <$> mo_handles s
  end.
Proof.
  unfold mem_Open. mem_cases; [by split_and!|].
  repeat match goal with
  | |- context [mem_is_local p] => destruct (mem_is_local p) eqn:Hp
  | |- context [mo_local s !! p] => destruct (mo_local s !! p) as [[]|] eqn:Hl
  | |- context [mo_remote s !! p] => destruct (mo_remote s !! p) as [[]|] eqn:Hr
  | |- context [new_handle ?q ?h ?t] =>
      destruct (new_handle_cases q h t) as [[e ->]|[Hn ->]]; simpl in *
  end; simpl; split_and!; try done;
    try (by apply omap_insert_None); try (eexists; by rewrite fmap_insert);
    intros; simplify_eq/=; rewrite fmap_insert; by rewrite lookup_insert_eq.
Qed.

Lemma mem_TempFile_spec dir prefix s :
  let '(o, s') := mem_TempFile dir prefix s in
  answers o ∧
  (∀ fd c, (h_stream <$> mo_handles s) !! fd = Some c →
           (h_stream <$> mo_handles s') !! fd = Some c) ∧
  match o with
  | Ret f =>
      (∃ i, is_uint64 i ∧ f_name f = Join [dir; prefix +:+ FormatUint i]) ∧
      omap h_writes (mo_handles s') = <[f_fd f := f_name f]> (omap h_writes (mo_handles s)) ∧
      (mem_is_local (f_name f) = true →
         mo_local s !! f_name f = None ∧
         mo_local s' = <[f_name f := Regular []]> (mo_local s))
  | _ => mo_local s' = mo_local s
  end.
Proof.
  unfold mem_TempFile. mem_cases; [by split_and!|].
  remember (Join [dir; prefix +:+ FormatUint (uint64 (mo_next s))]) as tmp eqn:Htmp.
  destruct (bool_decide _) eqn:Hb; simpl; [by split_and!|].
  apply bool_decide_eq_false in Hb.
  assert (mo_local s !! tmp = None) as Hl by (apply eq_None_not_Some; tauto).
  match goal with |- context [new_handle ?q ?h ?t] =>
    destruct (new_handle_cases q h t) as [[e ->]|[Hn ->]] end; simpl in *; [by split_and!|].
  split_and!; try done.
  - intros fd c. rewrite fmap_insert. destruct (decide (mo_next s = fd)) as [<-|Hne].
    + by rewrite lookup_fmap, Hn.
    + by rewrite lookup_insert_ne.
  - exists (uint64 (mo_next s)). split; [apply uint64_range|done].
  - by apply omap_insert_Some_eq.
Qed.

Lemma mem_Read_spec f n s :
  let '(o, s') := mem_Read f n s in
  mo_local s' = mo_local s ∧ omap h_writes (mo_handles s') = omap h_writes (mo_handles s) ∧
  ∃ data err, o = Ret (data, err) ∧ (length data ≤ n)%nat ∧
    (err = None → data ≠ [] ∨ n = 0%nat) ∧
    ∀ c, (h_stream <$> mo_handles s) !! f_fd f = Some c →
      ∃ rest, c = data ++ rest ∧
              h_stream <$> mo_handles s' = <[f_fd f := rest]> (h_stream <$> mo_handles s) ∧
              (err = Some EEOF → rest = []).
Proof.
  assert (∀ c, (h_stream <$> mo_handles s) !! f_fd f = Some c →
            h_stream <$> mo_handles s = <[f_fd f := c]> (h_stream <$> mo_handles s)) as Hid
    by (intros c Hc; by rewrite insert_id).
  unfold mem_Read. mem_cases.
  { split_and!; try done. do 2 eexists. split_and!; [done|simpl; lia|done|].
    intros c Hc. exists c. split_and!; auto; done. }
  destruct (mo_handles s !! f_fd f) as [h|] eqn:Hh; simpl.
  2:{ split_and!; try done. do 2 eexists. split_and!; [done|simpl; lia|done|].
      intros c. by rewrite lookup_fmap, Hh. }
  destruct (n =? 0)%nat eqn:Hn; simpl.
  { split_and!; try done. do 2 eexists. split_and!; [done|simpl; lia|intros _; right; by apply Nat.eqb_eq|].
    intros c Hc. exists c. split_and!; auto; done. }
  rewrite lookup_fmap, Hh. simpl.
  destruct (h_stream h) as [|x c] eqn:Hs; cbn -[firstn skipn].
  { split_and!; try done. do 2 eexists. split_and!; [done|simpl; lia|done|].
    intros c [= <-]. exists []. split_and!; try done. apply Hid. rewrite lookup_fmap, Hh. simpl. by rewrite Hs. }
  split_and!; [done|by eapply omap_insert_same|].
  do 2 eexists. split_and!; [done|rewrite length_take; lia| |].
  - intros _. left. by destruct n.
  - intros c' [= <-]. eexists. split_and!; [by rewrite take_drop| |done].
    by rewrite fmap_insert.
Qed.

#[export] Instance MemOs_laws : KernelLaws MemOs.
Proof.
  split; intros; simpl.
  - pose proof (mem_Lstat_spec p s) as Hs. simpl in *. destruct (no_false_enoent _ _ _).
    destruct Hs as (? & ? & Hh & ?). rewrite Hh. by split_and!.
  - unfold mem_Mkdir. mem_cases; [by split_and!|].
    destruct (mo_local s !! p) eqn:Hl; simpl; by split_and!.
  - apply mem_Open_spec.
  - unfold mem_Readlink. mem_cases; [by split_and!|].
    destruct (mo_remote s !! p) as [[]|]; simpl; by split_and!.
  - unfold mem_Remove. mem_cases; [by split_and!|].
    destruct (mem_is_local p), (mo_local s !! p); simpl; by split_and!.
  - unfold mem_Rename. mem_cases; [by split_and!|].
    destruct (mo_local s !! p) eqn:Hl; simpl; split_and!; try done. intros. by eexists.
  - apply mem_TempFile_spec.
  - apply mem_Read_spec.
  - unfold mem_ReadAt. mem_cases.
    { split_and!; [done|]. do 2 eexists. split_and!; [done|simpl; lia|].
      intros c _ _ [?|?]; done. }
    destruct (mo_handles s !! f_fd f) as [h|] eqn:Hh; simpl.
    2:{ split_and!; [done|]. do 2 eexists. split_and!; [done|simpl; lia|].
        intros c _ _ [?|?]; done. }
    destruct (off <? 0) eqn:Ho; simpl; (split_and!; [done|]); do 2 eexists.
    + split_and!; [done|simpl; lia|]. intros c _ ?. lia.
    + split_and!; [done|rewrite length_take; lia|]. intros c.
      rewrite lookup_fmap, Hh. by intros [= <-].
  - unfold mem_Write. mem_cases.
    { split_and!; try done. do 2 eexists. split_and!; [done|lia|done|].
      intros p c _ Hp. by rewrite take_0, app_nil_r, insert_id. }
    destruct (mo_handles s !! f_fd f) as [h|] eqn:Hh; simpl.
    2:{ split_and!; try done. do 2 eexists. split_and!; [done|lia|done|].
        intros p c. by rewrite lookup_omap, Hh. }
    destruct (h_writes h) as [q|] eqn:Hq; simpl.
    2:{ split_and!; try done. do 2 eexists. split_and!; [done|lia|done|].
        intros p c. by rewrite lookup_omap, Hh; simpl; rewrite Hq. }
    destruct (mo_local s !! q) as [[c|]|] eqn:Hl; simpl; (split_and!; try done);
      do 2 eexists; (split_and!; [done|lia|done|]); intros p c';
      rewrite lookup_omap, Hh; simpl; rewrite Hq; intros [= <-]; rewrite Hl; try done.
    intros [= <-]. by rewrite take_ge.
  - unfold mem_Readdir. mem_cases; [done|]. by destruct (mo_handles s !! f_fd f).
  - unfold mem_Close. mem_cases; [done|]. by destruct (mo_handles s !! f_fd f).
Qed.
