(* ===== verification/Syscalls.v ===== *)
(** Counted system calls: internal/real/syscalls.go.

    [World] is everything a handler can change: the statistics, the operating system and the
    connection to the metadata database.  Every call accounts one operation in its domain before
    it is issued; reads also account the bytes they delivered. *)
From S2P Require Import Prelude GoStrings GoPath Stats Types Sql Sqlite Kernel.
#[local] Open Scope Z_scope.

Record World (OS DB : Type) : Type := { w_stats : Stats; w_os : OS; w_conn : Conn DB }.
Arguments w_stats {OS DB} w.
Arguments w_os {OS DB} w.
Arguments w_conn {OS DB} w.
Arguments Build_World {OS DB} _ _ _.

Section world.
Context {OS DB : Type}.

Definition set_w_stats (s : Stats) (w : World OS DB) : World OS DB :=
  {| w_stats := s; w_os := w_os w; w_conn := w_conn w |}.
Definition set_w_os (s : OS) (w : World OS DB) : World OS DB :=
  {| w_stats := w_stats w; w_os := s; w_conn := w_conn w |}.
Definition set_w_conn (c : Conn DB) (w : World OS DB) : World OS DB :=
  {| w_stats := w_stats w; w_os := w_os w; w_conn := c |}.

Definition on_stats {A} (m : GoM Stats A) : GoM (World OS DB) A := go_zoom w_stats set_w_stats m.
Definition on_os {A} (m : GoM OS A) : GoM (World OS DB) A := go_zoom w_os set_w_os m.
Definition on_conn {A} (m : GoM (Conn DB) A) : GoM (World OS DB) A :=
  go_zoom w_conn set_w_conn m.
End world.

(** [tracedReader]: an open file that counts its reads. *)
Record tracedReader : Type := { tr_domain : OpDomain; tr_file : File }.

Section syscalls.
Context {OS DB : Type} `{Kernel OS}.
Abbreviation M := (GoM (World OS DB)).

Definition tr_Close (tr : tracedReader) : M () :=
  on_stats (AccountOsOp (tr_domain tr) CloseOsOp);;
  on_os (file_Close (tr_file tr)).

(** [if err == nil && n > 0 { AccountReadBytes }] *)
Definition account_read (domain : OpDomain) (r : bytes * option error) : M () :=
  let '(data, err) := r in
  if bool_decide (err = None) && (0 <? Z.of_nat (length data)) then
    on_stats (AccountReadBytes domain (Z.of_nat (length data)))
  else mret ().

Definition tr_Read (tr : tracedReader) (n : nat) : M (bytes * option error) :=
  on_stats (AccountOsOp (tr_domain tr) ReadOsOp);;
  r ← on_os (file_Read (tr_file tr) n);
  account_read (tr_domain tr) r;;
  mret r.

Definition tr_ReadAt (tr : tracedReader) (n : nat) (off : Z) : M (bytes * option error) :=
  on_stats (AccountOsOp (tr_domain tr) ReadOsOp);;
  r ← on_os (file_ReadAt (tr_file tr) n off);
  account_read (tr_domain tr) r;;
  mret r.

Definition tr_Readdir (tr : tracedReader) : M (list FileInfo) :=
  on_stats (AccountOsOp (tr_domain tr) ReaddirOsOp);;
  on_os (file_Readdir (tr_file tr)).

Definition Lstat (domain : OpDomain) (path : string) : M FileInfo :=
  on_stats (AccountOsOp domain LstatOsOp);;
  on_os (os_Lstat path).

Definition Mkdir (domain : OpDomain) (path : string) (mode : Z) : M () :=
  on_stats (AccountOsOp domain MkdirOsOp);;
  on_os (os_Mkdir path mode).

Definition Open (domain : OpDomain) (path : string) : M tracedReader :=
  on_stats (AccountOsOp domain OpenOsOp);;
  file ← on_os (os_Open path);
  mret {| tr_domain := domain; tr_file := file |}.

Definition Readlink (domain : OpDomain) (path : string) : M string :=
  on_stats (AccountOsOp domain ReadlinkOsOp);;
  on_os (os_Readlink path).

Definition Rename (domain : OpDomain) (from to : string) : M () :=
  on_stats (AccountOsOp domain RenameOsOp);;
  on_os (os_Rename from to).

Definition Remove (domain : OpDomain) (path : string) : M () :=
  on_stats (AccountOsOp domain RemoveOsOp);;
  on_os (os_Remove path).
End syscalls.
