(* ===== verification/WorldPost.v ===== *)
(** Reasoning about handlers: postconditions on the operating-system part of the world.

    [os_post Q E F r] says of a computation that it did not panic, that the statistics are well
    formed, and that the kernel state satisfies [Q] with the result, [E] with the error, or [F]
    when a loop did not end.  Accounting calls are invisible to it, so that the lemmas on a counted system call
    are those on the call. *)
From S2P Require Import Prelude GoStrings GoPath Stats Types Sql Sqlite Kernel Syscalls.
#[local] Open Scope Z_scope.

Section os_post.
Context {OS DB : Type} `{Kernel OS}.
Abbreviation M := (GoM (World OS DB)).

Definition os_post {A} (Q : A → OS → Prop) (E : error → OS → Prop) (F : OS → Prop)
    (r : outcome A * World OS DB) : Prop :=
  stats_wf (w_stats r.2) ∧
  match r with
  | (Ret a, w) => Q a (w_os w)
  | (Err e, w) => E e (w_os w)
  | (OutOfFuel, w) => F (w_os w)
  | _ => False
  end.

Lemma os_post_weaken {A} (Q Q' : A → OS → Prop) E E' (F F' : OS → Prop) r :
  os_post Q E F r → (∀ a s, Q a s → Q' a s) → (∀ e s, E e s → E' e s) → (∀ s, F s → F' s) →
  os_post Q' E' F' r.
Proof.
  intros [Hwf Hp] HQ HE HF. split; [done|]. destruct r as [[] w]; simpl in *; auto.
Qed.

Lemma os_post_ret {A} (Q : A → OS → Prop) E F a w :
  stats_wf (w_stats w) → Q a (w_os w) → os_post Q E F (Ret a, w).
Proof. done. Qed.

Lemma os_post_bind {A B} (P : A → OS → Prop) (Q : B → OS → Prop) E F (f : A → M B) (m : M A) w :
  os_post P E F (m w) →
  (∀ a w', stats_wf (w_stats w') → P a (w_os w') → os_post Q E F (f a w')) →
  os_post Q E F (go_bind f m w).
Proof.
  unfold os_post, go_bind. intros [Hwf Hm] Hf. destruct (m w) as [[a|e| | |] w']; simpl in *;
    [by apply Hf|done..].
Qed.

Lemma os_post_try {A} (Q : A → OS → Prop) E E' F (m : M A) w :
  os_post Q E F (m w) →
  os_post (λ r s, match r with inl e => E e s | inr a => Q a s end) E' F (go_try m w).
Proof. unfold os_post, go_try. intros [Hwf Hm]. by destruct (m w) as [[] w']. Qed.

Lemma os_post_wrap {A} (Q : A → OS → Prop) E F f (m : M A) w :
  os_post Q (λ e, E (f e)) F (m w) → os_post Q E F (go_wrap f m w).
Proof. unfold os_post, go_wrap. intros [Hwf Hm]. by destruct (m w) as [[] w']. Qed.

Lemma os_post_ignore {A} (P : OS → Prop) E F (m : M A) w :
  os_post (λ _, P) (λ _, P) F (m w) → os_post (λ _, P) E F (go_ignore m w).
Proof. unfold os_post, go_ignore, go_bind, go_try. intros [Hwf Hm]. by destruct (m w) as [[] w']. Qed.

Lemma os_post_defer {A B} (Q Q' : A → OS → Prop) E E' F F' (d : M B) (m : M A) w :
  os_post Q E F (m w) →
  (∀ a w', stats_wf (w_stats w') → Q a (w_os w') → os_post (λ _, Q' a) (λ _, Q' a) F' (d w')) →
  (∀ e w', stats_wf (w_stats w') → E e (w_os w') → os_post (λ _, E' e) (λ _, E' e) F' (d w')) →
  (∀ s, F s → F' s) →
  os_post Q' E' F' (go_defer d m w).
Proof.
  unfold os_post, go_defer. intros [Hwf Hm] HQ HE HFF.
  destruct (m w) as [[a|e| | |] w']; simpl in *;
    [apply (HQ _ _ Hwf) in Hm|apply (HE _ _ Hwf) in Hm|done|done|by split; auto].
  all: by destruct (d w') as [[] ?].
Qed.

(** A kernel call. *)
Lemma os_post_os {A} (Q : A → OS → Prop) E F (m : GoM OS A) w :
  stats_wf (w_stats w) → post Q E (λ _, False) (m (w_os w)) → os_post Q E F (on_os m w).
Proof.
  intros Hwf Hm. unfold os_post, on_os, go_zoom. by destruct (m (w_os w)) as [[] s'].
Qed.

(** An accounting call. *)
Lemma os_post_account {A} (Q : A → OS → Prop) E F ev (f : () → M A) w :
  stats_wf (w_stats w) → valid_counter (ev_counter ev) →
  (∀ w', stats_wf (w_stats w') → w_os w' = w_os w → w_conn w' = w_conn w →
     os_post Q E F (f () w')) →
  os_post Q E F (go_bind f (on_stats (account ev)) w).
Proof.
  intros Hwf Hv Hf. destruct (account_bumped ev _ Hwf Hv) as (st & Hst & Hb).
  unfold go_bind, on_stats, go_zoom. rewrite Hst. apply Hf; [|done|done].
  by eapply bumped_wf.
Qed.

(** A counted system call. *)
Lemma os_post_counted {A} (Q : A → OS → Prop) E F d op (m : GoM OS A) w :
  stats_wf (w_stats w) → d ∈ allDomains → op ∈ allOsOps →
  post Q E (λ _, False) (m (w_os w)) →
  os_post Q E F ((on_stats (AccountOsOp d op);; on_os m) w).
Proof.
  intros Hwf Hd Hop Hm.
  apply (os_post_account _ _ _ {| ev_counter := COs d op; ev_amount := 0 |}); [done|done|].
  intros w' Hwf' Hw' _. apply os_post_os; [done|]. by rewrite Hw'.
Qed.
End os_post.

Section calls.
Context {OS DB : Type} `{KernelLaws OS}.
Abbreviation M := (GoM (World OS DB)).

Ltac in_list := repeat (first [by left | right]).

(** Calls that only look leave the tree of the cache directory alone. *)
Lemma Lstat_post d p (w : World OS DB) :
  stats_wf (w_stats w) → d ∈ allDomains → is_local p = true →
  os_post (λ _ s, os_local s = os_local (w_os w) ∧ is_Some (os_local s !! p))
    (λ e s, os_local s = os_local (w_os w) ∧ (IsNotExist e = true → os_local s !! p = None))
    (λ _, False) (Lstat d p w).
Proof.
  intros Hwf Hd Hp. apply os_post_counted; [done|done|in_list|].
  pose proof (Lstat_spec p (w_os w)) as Hs.
  destruct (os_Lstat p (w_os w)) as [[fi|e| | |] s']; destruct Hs as (Ha & Hl & _ & _ & Ho);
    simpl in *; try done; (split; [done|]); rewrite Hl; by apply Ho.
Qed.

Lemma tr_Read_post tr n (w : World OS DB) :
  stats_wf (w_stats w) → tr_domain tr ∈ allDomains →
  os_post (λ '(data, err) s,
      os_local s = os_local (w_os w) ∧ os_writable s = os_writable (w_os w) ∧
      (length data ≤ n)%nat ∧ (err = None → data ≠ [] ∨ n = 0%nat) ∧
      ∀ c, os_stream (w_os w) !! f_fd (tr_file tr) = Some c →
        ∃ rest, c = data ++ rest ∧
                os_stream s = <[f_fd (tr_file tr) := rest]> (os_stream (w_os w)) ∧
                (err = Some EEOF → rest = []))
    (λ _ _, False) (λ _, False) (tr_Read tr n w).
Proof.
  intros Hwf Hd. unfold tr_Read.
  apply (os_post_account _ _ _ {| ev_counter := COs (tr_domain tr) ReadOsOp; ev_amount := 0 |});
    [done|split; [done|in_list]|]. intros w1 Hwf1 Hw1 _.
  pose proof (Read_spec (tr_file tr) n (w_os w1)) as Hs.
  eapply os_post_bind.
  { apply os_post_os; [done|]. destruct (file_Read _ n (w_os w1)) as [o s'].
    instantiate (1 := λ r s, os_local s = os_local (w_os w) ∧
      os_writable s = os_writable (w_os w) ∧ ∃ data err, r = (data, err) ∧ _ data err s).
    destruct Hs as (Hl & Hw & data & err & -> & Hrest). simpl. rewrite <- Hw1.
    split_and!; [done|done|]. exists data, err. split; [done|].
    instantiate (1 := λ data err s, (length data ≤ n)%nat ∧ (err = None → data ≠ [] ∨ n = 0%nat) ∧
      ∀ c, os_stream (w_os w) !! f_fd (tr_file tr) = Some c →
        ∃ rest, c = data ++ rest ∧
                os_stream s = <[f_fd (tr_file tr) := rest]> (os_stream (w_os w)) ∧
                (err = Some EEOF → rest = [])). simpl. by rewrite <- Hw1. }
  intros r w2 Hwf2 (Hl & Hw & data & err & -> & Hrest). simpl.
  destruct (_ && _); [|split; [done|done]].
  apply (os_post_account _ _ _
    {| ev_counter := CRead (tr_domain tr); ev_amount := Z.of_nat (length data) |}); [done|done|].
  intros w3 Hwf3 Hw3 _. split; [done|]. simpl. rewrite Hw3. done.
Qed.
End calls.
