(* ===== verification/Md5.v ===== *)
(** The digests that name the files of the content cache: Go's [crypto/md5] and
    [encoding/hex], as PutContents of internal/cache/content.go uses them.  A hash object is the
    list of the bytes written to it; [md5] computes the sum. *)
From S2P Require Import Prelude GoStrings Kernel.
#[local] Open Scope Z_scope.

(** * MD5 (RFC 1321) *)

Definition byte_of_Z (z : Z) : ascii := ascii_of_N (Z.to_N (z mod 256)).
Definition Z_of_byte (c : ascii) : Z := Z.of_N (N_of_ascii c).

(** [n] bytes of [z], the least significant first. *)
Fixpoint le_bytes (n : nat) (z : Z) : bytes :=
  match n with O => [] | S n => byte_of_Z z :: le_bytes n (Z.shiftr z 8) end.

(** 32-bit words of a list of bytes, the least significant byte of each first. *)
Fixpoint le_words (bs : bytes) : list Z :=
  match bs with
  | b0 :: b1 :: b2 :: b3 :: rest =>
      (Z_of_byte b0 + Z.shiftl (Z_of_byte b1) 8 + Z.shiftl (Z_of_byte b2) 16
       + Z.shiftl (Z_of_byte b3) 24) :: le_words rest
  | _ => []
  end.

(** The message, a one bit, zeros up to 56 bytes modulo 64, and the length in bits. *)
Definition md5_pad (m : bytes) : bytes :=
  let len := Z.of_nat (length m) in
  m ++ byte_of_Z 128 :: replicate (Z.to_nat ((55 - len) mod 64)) (byte_of_Z 0)
    ++ le_bytes 8 (uint64 (8 * len)).

Definition md5_K : list Z := [
   3614090360; 3905402710; 606105819; 3250441966; 4118548399; 1200080426;
   2821735955; 4249261313; 1770035416; 2336552879; 4294925233; 2304563134;
   1804603682; 4254626195; 2792965006; 1236535329; 4129170786; 3225465664;
   643717713; 3921069994; 3593408605; 38016083; 3634488961; 3889429448;
   568446438; 3275163606; 4107603335; 1163531501; 2850285829; 4243563512;
   1735328473; 2368359562; 4294588738; 2272392833; 1839030562; 4259657740;
   2763975236; 1272893353; 4139469664; 3200236656; 681279174; 3936430074;
   3572445317; 76029189; 3654602809; 3873151461; 530742520; 3299628645;
   4096336452; 1126891415; 2878612391; 4237533241; 1700485571; 2399980690;
   4293915773; 2240044497; 1873313359; 4264355552; 2734768916; 1309151649;
   4149444226; 3174756917; 718787259; 3951481745].

Definition md5_shifts (round : nat) : list Z :=
  match round with
  | 0%nat => [7; 12; 17; 22]
  | 1%nat => [5; 9; 14; 20]
  | 2%nat => [4; 11; 16; 23]
  | _ => [6; 10; 15; 21]
  end.

Definition rotl32 (x n : Z) : Z := Z.lor (uint32 (Z.shiftl x n)) (Z.shiftr x (32 - n)).
Definition not32 (x : Z) : Z := Z.lxor x (2 ^ 32 - 1).

(** The four words of the state. *)
Definition md5_state : Type := Z * Z * Z * Z.

Definition md5_init : md5_state := (1732584193, 4023233417, 2562383102, 271733878).

(** Step [i] of the sixty-four. *)
Definition md5_step (words : list Z) (st : md5_state) (i : nat) : md5_state :=
  let '(a, b, c, d) := st in
  let round := (i / 16)%nat in
  let '(f, g) := match round with
    | 0%nat => (Z.lor (Z.land b c) (Z.land (not32 b) d), i)
    | 1%nat => (Z.lor (Z.land d b) (Z.land (not32 d) c), (5 * i + 1)%nat)
    | 2%nat => (Z.lxor (Z.lxor b c) d, (3 * i + 5)%nat)
    | _ => (Z.lxor c (Z.lor b (not32 d)), (7 * i)%nat)
    end in
  let x := uint32 (a + f + nth i md5_K 0 + nth (g mod 16) words 0) in
  (d, uint32 (b + rotl32 x (nth (i mod 4) (md5_shifts round) 0)), b, c).

Definition md5_block (st : md5_state) (words : list Z) : md5_state :=
  let '(a, b, c, d) := st in
  let '(a', b', c', d') := foldl (md5_step words) st (seq 0 64) in
  (uint32 (a + a'), uint32 (b + b'), uint32 (c + c'), uint32 (d + d')).

Fixpoint md5_blocks (n : nat) (st : md5_state) (words : list Z) : md5_state :=
  match n with O => st | S n => md5_blocks n (md5_block st (take 16 words)) (drop 16 words) end.

(** [md5.New()], [h.Write] of all of [m], [h.Sum(nil)]. *)
Definition md5 (m : bytes) : bytes :=
  let words := le_words (md5_pad m) in
  let '(a, b, c, d) := md5_blocks (length words / 16)%nat md5_init words in
  le_bytes 4 a ++ le_bytes 4 b ++ le_bytes 4 c ++ le_bytes 4 d.

(** * Hexadecimal *)

Definition hex_digit (z : Z) : ascii :=
  match String.get (Z.to_nat z) "0123456789abcdef" with Some c => c | None => "0" end%char.

(** [hex.EncodeToString]. *)
Fixpoint EncodeToString (bs : bytes) : string :=
  match bs with
  | [] => ""
  | b :: bs => String (hex_digit (Z.shiftr (Z_of_byte b) 4))
                 (String (hex_digit (Z.land (Z_of_byte b) 15)) (EncodeToString bs))
  end.

(** The key of some contents. *)
Definition digest (m : bytes) : string := EncodeToString (md5 m).

Definition is_hex_digit (c : ascii) : bool := has_char c "0123456789abcdef".

Fixpoint all_hex (s : string) : bool :=
  match s with EmptyString => true | String c s => is_hex_digit c && all_hex s end.

(** Texts of the shape of a key. *)
Definition is_key (k : string) : bool := (String.length k =? 32)%nat && all_hex k.

(** * Lemmas *)

Lemma length_le_bytes n z : length (le_bytes n z) = n.
Proof. revert z. induction n as [|n IH]; intros z; [done|]. simpl. by rewrite IH. Qed.

Lemma length_md5 m : length (md5 m) = 16%nat.
Proof.
  unfold md5. destruct (md5_blocks _ _ _) as [[[a b] c] d].
  by rewrite !length_app, !length_le_bytes.
Qed.

Lemma length_EncodeToString bs : String.length (EncodeToString bs) = (2 * length bs)%nat.
Proof. induction bs as [|b bs IH]; [done|]. cbn [EncodeToString String.length length]. rewrite IH. lia. Qed.

Lemma get_has_char n s c : String.get n s = Some c → has_char c s = true.
Proof.
  revert n. induction s as [|d s IH]; intros n; [done|].
  destruct n as [|n]; simpl; [intros [= ->]; by rewrite bool_decide_eq_true_2|].
  intros Hn. rewrite (IH n) by done. apply orb_true_r.
Qed.

Lemma hex_digit_hex z : is_hex_digit (hex_digit z) = true.
Proof.
  unfold hex_digit. destruct (String.get _ _) as [c|] eqn:E; [by apply get_has_char in E|done].
Qed.

Lemma EncodeToString_hex bs : all_hex (EncodeToString bs) = true.
Proof. induction bs as [|b bs IH]; [done|]. cbn [EncodeToString all_hex]. by rewrite !hex_digit_hex. Qed.

Lemma digest_is_key m : is_key (digest m) = true.
Proof.
  unfold is_key, digest. rewrite length_EncodeToString, length_md5, EncodeToString_hex. done.
Qed.

(** The test suite of RFC 1321. *)
Example md5_empty : digest [] = "d41d8cd98f00b204e9800998ecf8427e".
Proof. by vm_compute. Qed.
Example md5_abc : digest (String.list_ascii_of_string "abc") = "900150983cd24fb0d6963f7d28e17f72".
Proof. by vm_compute. Qed.
Example md5_long :
  digest (String.list_ascii_of_string
    "12345678901234567890123456789012345678901234567890123456789012345678901234567890")
  = "57edf4a22be3c955ac49da2e2107b67a".
Proof. by vm_compute. Qed.
