(* ===== verification/Metadata.v ===== *)
(** The metadata cache: internal/cache/metadata.go, one definition per method.

    The methods work on an open connection.  [MetadataSpec.v] gives their abstract
    specification, a map from paths to cached rows, and proves that they implement it. *)
From S2P Require Import Prelude GoStrings GoPath Types DirEntries Sql Sqlite.
#[local] Open Scope Z_scope.

Definition rowIDToInode (rowID : Z) : outcome Z :=
  if rowID <=? 0 then Panic "invalid ROWID" else Ret (uint64 rowID).

(** The eight columns of the full-entry query, scanned. *)
Record FullEntry : Type := {
  fe_rowID : Z; fe_typeName : string;
  fe_mode : option Z; fe_size : option Z; fe_mtimeNsec : option Z;
  fe_dirEntries : option string; fe_contentHash : option string; fe_target : option string;
}.

Definition column_count_error : error := ENew "sql: expected a different number of destination arguments".

Definition scanFullEntry (vals : list SqlValue) : outcome FullEntry :=
  match vals with
  | [rowID; typeName; mode; size; mtimeNsec; dirEntries; contentHash; target] =>
      rowID ← scan_int64 rowID;
      typeName ← scan_string typeName;
      mode ← scan_NullInt64 mode;
      size ← scan_NullInt64 size;
      mtimeNsec ← scan_NullInt64 mtimeNsec;
      dirEntries ← scan_NullString dirEntries;
      contentHash ← scan_NullString contentHash;
      target ← scan_NullString target;
      Ret {| fe_rowID := rowID; fe_typeName := typeName; fe_mode := mode; fe_size := size;
             fe_mtimeNsec := mtimeNsec; fe_dirEntries := dirEntries;
             fe_contentHash := contentHash; fe_target := target |}
  | _ => Err column_count_error
  end.

Definition scanNullStringColumn (vals : list SqlValue) : outcome (option string) :=
  match vals with [v] => scan_NullString v | _ => Err column_count_error end.

Definition scanInt64Column (vals : list SqlValue) : outcome Z :=
  match vals with [v] => scan_int64 v | _ => Err column_count_error end.

(** [if mode.Valid || size.Valid || mtimeNsec.Valid { ... }] *)
Definition row_fileInfo (path : string) (fe : FullEntry) : outcome (option FileInfo) :=
  match fe_mode fe, fe_size fe, fe_mtimeNsec fe with
  | None, None, None => Ret None
  | Some mode, Some size, Some mtimeNsec =>
      let mtime := Unix 0 mtimeNsec in
      Ret (Some (newFileInfo path size (uint32 mode) mtime))
  | _, _, _ => Fatal "incomplete fileInfo data in cache row"
  end.

(** Parsing into a fresh map, as [GetFullEntry] does. *)
Definition parse_new (all : string) : outcome (gmap string OneDirEntry) :=
  let '(o, m) := parseDirEntries all ∅ in _ ← o; Ret m.

(** The default case of [GetFullEntry]. *)
Definition row_of_FullEntry (path : string) (fe : FullEntry) : outcome CachedRow :=
  fileInfo ← row_fileInfo path fe;
  dirEntries ← match fe_dirEntries fe with
               | None => Ret None
               | Some all => m ← parse_new all; Ret (Some m)
               end;
  Ret {| Inode := uint64 (fe_rowID fe); TypeName := fe_typeName fe; RowFileInfo := fileInfo;
         DidReadDir := false; DirEntries := dirEntries; ContentHash := fe_contentHash fe;
         Target := fe_target fe |}.

Section metadata.
Context {DB : Type} `{SqlEngine DB, Fuel}.
Abbreviation M := (GoM (Conn DB)).

(** The pointer to the map is an argument and a result. *)
Definition GetDirEntries (inode : Z) (outEntries : gmap string OneDirEntry)
    : M (gmap string OneDirEntry) :=
  row ← RetryQueryRow (getDirEntriesStmt inode);
  dirEntries ← Scan row scanNullStringColumn;
  match dirEntries with
  | None => mret outEntries
  | Some all =>
      let '(o, m) := parseDirEntries all outEntries in
      _ ← go_lift o;
      mret m
  end.

Definition GetFullEntry (path : string) : M (option CachedRow) :=
  row ← RetryQueryRow (getFullEntryStmt path);
  r ← go_try (Scan row scanFullEntry);
  match r with
  | inl ENoRows => mret None
  | inl err => go_err err
  | inr fe => cr ← go_lift (row_of_FullEntry path fe); mret (Some cr)
  end.

Definition resultToInode (result : SqlResult) : M Z :=
  let rowID := LastInsertId result in
  if rowID <? 0 then go_fatal "got negative row ID; cannot use as inode number"
  else mret (uint64 rowID).

Definition putNew (path typeName : string) : M Z :=
  result ← RetryExec (putNewEntryStmt path typeName);
  resultToInode result.

Definition putNewOrUpdate (path typeName : string) : M () :=
  result ← RetryExec (updateEntryStmt typeName path);
  let count := RowsAffected result in
  if count =? 0 then
    _ ← RetryExec (putNewEntryStmt path typeName);
    mret ()
  else if count =? 1 then mret ()
  else go_panic "Updated more than one row".

Definition mode_only_type (fileMode : Z) : outcome () :=
  if negb (Z.land fileMode NotModeType =? 0) then
    Panic "fileMode contains more than just the file type"
  else Ret ().

Definition PutNewWithType (path : string) (fileMode : Z) : M Z :=
  _ ← go_lift (mode_only_type fileMode);
  typeName ← go_lift (sqlTypeName (mode_type fileMode));
  putNew path typeName.

Definition PutNewNoEntry (path : string) : M Z := putNew path "noentry".

Definition PutNewOrUpdateWithType (path : string) (fileMode : Z) : M () :=
  _ ← go_lift (mode_only_type fileMode);
  typeName ← go_lift (sqlTypeName (mode_type fileMode));
  putNewOrUpdate path typeName.

Definition PutNewOrUpdateNoEntry (path : string) : M () := putNewOrUpdate path "noentry".

(** A count other than one is only logged. *)
Definition checkUpdateAffectedOneRow (result : SqlResult) : M () :=
  if negb (RowsAffected result =? 1) then mret () else mret ().

Definition PutFileInfo (inode : Z) (fileInfo : FileInfo) : M () :=
  result ← RetryExec (putFileInfoStmt (Mode fileInfo) (Size fileInfo)
                        (UnixNano (ModTime fileInfo)) inode);
  checkUpdateAffectedOneRow result.

Definition PutContentHash (inode : Z) (contentHash : Key) : M () :=
  result ← RetryExec (putContentHashStmt contentHash inode);
  checkUpdateAffectedOneRow result.

Definition PutSymlinkTarget (inode : Z) (target : string) : M () :=
  result ← RetryExec (putSymlinkTargetStmt target inode);
  checkUpdateAffectedOneRow result.

(** One iteration of the loop of [PutDirEntries]: the row ID of the entry's path, inserted
    when the path is new, and the entry's type name. *)
Definition putOneDirEntry (path : string) (dirEntry : FileInfo) : M entry :=
  let entryPath := Join [path; Name dirEntry] in
  typeName ← go_lift (sqlTypeName (mode_type (Mode dirEntry)));
  row ← RetryQueryRow (getInodeStmt entryPath);
  r ← go_try (Scan row scanInt64Column);
  rowID ← match r with
          | inl ENoRows =>
              result ← RetryExec (putNewEntryStmt entryPath typeName);
              mret (LastInsertId result)
          | inl err => go_err err
          | inr rowID => mret rowID
          end;
  mret {| en_name := Name dirEntry; en_inode := uint64 rowID; en_type := typeName |}.

Fixpoint putDirEntries_loop (path : string) (entries : list FileInfo) : M (list entry) :=
  match entries with
  | [] => mret []
  | dirEntry :: rest =>
      e ← putOneDirEntry path dirEntry;
      es ← putDirEntries_loop path rest;
      mret (e :: es)
  end.

Definition PutDirEntries (inode : Z) (path : string) (entries : list FileInfo) : M () :=
  formatted ← putDirEntries_loop path entries;
  result ← RetryExec (putDirEntriesStmt (formatEntries formatted) inode);
  checkUpdateAffectedOneRow result.
End metadata.
