(* ===== verification/MetadataSpec.v ===== *)
(** What the metadata cache promises: a map from paths to cached rows.

    [table_repr rows m] says that the table holds the map [m]; it includes the well-formedness
    of the table.  Each method of Metadata.v is proved to implement an operation on the map, up
    to failures of the engine, which change nothing ([implements]). *)
From S2P Require Import Prelude GoStrings GoPath Types DirEntries Sql Sqlite Metadata.
#[local] Open Scope Z_scope.

(** * Generic facts about the statements *)

Section table.
Context {DB : Type} `{SqlLaws DB, !Fuel}.

Definition conn_rows (c : Conn DB) : list prow := db_rows (c_db c).

(** A method ran: it returned with [Q], or the engine failed or never stopped being busy, and
    then the table satisfies [F]. *)
Definition ran_or {A} (F : list prow → Prop) (Q : A → list prow → Prop)
    (r : outcome A * Conn DB) : Prop :=
  match r with
  | (Ret a, c') => Q a (conn_rows c')
  | (Err (ESqlite _), c') | (OutOfFuel, c') => F (conn_rows c')
  | _ => False
  end.

(** The usual case: after a failure the table is as it was. *)
Definition ran {A} (rows : list prow) : (A → list prow → Prop) → outcome A * Conn DB → Prop :=
  ran_or (λ t, t = rows).

Lemma ran_or_bind {A B} F F' (P : A → list prow → Prop) (Q : B → list prow → Prop)
    (m : GoM (Conn DB) A) (f : A → GoM (Conn DB) B) c :
  ran_or F' P (m c) → (∀ t, F' t → F t) →
  (∀ a c', P a (conn_rows c') → ran_or F Q (f a c')) →
  ran_or F Q (go_bind f m c).
Proof.
  intros Hm HF Hf. unfold go_bind. unfold ran_or in Hm.
  destruct (m c) as [[a|[]| | |] c']; try done; [by apply Hf|by apply HF..].
Qed.

Lemma ran_bind {A B} rows (P : A → list prow → Prop) (Q : B → list prow → Prop)
    (m : GoM (Conn DB) A) (f : A → GoM (Conn DB) B) c :
  ran rows P (m c) →
  (∀ a c', P a (conn_rows c') → ran rows Q (f a c')) →
  ran rows Q (go_bind f m c).
Proof. intros Hm Hf. by eapply ran_or_bind. Qed.

Lemma ran_or_weaken {A} F F' (P Q : A → list prow → Prop) r :
  ran_or F' P r → (∀ t, F' t → F t) → (∀ a t, P a t → Q a t) → ran_or F Q r.
Proof. intros Hr HF HPQ. unfold ran_or in *. destruct r as [[a|[]| | |] c']; try done; auto. Qed.

Lemma retry_loop_ran {A} (attempt : GoM (Conn DB) A) (Q : A → list prow → Prop) rows fuel :
  (∀ c, conn_rows c = rows → ran rows Q (attempt c)) →
  ∀ delay c, conn_rows c = rows → ran rows Q (retry_loop fuel attempt delay c).
Proof.
  intros Ha. induction fuel as [|fuel IH]; intros delay c Hc; [done|].
  specialize (Ha c Hc). destruct (attempt c) as [o c1] eqn:E.
  assert (o = Err (ESqlite ErrBusy) ∨ o ≠ Err (ESqlite ErrBusy)) as [->|Hne].
  { destruct o as [a|e| | |]; [by right|destruct (decide (e = ESqlite ErrBusy)) as [->|Hne]|by right..].
    - by left.
    - right. congruence. }
  - erewrite retry_loop_busy by done. by apply IH.
  - by erewrite retry_loop_done.
Qed.

(** [RetryExec] has the effect of its statement. *)
Lemma RetryExec_ran st c :
  stmt_rowid st ≤ MaxInt64 →
  ran (conn_rows c) (λ res t, sql_effect db_affinity st (conn_rows c) res t) (RetryExec st c).
Proof.
  intros Hid. unfold RetryExec. apply retry_loop_ran; [|done].
  intros [d rt] Hd. unfold Exec, uint64_arg. rewrite (proj2 (Z.leb_le _ _)) by done.
  unfold mbind, go_mbind, go_bind, go_lift, on_db, go_zoom; simpl.
  pose proof (exec_spec st d) as He. rewrite <- Hd. unfold conn_rows in *; simpl in *.
  destruct (db_exec st d) as [[res|[]| | |] d']; simpl in *; done.
Qed.

Lemma Scan_vals {A} (dest : list SqlValue → outcome A) vals (c : Conn DB) :
  dest vals ≠ Err (ESqlite ErrBusy) →
  Scan (RowVals vals) dest c = (dest vals, c) ∨ Scan (RowVals vals) dest c = (OutOfFuel, c).
Proof.
  intros Hne. unfold Scan. destruct retry_fuel; [by right|left].
  by apply retry_loop_done.
Qed.

Lemma Scan_none {A} (dest : list SqlValue → outcome A) (c : Conn DB) :
  Scan RowNone dest c = (Err ENoRows, c) ∨ Scan RowNone dest c = (OutOfFuel, c).
Proof.
  unfold Scan. destruct retry_fuel; [by right|left]. by apply retry_loop_done.
Qed.

Lemma Scan_sqlite_error {A} (dest : list SqlValue → outcome A) code (c : Conn DB) :
  ∃ o c', Scan (RowErr (ESqlite code)) dest c = (o, c') ∧ c_db c' = c_db c ∧
          (o = OutOfFuel ∨ o = Err (ESqlite code)).
Proof.
  unfold Scan. generalize baseDelay as delay. revert c.
  induction retry_fuel as [|fuel IH]; intros c delay; [by eauto 6|].
  destruct (decide (code = ErrBusy)) as [->|Hne].
  - erewrite retry_loop_busy by done.
    destruct (IH {| c_db := c_db c; c_rt := backed_off (next_delay delay (c_rt c)) (c_rt c) |}
                (next_delay delay (c_rt c))) as (o & c' & E & Hc & Ho).
    exists o, c'. auto.
  - exists (Err (ESqlite code)), c. split; [|by auto].
    apply retry_loop_done; [done|congruence].
Qed.

(** Running a query and scanning its first row. *)
Lemma query_scan {A} q (dest : list SqlValue → outcome A) (c : Conn DB) :
  query_rowid q ≤ MaxInt64 → (∀ vals, dest vals ≠ Err (ESqlite ErrBusy)) →
  ∃ o c', go_bind (λ row, Scan row dest) (RetryQueryRow q) c = (o, c') ∧
    conn_rows c' = conn_rows c ∧
    (o = OutOfFuel ∨ (∃ code, o = Err (ESqlite code)) ∨
     o = match sql_select db_affinity q (conn_rows c) with
         | [] => Err ENoRows
         | vals :: _ => dest vals
         end).
Proof.
  intros Hid Hdest. destruct c as [d rt].
  unfold RetryQueryRow, Query, uint64_arg. rewrite (proj2 (Z.leb_le _ _)) by done.
  unfold mbind, go_mbind, go_bind, go_try, go_lift, on_db, go_zoom; simpl.
  pose proof (query_spec q d) as Hq. unfold conn_rows; simpl.
  destruct (db_query q d) as [[rs|[]| | |] d'] eqn:Eq; try done; simpl in *.
  - destruct Hq as [-> Hd]. destruct (sql_select _ _ _) as [|vals ?].
    + destruct (Scan_none dest (set_db d' {| c_db := d; c_rt := rt |})) as [E|E];
        change (mret RowNone) with (go_ret (S := Conn DB) RowNone); unfold go_ret;
        rewrite E; do 2 eexists; (split; [done|]); auto.
    + destruct (Scan_vals dest vals (set_db d' {| c_db := d; c_rt := rt |}) (Hdest _)) as [E|E];
        change (mret (RowVals vals)) with (go_ret (S := Conn DB) (RowVals vals)); unfold go_ret;
        rewrite E; do 2 eexists; (split; [done|]); auto.
  - destruct (Scan_sqlite_error dest code (set_db d' {| c_db := d; c_rt := rt |}))
      as (o & c' & E & Hc & Ho).
    change (mret (RowErr (ESqlite code))) with (go_ret (S := Conn DB) (RowErr (ESqlite code))).
    unfold go_ret. rewrite E. exists o, c'. rewrite Hc. simpl. split_and!; [done..|].
    destruct Ho as [-> | ->]; eauto.
Qed.

End table.

(** * Text columns *)

Section rows.
Context {DB : Type} `{AffinityLaws DB}.

(** The text read back from a STRING column in which [s] was stored. *)
Definition stored (s : string) : string :=
  match scan_string (db_affinity s) with Ret t => t | _ => s end.

Lemma stored_text s : number_like s = false → stored s = s.
Proof. intros Hs. unfold stored. by rewrite affinity_text. Qed.

Lemma scan_stored s : scan_NullString (db_affinity s) = Ret (Some (stored s)).
Proof.
  unfold stored. pose proof (affinity_not_null s). by destruct (db_affinity s).
Qed.

Lemma type_not_number t : t ∈ type_names → number_like t = false.
Proof. by intros [->|[->|[->| ->]]]%type_names_spec. Qed.

(** * The abstract state *)

Record row_repr (p : string) (r : prow) (cr : CachedRow) : Prop := {
  rr_id : r_rowid r = Inode cr;
  rr_range : 1 ≤ Inode cr ≤ MaxInt64;
  rr_type : r_type r = SqlText (TypeName cr);
  rr_type_name : TypeName cr ∈ type_names;
  rr_info : match RowFileInfo cr with
            | None => r_mode r = SqlNull ∧ r_size r = SqlNull ∧ r_mtime_nsec r = SqlNull
            | Some fi => ∃ mode ns,
                r_mode r = SqlInt mode ∧ r_size r = SqlInt (Size fi) ∧
                r_mtime_nsec r = SqlInt ns ∧
                fi = newFileInfo p (Size fi) (uint32 mode) (Unix 0 ns)
            end;
  rr_readdir : DidReadDir cr = false;
  rr_entries : match DirEntries cr with
               | None => r_dirEntries r = SqlNull
               | Some es => ∃ txt, r_dirEntries r = SqlText txt ∧
                                   parseDirEntries txt ∅ = (Ret (), es)
               end;
  rr_hash : scan_NullString (r_contentHash r) = Ret (ContentHash cr);
  rr_target : scan_NullString (r_target r) = Ret (Target cr);
}.

(** The table holds the map: no two rows share a ROWID or a path, every row is the cached row
    of its path, and every path of the map has a row. *)
Record table_repr (t : list prow) (m : gmap string CachedRow) : Prop := {
  tr_ids : NoDup (r_rowid <$> t);
  tr_paths : NoDup (r_path <$> t);
  tr_rows : ∀ r, r ∈ t → ∃ p cr, r_path r = SqlText p ∧ m !! p = Some cr ∧ row_repr p r cr;
  tr_map : ∀ p cr, m !! p = Some cr → number_like p = false ∧
                   ∃ r, r ∈ t ∧ r_path r = SqlText p;
}.

(** The operations of the specification. *)
Definition new_entry (id : Z) (typeName : string) : CachedRow :=
  {| Inode := id; TypeName := typeName; RowFileInfo := None; DidReadDir := false;
     DirEntries := None; ContentHash := None; Target := None |}.
Definition entry_set_type (t : string) (cr : CachedRow) : CachedRow :=
  {| Inode := Inode cr; TypeName := t; RowFileInfo := RowFileInfo cr;
     DidReadDir := DidReadDir cr; DirEntries := DirEntries cr;
     ContentHash := ContentHash cr; Target := Target cr |}.
Definition entry_set_info (fi : FileInfo) (cr : CachedRow) : CachedRow :=
  {| Inode := Inode cr; TypeName := TypeName cr; RowFileInfo := Some fi;
     DidReadDir := DidReadDir cr; DirEntries := DirEntries cr;
     ContentHash := ContentHash cr; Target := Target cr |}.
Definition entry_set_entries (es : gmap string OneDirEntry) (cr : CachedRow) : CachedRow :=
  {| Inode := Inode cr; TypeName := TypeName cr; RowFileInfo := RowFileInfo cr;
     DidReadDir := DidReadDir cr; DirEntries := Some es;
     ContentHash := ContentHash cr; Target := Target cr |}.
Definition entry_set_hash (h : string) (cr : CachedRow) : CachedRow :=
  {| Inode := Inode cr; TypeName := TypeName cr; RowFileInfo := RowFileInfo cr;
     DidReadDir := DidReadDir cr; DirEntries := DirEntries cr;
     ContentHash := Some h; Target := Target cr |}.
Definition entry_set_target (h : string) (cr : CachedRow) : CachedRow :=
  {| Inode := Inode cr; TypeName := TypeName cr; RowFileInfo := RowFileInfo cr;
     DidReadDir := DidReadDir cr; DirEntries := DirEntries cr;
     ContentHash := ContentHash cr; Target := Some h |}.

Definition spec_update (where_ : string → CachedRow → bool)
    (g : string → CachedRow → CachedRow) (m : gmap string CachedRow) : gmap string CachedRow :=
  map_imap (λ p cr, Some (if where_ p cr then g p cr else cr)) m.

Definition at_path (p : string) : string → CachedRow → bool := λ p' _, bool_decide (p' = p).
Definition at_inode (i : Z) : string → CachedRow → bool := λ _ cr, Inode cr =? i.

Lemma lookup_spec_update w g m p :
  spec_update w g m !! p = (λ cr, if w p cr then g p cr else cr) <$> (m !! p).
Proof. unfold spec_update. rewrite map_lookup_imap. by destruct (m !! p). Qed.

(** * Selecting and updating rows of a represented table *)

Lemma filter_none {A} (P : A → bool) (l : list A) :
  (∀ y, y ∈ l → P y = false) → filter (λ y, P y = true) l = [].
Proof.
  induction l as [|y l IH]; intros HP; [done|].
  rewrite filter_cons_False by (by rewrite HP by (by left)).
  apply IH. intros z Hz. apply HP. by right.
Qed.

Lemma filter_unique {A B} (f : A → B) (P : A → bool) (l : list A) (x : A) :
  NoDup (f <$> l) → x ∈ l → (∀ y, y ∈ l → P y = true ↔ f y = f x) →
  filter (λ y, P y = true) l = [x].
Proof.
  induction l as [|y l IH]; intros Hnd Hx HP; [by apply elem_of_nil in Hx|].
  rewrite fmap_cons in Hnd. apply NoDup_cons in Hnd as [Hy Hnd].
  apply elem_of_cons in Hx as [<-|Hx].
  - rewrite filter_cons_True by (apply HP; [by left|done]). f_equal.
    apply filter_none. intros z Hz. apply not_true_iff_false. intros Hpz. apply Hy.
    rewrite <- (proj1 (HP z (list_elem_of_further _ _ _ Hz)) Hpz). by apply list_elem_of_fmap_2.
  - rewrite filter_cons_False.
    + apply IH; [done|done|]. intros z Hz. apply HP. by right.
    + intros Hpy. apply Hy. rewrite (proj1 (HP y (list_elem_of_here _ _)) Hpy).
      by apply list_elem_of_fmap_2.
Qed.

(** The rows of a path: one for a cached path, none for another. *)
Lemma select_path t m p :
  table_repr t m → number_like p = false →
  match m !! p with
  | Some cr => ∃ r, filter (λ r, path_is db_affinity p r = true) t = [r] ∧ row_repr p r cr
  | None => filter (λ r, path_is db_affinity p r = true) t = []
  end.
Proof.
  intros [_ Hpaths Hrows Hmap] Hp. unfold path_is. rewrite affinity_text by done.
  destruct (m !! p) as [cr|] eqn:Hm.
  - destruct (Hmap _ _ Hm) as (_ & r & Hr & Hrp). exists r. split.
    + apply filter_unique with (f := r_path); [done..|]. intros y Hy.
      rewrite bool_decide_eq_true. by rewrite Hrp.
    + destruct (Hrows _ Hr) as (p' & cr' & Hp' & Hm' & Hrr). simplify_eq. congruence.
  - apply filter_none. intros y Hy. apply bool_decide_eq_false_2. intros E.
    destruct (Hrows _ Hy) as (p' & cr' & Hp' & Hm' & _). congruence.
Qed.

Definition full_columns (r : prow) : list SqlValue :=
  [SqlInt (r_rowid r); r_type r; r_mode r; r_size r; r_mtime_nsec r;
   r_dirEntries r; r_contentHash r; r_target r].

(** Scanning a row and building the cached row gives the row it represents. *)
Lemma decode_row p r cr :
  row_repr p r cr →
  ∃ fe, scanFullEntry (full_columns r) = Ret fe ∧ row_of_FullEntry p fe = Ret cr.
Proof.
  intros [Hid Hrange Hty _ Hinfo Hrd Hes Hh Ht]. unfold scanFullEntry, full_columns.
  rewrite Hid, Hty. unfold mbind, outcome_mbind at 1 2; simpl.
  assert (uint64 (Inode cr) = Inode cr) as Hu.
  { apply uint64_small. unfold is_uint64, two64. unfold MaxInt64 in Hrange. lia. }
  destruct cr as [i ty info rd es h tg]; simpl in *; subst rd.
  destruct info as [fi|].
  1: destruct Hinfo as (mode & ns & -> & -> & -> & Hfi).
  2: destruct Hinfo as (-> & -> & ->).
  all: simpl; destruct es as [es|]; [destruct Hes as (txt & -> & Hparse)|rewrite Hes]; simpl;
    rewrite Hh; simpl; rewrite Ht; simpl; (eexists; split; [reflexivity|]);
    unfold row_of_FullEntry, row_fileInfo; simpl; unfold parse_new; rewrite ?Hparse; simpl;
    rewrite Hu, <- ?Hfi; done.
Qed.

(** An update of the rows is an update of the map when it selects the same entries and keeps
    every row the representation of its entry. *)
Lemma table_repr_update t m where_ f w g :
  table_repr t m →
  (∀ r, r_rowid (f r) = r_rowid r ∧ r_path (f r) = r_path r) →
  (∀ r p cr, row_repr p r cr → r_path r = SqlText p → where_ r = w p cr) →
  (∀ r p cr, row_repr p r cr → w p cr = true → row_repr p (f r) (g p cr)) →
  table_repr (sql_update where_ f t) (spec_update w g m).
Proof.
  intros [Hids Hpaths Hrows Hmap] Hf Hw Hg. unfold sql_update.
  assert (∀ r, r_path (if where_ r then f r else r) = r_path r) as Hp.
  { intros r. destruct (where_ r); [apply Hf|done]. }
  split.
  - rewrite <- list_fmap_compose. rewrite (list_fmap_ext _ r_rowid _); [done|].
    intros i r _. simpl. destruct (where_ r); [apply Hf|done].
  - rewrite <- list_fmap_compose. rewrite (list_fmap_ext _ r_path _); [done|].
    intros i r _. apply Hp.
  - intros r' (r & -> & Hr)%list_elem_of_fmap. destruct (Hrows _ Hr) as (p & cr & Hrp & Hm & Hrr).
    exists p. rewrite Hp, lookup_spec_update, Hm. simpl. eexists. split_and!; [done|done|].
    rewrite (Hw _ _ _ Hrr Hrp). destruct (w p cr) eqn:Hwp; [by apply Hg|done].
  - intros p cr'. rewrite lookup_spec_update.
    destruct (m !! p) as [cr|] eqn:Hm; [|done]. intros _.
    destruct (Hmap _ _ Hm) as (Hn & r & Hr & Hrp). split; [done|].
    eexists. split; [by apply list_elem_of_fmap_2|]. by rewrite Hp.
Qed.

Lemma table_repr_insert t m id p ty :
  table_repr t m → number_like p = false → ty ∈ type_names → 1 ≤ id ≤ MaxInt64 →
  Forall (λ r, path_is db_affinity p r = false) t → Forall (λ r, r_rowid r ≠ id) t →
  m !! p = None ∧ (∀ q cr, m !! q = Some cr → Inode cr ≠ id) ∧
  table_repr (t ++ [new_row db_affinity id p ty]) (<[p := new_entry id ty]> m).
Proof.
  intros Ht Hp Hty Hid Hfp Hfi. rewrite Forall_forall in Hfp, Hfi.
  pose proof (select_path _ _ p Ht Hp) as Hsel.
  destruct Ht as [Hids Hpaths Hrows Hmap].
  assert (db_affinity p = SqlText p) as Hap by (by apply affinity_text).
  assert (m !! p = None) as Hm.
  { destruct (m !! p) as [cr|] eqn:Hm; [|done]. destruct (Hmap _ _ Hm) as (_ & r & Hr & Hrp).
    specialize (Hfp _ Hr). unfold path_is in Hfp. rewrite Hap, Hrp in Hfp.
    by rewrite bool_decide_eq_true_2 in Hfp. }
  split_and!; [done| |].
  { intros q cr Hq Heq. destruct (Hmap _ _ Hq) as (_ & r & Hr & Hrq).
    destruct (Hrows _ Hr) as (q' & cr' & ? & Hm' & [Hri _ _ _ _ _ _ _ _]).
    simplify_eq. apply (Hfi _ Hr). congruence. }
  split.
  - rewrite fmap_app. apply NoDup_app. split_and!; [done| |apply NoDup_singleton].
    intros i (r & -> & Hr)%list_elem_of_fmap Hi%list_elem_of_singleton. simpl in Hi.
    by apply (Hfi _ Hr).
  - rewrite fmap_app. apply NoDup_app. split_and!; [done| |apply NoDup_singleton].
    intros i (r & -> & Hr)%list_elem_of_fmap Hi%list_elem_of_singleton. simpl in Hi.
    specialize (Hfp _ Hr). unfold path_is in Hfp. by rewrite bool_decide_eq_true_2 in Hfp.
  - intros r [Hr| ->%list_elem_of_singleton]%elem_of_app.
    + destruct (Hrows _ Hr) as (q & cr & Hrq & Hmq & Hrr). exists q, cr.
      rewrite lookup_insert_ne by congruence. done.
    + exists p, (new_entry id ty). rewrite lookup_insert_eq. split_and!; [done..|].
      split; simpl; try done. apply affinity_text. by apply type_not_number.
  - intros q cr. rewrite lookup_insert. case_decide as Hq.
    + subst q. intros _. split; [done|]. eexists. split; [apply elem_of_app; right; by left|done].
    + intros Hmq. destruct (Hmap _ _ Hmq) as (? & r & Hr & ?). split; [done|].
      exists r. split; [apply elem_of_app; by left|done].
Qed.

End rows.

(** * The methods implement the operations on the map *)

Section methods.
Context {DB : Type} `{SqlLaws DB, !Fuel}.

(** From a table that holds [m], the method returns [Q]'s result and leaves a table that holds
    the map [Q] gives; or it fails in the engine and changes nothing. *)
Definition implements {A} (m : gmap string CachedRow) (method : GoM (Conn DB) A)
    (Q : A → gmap string CachedRow → Prop) : Prop :=
  ∀ c, table_repr (conn_rows c) m →
    ran (conn_rows c) (λ a t, ∃ m', Q a m' ∧ table_repr t m') (method c).

(** Scanning never fails in the engine. *)
Definition scan_ok {A} (o : outcome A) : Prop :=
  match o with Ret _ | Err (ENew _) => True | _ => False end.

Lemma scan_ok_bind {A B} (f : A → outcome B) (o : outcome A) :
  scan_ok o → (∀ a, scan_ok (f a)) → scan_ok (o ≫= f).
Proof. destruct o as [a|[]| | |]; try done. intros _ Hf. apply Hf. Qed.

Lemma scan_string_ok v : scan_ok (scan_string v).
Proof. by destruct v. Qed.
Lemma scan_int64_ok v : scan_ok (scan_int64 v).
Proof. by destruct v. Qed.
Lemma scan_NullInt64_ok v : scan_ok (scan_NullInt64 v).
Proof. by destruct v. Qed.
Lemma scan_NullString_ok v : scan_ok (scan_NullString v).
Proof. by destruct v. Qed.

Lemma scanFullEntry_ok vals : scan_ok (scanFullEntry vals).
Proof.
  unfold scanFullEntry. do 8 (destruct vals as [|? vals]; [done|]). destruct vals; [|done].
  repeat (apply scan_ok_bind; [apply scan_int64_ok || apply scan_string_ok ||
    apply scan_NullInt64_ok || apply scan_NullString_ok|intros ?]). done.
Qed.

Lemma scanNullStringColumn_ok vals : scan_ok (scanNullStringColumn vals).
Proof. destruct vals as [|v [|]]; [done| |done]. apply scan_NullString_ok. Qed.

Lemma scanInt64Column_ok vals : scan_ok (scanInt64Column vals).
Proof. destruct vals as [|v [|]]; [done| |done]. apply scan_int64_ok. Qed.

(** [row ← RetryQueryRow q; r ← go_try (Scan row dest); k r]. *)
Lemma query_ran {A B} q (dest : list SqlValue → outcome A) (k : error + A → GoM (Conn DB) B)
    (Q : B → list prow → Prop) c :
  query_rowid q ≤ MaxInt64 → (∀ vals, scan_ok (dest vals)) →
  (∀ r c', conn_rows c' = conn_rows c →
     r = match sql_select db_affinity q (conn_rows c) with
         | [] => inl ENoRows
         | vals :: _ => match dest vals with Ret a => inr a | Err e => inl e | _ => r end
         end → ran (conn_rows c) Q (k r c')) →
  (∀ code c', conn_rows c' = conn_rows c → ran (conn_rows c) Q (k (inl (ESqlite code)) c')) →
  ran (conn_rows c) Q
    (go_bind (λ row, go_bind k (go_try (Scan row dest))) (RetryQueryRow q) c).
Proof.
  intros Hid Hdest Hk Hcode.
  destruct (query_scan q dest c Hid) as (o & c' & E & Hc' & Ho).
  { intros vals Hv. specialize (Hdest vals). by rewrite Hv in Hdest. }
  unfold go_bind, go_try in *.
  destruct (RetryQueryRow q c) as [[row|e| | |] c1] eqn:E1; simplify_eq; simpl.
  - rewrite E. destruct Ho as [->|[[code ->]| ->]]; [done|by apply Hcode|].
    destruct (sql_select _ _ _) as [|vals ?] eqn:Es; [by apply Hk|].
    specialize (Hdest vals). destruct (dest vals) as [a|[]| | |] eqn:Ed; try done; apply Hk;
      rewrite ?Ed; done.
  - unfold RetryQueryRow, mbind, go_mbind, go_bind, go_try in E1.
    destruct (Query q c) as [[[|]|?| | |] ?]; simplify_eq.
  - exfalso. destruct Ho as [?|[[??]|Ho]]; simplify_eq. destruct (sql_select _ _ _) as [|vals ?]; [done|].
    specialize (Hdest vals). by rewrite <- Ho in Hdest.
  - exfalso. destruct Ho as [?|[[??]|Ho]]; simplify_eq. destruct (sql_select _ _ _) as [|vals ?]; [done|].
    specialize (Hdest vals). by rewrite <- Ho in Hdest.
  - done.
Qed.

#[local] Arguments scanFullEntry : simpl never.
#[local] Arguments scanInt64Column : simpl never.

Lemma GetFullEntry_implements m p :
  number_like p = false → implements m (GetFullEntry p) (λ o m', o = m !! p ∧ m' = m).
Proof.
  intros Hp c Ht. apply query_ran; [done|apply scanFullEntry_ok| |done].
  intros r c' Hc'. simpl. pose proof (select_path _ _ _ Ht Hp) as Hsel.
  destruct (m !! p) as [cr|] eqn:Hm.
  - destruct Hsel as (row & -> & Hrow). simpl.
    destruct (decode_row _ _ _ Hrow) as (fe & Hfe & Hcr). unfold full_columns in Hfe.
    rewrite Hfe. intros ->. unfold mbind, go_mbind, go_bind, go_lift. rewrite Hcr. simpl.
    exists m. by rewrite Hc'.
  - rewrite Hsel. intros ->. simpl. exists m. by rewrite Hc'.
Qed.

Lemma putNew_implements m p ty :
  number_like p = false → ty ∈ type_names →
  implements m (putNew p ty) (λ id m',
    m !! p = None ∧ (∀ q cr, m !! q = Some cr → Inode cr ≠ id) ∧
    m' = <[p := new_entry id ty]> m).
Proof.
  intros Hp Hty c Ht. unfold putNew.
  eapply ran_bind; [by apply RetryExec_ran|]. intros res c' Heff.
  inversion Heff as [? ? ? Hu|p' ty' id Hst Hfp Hfi Hid Hres Hrows]; [done|]. simplify_eq.
  destruct (table_repr_insert _ _ id p' ty' Ht Hp Hty Hid Hfp Hfi) as (Hn & Hfresh & Ht').
  unfold resultToInode. simpl. rewrite (proj2 (Z.ltb_ge _ _)) by lia.
  assert (uint64 id = id) as ->.
  { apply uint64_small. unfold is_uint64, two64. unfold MaxInt64 in Hid. lia. }
  simpl. eexists. split; [done|]. by rewrite <- Hrows.
Qed.

Lemma filter_update_none (where_ : prow → bool) f t :
  filter (λ r, where_ r = true) t = [] → sql_update where_ f t = t.
Proof.
  unfold sql_update. induction t as [|r t IH]; [done|].
  rewrite filter_cons. destruct (decide (where_ r = true)) as [Hr|Hr]; [done|].
  intros E. rewrite fmap_cons, IH by done. by apply not_true_is_false in Hr as ->.
Qed.

Lemma spec_update_at_path p g (m : gmap string CachedRow) cr :
  m !! p = Some cr → spec_update (at_path p) (λ _, g) m = <[p := g cr]> m.
Proof.
  intros Hm. apply map_eq. intros q. rewrite lookup_spec_update, lookup_insert. unfold at_path.
  case_decide as Hq; [subst q|].
  - rewrite Hm. simpl. by rewrite bool_decide_eq_true_2.
  - rewrite bool_decide_eq_false_2 by done. by destruct (m !! q).
Qed.

Lemma putNewOrUpdate_implements m p ty :
  number_like p = false → ty ∈ type_names →
  implements m (putNewOrUpdate p ty) (λ _ m',
    match m !! p with
    | Some cr => m' = <[p := entry_set_type ty cr]> m
    | None => ∃ id, (∀ q cr, m !! q = Some cr → Inode cr ≠ id) ∧
                    m' = <[p := new_entry id ty]> m
    end).
Proof.
  intros Hp Hty c Ht. unfold putNewOrUpdate.
  eapply ran_bind; [by apply RetryExec_ran|]. intros res c' Heff.
  inversion Heff as [where_ f last Hu Hres Hrows|]; [|done]. subst res. simpl in Hu. injection Hu as <- <-.
  pose proof (select_path _ _ _ Ht Hp) as Hsel. simpl. unfold sql_count.
  destruct (m !! p) as [cr|] eqn:Hm.
  - destruct Hsel as (r & -> & Hr). simpl. exists (<[p := entry_set_type ty cr]> m). split; [done|].
    rewrite <- Hrows. rewrite <- (spec_update_at_path p (entry_set_type ty) m cr Hm).
    apply table_repr_update; [done|done| |].
    + intros r' p' cr' _ Hr'. unfold path_is, at_path. rewrite Hr', affinity_text by done.
      apply bool_decide_ext. naive_solver.
    + intros r' p' cr' [] _. split; try done. simpl. apply affinity_text, type_not_number. done.
  - rewrite Hsel. simpl. rewrite filter_update_none in Hrows by done.
    rewrite Hrows in Ht |- *. eapply ran_bind; [by apply RetryExec_ran|]. intros res' c'' Heff'.
    inversion Heff' as [? ? ? Hu|p' ty' id Hst Hfp Hfi Hid Hres' Hrows']; [done|]. simplify_eq.
    destruct (table_repr_insert _ _ id p' ty' Ht Hp Hty Hid Hfp Hfi) as (Hn & Hfresh & Ht').
    simpl. eexists. split; [by exists id|]. by rewrite <- Hrows'.
Qed.

(** A method that runs one UPDATE and checks its count. *)
Lemma update_implements m st where_ f w g :
  stmt_rowid st ≤ MaxInt64 → update_of db_affinity st = Some (where_, f) →
  (∀ r, r_rowid (f r) = r_rowid r ∧ r_path (f r) = r_path r) →
  (∀ r p cr, row_repr p r cr → r_path r = SqlText p → where_ r = w p cr) →
  (∀ r p cr, row_repr p r cr → w p cr = true → row_repr p (f r) (g p cr)) →
  implements m (result ← RetryExec st; checkUpdateAffectedOneRow result)
    (λ _ m', m' = spec_update w g m).
Proof.
  intros Hid Hu Hf Hw Hg c Ht. eapply ran_bind; [by apply RetryExec_ran|]. intros res c' Heff.
  inversion Heff as [where' f' last Hu' Hres Hrows|p ty id ->]; [|done]. simplify_eq.
  unfold checkUpdateAffectedOneRow. destruct (negb _); simpl; eexists; (split; [done|]);
    rewrite <- Hrows; by apply table_repr_update.
Qed.

Lemma rowid_is_at_inode i r p cr : row_repr p r cr → rowid_is i r = at_inode i p cr.
Proof. intros []. unfold rowid_is, at_inode. congruence. Qed.

Lemma PutFileInfo_implements m i fi :
  i ≤ MaxInt64 →
  implements m (PutFileInfo i fi) (λ _ m',
    m' = spec_update (at_inode i) (λ p, entry_set_info
           (newFileInfo p (Size fi) (uint32 (Mode fi)) (Unix 0 (UnixNano (ModTime fi))))) m).
Proof.
  intros Hi. eapply update_implements; try done.
  - intros. by eapply rowid_is_at_inode.
  - intros r p cr [] _. split; try done. simpl. by repeat eexists.
Qed.

Lemma PutContentHash_implements m i h :
  i ≤ MaxInt64 →
  implements m (PutContentHash i h) (λ _ m',
    m' = spec_update (at_inode i) (λ _, entry_set_hash (stored h)) m).
Proof.
  intros Hi. eapply update_implements; try done.
  - intros. by eapply rowid_is_at_inode.
  - intros r p cr [] _. split; try done. apply scan_stored.
Qed.

Lemma PutSymlinkTarget_implements m i s :
  i ≤ MaxInt64 →
  implements m (PutSymlinkTarget i s) (λ _ m',
    m' = spec_update (at_inode i) (λ _, entry_set_target (stored s)) m).
Proof.
  intros Hi. eapply update_implements; try done.
  - intros. by eapply rowid_is_at_inode.
  - intros r p cr [] _. split; try done. apply scan_stored.
Qed.

(** ** Directory entries *)

Lemma number_like_has_char c s :
  has_char c s = true → number_char c = false → number_like s = false.
Proof.
  intros Hs Hc. unfold number_like. apply andb_false_iff. right.
  induction s as [|d s IH]; [done|]. simpl in *. case_bool_decide; [subst; by rewrite Hc|].
  rewrite IH by done. apply andb_false_r.
Qed.

Lemma formatEntries_not_number es : number_like (formatEntries es) = false.
Proof.
  destruct es as [|e es]; [done|].
  apply (number_like_has_char dirEntryFieldSeparator); [|done].
  assert (∀ n i t, has_char dirEntryFieldSeparator (formatEntry n i t) = true) as Hf.
  { intros n i t. unfold formatEntry. rewrite has_char_app. simpl. by rewrite orb_true_r. }
  unfold formatEntries. destruct es as [|e' es]; [apply Hf|].
  rewrite !fmap_cons. cbn [StrJoin]. rewrite has_char_app, Hf. done.
Qed.

(** What the loop of [PutDirEntries] does to the map: a new entry for every path that has
    none, and the inode of each path. *)
Inductive put_entries (p : string) :
    list FileInfo → gmap string CachedRow → list entry → gmap string CachedRow → Prop :=
  | put_entries_nil m : put_entries p [] m [] m
  | put_entries_old fi rest m ty cr es m' :
      sqlTypeName (mode_type (Mode fi)) = Ret ty →
      m !! Join [p; Name fi] = Some cr →
      put_entries p rest m es m' →
      put_entries p (fi :: rest) m
        ({| en_name := Name fi; en_inode := Inode cr; en_type := ty |} :: es) m'
  | put_entries_new fi rest m ty id es m' :
      sqlTypeName (mode_type (Mode fi)) = Ret ty →
      m !! Join [p; Name fi] = None →
      (∀ q cr, m !! q = Some cr → Inode cr ≠ id) → 1 ≤ id ≤ MaxInt64 →
      put_entries p rest (<[Join [p; Name fi] := new_entry id ty]> m) es m' →
      put_entries p (fi :: rest) m
        ({| en_name := Name fi; en_inode := id; en_type := ty |} :: es) m'.

(** A listed file whose type has a name and whose path is not a number. *)
Definition listable (p : string) (fi : FileInfo) : Prop :=
  number_like (Join [p; Name fi]) = false ∧
  ∃ ty, sqlTypeName (mode_type (Mode fi)) = Ret ty.

Lemma table_inode_range t m p cr : table_repr t m → m !! p = Some cr → 1 ≤ Inode cr ≤ MaxInt64.
Proof.
  intros [_ _ Hrows Hmap] Hm. destruct (Hmap _ _ Hm) as (_ & r & Hr & Hrp).
  destruct (Hrows _ Hr) as (p' & cr' & Hp' & Hm' & Hrr).
  assert (cr' = cr) as -> by congruence. apply Hrr.
Qed.

Lemma uint64_inode i : 1 ≤ i ≤ MaxInt64 → uint64 i = i.
Proof. intros Hi. apply uint64_small. unfold is_uint64, two64. unfold MaxInt64 in Hi. lia. Qed.

Lemma sqlTypeName_type_names m ty : sqlTypeName m = Ret ty → ty ∈ type_names.
Proof.
  intros Hn%sqlTypeName_names. unfold type_names. rewrite !elem_of_cons in *.
  rewrite elem_of_nil in *. tauto.
Qed.

Lemma putOneDirEntry_implements m p fi :
  listable p fi →
  implements m (putOneDirEntry p fi) (λ e m',
    ∀ rest es m'', put_entries p rest m' es m'' → put_entries p (fi :: rest) m (e :: es) m'').
Proof.
  intros [Hp [ty Hty]] c Ht. unfold putOneDirEntry.
  eapply ran_bind with (P := λ ty' t, ty' = ty ∧ t = conn_rows c).
  { unfold go_lift. by rewrite Hty. }
  intros _ c0 [-> Hc0]. rewrite <- Hc0 in Ht |- *.
  apply query_ran; [done|apply scanInt64Column_ok| |by intros code c1 ?].
  intros r c' Hc'. cbn [sql_select].
  rewrite <- Hc' in Ht |- *. pose proof (select_path _ _ _ Ht Hp) as Hsel.
  destruct (m !! Join [p; Name fi]) as [cr|] eqn:Hm.
  - destruct Hsel as (row & -> & Hrow). cbn [fmap list_fmap]. intros ->. simpl.
    exists m. split; [|done]. intros rest es m'' Hput.
    rewrite (rr_id _ _ _ Hrow), (uint64_inode (Inode cr)) by (by eapply table_inode_range).
    by apply put_entries_old.
  - rewrite Hsel. intros ->. cbn [fmap list_fmap].
    eapply ran_bind.
    { eapply ran_bind; [by apply RetryExec_ran|].
      intros res c'' Heff. instantiate (1 := λ id t, 1 ≤ id ≤ MaxInt64 ∧
        (∀ q cr, m !! q = Some cr → Inode cr ≠ id) ∧
        table_repr t (<[Join [p; Name fi] := new_entry id ty]> m)).
      inversion Heff as [? ? ? Hu|p' ty' id Hst Hfp Hfi Hid Hres Hrows]; [done|].
      injection Hst as <- <-. subst res. cbn. rewrite <- Hrows.
      destruct (table_repr_insert _ _ id _ _ Ht Hp (sqlTypeName_type_names _ _ Hty) Hid Hfp Hfi)
        as (_ & Hfresh & Ht'). done. }
    intros id c'' (Hid & Hfresh & Ht'). simpl. eexists. split; [|done].
    intros rest es m'' Hput. rewrite uint64_inode by done. by apply put_entries_new.
Qed.

Lemma put_entries_extends p l m es m' : put_entries p l m es m' → m ⊆ m'.
Proof.
  induction 1 as [|fi rest m ty cr es m' _ _ _ IH|fi rest m ty id es m' _ Hm _ _ _ IH];
    [done|done|].
  etrans; [by apply insert_subseteq|done].
Qed.

Definition inodes_in_range (m : gmap string CachedRow) : Prop :=
  ∀ q cr, m !! q = Some cr → 1 ≤ Inode cr ≤ MaxInt64.

Lemma put_entries_ok p l m es m' :
  put_entries p l m es m' → inodes_in_range m →
  Forall (λ fi, plain_name (Name fi) = true) l → Forall entry_ok es.
Proof.
  assert (∀ i, 1 ≤ i ≤ MaxInt64 → is_uint64 i) as Hr.
  { intros i. unfold is_uint64, two64, MaxInt64. lia. }
  induction 1 as [|fi rest m ty cr es m' Hty Hm _ IH|fi rest m ty id es m' Hty Hm Hfresh Hid _ IH];
    intros Hin Hl; [by constructor|..]; apply Forall_cons in Hl as [Hn Hl]; constructor; auto.
  - split; simpl; eauto using sqlTypeName_type_names.
  - split; simpl; eauto using sqlTypeName_type_names.
  - apply IH; [|done]. intros q cr. rewrite lookup_insert. case_decide; [by intros [= <-]|apply Hin].
Qed.

Lemma putDirEntries_loop_ran p l m c :
  table_repr (conn_rows c) m → Forall (listable p) l →
  ran_or (λ t, ∃ m', m ⊆ m' ∧ table_repr t m')
    (λ es t, ∃ m', put_entries p l m es m' ∧ table_repr t m') (putDirEntries_loop p l c).
Proof.
  intros Ht Hl. revert m c Ht. induction Hl as [|fi l Hfi Hl IH]; intros m c Ht.
  { exists m. split; [constructor|done]. }
  cbn [putDirEntries_loop]. eapply ran_or_bind; [by apply putOneDirEntry_implements| |].
  { intros t ->. by exists m. }
  intros e c' (m1 & Hput & Ht1).
  assert (m ⊆ m1) as Hsub.
  { eapply put_entries_extends, (Hput [] [] m1). constructor. }
  eapply ran_or_bind; [by apply (IH m1)| |].
  { intros t (m' & Hm' & Ht'). exists m'. split; [by etrans|done]. }
  intros es c'' (m2 & Hput2 & Ht2). simpl. exists m2. split; [by apply Hput|done].
Qed.

(** The update at the end of [PutDirEntries]. *)
Lemma store_entries_implements m es i :
  i ≤ MaxInt64 → Forall entry_ok es →
  implements m (result ← RetryExec (putDirEntriesStmt (formatEntries es) i);
                checkUpdateAffectedOneRow result)
    (λ _ m', m' = spec_update (at_inode i) (λ _, entry_set_entries (foldl add_entry ∅ es)) m).
Proof.
  intros Hi Hes. eapply update_implements; try done.
  - intros. by eapply rowid_is_at_inode.
  - intros r q cr [] _. split; try done. simpl. exists (formatEntries es).
    split; [apply affinity_text, formatEntries_not_number|]. by apply parse_formatEntries_fold.
Qed.

Lemma PutDirEntries_ran i p l m c :
  table_repr (conn_rows c) m → i ≤ MaxInt64 → Forall (listable p) l →
  Forall (λ fi, plain_name (Name fi) = true) l →
  ran_or (λ t, ∃ m', m ⊆ m' ∧ table_repr t m')
    (λ _ t, ∃ es m1, put_entries p l m es m1 ∧
       table_repr t (spec_update (at_inode i)
                       (λ _, entry_set_entries (foldl add_entry ∅ es)) m1))
    (PutDirEntries i p l c).
Proof.
  intros Ht Hi Hl Hn. unfold PutDirEntries.
  eapply ran_or_bind; [by eapply putDirEntries_loop_ran|done|].
  intros es c' (m1 & Hput & Ht1).
  assert (Forall entry_ok es) as Hes.
  { eapply put_entries_ok; [done| |done]. intros q cr. by eapply table_inode_range. }
  eapply ran_or_weaken; [by apply (store_entries_implements m1)|..].
  - intros t ->. exists m1. split; [by eapply put_entries_extends|done].
  - intros _ t (m' & -> & Ht'). by exists es, m1.
Qed.

(** ** Reading the entries of a directory *)

Lemma go_for_union {A} (l : list A) (f : A → GoM (gmap string OneDirEntry) ()) out :
  (∀ x m m', f x m = (Ret (), m') → f x (out ∪ m) = (Ret (), out ∪ m')) →
  ∀ m m', go_for l f m = (Ret (), m') → go_for l f (out ∪ m) = (Ret (), out ∪ m').
Proof.
  intros Hf. induction l as [|x l IH]; intros m m'; simpl; [by intros [= <-]|].
  unfold go_bind. destruct (f x m) as [[[]| | | |] m1] eqn:E; try done.
  intros E'. rewrite (Hf _ _ _ E). by apply IH.
Qed.

Lemma addDirEntry_union i b ty out m m' :
  addDirEntry i b ty m = (Ret (), m') → addDirEntry i b ty (out ∪ m) = (Ret (), out ∪ m').
Proof.
  unfold addDirEntry. rewrite lookup_union. destruct (m !! b) as [d|] eqn:Hb.
  - intros [= <-]. by destruct (out !! b).
  - destruct (entry_of_type i ty) as [d|]; [|done]. intros [= <-].
    destruct (out !! b) as [d'|] eqn:Ho; simpl.
    + f_equal. apply map_eq. intros n. rewrite !lookup_union, lookup_insert.
      case_decide; [subst; by rewrite Ho, Hb|done].
    + by rewrite insert_union_r.
Qed.

(** Parsing adds the parsed entries to a map, its own entries first. *)
Lemma parseDirEntries_union txt out es :
  parseDirEntries txt ∅ = (Ret (), es) → parseDirEntries txt out = (Ret (), out ∪ es).
Proof.
  unfold parseDirEntries. destruct (_ =? _)%nat.
  { intros [= <-]. by rewrite (right_id_L ∅ (∪)). }
  intros Hes. rewrite <- (right_id_L ∅ (∪) out) at 1.
  revert Hes. apply go_for_union. clear. intros one m m'. unfold parseOneEntry.
  unfold mbind, go_mbind, go_bind, go_lift.
  destruct (index _ 0); try done. destruct (index _ 1); try done.
  destruct (ParseUint _); try done. destruct (index _ 2); try done.
  apply addDirEntry_union.
Qed.

Lemma GetDirEntries_implements m p cr out :
  m !! p = Some cr →
  implements m (GetDirEntries (Inode cr) out) (λ res m',
    res = match DirEntries cr with Some es => out ∪ es | None => out end ∧ m' = m).
Proof.
  intros Hm c Ht. pose proof (table_inode_range _ _ _ _ Ht Hm) as Hr. unfold GetDirEntries.
  destruct (tr_map _ _ Ht _ _ Hm) as (_ & r & Hrt & Hrp).
  destruct (tr_rows _ _ Ht _ Hrt) as (p' & cr' & Hp' & Hm' & Hrr).
  assert (cr' = cr) as -> by congruence. assert (p' = p) as -> by congruence. clear Hp' Hm'.
  assert (filter (λ r, rowid_is (Inode cr) r = true) (conn_rows c) = [r]) as Hsel.
  { apply filter_unique with (f := r_rowid); [apply Ht|done|]. intros y _.
    unfold rowid_is. rewrite Z.eqb_eq. by rewrite (rr_id _ _ _ Hrr). }
  destruct (query_scan (getDirEntriesStmt (Inode cr)) scanNullStringColumn c)
    as (o & c' & E & Hc' & Ho); [simpl; lia| |].
  { intros vals Hv. pose proof (scanNullStringColumn_ok vals) as Hok. by rewrite Hv in Hok. }
  cbn [sql_select] in Ho. rewrite Hsel in Ho. cbn [fmap list_fmap scanNullStringColumn] in Ho.
  unfold mbind at 1 2, go_mbind at 1 2. rewrite <- go_bind_assoc. unfold go_bind at 1. rewrite E.
  pose proof (rr_entries _ _ _ Hrr) as Hes.
  destruct Ho as [->|[[code ->]| ->]]; [done|done|].
  destruct (DirEntries cr) as [es|].
  - destruct Hes as (txt & -> & Hparse). simpl.
    rewrite (parseDirEntries_union _ _ _ Hparse). simpl. exists m. by rewrite Hc'.
  - rewrite Hes. simpl. exists m. by rewrite Hc'.
Qed.
End methods.
