(* ===== verification/MetadataProps.v ===== *)
(** The guarantees of the metadata cache: what each method does to the map of cached rows, that
    inode numbers are stable whatever happens, and that every method ends while the database is
    not contended. *)
From S2P Require Import Prelude GoStrings GoPath Types DirEntries Sql Sqlite Metadata.
From S2P Require Import MetadataSpec.
#[local] Open Scope Z_scope.

(** * Frames: what holds on every outcome *)

(** The identities of the rows: the path and the ROWID of each. *)
Definition ids_wf (t : list prow) : Prop := NoDup (r_rowid <$> t) ∧ NoDup (r_path <$> t).
Definition ids_extend (t t' : list prow) : Prop :=
  (ids_wf t → ids_wf t') ∧
  ∀ r, r ∈ t → ∃ r', r' ∈ t' ∧ r_rowid r' = r_rowid r ∧ r_path r' = r_path r.

#[export] Instance ids_extend_preorder : PreOrder ids_extend.
Proof.
  split.
  - intros t. split; [done|]. intros r Hr. by exists r.
  - intros t1 t2 t3 [H1 H2] [H3 H4]. split; [auto|]. intros r Hr.
    destruct (H2 r Hr) as (r' & Hr' & E1 & E2). destruct (H4 r' Hr') as (r'' & ? & E3 & E4).
    exists r''. split_and!; [done|congruence..].
Qed.

Section frames.
Context {DB : Type} `{SqlLaws DB, !Fuel}.

(** A preorder on the rows, as one on connections. *)
Definition on_rows (R : relation (list prow)) : relation (Conn DB) :=
  λ c c', R (conn_rows c) (conn_rows c').

#[export] Instance on_rows_preorder R `{!PreOrder R} : PreOrder (on_rows R).
Proof. unfold on_rows. split; [by intros ?|by intros ?????; etrans]. Qed.

Lemma framed_retry_loop (R : relation (Conn DB)) `{!PreOrder R} {A} fuel
    (attempt : GoM (Conn DB) A) delay :
  (∀ c rt, R c {| c_db := c_db c; c_rt := rt |}) →
  framed R attempt → framed R (retry_loop fuel attempt delay).
Proof.
  intros Hrt Ha. revert delay. induction fuel as [|fuel IH]; intros delay; cbn [retry_loop].
  { apply framed_const, _. }
  apply framed_bind; [done|by apply framed_try|]. intros [err|a]; [|apply framed_const, _].
  apply framed_bind; [done| |done].
  intros c. unfold waitOrErr. destruct err; simpl; try done.
  destruct (_ =? _); simpl; [apply Hrt|done].
Qed.

Section rows.
Context (R : relation (list prow)) `{!PreOrder R}.
Context (HR : ∀ st t res t', sql_effect db_affinity st t res t' → R t t').

Lemma framed_Exec st : framed (on_rows R) (Exec st).
Proof.
  unfold Exec. framed_solve. eapply framed_zoom with (RS := λ d d', R (db_rows d) (db_rows d'));
    [|done]. intros d. pose proof (exec_spec st d) as He.
  destruct (db_exec st d) as [[res|[]| | |] d']; simpl; try done; [by eapply HR|by rewrite He].
Qed.

Lemma framed_Query q : framed (on_rows R) (Query q).
Proof.
  unfold Query. framed_solve. eapply framed_zoom with (RS := λ d d', R (db_rows d) (db_rows d'));
    [|done]. intros d. pose proof (query_spec q d) as He.
  destruct (db_query q d) as [[rs|[]| | |] d']; simpl; try done; [|by rewrite He].
  destruct He as [_ He]. by rewrite He.
Qed.

Lemma framed_RetryExec st : framed (on_rows R) (RetryExec st).
Proof. apply framed_retry_loop; [apply _|by intros ??; unfold on_rows|apply framed_Exec]. Qed.

Lemma framed_RetryQueryRow q : framed (on_rows R) (RetryQueryRow q).
Proof. unfold RetryQueryRow. pose proof (framed_Query q). framed_solve. Qed.

Lemma framed_Scan {A} row (dest : list SqlValue → outcome A) :
  framed (on_rows R) (Scan row dest).
Proof.
  apply framed_retry_loop; [apply _|by intros ??; unfold on_rows|].
  unfold row_Scan. framed_solve.
Qed.
End rows.
End frames.

#[export] Hint Resolve framed_RetryExec framed_RetryQueryRow framed_Scan : go.

Section ids.
Context {DB : Type} `{SqlLaws DB, !Fuel}.

Lemma update_of_ids st where_ f r :
  update_of db_affinity st = Some (where_, f) → r_rowid (f r) = r_rowid r ∧ r_path (f r) = r_path r.
Proof. destruct st; simpl; intros; by simplify_eq/=. Qed.

Lemma fmap_sql_update {B} (g : prow → B) where_ f t :
  (∀ r, g (f r) = g r) → g <$> sql_update where_ f t = g <$> t.
Proof.
  intros Hg. unfold sql_update. rewrite <- list_fmap_compose. apply list_fmap_ext.
  intros i r _. simpl. by destruct (where_ r).
Qed.

Lemma sql_effect_ids st t res t' : sql_effect db_affinity st t res t' → ids_extend t t'.
Proof.
  intros [where_ f last Hu|p ty id -> Hp Hi _].
  - pose proof (λ r, proj1 (update_of_ids _ _ _ r Hu)) as Hid.
    pose proof (λ r, proj2 (update_of_ids _ _ _ r Hu)) as Hpath.
    split; [unfold ids_wf; by rewrite !fmap_sql_update|].
    intros r Hr. eexists. split; [by apply list_elem_of_fmap_2|].
    simpl. by destruct (where_ r).
  - rewrite Forall_forall in Hp, Hi. split.
    + intros [Hids Hpaths]. unfold ids_wf. rewrite !fmap_app. simpl.
      split; apply NoDup_app; split_and!; try done; try apply NoDup_singleton;
        intros x (r & -> & Hr)%list_elem_of_fmap Hx%list_elem_of_singleton.
      * by apply (Hi r Hr).
      * specialize (Hp r Hr). unfold path_is in Hp. by rewrite bool_decide_eq_true_2 in Hp.
    + intros r Hr. exists r. split; [apply elem_of_app; by left|done].
Qed.

Lemma framed_RetryExec_ids st : framed (on_rows ids_extend) (RetryExec st).
Proof. apply framed_RetryExec; [apply _|]. intros. by eapply sql_effect_ids. Qed.
Lemma framed_RetryQueryRow_ids q : framed (on_rows ids_extend) (RetryQueryRow q).
Proof. apply framed_RetryQueryRow; apply _. Qed.
Lemma framed_Scan_ids {A} row (dest : list SqlValue → outcome A) :
  framed (on_rows ids_extend) (Scan row dest).
Proof. apply framed_Scan; apply _. Qed.
End ids.

(** The calls of the cache's interface. *)
Inductive MetadataCall : Type :=
  | CallGetDirEntries (inode : Z) (out : gmap string OneDirEntry)
  | CallGetFullEntry (path : string)
  | CallPutNewWithType (path : string) (fileMode : Z)
  | CallPutNewNoEntry (path : string)
  | CallPutNewOrUpdateWithType (path : string) (fileMode : Z)
  | CallPutNewOrUpdateNoEntry (path : string)
  | CallPutFileInfo (inode : Z) (fileInfo : FileInfo)
  | CallPutContentHash (inode : Z) (contentHash : string)
  | CallPutSymlinkTarget (inode : Z) (target : string)
  | CallPutDirEntries (inode : Z) (path : string) (entries : list FileInfo).

Section calls.
Context {DB : Type} `{SqlLaws DB, !Fuel}.

Definition metadata_call (call : MetadataCall) : GoM (Conn DB) () :=
  match call with
  | CallGetDirEntries i out => _ ← GetDirEntries i out; mret ()
  | CallGetFullEntry p => _ ← GetFullEntry p; mret ()
  | CallPutNewWithType p m => _ ← PutNewWithType p m; mret ()
  | CallPutNewNoEntry p => _ ← PutNewNoEntry p; mret ()
  | CallPutNewOrUpdateWithType p m => PutNewOrUpdateWithType p m
  | CallPutNewOrUpdateNoEntry p => PutNewOrUpdateNoEntry p
  | CallPutFileInfo i fi => PutFileInfo i fi
  | CallPutContentHash i h => PutContentHash i h
  | CallPutSymlinkTarget i t => PutSymlinkTarget i t
  | CallPutDirEntries i p l => PutDirEntries i p l
  end.

Lemma framed_putDirEntries_loop (R : relation (Conn DB)) `{!PreOrder R} p l :
  (∀ st, framed R (RetryExec st)) → (∀ q, framed R (RetryQueryRow q)) →
  (∀ A row (dest : list SqlValue → outcome A), framed R (Scan row dest)) →
  framed R (putDirEntries_loop p l).
Proof.
  intros HE HQ HS. induction l as [|fi l IH]; cbn [putDirEntries_loop]; unfold putOneDirEntry;
    framed_solve.
Qed.

(** A frame of the three primitives is a frame of every call. *)
Lemma framed_metadata_call (R : relation (Conn DB)) `{!PreOrder R} call :
  (∀ st, framed R (RetryExec st)) → (∀ q, framed R (RetryQueryRow q)) →
  (∀ A row (dest : list SqlValue → outcome A), framed R (Scan row dest)) →
  framed R (metadata_call call).
Proof.
  intros HE HQ HS.
  destruct call; unfold metadata_call, GetDirEntries, GetFullEntry, PutNewWithType, PutNewNoEntry,
    PutNewOrUpdateWithType, PutNewOrUpdateNoEntry, PutFileInfo, PutContentHash, PutSymlinkTarget,
    PutDirEntries, putNew, putNewOrUpdate, resultToInode, checkUpdateAffectedOneRow.
  10: apply framed_bind; [done|by apply framed_putDirEntries_loop|intros ?].
  all: framed_solve.
Qed.
End calls.

(** * Termination *)

Lemma parseDirEntries_halts all m : (parseDirEntries all m).1 ≠ OutOfFuel.
Proof.
  cut (halts (λ _, True) (λ _, False) (parseDirEntries all)); [by intros Hh Ho; apply (Hh m)|].
  unfold parseDirEntries. destruct (_ =? _)%nat; [by apply halts_const|].
  apply halts_for. intros one. unfold parseOneEntry, index. halts_solve.
  - by destruct (ParseUint_ret_or_err a0) as [[? ->]|[? ->]].
  - intros m' _. unfold addDirEntry. destruct (m' !! a); [done|]. by destruct (entry_of_type _ _).
Qed.

(** Where a computation can stop without an answer: nowhere, or where [waits] tells. *)
Definition ends_quietly {DB A} (quiet waits : DB → Prop) (r : outcome A * DB) : Prop :=
  r.1 ≠ Err (ESqlite ErrBusy) ∧ (r.1 = OutOfFuel → waits r.2) ∧ quiet r.2.

Section termination.
Context {DB : Type} `{SqlEngine DB, !Fuel}.
Context (quiet waits : DB → Prop).
(** From a quiet database no call is answered with contention. *)
Context (exec_quiet : ∀ st d, quiet d → ends_quietly quiet waits (db_exec st d)).
Context (query_quiet : ∀ q d, quiet d → ends_quietly quiet waits (db_query q d)).
Context (some_fuel : (0 < retry_fuel)%nat).

Definition quiet_conn (c : Conn DB) : Prop := quiet (c_db c).
Definition waiting_conn (c : Conn DB) : Prop := waits (c_db c).
Abbreviation Halts := (halts quiet_conn waiting_conn).
Abbreviation Answered := (ends_quietly quiet_conn waiting_conn).

Lemma retry_loop_halts {A} (attempt : GoM (Conn DB) A) delay :
  (∀ c, quiet_conn c → Answered (attempt c)) → Halts (retry_loop retry_fuel attempt delay).
Proof.
  intros Ha c Hc. destruct (Ha c Hc) as (HnB & HnF & HQ).
  destruct retry_fuel; [lia|]. destruct (attempt c) as [o c'] eqn:E.
  by erewrite retry_loop_done by done.
Qed.

Lemma Exec_quiet st c : quiet_conn c → Answered (Exec st c).
Proof.
  destruct c as [d rt]. intros Hc. unfold Exec, uint64_arg. destruct (_ <=? _); [|by split].
  pose proof (exec_quiet st d Hc) as (HnB & HnF & HQ).
  unfold mbind, go_mbind, go_bind, go_lift, on_db, go_zoom. simpl.
  by destruct (db_exec st d) as [[] d'].
Qed.

Lemma Query_quiet q c : quiet_conn c → Answered (Query q c).
Proof.
  destruct c as [d rt]. intros Hc. unfold Query, uint64_arg. destruct (_ <=? _); [|by split].
  pose proof (query_quiet q d Hc) as (HnB & HnF & HQ).
  unfold mbind, go_mbind, go_bind, go_lift, on_db, go_zoom. simpl.
  by destruct (db_query q d) as [[] d'].
Qed.

Lemma RetryExec_halts st : Halts (RetryExec st).
Proof. apply retry_loop_halts, Exec_quiet. Qed.

Definition row_quiet (row : sql_Row) : Prop := row ≠ RowErr (ESqlite ErrBusy).

Lemma RetryQueryRow_halts {B} q (f : sql_Row → GoM (Conn DB) B) :
  (∀ row, row_quiet row → Halts (f row)) → Halts (go_bind f (RetryQueryRow q)).
Proof.
  apply halts_bind_post.
  - intros c Hc. destruct (Query_quiet q c Hc) as (HnB & HnF & HQ).
    unfold RetryQueryRow, mbind, go_mbind, go_bind, go_try.
    destruct (Query q c) as [[[|]| | | |] ?]; simpl in *; split; auto; done.
  - intros c row Hc. destruct (Query_quiet q c Hc) as (HnB & HnF & HQ).
    unfold RetryQueryRow, mbind, go_mbind, go_bind, go_try.
    destruct (Query q c) as [[[|]| | | |] ?]; simpl in *; intros [= <-]; try done.
    unfold row_quiet. congruence.
Qed.

Lemma Scan_halts {A} row (dest : list SqlValue → outcome A) :
  row_quiet row → (∀ vals, scan_ok (dest vals)) → Halts (Scan row dest).
Proof.
  intros Hrow Hdest. apply retry_loop_halts. intros c Hc. unfold row_quiet in Hrow.
  unfold ends_quietly. destruct row as [e| |vals]; simpl; split_and!; try done; [congruence|..];
    specialize (Hdest vals); unfold go_lift; simpl; by destruct (dest vals) as [|[]| | |].
Qed.

Lemma row_of_FullEntry_halts p fe : row_of_FullEntry p fe ≠ OutOfFuel.
Proof.
  unfold row_of_FullEntry, row_fileInfo, parse_new, mbind, outcome_mbind.
  destruct fe as [? ? [] [] [] [all|] ? ?]; simpl; try done.
  all: pose proof (parseDirEntries_halts all ∅) as Hp;
    destruct (parseDirEntries all ∅) as [[] ?]; simpl in *; done.
Qed.

Lemma sqlTypeName_halts m : sqlTypeName m ≠ OutOfFuel.
Proof. unfold sqlTypeName. by repeat case_match. Qed.

#[local] Hint Resolve RetryExec_halts Scan_halts scanFullEntry_ok scanNullStringColumn_ok
  scanInt64Column_ok sqlTypeName_halts row_of_FullEntry_halts : go.

Lemma putDirEntries_loop_halts p l : Halts (putDirEntries_loop p l).
Proof.
  induction l as [|fi l IH]; cbn [putDirEntries_loop]; [by apply halts_const|].
  apply halts_bind; [|intros e; halts_solve]. unfold putOneDirEntry.
  apply halts_bind; [apply halts_const, sqlTypeName_halts|intros ty].
  apply RetryQueryRow_halts. intros row Hrow.
  halts_solve.
Qed.

Lemma metadata_call_halts call : Halts (metadata_call call).
Proof.
  destruct call; unfold metadata_call, GetDirEntries, GetFullEntry, PutNewWithType, PutNewNoEntry,
    PutNewOrUpdateWithType, PutNewOrUpdateNoEntry, PutFileInfo, PutContentHash, PutSymlinkTarget,
    PutDirEntries, putNew, putNewOrUpdate, resultToInode, checkUpdateAffectedOneRow, mode_only_type.
  - apply halts_bind; [|intros ?; halts_solve]. apply RetryQueryRow_halts. intros row Hrow.
    apply halts_bind; [by apply Scan_halts, scanNullStringColumn_ok|].
    intros [all|]; [|halts_solve].
    pose proof (parseDirEntries_halts all out) as Hp.
    destruct (parseDirEntries all out) as [o m']; halts_solve.
  - apply halts_bind; [|intros ?; halts_solve]. apply RetryQueryRow_halts. intros row Hrow.
    halts_solve.
  - halts_solve.
  - halts_solve.
  - halts_solve.
  - halts_solve.
  - halts_solve.
  - halts_solve.
  - halts_solve.
  - apply halts_bind; [apply putDirEntries_loop_halts|intros ?; halts_solve].
Qed.
End termination.

(** A database that answers every call waits nowhere. *)
Lemma engine_ends {DB} `{SqlLaws DB} (quiet : DB → Prop) :
  (∀ st d, quiet d → (db_exec st d).1 ≠ Err (ESqlite ErrBusy) ∧ quiet (db_exec st d).2) →
  (∀ q d, quiet d → (db_query q d).1 ≠ Err (ESqlite ErrBusy) ∧ quiet (db_query q d).2) →
  (∀ st d, quiet d → ends_quietly quiet (λ _, False) (db_exec st d)) ∧
  (∀ q d, quiet d → ends_quietly quiet (λ _, False) (db_query q d)).
Proof.
  intros He Hq. split.
  - intros st d [HnB Hd]%(He st). split; [done|]. split; [|done]. pose proof (exec_spec st d) as Hs.
    by destruct (db_exec st d) as [[] ?].
  - intros q d [HnB Hd]%(Hq q). split; [done|]. split; [|done]. pose proof (query_spec q d) as Hs.
    by destruct (db_query q d) as [[] ?].
Qed.

(** * Lemmas for the properties *)

Lemma abs_path_not_number cs : number_like (abs_path cs) = false.
Proof. by apply (number_like_has_char slash). Qed.

Section inodes.
Context {DB : Type} `{SqlLaws DB, !Fuel}.

Lemma inode_inj t m p q crp crq :
  table_repr t m → m !! p = Some crp → m !! q = Some crq → Inode crp = Inode crq → p = q.
Proof.
  intros Ht Hp Hq Hi. pose proof Ht as [Hids _ Hrows Hmap].
  destruct (Hmap _ _ Hp) as (_ & rp & Hrp & Ep). destruct (Hmap _ _ Hq) as (_ & rq & Hrq & Eq).
  destruct (Hrows _ Hrp) as (p' & crp' & Ep' & Hp' & Rp).
  destruct (Hrows _ Hrq) as (q' & crq' & Eq' & Hq' & Rq).
  assert (r_rowid rp = r_rowid rq) as Er.
  { rewrite (rr_id _ _ _ Rp), (rr_id _ _ _ Rq). congruence. }
  apply list_elem_of_lookup in Hrp as [i Hrp]. apply list_elem_of_lookup in Hrq as [j Hrq].
  assert (i = j) as ->.
  { eapply NoDup_lookup; [exact Hids|..]; rewrite list_lookup_fmap, ?Hrp, ?Hrq; [done|].
    simpl. by rewrite Er. }
  congruence.
Qed.

Lemma spec_update_at_inode t m p cr g :
  table_repr t m → m !! p = Some cr →
  spec_update (at_inode (Inode cr)) g m = <[p := g p cr]> m.
Proof.
  intros Ht Hp. apply map_eq. intros q. rewrite lookup_spec_update, lookup_insert.
  unfold at_inode. case_decide as Hq; [subst q; rewrite Hp; simpl; by rewrite Z.eqb_refl|].
  destruct (m !! q) as [crq|] eqn:Hmq; [|done]. simpl.
  destruct (Inode crq =? Inode cr) eqn:E; [|done]. apply Z.eqb_eq in E.
  by pose proof (inode_inj _ _ _ _ _ _ Ht Hmq Hp E).
Qed.

(** The same from the updated table. *)
Lemma spec_update_at_inode_map t m p cr g :
  (∀ q cr', Inode (g q cr') = Inode cr') →
  table_repr t (spec_update (at_inode (Inode cr)) g m) → m !! p = Some cr →
  spec_update (at_inode (Inode cr)) g m = <[p := g p cr]> m.
Proof.
  intros Hg Ht Hp. apply map_eq. intros q. rewrite lookup_spec_update, lookup_insert.
  case_decide as Hq; [subst q; rewrite Hp; simpl; unfold at_inode; by rewrite Z.eqb_refl|].
  destruct (m !! q) as [crq|] eqn:Hmq; [|done]. simpl. unfold at_inode.
  destruct (Inode crq =? Inode cr) eqn:E; [|done]. apply Z.eqb_eq in E.
  exfalso. apply Hq. symmetry. eapply (inode_inj _ _ q p _ _ Ht).
  - rewrite lookup_spec_update, Hmq. done.
  - rewrite lookup_spec_update, Hp. done.
  - unfold at_inode. rewrite E, Z.eqb_refl. by rewrite !Hg.
Qed.

Lemma table_repr_empty : table_repr [] ∅.
Proof. split; [constructor|constructor|by intros r ?%elem_of_nil|by intros p cr]. Qed.

(** Storing a text in the row of a path, whatever the text. *)
Lemma PutContentHash_ran m path cr h c :
  m !! path = Some cr → table_repr (conn_rows c) m →
  ran (conn_rows c) (λ _ t, table_repr t (<[path := entry_set_hash (stored h) cr]> m))
    (PutContentHash (Inode cr) h c).
Proof.
  intros Hm Ht. pose proof (table_inode_range _ _ _ _ Ht Hm) as [_ Hi].
  eapply ran_or_weaken; [by apply (PutContentHash_implements m)|done|].
  intros u t (m' & -> & Ht'). by rewrite (spec_update_at_inode _ _ _ _ _ Ht Hm) in Ht'.
Qed.

Lemma PutSymlinkTarget_ran m path cr s c :
  m !! path = Some cr → table_repr (conn_rows c) m →
  ran (conn_rows c) (λ _ t, table_repr t (<[path := entry_set_target (stored s) cr]> m))
    (PutSymlinkTarget (Inode cr) s c).
Proof.
  intros Hm Ht. pose proof (table_inode_range _ _ _ _ Ht Hm) as [_ Hi].
  eapply ran_or_weaken; [by apply (PutSymlinkTarget_implements m)|done|].
  intros u t (m' & -> & Ht'). by rewrite (spec_update_at_inode _ _ _ _ _ Ht Hm) in Ht'.
Qed.

Lemma sqlTypeName_inv fm ty :
  sqlTypeName fm = Ret ty → mode_only_type fm = Ret () ∧ mode_type fm = fm.
Proof.
  unfold sqlTypeName, mode_only_type. destruct (negb _) eqn:E; [done|]. intros Ht. split; [done|].
  destruct (fm =? 0) eqn:E0; [by apply Z.eqb_eq in E0 as ->|].
  destruct (fm =? ModeDir) eqn:E1; [by apply Z.eqb_eq in E1 as ->|].
  destruct (fm =? ModeSymlink) eqn:E2; [by apply Z.eqb_eq in E2 as ->|done].
Qed.

Lemma PutNewWithType_unfold p fm ty c :
  sqlTypeName fm = Ret ty → PutNewWithType p fm c = putNew p ty c.
Proof.
  intros Ht. destruct (sqlTypeName_inv _ _ Ht) as [Ho Hm]. unfold PutNewWithType.
  rewrite Ho, Hm, Ht. done.
Qed.

Lemma PutNewOrUpdateWithType_unfold p fm ty c :
  sqlTypeName fm = Ret ty → PutNewOrUpdateWithType p fm c = putNewOrUpdate p ty c.
Proof.
  intros Ht. destruct (sqlTypeName_inv _ _ Ht) as [Ho Hm]. unfold PutNewOrUpdateWithType.
  rewrite Ho, Hm, Ht. done.
Qed.

Lemma all_digits_no_e s : all_digits s = true → has_char "e" s = false.
Proof.
  induction s as [|d s IH]; [done|]. simpl. rewrite andb_true_iff, bool_decide_eq_true.
  intros [[n Hn] Hs]. rewrite IH by done. case_bool_decide; [by subst|done].
Qed.

(** Digits that are not the decimal of a signed 64-bit integer are not read back. *)
Lemma stored_digits s :
  s ≠ "" → all_digits s = true →
  (∀ z, ParseUint s = Ret z → MaxInt64 < z ∨ FormatUint z ≠ s) → stored s ≠ s.
Proof.
  intros Hs Hd Hz. unfold stored.
  destruct (ParseUint s) as [z| | | |] eqn:Hp.
  1: destruct (decide (z ≤ MaxInt64)) as [Hle|Hgt].
  { rewrite (affinity_int s z Hp Hle). simpl.
    pose proof (ParseUint_range _ _ Hp) as Hr. unfold is_uint64 in Hr.
    rewrite FormatInt_nonneg by lia. destruct (Hz z eq_refl); [lia|done]. }
  all: destruct (affinity_real s Hs Hd) as (t & -> & Ht);
    [intros z' Hz'; rewrite Hp in Hz'; simplify_eq; lia|].
  all: simpl; intros ->; destruct Ht as [Ht| ->]; [by rewrite all_digits_no_e in Ht|by vm_compute in Hd].
Qed.

(** What the listed entries are after the loop of [PutDirEntries]. *)
Lemma put_entries_names p l m es m' :
  put_entries p l m es m' → en_name <$> es = Name <$> l.
Proof. induction 1; [done|rewrite !fmap_cons; by f_equal..]. Qed.

Lemma put_entries_elem p l m es m' fi :
  put_entries p l m es m' → fi ∈ l →
  ∃ e ch, e ∈ es ∧ en_name e = Name fi ∧ m' !! Join [p; Name fi] = Some ch ∧
          entry_value e = {| Valid := true; EntInode := Inode ch; EntModeType := mode_type (Mode fi) |}.
Proof.
  induction 1 as [|fi' rest m ty cr es m' Hty Hm Hput IH|fi' rest m ty id es m' Hty Hm Hf Hid Hput IH];
    intros Hfi; [by apply elem_of_nil in Hfi|..]; apply elem_of_cons in Hfi as [->|Hfi].
  - eexists _, cr. split_and!; [by left|done|by eapply lookup_weaken, put_entries_extends|].
    unfold entry_value. simpl. by rewrite (entry_of_sqlTypeName _ _ _ Hty).
  - destruct (IH Hfi) as (e & ch & He & Hrest). exists e, ch. split; [by right|done].
  - eexists _, (new_entry id ty). split_and!; [by left|done| |].
    + eapply lookup_weaken; [apply lookup_insert_eq|by eapply put_entries_extends].
    + unfold entry_value. simpl. by rewrite (entry_of_sqlTypeName _ _ _ Hty).
  - destruct (IH Hfi) as (e & ch & He & Hrest). exists e, ch. split; [by right|done].
Qed.

Lemma entries_map_elem es e :
  NoDup (en_name <$> es) → e ∈ es →
  foldl add_entry ∅ es !! en_name e = Some (entry_value e).
Proof.
  intros Hnd He. rewrite foldl_add_entry; [|done|by intros; apply lookup_empty].
  rewrite (right_id_L ∅ (∪)). apply elem_of_list_to_map_1.
  - by rewrite <- list_fmap_compose.
  - apply list_elem_of_fmap. by exists e.
Qed.

Lemma entries_map_dom es n :
  NoDup (en_name <$> es) → is_Some (foldl add_entry ∅ es !! n) → n ∈ en_name <$> es.
Proof.
  intros Hnd [d Hd]. rewrite foldl_add_entry in Hd; [|done|by intros; apply lookup_empty].
  rewrite (right_id_L ∅ (∪)) in Hd. apply elem_of_list_to_map_2 in Hd.
  apply list_elem_of_fmap in Hd as (e & [= -> ->] & He). by apply list_elem_of_fmap_2.
Qed.
End inodes.

(** * Properties *)

Lemma GetFullEntry_lookup_ran {DB} `{SqlLaws DB, !Fuel} (m : gmap string CachedRow) (path : string)
    (c : Conn DB) :
  number_like path = false → table_repr (conn_rows c) m →
  ran (conn_rows c) (λ o t, o = m !! path ∧ table_repr t m) (GetFullEntry path c).
Proof.
  intros Hp Ht. eapply ran_or_weaken; [by apply (GetFullEntry_implements m)|done|].
  intros o t (m' & [Ho ->] & Ht'). done.
Qed.

(** On a table that holds the map [m], [GetFullEntry path] returns exactly
    [m !! path]: the cached row with every column decoded, or nil when the path is unknown. *)
Theorem GetFullEntry_lookup {DB} `{SqlLaws DB, !Fuel} (m : gmap string CachedRow) (path : string)
    (c : Conn DB) :
  number_like path = false → table_repr (conn_rows c) m →
  ran (conn_rows c) (λ o t, o = m !! path ∧ table_repr t m) (GetFullEntry path c).
Proof. apply GetFullEntry_lookup_ran. Qed.

Lemma put_new_adds_ran {DB} `{SqlLaws DB, !Fuel} (m : gmap string CachedRow) (path ty : string)
    (method : GoM (Conn DB) Z) (c : Conn DB) :
  (∃ fm, sqlTypeName fm = Ret ty ∧ method = PutNewWithType path fm) ∨
    (ty = "noentry" ∧ method = PutNewNoEntry path) →
  number_like path = false → table_repr (conn_rows c) m →
  ran (conn_rows c)
    (λ inode t, m !! path = None ∧ (∀ q cr, m !! q = Some cr → Inode cr ≠ inode) ∧
                table_repr t (<[path := new_entry inode ty]> m)) (method c).
Proof.
  intros Hmethod Hp Ht.
  assert (ty ∈ type_names ∧ method c = putNew path ty c) as [Hty ->].
  { destruct Hmethod as [(fm & Hfm & ->)|[-> ->]].
    - split; [by eapply sqlTypeName_type_names|by apply PutNewWithType_unfold].
    - split; [|done]. unfold type_names. do 3 right. by left. }
  eapply ran_or_weaken; [by apply (putNew_implements m)|done|].
  intros inode t (m' & (Hn & Hfresh & ->) & Ht'). done.
Qed.

(** [PutNewWithType] and [PutNewNoEntry] succeed only for a path that is not
    in the map; they add it with a type and nothing else, under an inode no other path has. *)
Theorem put_new_adds {DB} `{SqlLaws DB, !Fuel} (m : gmap string CachedRow) (path ty : string)
    (method : GoM (Conn DB) Z) (c : Conn DB) :
  (∃ fm, sqlTypeName fm = Ret ty ∧ method = PutNewWithType path fm) ∨
    (ty = "noentry" ∧ method = PutNewNoEntry path) →
  number_like path = false → table_repr (conn_rows c) m →
  ran (conn_rows c)
    (λ inode t, m !! path = None ∧ (∀ q cr, m !! q = Some cr → Inode cr ≠ inode) ∧
                table_repr t (<[path := new_entry inode ty]> m)) (method c).
Proof. apply put_new_adds_ran. Qed.

Lemma put_or_update_sets_type_ran {DB} `{SqlLaws DB, !Fuel} (m : gmap string CachedRow)
    (path ty : string) (method : GoM (Conn DB) ()) (c : Conn DB) :
  (∃ fm, sqlTypeName fm = Ret ty ∧ method = PutNewOrUpdateWithType path fm) ∨
    (ty = "noentry" ∧ method = PutNewOrUpdateNoEntry path) →
  number_like path = false → table_repr (conn_rows c) m →
  ran (conn_rows c)
    (λ _ t, match m !! path with
            | Some cr => table_repr t (<[path := entry_set_type ty cr]> m)
            | None => ∃ inode, (∀ q cr, m !! q = Some cr → Inode cr ≠ inode) ∧
                               table_repr t (<[path := new_entry inode ty]> m)
            end) (method c).
Proof.
  intros Hmethod Hp Ht.
  assert (ty ∈ type_names ∧ method c = putNewOrUpdate path ty c) as [Hty ->].
  { destruct Hmethod as [(fm & Hfm & ->)|[-> ->]].
    - split; [by eapply sqlTypeName_type_names|by apply PutNewOrUpdateWithType_unfold].
    - split; [|done]. unfold type_names. do 3 right. by left. }
  eapply ran_or_weaken; [by apply (putNewOrUpdate_implements m)|done|].
  intros u t (m' & Hm' & Ht'). destruct (m !! path) as [cr|]; [by subst|].
  destruct Hm' as (inode & Hf & ->). eauto.
Qed.

(** [PutNewOrUpdateWithType] and [PutNewOrUpdateNoEntry] change the type of a
    known path and keep its inode and everything else that is cached; an unknown path is added. *)
Theorem put_or_update_sets_type {DB} `{SqlLaws DB, !Fuel} (m : gmap string CachedRow)
    (path ty : string) (method : GoM (Conn DB) ()) (c : Conn DB) :
  (∃ fm, sqlTypeName fm = Ret ty ∧ method = PutNewOrUpdateWithType path fm) ∨
    (ty = "noentry" ∧ method = PutNewOrUpdateNoEntry path) →
  number_like path = false → table_repr (conn_rows c) m →
  ran (conn_rows c)
    (λ _ t, match m !! path with
            | Some cr => table_repr t (<[path := entry_set_type ty cr]> m)
            | None => ∃ inode, (∀ q cr, m !! q = Some cr → Inode cr ≠ inode) ∧
                               table_repr t (<[path := new_entry inode ty]> m)
            end) (method c).
Proof. apply put_or_update_sets_type_ran. Qed.

Lemma PutFileInfo_stores_ran {DB} `{SqlLaws DB, !Fuel} (m : gmap string CachedRow) (path : string)
    (cr : CachedRow) (fi : FileInfo) (c : Conn DB) :
  m !! path = Some cr → table_repr (conn_rows c) m →
  FileInfo_wf fi → is_int64 (ModTime fi) → Name fi = Base path →
  ran (conn_rows c) (λ _ t, table_repr t (<[path := entry_set_info fi cr]> m))
    (PutFileInfo (Inode cr) fi c).
Proof.
  intros Hm Ht [Hsize Hmode] Htime Hname.
  eapply ran_or_weaken;
    [eapply (PutFileInfo_implements m); [eapply table_inode_range|]; done|done|].
  intros u t (m' & -> & Ht'). erewrite (spec_update_at_inode _ _ _ _ _ Ht Hm) in Ht'.
  unfold newFileInfo in Ht'. rewrite uint32_small, Unix_UnixNano in Ht' by done.
  destruct fi; simpl in *; subst. done.
Qed.

(** [PutFileInfo] on the inode of a path stores the file's size, mode and
    modification time so that the path's cached row carries exactly them, and changes nothing
    else. *)
Theorem PutFileInfo_stores {DB} `{SqlLaws DB, !Fuel} (m : gmap string CachedRow) (path : string)
    (cr : CachedRow) (fi : FileInfo) (c : Conn DB) :
  m !! path = Some cr → table_repr (conn_rows c) m →
  FileInfo_wf fi → is_int64 (ModTime fi) → Name fi = Base path →
  ran (conn_rows c) (λ _ t, table_repr t (<[path := entry_set_info fi cr]> m))
    (PutFileInfo (Inode cr) fi c).
Proof. apply PutFileInfo_stores_ran. Qed.

(** [PutContentHash] and [PutSymlinkTarget] store a text that cannot be taken
    for a number so that it is read back unchanged with the row of the inode's path. *)
Theorem put_text_stores {DB} `{SqlLaws DB, !Fuel} (m : gmap string CachedRow) (path text : string)
    (cr : CachedRow) (c : Conn DB) :
  m !! path = Some cr → table_repr (conn_rows c) m → number_like text = false →
  ran (conn_rows c) (λ _ t, table_repr t (<[path := entry_set_hash text cr]> m))
    (PutContentHash (Inode cr) text c) ∧
  ran (conn_rows c) (λ _ t, table_repr t (<[path := entry_set_target text cr]> m))
    (PutSymlinkTarget (Inode cr) text c).
Proof.
  intros Hm Ht Htext. pose proof (PutContentHash_ran m path cr text c Hm Ht) as Hh.
  pose proof (PutSymlinkTarget_ran m path cr text c Hm Ht) as Hl.
  by rewrite stored_text in Hh, Hl.
Qed.

(** C35 (error).  The text columns are declared STRING, to which SQLite gives numeric affinity:
    a symlink target or content hash of decimal digits is read back as a different text when it
    has leading zeros or does not fit in a signed 64-bit integer. *)
Theorem put_digits_altered {DB} `{SqlLaws DB, !Fuel} (m : gmap string CachedRow)
    (path text : string) (cr : CachedRow) (c : Conn DB) :
  m !! path = Some cr → table_repr (conn_rows c) m → text ≠ "" → all_digits text = true →
  (∀ z, ParseUint text = Ret z → MaxInt64 < z ∨ FormatUint z ≠ text) →
  ∃ text', text' ≠ text ∧
  ran (conn_rows c) (λ _ t, table_repr t (<[path := entry_set_hash text' cr]> m))
    (PutContentHash (Inode cr) text c) ∧
  ran (conn_rows c) (λ _ t, table_repr t (<[path := entry_set_target text' cr]> m))
    (PutSymlinkTarget (Inode cr) text c).
Proof.
  intros Hm Ht Hne Hd Hz. exists (stored text). split; [by apply stored_digits|].
  split; [by apply PutContentHash_ran|by apply PutSymlinkTarget_ran].
Qed.

Lemma PutDirEntries_lists_ran {DB} `{SqlLaws DB, !Fuel} (m : gmap string CachedRow)
    (cs : list string) (dir : CachedRow) (l : list FileInfo) (c : Conn DB) :
  Forall (λ n, good_name n = true) cs → m !! abs_path cs = Some dir →
  table_repr (conn_rows c) m → NoDup (Name <$> l) →
  Forall (λ fi, good_name (Name fi) = true ∧ plain_name (Name fi) = true ∧
                ∃ ty, sqlTypeName (mode_type (Mode fi)) = Ret ty) l →
  ran_or (λ t, ∃ m', m ⊆ m' ∧ table_repr t m')
    (λ _ t, ∃ m' es,
       table_repr t m' ∧ m' !! abs_path cs = Some (entry_set_entries es dir) ∧
       (∀ fi, fi ∈ l → ∃ ch, m' !! Join [abs_path cs; Name fi] = Some ch ∧
          es !! Name fi = Some {| Valid := true; EntInode := Inode ch;
                                  EntModeType := mode_type (Mode fi) |}) ∧
       (∀ n, is_Some (es !! n) → n ∈ Name <$> l) ∧
       (∀ q cr, q ≠ abs_path cs → m !! q = Some cr → m' !! q = Some cr))
    (PutDirEntries (Inode dir) (abs_path cs) l c).
Proof.
  intros Hcs Hdir Ht Hnd Hl. rewrite Forall_forall in Hl.
  assert (∀ fi, fi ∈ l → Join [abs_path cs; Name fi] = abs_path (cs ++ [Name fi])) as Hj.
  { intros fi Hfi. apply Join_abs_path; [done|by apply Hl]. }
  eapply ran_or_weaken; [eapply PutDirEntries_ran; [exact Ht|by eapply table_inode_range|..]|done|].
  - apply Forall_forall. intros fi Hfi. split; [rewrite Hj by done; apply abs_path_not_number|].
    by apply Hl.
  - apply Forall_forall. intros fi Hfi. by apply Hl.
  - intros u t (es & m1 & Hput & Ht').
    pose proof (put_entries_extends _ _ _ _ _ Hput) as Hsub.
    pose proof (put_entries_names _ _ _ _ _ Hput) as Hnames. rewrite <- Hnames in Hnd.
    assert (m1 !! abs_path cs = Some dir) as Hdir1 by (by eapply lookup_weaken).
    rewrite (spec_update_at_inode_map t m1 _ _ (λ _, entry_set_entries (foldl add_entry ∅ es))
               (λ _ _, eq_refl) Ht' Hdir1) in Ht'.
    eexists _, (foldl add_entry ∅ es). split_and!; [exact Ht'|by rewrite lookup_insert_eq|..].
    + intros fi Hfi. destruct (put_entries_elem _ _ _ _ _ fi Hput Hfi) as (e & ch & He & Hen & Hch & Hv).
      exists ch. split.
      * rewrite lookup_insert_ne; [done|]. apply not_eq_sym, Join_abs_path_ne; [done|by apply Hl].
      * rewrite <- Hen, entries_map_elem by done. by rewrite Hv.
    + intros n Hn. rewrite <- Hnames. by apply entries_map_dom.
    + intros q cr Hq Hcr. rewrite lookup_insert_ne by done. by eapply lookup_weaken.
Qed.

(** C32 (functional).  [PutDirEntries] of a directory's listing (files, directories and
    symlinks with distinct, plain names) records for the directory exactly the listed names, each
    with the type it was listed with and with the inode of the cached row of its own path, which
    is created when missing; the rows of all other paths stay as they were.  If the engine fails
    on the way, the rows that exist are unchanged. *)
Theorem PutDirEntries_lists {DB} `{SqlLaws DB, !Fuel} (m : gmap string CachedRow)
    (cs : list string) (dir : CachedRow) (l : list FileInfo) (c : Conn DB) :
  Forall (λ n, good_name n = true) cs → m !! abs_path cs = Some dir →
  table_repr (conn_rows c) m → NoDup (Name <$> l) →
  Forall (λ fi, good_name (Name fi) = true ∧ plain_name (Name fi) = true ∧
                ∃ ty, sqlTypeName (mode_type (Mode fi)) = Ret ty) l →
  ran_or (λ t, ∃ m', m ⊆ m' ∧ table_repr t m')
    (λ _ t, ∃ m' es,
       table_repr t m' ∧ m' !! abs_path cs = Some (entry_set_entries es dir) ∧
       (∀ fi, fi ∈ l → ∃ ch, m' !! Join [abs_path cs; Name fi] = Some ch ∧
          es !! Name fi = Some {| Valid := true; EntInode := Inode ch;
                                  EntModeType := mode_type (Mode fi) |}) ∧
       (∀ n, is_Some (es !! n) → n ∈ Name <$> l) ∧
       (∀ q cr, q ≠ abs_path cs → m !! q = Some cr → m' !! q = Some cr))
    (PutDirEntries (Inode dir) (abs_path cs) l c).
Proof. apply PutDirEntries_lists_ran. Qed.

Lemma GetDirEntries_lookup_ran {DB} `{SqlLaws DB, !Fuel} (m : gmap string CachedRow) (path : string)
    (cr : CachedRow) (out : gmap string OneDirEntry) (c : Conn DB) :
  m !! path = Some cr → table_repr (conn_rows c) m →
  ran (conn_rows c)
    (λ res t, res = out ∪ default ∅ (DirEntries cr) ∧ table_repr t m)
    (GetDirEntries (Inode cr) out c).
Proof.
  intros Hm Ht. eapply ran_or_weaken; [by apply (GetDirEntries_implements m path)|done|].
  intros res t (m' & [-> ->] & Ht'). split; [|done].
  destruct (DirEntries cr); simpl; [done|]. by rewrite (right_id_L ∅ (∪)).
Qed.

(** [GetDirEntries] on the inode of a cached path adds the entries cached
    for that directory to the given map, keeping the names the map already has, and adds nothing
    when no entries are cached. *)
Theorem GetDirEntries_lookup {DB} `{SqlLaws DB, !Fuel} (m : gmap string CachedRow) (path : string)
    (cr : CachedRow) (out : gmap string OneDirEntry) (c : Conn DB) :
  m !! path = Some cr → table_repr (conn_rows c) m →
  ran (conn_rows c)
    (λ res t, res = out ∪ default ∅ (DirEntries cr) ∧ table_repr t m)
    (GetDirEntries (Inode cr) out c).
Proof. apply GetDirEntries_lookup_ran. Qed.

(** Inode numbers are stable: whatever calls are made on the cache, with
    whatever outcomes, no row disappears and none changes its path or its inode number; and if
    paths and inodes were unique before, they stay so. *)
Theorem inodes_stable {DB} `{SqlLaws DB, !Fuel} (calls : list MetadataCall) (c : Conn DB) :
  ids_extend (conn_rows c)
    (conn_rows (go_for calls (λ call, go_ignore (metadata_call call)) c).2).
Proof.
  assert (framed (on_rows ids_extend) (go_for calls (λ call, go_ignore (metadata_call call))))
    as Hframe; [|by apply Hframe].
  apply framed_for; [apply _|]. intros call. apply framed_ignore; [apply _|].
  apply framed_metadata_call; [apply _|..]; intros;
    auto using framed_RetryExec_ids, framed_RetryQueryRow_ids, framed_Scan_ids.
Qed.

(** While the database answers no call with contention, every method of the
    cache ends, on every input. *)
Theorem metadata_terminates {DB} `{SqlLaws DB, !Fuel} (quiet : DB → Prop) (call : MetadataCall)
    (c : Conn DB) :
  (∀ st d, quiet d → (db_exec st d).1 ≠ Err (ESqlite ErrBusy) ∧ quiet (db_exec st d).2) →
  (∀ q d, quiet d → (db_query q d).1 ≠ Err (ESqlite ErrBusy) ∧ quiet (db_query q d).2) →
  (0 < retry_fuel)%nat → quiet (c_db c) →
  (metadata_call call c).1 ≠ OutOfFuel.
Proof.
  intros He Hq Hf Hc Ho. destruct (engine_ends quiet He Hq) as [He' Hq'].
  by apply (metadata_call_halts quiet (λ _, False) He' Hq' Hf call c).
Qed.

(** * Witnesses: a root directory with one file *)

#[local] Instance sample_fuel : Fuel := {| retry_fuel := 1; copy_fuel := 0 |}.

Definition sample_rows : list prow :=
  [ new_row mem_affinity 1 "/" "directory"; new_row mem_affinity 2 "/a" "file" ].
Definition sample_conn : Conn MemDb :=
  {| c_db := {| mem_rows := sample_rows; mem_faults := [] |}; c_rt := sample_runtime |}.
Definition sample_map : gmap string CachedRow :=
  <["/a" := new_entry 2 "file"]> (<["/" := new_entry 1 "directory"]> ∅).

Lemma sample_repr : table_repr (conn_rows sample_conn) sample_map.
Proof.
  change (conn_rows sample_conn)
    with (([] ++ [new_row mem_affinity 1 "/" "directory"]) ++ [new_row mem_affinity 2 "/a" "file"]).
  refine (proj2 (proj2 (table_repr_insert (DB := MemDb) _ (<["/" := new_entry 1 "directory"]> ∅)
    2 "/a" "file" _ _ _ _ _ _)));
    [|done|by left|unfold MaxInt64; lia|repeat constructor|repeat constructor; done].
  refine (proj2 (proj2 (table_repr_insert (DB := MemDb) [] ∅ 1 "/" "directory" _ _ _ _ _ _)));
    [apply table_repr_empty|done|right; by left|unfold MaxInt64; lia|constructor|constructor].
Qed.

Lemma GetFullEntry_lookup_witness :
  ran sample_rows (λ o t, o = Some (new_entry 2 "file") ∧ table_repr t sample_map)
    (GetFullEntry "/a" sample_conn).
Proof. exact (GetFullEntry_lookup sample_map "/a" sample_conn eq_refl sample_repr). Defined.

Lemma put_new_adds_witness :
  ran sample_rows
    (λ inode t, sample_map !! "/b" = None ∧
       (∀ q cr, sample_map !! q = Some cr → Inode cr ≠ inode) ∧
       table_repr t (<["/b" := new_entry inode "noentry"]> sample_map))
    (PutNewNoEntry "/b" sample_conn).
Proof.
  refine (put_new_adds sample_map "/b" "noentry" (PutNewNoEntry "/b") sample_conn _ _ _);
    [by right|done|exact sample_repr].
Defined.

Lemma put_or_update_sets_type_witness :
  ran sample_rows
    (λ _ t, table_repr t (<["/a" := entry_set_type "symlink" (new_entry 2 "file")]> sample_map))
    (PutNewOrUpdateWithType "/a" ModeSymlink sample_conn).
Proof.
  refine (put_or_update_sets_type sample_map "/a" "symlink" _ sample_conn _ _ _);
    [left; by exists ModeSymlink|done|exact sample_repr].
Defined.

Definition sample_info : FileInfo :=
  {| Name := "a"; Size := 12; Mode := 420; ModTime := 1500000000123456789 |}.

Lemma PutFileInfo_stores_witness :
  ran sample_rows
    (λ _ t, table_repr t (<["/a" := entry_set_info sample_info (new_entry 2 "file")]> sample_map))
    (PutFileInfo 2 sample_info sample_conn).
Proof.
  refine (PutFileInfo_stores sample_map "/a" (new_entry 2 "file") sample_info sample_conn _ _ _ _ _);
    [done|exact sample_repr| |done|done].
  by split.
Defined.

Lemma put_text_stores_witness :
  let cr := new_entry 2 "file" in
  ran sample_rows (λ _ t, table_repr t (<["/a" := entry_set_hash "../x" cr]> sample_map))
    (PutContentHash 2 "../x" sample_conn) ∧
  ran sample_rows (λ _ t, table_repr t (<["/a" := entry_set_target "../x" cr]> sample_map))
    (PutSymlinkTarget 2 "../x" sample_conn).
Proof.
  refine (put_text_stores sample_map "/a" "../x" (new_entry 2 "file") sample_conn _ _ _);
    [done|exact sample_repr|done].
Defined.

Lemma put_digits_altered_witness :
  let cr := new_entry 2 "file" in
  ∃ text', text' ≠ "007" ∧
  ran sample_rows (λ _ t, table_repr t (<["/a" := entry_set_hash text' cr]> sample_map))
    (PutContentHash 2 "007" sample_conn) ∧
  ran sample_rows (λ _ t, table_repr t (<["/a" := entry_set_target text' cr]> sample_map))
    (PutSymlinkTarget 2 "007" sample_conn).
Proof.
  refine (put_digits_altered sample_map "/a" "007" (new_entry 2 "file") sample_conn _ _ _ _ _);
    [done|exact sample_repr|done|done|].
  intros z [= <-]. by right.
Defined.

Lemma PutDirEntries_lists_witness :
  let l := [sample_info] in
  ran_or (λ t, ∃ m', sample_map ⊆ m' ∧ table_repr t m')
    (λ _ t, ∃ m' es,
       table_repr t m' ∧ m' !! "/" = Some (entry_set_entries es (new_entry 1 "directory")) ∧
       (∀ fi, fi ∈ l → ∃ ch, m' !! Join ["/"; Name fi] = Some ch ∧
          es !! Name fi = Some {| Valid := true; EntInode := Inode ch;
                                  EntModeType := mode_type (Mode fi) |}) ∧
       (∀ n, is_Some (es !! n) → n ∈ Name <$> l) ∧
       (∀ q cr, q ≠ "/" → sample_map !! q = Some cr → m' !! q = Some cr))
    (PutDirEntries 1 "/" l sample_conn).
Proof.
  refine (PutDirEntries_lists sample_map [] (new_entry 1 "directory") [sample_info] sample_conn _ _ _ _ _);
    [constructor|done|exact sample_repr|apply NoDup_singleton|].
  constructor; [|constructor]. split_and!; [done|done|by exists "file"].
Defined.

Lemma GetDirEntries_lookup_witness :
  ran sample_rows (λ res t, res = ∅ ∪ default ∅ None ∧ table_repr t sample_map)
    (GetDirEntries 1 ∅ sample_conn).
Proof.
  refine (GetDirEntries_lookup sample_map "/" (new_entry 1 "directory") ∅ sample_conn _ _);
    [done|exact sample_repr].
Defined.

Lemma metadata_terminates_witness :
  (metadata_call (CallPutDirEntries 1 "/" [sample_info]) sample_conn).1 ≠ OutOfFuel.
Proof.
  apply (metadata_terminates (λ d, mem_faults d = []) (CallPutDirEntries 1 "/" [sample_info]) sample_conn).
  - apply mem_exec_quiet.
  - apply mem_query_quiet.
  - simpl. lia.
  - done.
Defined.

Lemma inodes_stable_witness :
  ids_extend sample_rows
    (conn_rows (go_for [CallPutNewNoEntry "/b"; CallPutDirEntries 1 "/" [sample_info]]
                  (λ call, go_ignore (metadata_call call)) sample_conn).2).
Proof.
  exact (inodes_stable [CallPutNewNoEntry "/b"; CallPutDirEntries 1 "/" [sample_info]] sample_conn).
Defined.
