(* ===== verification/Content.v ===== *)
(** The content cache: internal/cache/content.go.  File contents are kept under the cache root
    in a file named by their digest, inside a bucket directory named by the first two digits.

    New contents are written to a temporary file in the root, digested on the way, and renamed
    into place.  [ContentProps.v] has the guarantees. *)
From S2P Require Import Prelude GoStrings GoPath Stats Types Sql Sqlite Kernel Syscalls Md5.
#[local] Open Scope Z_scope.

(** The system calls of the [syscalls] field are those of Syscalls.v. *)
Record ContentCache : Type := { root : string }.

Definition NewContentCache (root : string) : ContentCache := {| root := root |}.

Definition Root (cache : ContentCache) : string := root cache.

(** [string(key)[0:2]]. *)
Definition bucketForKey (cache : ContentCache) (key : Key) : outcome string :=
  if (String.length key <? 2)%nat then Panic "runtime error: slice bounds out of range"
  else Ret (String.substring 0 2 key).

Definition pathForKey (cache : ContentCache) (key : Key) : outcome string :=
  bucket ← bucketForKey cache key;
  mret (Join [root cache; bucket; key]).

Section content.
Context {OS DB : Type} `{Kernel OS, Fuel}.
Abbreviation M := (GoM (World OS DB)).

Definition HasKey (cache : ContentCache) (key : Key) : M bool :=
  path ← go_lift (pathForKey cache key);
  r ← go_try (Lstat LocalDomain path);
  match r with
  | inr _ => mret true
  | inl err => if IsNotExist err then mret false else go_err err
  end.

Definition GetFileForContents (cache : ContentCache) (key : Key) : M string :=
  found ← HasKey cache key;
  if (found : bool) then go_lift (pathForKey cache key)
  else go_err (ENew ("attempted to get non-existent key " +:+ key)).

(** The size of [buf]. *)
Definition copy_buffer : nat := Z.to_nat (32 * 1024).

(** The loop of [copy2]; [h] is what the hash [dst2] was given.  Returns [written], [h] and
    [err]. *)
Fixpoint copy2_loop (fuel : nat) (dst1 : File) (src : tracedReader) (h : bytes) (written : Z)
    : M (Z * bytes * option error) :=
  match fuel with
  | O => go_diverge
  | S fuel =>
      r ← tr_Read src copy_buffer;
      let '(data, er) := r in
      let nr := length data in
      (* the end of an iteration, after the writes *)
      let continue (h : bytes) (written : Z) :=
        match er with
        | Some EEOF => mret (written, h, None)
        | Some er => mret (written, h, Some er)
        | None => copy2_loop fuel dst1 src h written
        end in
      if (0 <? nr)%nat then
        w ← on_os (file_Write dst1 data);
        let '(nw, ew) := w in
        let written := if (0 <? nw)%nat then int64 (written + Z.of_nat nw) else written in
        match ew with
        | Some ew => mret (written, h, Some ew)
        | None =>
            if negb (nr =? nw)%nat then mret (written, h, Some EShortWrite)
            else continue (h ++ data) written
        end
      else continue h written
  end.

Definition copy2 (dst1 : File) (src : tracedReader) (h : bytes) : M (Z * bytes * option error) :=
  copy2_loop copy_fuel dst1 src h 0.

(** From the check for the key to the end of [PutContents]. *)
Definition store_temp (cache : ContentCache) (temp : File) (key : Key) : M Key :=
  found ← go_wrap (λ err, ENew ("failed to check for existence: " +:+ error_string err))
            (HasKey cache key);
  if (found : bool) then mret key
  else
    bucket ← go_lift (bucketForKey cache key);
    r ← go_try (Mkdir LocalDomain (Join [root cache; bucket]) 493);
    _ ← match r with
        | inl err =>
            if negb (IsExist err) then
              go_err (ENew ("failed to create bucket " +:+ bucket +:+ ": " +:+ error_string err))
            else mret ()
        | inr _ => mret ()
        end;
    path ← go_lift (pathForKey cache key);
    Rename LocalDomain (f_name temp) path;;
    mret key.

(** [PutContents] after its two files are open. *)
Definition fetch (cache : ContentCache) (path : string) (input : tracedReader) (temp : File)
    : M Key :=
  r ← copy2 temp input [];
  let '(_, h, err) := r in
  match err with
  | Some err => go_err (ENew ("failed to fetch " +:+ path +:+ ": " +:+ error_string err))
  | None =>
      go_ignore (tr_Close input);;
      go_ignore (on_os (file_Close temp));;
      store_temp cache temp (digest h)
  end.

Definition PutContents (cache : ContentCache) (path : string) : M Key :=
  input ← go_wrap (λ err, ENew ("failed to open " +:+ path +:+ ": " +:+ error_string err))
            (Open RemoteDomain path);
  go_defer (tr_Close input)
    (temp ← go_wrap (λ err, ENew ("cannot create temporary file: " +:+ error_string err))
              (on_os (os_TempFile (root cache) "partial"));
     go_defer (on_os (file_Close temp))
       (go_defer (Remove LocalDomain (f_name temp))
          (fetch cache path input temp))).
End content.
