(* ===== verification/ContentProps.v ===== *)
(** The guarantees of the content cache: a file under a key always holds contents with that
    digest, stored contents never change, and a key that was returned stands for what was read
    from the remote file. *)
From S2P Require Import Prelude GoStrings GoPath Stats Types Sql Sqlite Kernel Syscalls.
From S2P Require Import WorldPost Md5 Content.
#[local] Open Scope Z_scope.

(** * Paths of the cache *)

Lemma all_hex_spec s c : all_hex s = true → has_char c s = true → is_hex_digit c = true.
Proof.
  induction s as [|d s IH]; [done|]. simpl. rewrite andb_true_iff, orb_true_iff, bool_decide_eq_true.
  intros [Hd Hs] [->|Hc]; [done|by apply IH].
Qed.

Lemma all_hex_good s : all_hex s = true → s ≠ "" → good_name s = true.
Proof.
  intros Hs Hne. apply good_name_spec. split_and!; [done|by intros ->|by intros ->|].
  apply not_true_iff_false. intros Hc. by apply (all_hex_spec s slash) in Hs.
Qed.

Lemma all_hex_substring n m s : all_hex s = true → all_hex (String.substring n m s) = true.
Proof.
  revert n m. induction s as [|c s IH]; intros n m; [by destruct n, m|].
  simpl. rewrite andb_true_iff. intros [Hc Hs]. destruct n as [|n]; [destruct m as [|m]; [done|]|].
  - simpl. by rewrite Hc, IH.
  - by apply IH.
Qed.

Lemma length_substring_0 m s :
  (m ≤ String.length s)%nat → String.length (String.substring 0 m s) = m.
Proof.
  revert s. induction m as [|m IH]; intros s Hm; [by destruct s|].
  destruct s as [|c s]; simpl in *; [lia|]. rewrite IH by lia. done.
Qed.

Lemma is_key_spec k : is_key k = true → String.length k = 32%nat ∧ all_hex k = true.
Proof. unfold is_key. rewrite andb_true_iff, Nat.eqb_eq. done. Qed.

Lemma bucket_of_key cache k :
  is_key k = true →
  bucketForKey cache k = Ret (String.substring 0 2 k) ∧
  good_name (String.substring 0 2 k) = true ∧ good_name k = true ∧
  String.length (String.substring 0 2 k) = 2%nat.
Proof.
  intros [Hlen Hhex]%is_key_spec. unfold bucketForKey. rewrite Hlen. simpl.
  assert (String.length (String.substring 0 2 k) = 2%nat) as Hl
    by (apply length_substring_0; lia).
  split_and!; [done| | |done].
  - apply all_hex_good; [by apply all_hex_substring|]. by intros E; rewrite E in Hl.
  - apply all_hex_good; [done|]. by intros ->.
Qed.

Definition partial_name (i : Z) : string := "partial" +:+ FormatUint i.

Lemma partial_good i : good_name (partial_name i) = true.
Proof.
  apply good_name_spec. split_and!; try done. unfold partial_name.
  rewrite has_char_app. simpl. by apply has_char_FormatUint.
Qed.

Lemma partial_length i : (7 ≤ String.length (partial_name i))%nat.
Proof. unfold partial_name. simpl. lia. Qed.

(** [Join] of several names. *)
Lemma Join_abs_path2 cs n1 n2 :
  Forall (λ n, good_name n = true) cs → good_name n1 = true → good_name n2 = true →
  Join [abs_path cs; n1; n2] = abs_path (cs ++ [n1; n2]).
Proof.
  intros Hcs H1 H2. rewrite <- (Clean_abs_path (cs ++ [n1; n2])) by (apply Forall_app; auto).
  unfold Join. rewrite bool_decide_eq_false_2 by done.
  change (StrJoin "/" [abs_path cs; n1; n2]) with (abs_path cs +:+ "/" +:+ n1 +:+ "/" +:+ n2).
  destruct cs as [|c cs].
  - unfold abs_path, Clean. rewrite !bool_decide_eq_false_2 by done.
    change (Split slash ("/" +:+ StrJoin "/" ([] ++ [n1; n2])))
      with ("" :: Split slash (n1 +:+ "/" +:+ n2)).
    change (Split slash (("/" +:+ StrJoin "/" []) +:+ "/" +:+ n1 +:+ "/" +:+ n2))
      with ("" :: "" :: Split slash (n1 +:+ "/" +:+ n2)).
    by rewrite !clean_comps_skip.
  - unfold abs_path.
    change ((c :: cs) ++ [n1; n2]) with ((c :: cs) ++ [n1] ++ [n2]).
    rewrite app_assoc, !StrJoin_snoc by (by destruct cs). by rewrite !string_app_assoc.
Qed.

(** * Copying *)

Section copy.
Context {OS DB : Type} `{KernelLaws OS, !Fuel}.

(** What holds at the end of an iteration in which [Read] reported [er]. *)
Definition iterated (I : nat → bytes → OS → Prop) (Q : bytes → option error → OS → Prop)
    (fuel : nat) (h : bytes) (er : option error) (s : OS) : Prop :=
  match er with
  | None => I fuel h s
  | Some EEOF => Q h None s
  | Some e => Q h (Some e) s
  end.

(** A rule for the loop: [I] holds before an iteration, [R] after its [Read] and [Q] at the end. *)
Lemma copy2_loop_rule (dst1 : File) (src : tracedReader) (I : nat → bytes → OS → Prop)
    (R : nat → bytes → bytes → option error → OS → Prop) (Q : bytes → option error → OS → Prop)
    (F : OS → Prop) :
  (∀ h s, I 0%nat h s → F s) →
  (∀ fuel h (w : World OS DB), stats_wf (w_stats w) → I (S fuel) h (w_os w) →
     os_post (λ '(data, er), R fuel h data er) (λ _ _, False) F (tr_Read src copy_buffer w)) →
  (∀ fuel h er s, R fuel h [] er s → iterated I Q fuel h er s) →
  (∀ fuel h data er (w : World OS DB), stats_wf (w_stats w) → R fuel h data er (w_os w) →
     os_post (λ '(nw, ew) s,
         if bool_decide (ew = None ∧ nw = length data) then iterated I Q fuel (h ++ data) er s
         else ∀ e, Q h (Some e) s)
       (λ _ _, False) F (on_os (file_Write dst1 data) w)) →
  ∀ fuel h n (w : World OS DB), stats_wf (w_stats w) → I fuel h (w_os w) →
    os_post (λ '(_, h', err), Q h' err) (λ _ _, False) F (copy2_loop fuel dst1 src h n w).
Proof.
  intros Hempty Hread Hskip Hwrite fuel. induction fuel as [|fuel IH]; intros h n w Hwf HI.
  { split; [done|]. by eapply Hempty. }
  cbn [copy2_loop]. eapply os_post_bind; [by apply Hread|]. intros [data er] w1 Hwf1 HR.
  assert (∀ h n (w2 : World OS DB), stats_wf (w_stats w2) → iterated I Q fuel h er (w_os w2) →
    os_post (λ '(_, h', err), Q h' err) (λ _ _, False) F
      (match er with
       | Some EEOF => mret (n, h, None)
       | Some e => mret (n, h, Some e)
       | None => copy2_loop fuel dst1 src h n
       end w2)) as Hend.
  { intros h' n' w2 Hwf2 Hi. destruct er as [e|]; [|by apply IH]. by destruct e; split. }
  destruct (0 <? length data)%nat eqn:Hnr.
  2:{ assert (data = []) as ->.
      { destruct data; [done|]. by apply Nat.ltb_ge in Hnr; simpl in Hnr; lia. }
      by apply Hend; [|apply Hskip]. }
  eapply os_post_bind; [by apply Hwrite|]. intros [nw ew] w2 Hwf2 Hw. case_bool_decide as Hok.
  - destruct Hok as [-> ->]. rewrite Nat.eqb_refl. by apply Hend.
  - destruct ew as [ew|]; [split; [done|apply Hw]|].
    destruct (length data =? nw)%nat eqn:Hnw; [|split; [done|apply Hw]].
    apply Nat.eqb_eq in Hnw. naive_solver.
Qed.

(** Copying touches the destination only.  When it ends well, the destination and the hash got
    the same bytes: all that the source's reads were still to deliver. *)
Section copying.
Context (L : gmap string node) (tmp : string) (dst1 : File) (src : tracedReader).
Context (fuel0 : nat) (h0 : bytes) (s0 : OS).
Context (Hsrc : tr_domain src ∈ allDomains).
Abbreviation to_deliver s := (os_stream s !! f_fd (tr_file src)).

(** With [fuel] iterations left, [h] has been written and is to be followed by [next]. *)
Definition copying (fuel : nat) (h next : bytes) (last : Prop) (s : OS) : Prop :=
  os_writable s !! f_fd dst1 = Some tmp ∧ os_local s = <[tmp := Regular h]> L ∧
  ∀ c, to_deliver s0 = Some c →
    ∃ d rest, c = d ++ next ++ rest ∧ h = h0 ++ d ∧ to_deliver s = Some rest ∧
      (last → rest = []) ∧ (fuel0 ≤ fuel + length d)%nat.
Definition copied (h : bytes) (err : option error) (s : OS) : Prop :=
  ∃ c', os_local s = <[tmp := Regular c']> L ∧
        (err = None → c' = h ∧ ∀ c, to_deliver s0 = Some c → h = h0 ++ c).
Definition copy_hangs (s : OS) : Prop :=
  (∀ c, to_deliver s0 = Some c → (fuel0 ≤ length c)%nat) ∧
  ∃ c', os_local s = <[tmp := Regular c']> L.

(** After the [Read] of an iteration. *)
Definition has_read (fuel : nat) (h data : bytes) (er : option error) (s : OS) : Prop :=
  (er = None → data ≠ []) ∧ copying (S fuel) h data (er = Some EEOF) s.

Lemma copy_read fuel h (w : World OS DB) :
  stats_wf (w_stats w) → copying (S fuel) h [] False (w_os w) →
  os_post (λ '(data, er), has_read fuel h data er) (λ _ _, False) copy_hangs
    (tr_Read src copy_buffer w).
Proof.
  intros Hwf (Hwr & HL & Hc). eapply os_post_weaken; [by apply tr_Read_post| |done|done].
  intros [data er] s (Hl & Hw & _ & Hprog & Hstr). split.
  { intros E. by destruct (Hprog E). }
  split_and!; [congruence|congruence|]. intros c Hc0.
  destruct (Hc c Hc0) as (d & rest & -> & -> & Hrest & _ & Hf).
  destruct (Hstr rest Hrest) as (rest' & -> & Hs & Hend). exists d, rest'.
  rewrite Hs, lookup_insert_eq. by split_and!.
Qed.

(** The bytes that were read have been written. *)
Lemma copy_written fuel h data er (s s' : OS) :
  has_read fuel h data er s → os_writable s' = os_writable s → to_deliver s' = to_deliver s →
  os_local s' = <[tmp := Regular (h ++ data)]> L →
  iterated (λ fuel h, copying fuel h [] False) copied fuel (h ++ data) er s'.
Proof.
  intros (Hne & Hwr & HL & Hc) Hw Hs HL'. unfold iterated. destruct er as [e|].
  - assert (∀ err, (err = None → e = EEOF) → copied (h ++ data) err s') as Hend.
    { intros err Herr. exists (h ++ data). split; [done|]. intros E. split; [done|].
      intros c Hc0. destruct (Hc c Hc0) as (d & rest & -> & -> & _ & Hlast & _).
      rewrite Hlast, app_nil_r, <- app_assoc by (by rewrite (Herr E)). done. }
    by destruct e; apply Hend.
  - split_and!; [congruence|done|]. intros c Hc0.
    destruct (Hc c Hc0) as (d & rest & -> & -> & Hr & _ & Hf). exists (d ++ data), rest.
    rewrite <- !app_assoc, Hs. split_and!; [done..|]. rewrite length_app.
    specialize (Hne eq_refl). destruct data; [done|]. simpl. lia.
Qed.

Lemma copy_write fuel h data er (w : World OS DB) :
  stats_wf (w_stats w) → has_read fuel h data er (w_os w) →
  os_post (λ '(nw, ew) s,
      if bool_decide (ew = None ∧ nw = length data)
      then iterated (λ fuel h, copying fuel h [] False) copied fuel (h ++ data) er s
      else ∀ e, copied h (Some e) s)
    (λ _ _, False) copy_hangs (on_os (file_Write dst1 data) w).
Proof.
  intros Hwf HR. pose proof HR as (_ & Hwr & HL & _). apply os_post_os; [done|].
  pose proof (Write_spec dst1 data (w_os w)) as Hs.
  destruct (file_Write dst1 data (w_os w)) as [o s'].
  destruct Hs as (Hs1 & Hs2 & nw & ew & -> & Hle & Hne & Hl). simpl.
  specialize (Hl tmp h Hwr). rewrite HL, lookup_insert_eq, insert_insert_eq in Hl.
  specialize (Hl eq_refl). case_bool_decide as Hok.
  - destruct Hok as [-> ->]. rewrite take_ge in Hl by done.
    eapply copy_written; [exact HR|done|by rewrite Hs1|done].
  - intros e. by exists (h ++ take nw data).
Qed.

Lemma copy2_loop_post n (w : World OS DB) :
  stats_wf (w_stats w) → w_os w = s0 → os_writable s0 !! f_fd dst1 = Some tmp →
  os_local s0 = <[tmp := Regular h0]> L →
  os_post (λ '(_, h', err), copied h' err) (λ _ _, False) copy_hangs
    (copy2_loop fuel0 dst1 src h0 n w).
Proof.
  intros Hwf Hw Hwr HL. apply (copy2_loop_rule _ _ (λ fuel h, copying fuel h [] False) has_read).
  - intros h s (_ & Hl & Hc). split; [|by exists h]. intros c Hc0.
    destruct (Hc c Hc0) as (d & rest & -> & _ & _ & _ & Hf). rewrite length_app. simpl in Hf. lia.
  - intros fuel h w' Hwf'. by apply copy_read.
  - intros fuel h er s HR. rewrite <- (app_nil_r h). eapply copy_written; [exact HR|done|done|].
    rewrite app_nil_r. apply HR.
  - intros fuel h data er w' Hwf'. by apply copy_write.
  - done.
  - rewrite Hw. split_and!; [done|done|]. intros c Hc. exists [], c.
    rewrite app_nil_r. split_and!; try done. simpl. lia.
Qed.
End copying.
End copy.

(** * The cache directory *)

Section cache.
Context {OS DB : Type} `{KernelLaws OS, !Fuel}.
(** The cache lives in a directory of its own. *)
Context (rs : list string) (Hrs : Forall (λ n, good_name n = true) rs).
Context (Hlocal : ∀ cs, cs ≠ [] → Forall (λ n, good_name n = true) cs →
                        is_local (abs_path (rs ++ cs)) = true).

Definition the_cache : ContentCache := NewContentCache (abs_path rs).
Definition bucket_path (k : string) : string := abs_path (rs ++ [String.substring 0 2 k]).
Definition key_path (k : string) : string := abs_path (rs ++ [String.substring 0 2 k; k]).
Definition temp_path (i : Z) : string := abs_path (rs ++ [partial_name i]).

Lemma pathForKey_key k : is_key k = true → pathForKey the_cache k = Ret (key_path k).
Proof.
  intros Hk. destruct (bucket_of_key the_cache k Hk) as (Hb & Hg1 & Hg2 & _).
  unfold pathForKey. rewrite Hb. unfold mbind, outcome_mbind, mret, outcome_mret.
  change (root the_cache) with (abs_path rs). by rewrite Join_abs_path2.
Qed.

Lemma bucket_join k :
  is_key k = true → Join [abs_path rs; String.substring 0 2 k] = bucket_path k.
Proof.
  intros Hk. destruct (bucket_of_key the_cache k Hk) as (_ & Hg & _). by apply Join_abs_path.
Qed.

Lemma temp_join i : Join [abs_path rs; "partial" +:+ FormatUint i] = temp_path i.
Proof. exact (Join_abs_path rs (partial_name i) Hrs (partial_good i)). Qed.

Lemma local_key k : is_key k = true → is_local (key_path k) = true.
Proof.
  intros (_ & Hg1 & Hg2 & _)%(bucket_of_key the_cache). apply Hlocal; [done|]. by repeat constructor.
Qed.
Lemma local_bucket k : is_key k = true → is_local (bucket_path k) = true.
Proof. intros (_ & Hg1 & _)%(bucket_of_key the_cache). apply Hlocal; [done|]. by repeat constructor. Qed.
Lemma local_temp i : is_local (temp_path i) = true.
Proof. apply Hlocal; [done|]. constructor; [apply partial_good|constructor]. Qed.

(** The three kinds of paths are distinct, and keys have distinct paths. *)
Lemma good_root cs :
  Forall (λ n, good_name n = true) cs → Forall (λ n, good_name n = true) (rs ++ cs).
Proof. intros Hcs. apply Forall_app. done. Qed.

Lemma root_path_inj cs1 cs2 :
  Forall (λ n, good_name n = true) cs1 → Forall (λ n, good_name n = true) cs2 →
  abs_path (rs ++ cs1) = abs_path (rs ++ cs2) → cs1 = cs2.
Proof. intros Hc1 Hc2 Heq%abs_path_inj; [|by apply good_root..]. by apply app_inv_head in Heq. Qed.

Lemma key_path_inj k1 k2 :
  is_key k1 = true → is_key k2 = true → key_path k1 = key_path k2 → k1 = k2.
Proof.
  intros (_ & ? & ? & _)%(bucket_of_key the_cache) (_ & ? & ? & _)%(bucket_of_key the_cache) Heq.
  apply root_path_inj in Heq; [by simplify_eq|by repeat constructor..].
Qed.
Lemma key_bucket_ne k1 k2 :
  is_key k1 = true → is_key k2 = true → key_path k1 ≠ bucket_path k2.
Proof.
  intros (_ & ? & ? & _)%(bucket_of_key the_cache) (_ & ? & ? & _)%(bucket_of_key the_cache) Heq.
  by apply root_path_inj in Heq; [|by repeat constructor..].
Qed.
Lemma key_temp_ne k i : is_key k = true → key_path k ≠ temp_path i.
Proof.
  intros (_ & ? & ? & _)%(bucket_of_key the_cache) Heq.
  apply root_path_inj in Heq; [done|by repeat constructor|].
  constructor; [apply partial_good|constructor].
Qed.
Lemma bucket_temp_ne k i : is_key k = true → bucket_path k ≠ temp_path i.
Proof.
  intros (_ & ? & ? & Hlen)%(bucket_of_key the_cache) Heq.
  apply root_path_inj in Heq; [|by repeat constructor|constructor; [apply partial_good|constructor]].
  injection Heq as Heq. rewrite Heq in Hlen. pose proof (partial_length i). lia.
Qed.

Lemma HasKey_post k (w : World OS DB) :
  is_key k = true → stats_wf (w_stats w) →
  os_post (λ b s, os_local s = os_local (w_os w) ∧
                  if (b : bool) then is_Some (os_local (w_os w) !! key_path k)
                  else os_local (w_os w) !! key_path k = None)
    (λ _ s, os_local s = os_local (w_os w)) (λ _, False) (HasKey the_cache k w).
Proof.
  intros Hk Hwf. unfold HasKey. rewrite pathForKey_key by done.
  eapply os_post_bind with (P := λ p s, p = key_path k ∧ s = w_os w); [by split|].
  intros p w' Hwf' [-> Hw']. eapply os_post_bind.
  { eapply os_post_try. apply Lstat_post; [done|by left|by apply local_key]. }
  intros [e|fi] w2 Hwf2; simpl.
  - intros [Hl He]. destruct (IsNotExist e); (split; [done|]); simpl; rewrite Hl, Hw'; [|done].
    split; [done|]. rewrite <- Hw', <- Hl. by apply He.
  - intros [Hl Hs]. split; [done|]. simpl. rewrite Hl, Hw'. split; [done|]. by rewrite <- Hw', <- Hl.
Qed.

(** The answer is that of the [Lstat] of the key's path. *)
Lemma HasKey_answer k (w : World OS DB) :
  is_key k = true → stats_wf (w_stats w) →
  match (HasKey the_cache k w).1 with
  | Err e => IsNotExist e = false ∧ (os_Lstat (key_path k) (w_os w)).1 = Err e
  | _ => True
  end.
Proof.
  intros Hk Hwf. unfold HasKey. rewrite pathForKey_key by done.
  destruct (account_bumped {| ev_counter := COs LocalDomain LstatOsOp; ev_amount := 0 |} _ Hwf)
    as (st & Hst & _); [split; [by left|right; by left]|]. unfold account in Hst. simpl in Hst.
  unfold Lstat, mbind, go_mbind, go_bind, go_try, go_lift, on_stats, on_os, go_zoom.
  rewrite Hst. simpl. destruct (os_Lstat _ _) as [[fi|e| | |] s']; simpl; try done.
  by destruct (IsNotExist e) eqn:He.
Qed.

(** ** What a call can do to the directory *)

(** The bucket of [k] is created when it is missing. *)
Definition with_bucket (k : string) (L L' : gmap string node) : Prop :=
  L' = L ∨ (L !! bucket_path k = None ∧ L' = <[bucket_path k := Other]> L).

(** A temporary file may be left behind when it cannot be removed. *)
Definition maybe_temp (L L' : gmap string node) : Prop :=
  L' = L ∨ ∃ i c, L !! temp_path i = None ∧ L' = <[temp_path i := Regular c]> L.

(** The contents [h] are under their key: they were already, or they are added. *)
Definition has_stored (h : bytes) (L L' : gmap string node) : Prop :=
  (L' = L ∧ is_Some (L !! key_path (digest h))) ∨
  (L !! key_path (digest h) = None ∧
   ∃ L1, with_bucket (digest h) L L1 ∧ L' = <[key_path (digest h) := Regular h]> L1).

Lemma with_bucket_other k L L' q :
  with_bucket k L L' → q ≠ bucket_path k → L' !! q = L !! q.
Proof. intros [->|[_ ->]] Hq; [done|]. by rewrite lookup_insert_ne. Qed.

Lemma with_bucket_temp h L L' i :
  with_bucket (digest h) L L' → L !! temp_path i = None → L' !! temp_path i = None.
Proof.
  intros Hb Ht. rewrite (with_bucket_other _ _ _ _ Hb); [done|].
  apply not_eq_sym, bucket_temp_ne, digest_is_key.
Qed.

(** The temporary file is where it was, the bucket may have been made. *)
Definition temp_in (L : gmap string node) (i : Z) (h : bytes) (s : OS) : Prop :=
  ∃ L1, with_bucket (digest h) L L1 ∧ os_local s = <[temp_path i := Regular h]> L1.

Lemma make_bucket_post L i h (w : World OS DB) :
  stats_wf (w_stats w) → os_local (w_os w) = <[temp_path i := Regular h]> L →
  os_post (λ _, temp_in L i h) (λ _ _, False) (λ _, False)
    (go_try (Mkdir LocalDomain (bucket_path (digest h)) 493) w).
Proof.
  intros Hwf HL. pose proof (digest_is_key h) as Hk.
  eapply os_post_weaken; [eapply (os_post_try _ _ (λ _ _, False)), os_post_counted with
    (Q := λ _, temp_in L i h) (E := λ _, temp_in L i h) (F := λ _, False);
    [done|by left|do 2 right; by left|]|by intros [?|?]|done|done].
  pose proof (Mkdir_spec (bucket_path (digest h)) 493 (w_os w)) as Hs.
  destruct (os_Mkdir _ _ (w_os w)) as [[u|e| | |] s']; destruct Hs as (Ha & _ & _ & Hs);
    try done; specialize (Hs (local_bucket _ Hk)); rewrite HL in Hs; simpl.
  - destruct Hs as [Hn Hs]. rewrite lookup_insert_ne in Hn by (by apply not_eq_sym, bucket_temp_ne).
    exists (<[bucket_path (digest h) := Other]> L). split; [by right|].
    rewrite Hs. apply insert_insert_ne. by apply bucket_temp_ne.
  - exists L. split; [by left|done].
Qed.

Lemma rename_temp_post L L1 i h (w : World OS DB) :
  stats_wf (w_stats w) → L !! temp_path i = None → with_bucket (digest h) L L1 →
  os_local (w_os w) = <[temp_path i := Regular h]> L1 →
  os_post (λ _ s, os_local s = <[key_path (digest h) := Regular h]> L1) (λ _, temp_in L i h)
    (λ _, False) (Rename LocalDomain (temp_path i) (key_path (digest h)) w).
Proof.
  intros Hwf Hti HL1 HL. apply os_post_counted; [done|by left|do 8 right; by left|].
  pose proof (Rename_spec (temp_path i) (key_path (digest h)) (w_os w)) as Hs.
  destruct (os_Rename _ _ (w_os w)) as [[u|e| | |] s']; destruct Hs as (Ha & Hs);
    try done; specialize (Hs (local_temp i) (local_key _ (digest_is_key h))); rewrite HL in Hs; simpl.
  - destruct Hs as (n & Hn & ->). rewrite lookup_insert_eq in Hn. simplify_eq.
    rewrite delete_insert_id; [done|]. by eapply with_bucket_temp.
  - by exists L1.
Qed.

Lemma store_temp_post L i h temp (w : World OS DB) :
  stats_wf (w_stats w) → f_name temp = temp_path i → L !! temp_path i = None →
  os_local (w_os w) = <[temp_path i := Regular h]> L →
  os_post (λ k s, k = digest h ∧
      ((os_local s = <[temp_path i := Regular h]> L ∧ is_Some (L !! key_path k)) ∨
       (L !! key_path k = None ∧
        ∃ L1, with_bucket k L L1 ∧ os_local s = <[key_path k := Regular h]> L1)))
    (λ _, temp_in L i h) (λ _, False) (store_temp the_cache temp (digest h) w).
Proof.
  intros Hwf Hname Hti HL. pose proof (digest_is_key h) as Hk.
  assert (<[temp_path i := Regular h]> L !! key_path (digest h) = L !! key_path (digest h)) as Hlk.
  { apply lookup_insert_ne, not_eq_sym, key_temp_ne, Hk. }
  unfold store_temp. eapply os_post_bind.
  { apply os_post_wrap. eapply os_post_weaken; [by apply HasKey_post|..|done].
    - instantiate (1 := λ b s, os_local s = <[temp_path i := Regular h]> L ∧
        if (b : bool) then is_Some (L !! key_path (digest h)) else L !! key_path (digest h) = None).
      intros b s Hp. rewrite HL, Hlk in Hp. exact Hp.
    - intros e s Hl. exists L. split; [by left|congruence]. }
  intros [|] w1 Hwf1 [Hl1 Hkey]; [split; [done|]; simpl; by auto|].
  destruct (bucket_of_key the_cache _ Hk) as (Hb & _ & _ & _). rewrite Hb.
  eapply os_post_bind with (P := λ b s, b = String.substring 0 2 (digest h) ∧ s = w_os w1);
    [by split|]. intros b w2 Hwf2 [-> Hw2]. rewrite <- Hw2 in Hl1.
  change (root the_cache) with (abs_path rs). rewrite bucket_join by done.
  eapply os_post_bind; [eapply os_post_weaken; [by eapply make_bucket_post|done..]|].
  intros r w3 Hwf3 (L1 & HL1 & Hl3).
  eapply os_post_bind with (P := λ _ s, os_local s = <[temp_path i := Regular h]> L1).
  { destruct r as [e|[]]; [destruct (negb _)|]; (split; [done|]); simpl; [by exists L1|done..]. }
  intros [] w4 Hwf4 Hl4.
  rewrite pathForKey_key by done.
  eapply os_post_bind with (P := λ p s, p = key_path (digest h) ∧ s = w_os w4); [by split|].
  intros p w5 Hwf5 [-> Hw5]. rewrite <- Hw5 in Hl4. rewrite Hname.
  eapply os_post_bind; [by eapply rename_temp_post|].
  intros u w6 Hwf6 Hl6. split; [done|]. simpl. split; [done|]. right. eauto.
Qed.

(** Closing changes nothing in the directory. *)
Lemma close_post f (P F : OS → Prop) (w : World OS DB) :
  stats_wf (w_stats w) → (∀ s s', P s → os_local s' = os_local s → P s') → P (w_os w) →
  os_post (λ _, P) (λ _, P) F (on_os (file_Close f) w).
Proof.
  intros Hwf HP Hw. apply os_post_os; [done|]. pose proof (Close_spec f (w_os w)) as Hs.
  destruct (file_Close f (w_os w)) as [[] s']; destruct Hs as [Ha Hl]; simpl; try done; by eapply HP.
Qed.

Lemma tr_Close_post tr (P F : OS → Prop) (w : World OS DB) :
  stats_wf (w_stats w) → tr_domain tr ∈ allDomains →
  (∀ s s', P s → os_local s' = os_local s → P s') → P (w_os w) →
  os_post (λ _, P) (λ _, P) F (tr_Close tr w).
Proof.
  intros Hwf Hd HP Hw. apply os_post_counted; [done|done|by left|].
  pose proof (Close_spec (tr_file tr) (w_os w)) as Hs.
  destruct (file_Close _ (w_os w)) as [[] s']; destruct Hs as [Ha Hl]; simpl; try done; by eapply HP.
Qed.

(** What has been done when the temporary file is about to be removed. *)
Definition fetched (L : gmap string node) (i : Z) (h : bytes) (k : string) (s : OS) : Prop :=
  k = digest h ∧
  ((os_local s = <[temp_path i := Regular h]> L ∧ is_Some (L !! key_path k)) ∨
   (L !! key_path k = None ∧
    ∃ L1, with_bucket k L L1 ∧ os_local s = <[key_path k := Regular h]> L1)).
Definition not_fetched (L : gmap string node) (i : Z) (s : OS) : Prop :=
  ∃ k c L1, is_key k = true ∧ with_bucket k L L1 ∧ os_local s = <[temp_path i := Regular c]> L1.

Lemma fetch_post L i path input temp (w : World OS DB) :
  stats_wf (w_stats w) → tr_domain input ∈ allDomains →
  os_writable (w_os w) !! f_fd temp = Some (temp_path i) → f_name temp = temp_path i →
  L !! temp_path i = None → os_local (w_os w) = <[temp_path i := Regular []]> L →
  os_post (λ k s, ∃ h, (∀ c, os_stream (w_os w) !! f_fd (tr_file input) = Some c → h = c) ∧
                       fetched L i h k s)
    (λ _, not_fetched L i)
    (λ s, (∀ c, os_stream (w_os w) !! f_fd (tr_file input) = Some c → (copy_fuel ≤ length c)%nat) ∧
          not_fetched L i s) (fetch the_cache path input temp w).
Proof.
  intros Hwf Hd Hwr Hname Hti HL. unfold fetch.
  assert (∀ c s, os_local s = <[temp_path i := Regular c]> L → not_fetched L i s) as Hnot.
  { intros c s Hl. exists (digest []), c, L. split_and!; [apply digest_is_key|by left|done]. }
  eapply os_post_bind.
  { eapply os_post_weaken; [by apply copy2_loop_post|done|done|].
    intros s [Hf [c' Hl]]. split; [done|]. by eapply Hnot. }
  intros [[n h] err] w1 Hwf1 (c' & Hl1 & Herr).
  destruct err as [err|]; [split; [done|]; by eapply Hnot|].
  destruct (Herr eq_refl) as [-> Hstr]. clear Herr.
  eapply os_post_bind.
  { apply os_post_ignore, (tr_Close_post _ (λ s, os_local s = <[temp_path i := Regular h]> L));
      [done|done|by intros ?? <- ?|done]. }
  intros [] w2 Hwf2 Hl2. eapply os_post_bind.
  { apply os_post_ignore, (close_post _ (λ s, os_local s = <[temp_path i := Regular h]> L));
      [done|by intros ?? <- ?|done]. }
  intros [] w3 Hwf3 Hl3.
  eapply os_post_weaken; [by eapply store_temp_post|..]; [| |done].
  - intros k s Hk. exists h. split; [|done]. intros c Hc. by apply Hstr in Hc.
  - intros e s (L1 & Hb & Hl). exists (digest h), h, L1. split_and!; [apply digest_is_key|done|done].
Qed.

(** Removing the temporary file. *)
Definition put_done (L : gmap string node) (h : bytes) (k : string) (L' : gmap string node) : Prop :=
  k = digest h ∧ ∃ L1, has_stored h L L1 ∧ maybe_temp L1 L'.
Definition put_failed (L L' : gmap string node) : Prop :=
  ∃ k L1, is_key k = true ∧ with_bucket k L L1 ∧ maybe_temp L1 L'.

Lemma put_failed_refl L : put_failed L L.
Proof. exists (digest []), L. split_and!; [apply digest_is_key|by left|by left]. Qed.

Lemma Remove_post p (Q F : OS → Prop) (w : World OS DB) :
  stats_wf (w_stats w) → is_local p = true →
  (∀ s, os_local s = os_local (w_os w) ∨ os_local s = delete p (os_local (w_os w)) → Q s) →
  os_post (λ _, Q) (λ _, Q) F (Remove LocalDomain p w).
Proof.
  intros Hwf Hp HQ. apply os_post_counted; [done|by left|do 7 right; by left|].
  pose proof (Remove_spec p (w_os w)) as Hs.
  destruct (os_Remove p (w_os w)) as [[] s']; destruct Hs as (Ha & Hs & _); try done;
    specialize (Hs Hp); simpl; apply HQ; auto.
Qed.

Lemma remove_temp L L1 i c s :
  L1 !! temp_path i = None → L = <[temp_path i := Regular c]> L1 →
  os_local s = L ∨ os_local s = delete (temp_path i) L → maybe_temp L1 (os_local s).
Proof.
  intros Hn -> [->| ->]; [right; eauto|left]. by rewrite delete_insert_id.
Qed.

Lemma remove_fetched L i h k w s :
  L !! temp_path i = None → fetched L i h k w →
  os_local s = os_local w ∨ os_local s = delete (temp_path i) (os_local w) → put_done L h k (os_local s).
Proof.
  intros Hti [-> [[Hl Hk]|(Hk & L1 & Hb & Hl)]] Hs; rewrite Hl in Hs; (split; [done|]).
  - exists L. split; [by left|].
    by apply (remove_temp (<[temp_path i := Regular h]> L) L i h).
  - exists (<[key_path (digest h) := Regular h]> L1). split; [right; eauto|]. left.
    destruct Hs as [->| ->]; [done|]. rewrite delete_id; [done|].
    rewrite lookup_insert_ne by (apply key_temp_ne, digest_is_key). by eapply with_bucket_temp.
Qed.

Lemma remove_not_fetched L i w s :
  L !! temp_path i = None → not_fetched L i w →
  os_local s = os_local w ∨ os_local s = delete (temp_path i) (os_local w) → put_failed L (os_local s).
Proof.
  intros Hti (k & c & L1 & Hk & Hb & Hl) Hs. exists k, L1. split_and!; [done|done|].
  rewrite Hl in Hs. eapply remove_temp; [|reflexivity|exact Hs].
  rewrite (with_bucket_other _ _ _ _ Hb); [done|].
  by apply not_eq_sym, bucket_temp_ne.
Qed.

(** The contents behind the descriptor that opening [path] gives. *)
Definition opens_with (path : string) (s : OS) (c : bytes) : Prop :=
  ∃ f s1, os_Open path s = (Ret f, s1) ∧ os_stream s1 !! f_fd f = Some c.

Lemma Open_post d path (w : World OS DB) :
  stats_wf (w_stats w) → d ∈ allDomains →
  os_post (λ tr s, tr_domain tr = d ∧ os_local s = os_local (w_os w) ∧
             os_Open path (w_os w) = (Ret (tr_file tr), s))
    (λ _ s, os_local s = os_local (w_os w)) (λ _, False) (Open d path w).
Proof.
  intros Hwf Hd. unfold Open.
  apply (os_post_account _ _ _ {| ev_counter := COs d OpenOsOp; ev_amount := 0 |});
    [done|split; [done|do 3 right; by left]|].
  intros w1 Hwf1 Hw1 _. pose proof (Open_spec path (w_os w1)) as Hs.
  eapply os_post_bind with (P := λ f s, os_local s = os_local (w_os w) ∧
    os_Open path (w_os w) = (Ret f, s)); [|by intros f w2 Hwf2 [Hl Ho]].
  apply os_post_os; [done|]. rewrite <- Hw1.
  destruct (os_Open path (w_os w1)) as [[f|e| | |] s']; destruct Hs as (Ha & Hl & _); done.
Qed.

(** The temporary file is new and empty, and the input's reads are not disturbed. *)
Definition temp_open (L : gmap string node) (s0 : OS) (temp : File) (i : Z) (s : OS) : Prop :=
  f_name temp = temp_path i ∧ L !! temp_path i = None ∧
  os_local s = <[temp_path i := Regular []]> L ∧
  os_writable s !! f_fd temp = Some (temp_path i) ∧
  ∀ fd c, os_stream s0 !! fd = Some c → os_stream s !! fd = Some c.

Lemma TempFile_post L F (w : World OS DB) :
  stats_wf (w_stats w) → os_local (w_os w) = L →
  os_post (λ temp s, ∃ i, temp_open L (w_os w) temp i s) (λ _ s, os_local s = L) F
    (on_os (os_TempFile (root the_cache) "partial") w).
Proof.
  intros Hwf HL. apply os_post_os; [done|].
  pose proof (TempFile_spec (root the_cache) "partial" (w_os w)) as Hs.
  destruct (os_TempFile _ _ (w_os w)) as [[f|e| | |] s']; destruct Hs as (Ha & Hstr & Hs);
    try done; simpl; [|congruence].
  destruct Hs as ((i & Hi & Hname) & Hwr & Hl).
  rewrite (temp_join i : Join [root the_cache; "partial" +:+ FormatUint i] = _) in Hname.
  rewrite Hname in Hl, Hwr. destruct (Hl (local_temp i)) as [Hn Hl']. rewrite HL in Hn, Hl'.
  exists i. split; [done|]. split_and!; [done..| |done]. rewrite Hwr. apply lookup_insert_eq.
Qed.

(** A deferred call that leaves the directory alone keeps what was established about it. *)
Lemma os_post_defer_local {A} (Q : A → gmap string node → Prop) (E F : gmap string node → Prop)
    (d : GoM (World OS DB) ()) (m : GoM (World OS DB) A) w :
  (∀ (P F : OS → Prop) w', stats_wf (w_stats w') →
     (∀ s s', P s → os_local s' = os_local s → P s') → P (w_os w') →
     os_post (λ _, P) (λ _, P) F (d w')) →
  os_post (λ a s, Q a (os_local s)) (λ _ s, E (os_local s)) (λ s, F (os_local s)) (m w) →
  os_post (λ a s, Q a (os_local s)) (λ _ s, E (os_local s)) (λ s, F (os_local s))
    (go_defer d m w).
Proof.
  intros Hd Hm. eapply os_post_defer; [exact Hm|..|done]; intros;
    (apply Hd; [done| |done]); by intros s s' HQ ->.
Qed.

Lemma PutContents_post path (w : World OS DB) :
  stats_wf (w_stats w) →
  os_post (λ k s, ∃ h, (∀ c, opens_with path (w_os w) c → h = c) ∧
                       put_done (os_local (w_os w)) h k (os_local s))
    (λ _ s, put_failed (os_local (w_os w)) (os_local s))
    (λ s, (∀ c, opens_with path (w_os w) c → (copy_fuel ≤ length c)%nat) ∧
          put_failed (os_local (w_os w)) (os_local s))
    (PutContents the_cache path w).
Proof.
  intros Hwf. set (L := os_local (w_os w)).
  unfold PutContents. eapply os_post_bind.
  { apply os_post_wrap. eapply os_post_weaken; [apply (Open_post RemoteDomain); [done|right; by left]| | |];
      [by intros tr s ?| |done].
    intros e s ->. apply put_failed_refl. }
  intros input w1 Hwf1 (Hd & HL & Hopen).
  assert (tr_domain input ∈ allDomains) as Hdom by (rewrite Hd; right; by left).
  apply (os_post_defer_local (λ k L', ∃ h, (∀ c, opens_with path (w_os w) c → h = c) ∧
           put_done L h k L') (put_failed L)
           (λ L', (∀ c, opens_with path (w_os w) c → (copy_fuel ≤ length c)%nat) ∧
                  put_failed L L')).
  { intros P F w' Hwf' HP Hw'. by apply tr_Close_post. }
  eapply os_post_bind.
  { apply os_post_wrap. eapply os_post_weaken; [by apply (TempFile_post L (λ _, False))|done| |done].
    intros e s ->. apply put_failed_refl. }
  intros temp w2 Hwf2 (i & Hname & Hti & Hl2 & Hwr & Hstr).
  apply (os_post_defer_local (λ k L', ∃ h, (∀ c, opens_with path (w_os w) c → h = c) ∧
           put_done L h k L') (put_failed L)
           (λ L', (∀ c, opens_with path (w_os w) c → (copy_fuel ≤ length c)%nat) ∧
                  put_failed L L')).
  { intros P F w' Hwf' HP Hw'. by apply close_post. }
  rewrite Hname. eapply os_post_defer.
  { by apply fetch_post. }
  - intros k w3 Hwf3 (h & Hh & Hf). apply Remove_post; [done|apply local_temp|].
    intros s Hs. exists h. split; [|exact (remove_fetched _ _ _ _ _ _ Hti Hf Hs)].
    intros c (f & s1 & Ho & Hc). rewrite Hopen in Ho. simplify_eq. auto.
  - intros e w3 Hwf3 Hf. apply Remove_post; [done|apply local_temp|]. intros s Hs.
    exact (remove_not_fetched _ _ _ _ Hti Hf Hs).
  - intros s [Hc Hf]. split; [|by apply (remove_not_fetched L i s s Hti Hf); left].
    intros c (f & s1 & Ho & Hs1). rewrite Hopen in Ho. simplify_eq. auto.
Qed.

Lemma GetFileForContents_post k (w : World OS DB) :
  is_key k = true → stats_wf (w_stats w) →
  os_post (λ p s, p = key_path k ∧ os_local s = os_local (w_os w) ∧
                  is_Some (os_local (w_os w) !! key_path k))
    (λ _ s, os_local s = os_local (w_os w)) (λ _, False) (GetFileForContents the_cache k w).
Proof.
  intros Hk Hwf. unfold GetFileForContents. eapply os_post_bind; [by apply HasKey_post|].
  intros [|] w1 Hwf1 [Hl Hs]; [|by split]. rewrite pathForKey_key by done. by split.
Qed.

(** ** Consequences *)

(** A file under a key holds contents with that digest. *)
Definition content_inv (L : gmap string node) : Prop :=
  ∀ k n, is_key k = true → L !! key_path k = Some n → ∃ c, n = Regular c ∧ digest c = k.

(** What may be added to the directory: a bucket, a file under its own digest, a temporary
    file. *)
Definition addition (q : string) (n : node) : Prop :=
  (∃ k, is_key k = true ∧ q = bucket_path k ∧ n = Other) ∨
  (∃ c, q = key_path (digest c) ∧ n = Regular c) ∨
  (∃ i c, q = temp_path i ∧ n = Regular c).

(** Nothing is modified or removed, and only that is added. *)
Definition content_extends (L L' : gmap string node) : Prop :=
  L ⊆ L' ∧ ∀ q n, L' !! q = Some n → L !! q = Some n ∨ addition q n.

#[export] Instance content_extends_preorder : PreOrder content_extends.
Proof.
  split.
  - intros L. split; [done|]. auto.
  - intros L1 L2 L3 [H12 Ha12] [H23 Ha23]. split; [by etrans|]. intros q n Hq.
    destruct (Ha23 q n Hq) as [H2'|]; [by apply Ha12|by right].
Qed.

Lemma content_extends_insert L q n :
  L !! q = None → addition q n → content_extends L (<[q := n]> L).
Proof.
  intros Hq Ha. split; [by apply insert_subseteq|]. intros q' n'. rewrite lookup_insert.
  case_decide; [intros; simplify_eq; by right|by left].
Qed.

Lemma with_bucket_extends k L L' : is_key k = true → with_bucket k L L' → content_extends L L'.
Proof.
  intros Hk [->|[Hn ->]]; [done|]. apply content_extends_insert; [done|]. left. eauto.
Qed.

Lemma maybe_temp_extends L L' : maybe_temp L L' → content_extends L L'.
Proof.
  intros [->|(i & c & Hn & ->)]; [done|]. apply content_extends_insert; [done|].
  right. right. eauto.
Qed.

Lemma has_stored_extends h L L' : has_stored h L L' → content_extends L L'.
Proof.
  intros [[-> _]|(Hn & L1 & Hb & ->)]; [done|].
  pose proof (digest_is_key h) as Hk. etrans; [by eapply with_bucket_extends|].
  apply content_extends_insert; [|right; left; eauto].
  rewrite (with_bucket_other _ _ _ _ Hb); [done|]. by apply key_bucket_ne.
Qed.

Lemma content_extends_inv L L' : content_extends L L' → content_inv L → content_inv L'.
Proof.
  intros [_ Ha] Hinv k n Hk Hn. destruct (Ha _ _ Hn) as [Hl|[Hadd|[Hadd|Hadd]]]; [by apply Hinv| | |].
  - destruct Hadd as (k' & Hk' & Heq & _). by apply key_bucket_ne in Heq.
  - destruct Hadd as (c & Heq & ->). exists c. split; [done|]. symmetry.
    apply key_path_inj; [done|apply digest_is_key|done].
  - destruct Hadd as (i & c & Heq & _). by apply key_temp_ne in Heq.
Qed.

Lemma put_done_extends L h k L' : put_done L h k L' → content_extends L L'.
Proof.
  intros (_ & L1 & Hst & Ht). etrans; [by eapply has_stored_extends|by apply maybe_temp_extends].
Qed.

Lemma put_failed_extends L L' : put_failed L L' → content_extends L L'.
Proof.
  intros (k & L1 & Hk & Hb & Ht).
  etrans; [by eapply with_bucket_extends|by apply maybe_temp_extends].
Qed.

(** What is under the keys after a call: nothing new, or the stored contents. *)
Lemma with_bucket_key k' L L' k :
  is_key k = true → is_key k' = true → with_bucket k' L L' → L' !! key_path k = L !! key_path k.
Proof. intros Hk Hk' Hb. eapply with_bucket_other; [done|by apply key_bucket_ne]. Qed.

Lemma maybe_temp_key L L' k :
  is_key k = true → maybe_temp L L' → L' !! key_path k = L !! key_path k.
Proof.
  intros Hk [->|(i & c & _ & ->)]; [done|]. rewrite lookup_insert_ne; [done|].
  by apply not_eq_sym, key_temp_ne.
Qed.

Lemma put_failed_key L L' k : is_key k = true → put_failed L L' → L' !! key_path k = L !! key_path k.
Proof.
  intros Hk (k' & L1 & Hk' & Hb & Ht). rewrite (maybe_temp_key _ _ _ Hk Ht).
  by eapply with_bucket_key.
Qed.

Lemma put_done_key L h k' L' k n :
  is_key k = true → put_done L h k' L' → L' !! key_path k = Some n →
  L !! key_path k = Some n ∨ n = Regular h.
Proof.
  intros Hk (-> & L1 & Hst & Ht). rewrite (maybe_temp_key _ _ _ Hk Ht).
  destruct Hst as [[-> _]|(_ & L2 & Hb & ->)]; [by left|]. rewrite lookup_insert.
  case_decide as Hp; [intros [= <-]; by right|]. left.
  by rewrite <- (with_bucket_key _ _ _ _ Hk (digest_is_key h) Hb).
Qed.

Lemma PutContents_extends path (w : World OS DB) :
  stats_wf (w_stats w) →
  content_extends (os_local (w_os w)) (os_local (w_os (PutContents the_cache path w).2)).
Proof.
  intros Hwf. destruct (PutContents_post path w Hwf) as [_ Hp].
  destruct (PutContents the_cache path w) as [[k|e| | |] w']; simpl in *.
  - destruct Hp as (h & _ & Hd). by eapply put_done_extends.
  - by apply put_failed_extends.
  - done.
  - done.
  - by apply put_failed_extends, Hp.
Qed.
End cache.

(** The cache directory [rs] is one the kernel's laws speak about. *)
Record owns_root `{KernelView OS} (rs : list string) : Prop := {
  or_good : Forall (λ n, good_name n = true) rs;
  or_local : ∀ cs, cs ≠ [] → Forall (λ n, good_name n = true) cs →
                   is_local (abs_path (rs ++ cs)) = true;
}.

(** * Properties *)

(** C31 (safety).  Whatever happens during [PutContents] (errors of the kernel at any call, a
    remote file that changes or never ends), no file of the cache directory is modified or
    removed, and all that is added is a bucket directory, a file under the digest of its own
    contents, and possibly a leftover temporary file. *)
Theorem PutContents_only_adds {OS DB} `{KernelLaws OS, !Fuel} (rs : list string) (path : string)
    (w : World OS DB) :
  owns_root rs → stats_wf (w_stats w) →
  content_extends rs (os_local (w_os w))
    (os_local (w_os (PutContents (NewContentCache (abs_path rs)) path w).2)).
Proof. intros [Hg Hl] Hwf. by apply (PutContents_extends rs Hg Hl). Qed.

(** C30 (invariant).  The content cache stays content addressed: if every file under a key has
    contents with that digest, the same holds after any call of [PutContents], whatever its
    outcome. *)
Theorem content_addressed {OS DB} `{KernelLaws OS, !Fuel} (rs : list string) (path : string)
    (w : World OS DB) :
  owns_root rs → stats_wf (w_stats w) → content_inv rs (os_local (w_os w)) →
  content_inv rs (os_local (w_os (PutContents (NewContentCache (abs_path rs)) path w).2)).
Proof.
  intros [Hg Hl] Hwf. apply (content_extends_inv rs Hg).
  by apply (PutContents_extends rs Hg Hl).
Qed.

(** When [PutContents path] returns a key on a content-addressed cache, the
    key is the digest of everything the remote file delivered, and the cache now has a file under
    it with exactly those contents or others of the same digest. *)
Theorem PutContents_stores {OS DB} `{KernelLaws OS, !Fuel} (rs : list string) (path : string)
    (w w' : World OS DB) (k : string) :
  owns_root rs → stats_wf (w_stats w) → content_inv rs (os_local (w_os w)) →
  PutContents (NewContentCache (abs_path rs)) path w = (Ret k, w') →
  (∀ c, opens_with path (w_os w) c → k = digest c) ∧
  ∃ c, os_local (w_os w') !! key_path rs k = Some (Regular c) ∧ digest c = k.
Proof.
  intros [Hg Hl] Hwf Hinv E. pose proof (PutContents_post rs Hg Hl path w Hwf) as [_ Hp].
  unfold the_cache in Hp. rewrite E in Hp. simpl in Hp.
  destruct Hp as (h & Hh & Hdone). pose proof Hdone as (-> & L1 & Hst & Ht).
  split; [intros c Hc; by rewrite (Hh c Hc)|].
  assert (content_inv rs (os_local (w_os w'))) as Hinv'.
  { eapply content_extends_inv; [done| |done]. by eapply put_done_extends. }
  assert (is_Some (L1 !! key_path rs (digest h))) as [n Hn].
  { destruct Hst as [[-> Hs]|(_ & L2 & _ & ->)]; [done|]. rewrite lookup_insert_eq. by eexists. }
  apply maybe_temp_extends in Ht as [Hsub _].
  pose proof (lookup_weaken _ _ _ _ Hn Hsub) as Hn'.
  destruct (Hinv' _ _ (digest_is_key h) Hn') as (c & -> & Hc). by exists c.
Qed.

(** [PutContents] of a remote file that delivers fewer bytes than the copy
    loop has iterations comes to an end: it returns a key or an error, without a panic. *)
Theorem PutContents_ends {OS DB} `{KernelLaws OS, !Fuel} (rs : list string) (path : string)
    (c : bytes) (w : World OS DB) :
  owns_root rs → stats_wf (w_stats w) → opens_with path (w_os w) c →
  (length c < copy_fuel)%nat →
  answers (PutContents (NewContentCache (abs_path rs)) path w).1.
Proof.
  intros [Hg Hl] Hwf Hc Hlen. pose proof (PutContents_post rs Hg Hl path w Hwf) as [_ Hp].
  unfold the_cache in Hp.
  destruct (PutContents _ path w) as [[k|e| | |] w']; simpl in *; try done;
    destruct Hp as [Hf _]; specialize (Hf c Hc); lia.
Qed.

(** [GetFileForContents] of a key returns the path of the key's file only
    when that file exists; it fails with its own error exactly when the kernel says that it does
    not, and otherwise with the kernel's error; and it changes nothing in the cache directory. *)
Theorem GetFileForContents_finds {OS DB} `{KernelLaws OS, !Fuel} (rs : list string) (k : string)
    (w : World OS DB) :
  owns_root rs → stats_wf (w_stats w) → is_key k = true →
  let L := os_local (w_os w) in
  let r := GetFileForContents (NewContentCache (abs_path rs)) k w in
  os_local (w_os r.2) = L ∧
  match r.1 with
  | Ret p => p = key_path rs k ∧ is_Some (L !! p)
  | Err e => (L !! key_path rs k = None ∧ e = ENew ("attempted to get non-existent key " +:+ k)) ∨
             (IsNotExist e = false ∧ (os_Lstat (key_path rs k) (w_os w)).1 = Err e)
  | _ => False
  end.
Proof.
  intros [Hg Hl] Hwf Hk L r.
  pose proof (HasKey_post rs Hg Hl k w Hk Hwf) as [_ Hp].
  pose proof (HasKey_answer rs Hg k w Hk Hwf) as Ha. unfold the_cache in *.
  subst r. unfold GetFileForContents, mbind, go_mbind, go_bind.
  destruct (HasKey _ k w) as [[b|e| | |] w1] eqn:E; simpl in Hp, Ha; try done.
  - destruct Hp as [HL Hb]. destruct b; simpl.
    + pose proof (pathForKey_key rs Hg k Hk) as Hpath. unfold the_cache in Hpath.
      unfold go_lift. rewrite Hpath. done.
    + split; [done|]. by left.
  - split; [done|]. right. by apply Ha.
Qed.

(** * Witnesses: a cache in /cache and one remote file *)

#[local] Instance sample_copy_fuel : Fuel := {| retry_fuel := 1; copy_fuel := 8 |}.

Definition hello : bytes := String.list_ascii_of_string "hello".

Definition sample_os : MemOs :=
  {| mo_local := ∅;
     mo_remote := <["/r/f" := RFile {| Name := "f"; Size := 5; Mode := 420; ModTime := 0 |} hello]> ∅;
     mo_handles := ∅; mo_next := 3; mo_drawn := ∅; mo_faults := [] |}.

Definition sample_world : World MemOs MemDb :=
  {| w_stats := NewStats; w_os := sample_os;
     w_conn := {| c_db := {| mem_rows := []; mem_faults := [] |}; c_rt := sample_runtime |} |}.

Definition sample_put : outcome string * World MemOs MemDb :=
  PutContents (NewContentCache (abs_path ["cache"])) "/r/f" sample_world.

Lemma owns_sample_root : owns_root (OS := MemOs) ["cache"].
Proof. split; [by repeat constructor|]. intros [|c cs] Hne _; [done|]. by destruct cs, c. Qed.

Lemma sample_opens : opens_with "/r/f" (w_os sample_world) hello.
Proof. do 2 eexists. split; [reflexivity|]. reflexivity. Qed.

Lemma sample_content_inv : content_inv ["cache"] (os_local (w_os sample_world)).
Proof. intros k n _. simpl. by rewrite lookup_empty. Qed.

Lemma PutContents_only_adds_witness :
  content_extends ["cache"] ∅ (os_local (w_os sample_put.2)).
Proof. exact (PutContents_only_adds ["cache"] "/r/f" sample_world owns_sample_root NewStats_wf). Defined.

Lemma content_addressed_witness : content_inv ["cache"] (os_local (w_os sample_put.2)).
Proof.
  exact (content_addressed ["cache"] "/r/f" sample_world owns_sample_root NewStats_wf
           sample_content_inv).
Defined.

Lemma PutContents_stores_witness :
  (∀ c, opens_with "/r/f" sample_os c → "5d41402abc4b2a76b9719d911017c592" = digest c) ∧
  ∃ c, os_local (w_os sample_put.2) !! key_path ["cache"] "5d41402abc4b2a76b9719d911017c592"
       = Some (Regular c) ∧ digest c = "5d41402abc4b2a76b9719d911017c592".
Proof.
  refine (PutContents_stores ["cache"] "/r/f" sample_world sample_put.2
            "5d41402abc4b2a76b9719d911017c592" owns_sample_root NewStats_wf sample_content_inv _).
  change (sample_put = (Ret "5d41402abc4b2a76b9719d911017c592", sample_put.2)).
  assert (sample_put.1 = Ret "5d41402abc4b2a76b9719d911017c592") as E by (by vm_compute).
  rewrite (surjective_pairing sample_put) at 1. by rewrite E.
Defined.

(** Without failures nothing is left behind: the bucket and the file. *)
Example sample_put_result :
  mo_local (w_os sample_put.2)
  = <["/cache/5d" := Other]>
      (<["/cache/5d/5d41402abc4b2a76b9719d911017c592" := Regular hello]> ∅).
Proof. apply (bool_decide_unpack _). by vm_compute. Qed.

Lemma PutContents_ends_witness :
  answers (PutContents (NewContentCache (abs_path ["cache"])) "/r/f" sample_world).1.
Proof.
  apply (PutContents_ends ["cache"] "/r/f" hello sample_world owns_sample_root NewStats_wf
           sample_opens). vm_compute. lia.
Defined.

Lemma GetFileForContents_finds_witness :
  let k := "5d41402abc4b2a76b9719d911017c592" in
  let r := GetFileForContents (NewContentCache (abs_path ["cache"])) k sample_world in
  os_local (w_os r.2) = ∅ ∧
  match r.1 with
  | Ret p => p = key_path ["cache"] k ∧ is_Some ((∅ : gmap string node) !! p)
  | Err e => ((∅ : gmap string node) !! key_path ["cache"] k = None ∧
              e = ENew ("attempted to get non-existent key " +:+ k)) ∨
             (IsNotExist e = false ∧ (os_Lstat (key_path ["cache"] k) sample_os).1 = Err e)
  | _ => False
  end.
Proof.
  exact (GetFileForContents_finds ["cache"] "5d41402abc4b2a76b9719d911017c592" sample_world
           owns_sample_root NewStats_wf eq_refl).
Defined.
