(* ===== verification/Fs.v ===== *)
(** The file system: internal/fs/root.go, dir.go, file.go and symlink.go.

    A node is an immutable identity (paths, inode, direct mode) and lazily filled data.  A
    handler runs on its node and the world: [GoM (N * World OS DB)] for a node type [N].  A node's
    lock is held from the beginning to the end of each of its handlers, so that a handler is one
    step as far as its node is concerned. *)
From S2P Require Import Prelude GoStrings GoPath Stats Types DirEntries Sql Sqlite Kernel.
From S2P Require Import Syscalls Metadata Md5 Content.
#[local] Open Scope Z_scope.

(** * Nodes *)

(** [globalState]: the content cache and the regular expression of the paths to be cached, as
    the set of the paths it matches.  System calls, statistics and the metadata cache are in the
    world. *)
Record globalState : Type := {
  g_content : ContentCache;
  cachedPathRegex : string → bool;
}.

(** The values of [rows] are pointers that can be nil. *)
Record lazyDirData : Type := {
  dd_fileInfo : option FileInfo;
  didReadDir : bool;
  dirEntries : option (gmap string OneDirEntry);
  rows : gmap string (option CachedRow);
}.
Record Dir : Type := {
  dir_path : string; dir_belowPath : string; dir_inode : Z; dir_direct : bool;
  dir_data : lazyDirData;
}.

Record lazyFileData : Type := { fd_fileInfo : option FileInfo; contentHash : option Key }.
Record FileNode : Type := {
  file_path : string; file_belowPath : string; file_inode : Z; file_direct : bool;
  file_data : lazyFileData;
}.

Record lazySymlinkData : Type := { ld_fileInfo : option FileInfo; target : option string }.
Record Symlink : Type := {
  link_path : string; link_belowPath : string; link_inode : Z; link_direct : bool;
  link_data : lazySymlinkData;
}.

(** [fs.Node]. *)
Inductive Node : Type := NodeDir (d : Dir) | NodeFile (f : FileNode) | NodeSymlink (l : Symlink).

Definition newNodeForEntry (globals : globalState) (parentPath parentBelowPath : string)
    (row : option CachedRow) (name : string) : outcome Node :=
  let path := Join [parentPath; name] in
  let belowPath := Join [parentBelowPath; name] in
  let direct := negb (cachedPathRegex globals path) in
  match row with
  | None => Panic nil_deref
  | Some row =>
      if bool_decide (TypeName row = "directory") then
        Ret (NodeDir {| dir_path := path; dir_belowPath := belowPath; dir_inode := Inode row;
          dir_direct := direct;
          dir_data := {| dd_fileInfo := RowFileInfo row; didReadDir := false;
                         dirEntries := DirEntries row; rows := ∅ |} |})
      else if bool_decide (TypeName row = "file") then
        Ret (NodeFile {| file_path := path; file_belowPath := belowPath; file_inode := Inode row;
          file_direct := direct;
          file_data := {| fd_fileInfo := RowFileInfo row; contentHash := ContentHash row |} |})
      else if bool_decide (TypeName row = "noentry") then Err EFuseENOENT
      else if bool_decide (TypeName row = "symlink") then
        Ret (NodeSymlink {| link_path := path; link_belowPath := belowPath; link_inode := Inode row;
          link_direct := direct;
          link_data := {| ld_fileInfo := RowFileInfo row; target := Target row |} |})
      else Fatal "unknown entry type"
  end.

Definition newNodeForOneDirEntry (globals : globalState) (parentPath parentBelowPath : string)
    (dirEntry : OneDirEntry) (name : string) : outcome Node :=
  let path := Join [parentPath; name] in
  let belowPath := Join [parentBelowPath; name] in
  let direct := negb (cachedPathRegex globals path) in
  if EntModeType dirEntry =? ModeDir then
    Ret (NodeDir {| dir_path := path; dir_belowPath := belowPath; dir_inode := EntInode dirEntry;
      dir_direct := direct;
      dir_data := {| dd_fileInfo := None; didReadDir := false; dirEntries := None; rows := ∅ |} |})
  else if EntModeType dirEntry =? 0 then
    Ret (NodeFile {| file_path := path; file_belowPath := belowPath; file_inode := EntInode dirEntry;
      file_direct := direct; file_data := {| fd_fileInfo := None; contentHash := None |} |})
  else if EntModeType dirEntry =? ModeSymlink then
    Ret (NodeSymlink {| link_path := path; link_belowPath := belowPath;
      link_inode := EntInode dirEntry; link_direct := direct;
      link_data := {| ld_fileInfo := None; target := None |} |})
  else Fatal "unknown entry type".

(** * Handlers *)

(** [fuse.Attr], the fields the program sets. *)
Record Attr : Type := { a_Inode : Z; a_Mode : Z; a_Size : Z; a_Mtime : Z }.

Inductive DirentType : Type := DT_File | DT_Dir | DT_Link.
(** [fuse.Dirent]. *)
Record Dirent : Type := { de_Inode : Z; de_Name : string; de_Type : DirentType }.

#[export] Instance Dirent_eq_dec : EqDecision Dirent.
Proof. unfold EqDecision, Decision. repeat decide equality. Defined.

(** [*openFile]; the reader is nil after a release. *)
Record openFile : Type := { of_path : string; of_reader : option tracedReader }.

Section handlers.
Context {OS DB : Type} `{Kernel OS, SqlEngine DB, Fuel}.
Context (globals : globalState).
Abbreviation W := (World OS DB).

Definition on_world {N A} (m : GoM W A) : GoM (N * W) A := go_zoom snd (λ w s, (s.1, w)) m.
Definition on_node {N A} (m : GoM N A) : GoM (N * W) A := go_zoom fst (λ n s, (n, s.2)) m.
Definition get_node {N} : GoM (N * W) N := on_node go_get.
Definition set_node {N} (n : N) : GoM (N * W) () := on_node (go_put n).

Definition AccountHit {N} (op : FuseOp) : GoM (N * W) () :=
  on_world (on_stats (AccountCacheHit op)).
Definition AccountMiss {N} (op : FuseOp) : GoM (N * W) () :=
  on_world (on_stats (AccountCacheMiss op)).
Definition AccountDir {N} (op : FuseOp) : GoM (N * W) () :=
  on_world (on_stats (AccountDirect op)).
(** A call of the metadata cache. *)
Definition metadata {N A} (m : GoM (Conn DB) A) : GoM (N * W) A := on_world (on_conn m).

(** The pointer to the pointer to the file information is the node. *)
Definition commonAttr (inode : Z) (direct : bool) (belowPath : string)
    : GoM (option FileInfo * W) Attr :=
  fileInfo ← get_node;
  let cached := bool_decide (is_Some fileInfo) in
  (if direct then
     AccountDir AttrFuseOp;;
     r ← go_try (on_world (Lstat RemoteDomain belowPath));
     match r with
     | inl err => if cached then mret () else go_err err
     | inr rawFileInfo =>
         metadata (PutFileInfo inode rawFileInfo);;
         set_node (Some rawFileInfo)
     end
   else if negb cached then
     AccountMiss AttrFuseOp;;
     rawFileInfo ← on_world (Lstat RemoteDomain belowPath);
     metadata (PutFileInfo inode rawFileInfo);;
     set_node (Some rawFileInfo)
   else AccountHit AttrFuseOp);;
  fileInfo ← get_node;
  match fileInfo with
  | None => go_panic nil_deref
  | Some fi => mret {| a_Inode := inode; a_Mode := Mode fi; a_Size := uint64 (Size fi);
                       a_Mtime := ModTime fi |}
  end.

Definition putAndGetRow (path : string) (modeType : Z) : GoM W (option CachedRow) :=
  let direct := negb (cachedPathRegex globals path) in
  cacheRow ← on_conn (GetFullEntry path);
  let cached := bool_decide (is_Some cacheRow) in
  (if direct then on_conn (PutNewOrUpdateWithType path modeType)
   else if negb cached then _ ← on_conn (PutNewWithType path modeType); mret ()
   else mret ());;
  (* a missing row is returned as it is, with a nil error *)
  on_conn (GetFullEntry path).

(** The part of [Loop] between mounting and serving: the root node. *)
Definition rootNode (remotedir : string) : GoM W Node :=
  cacheRow ← putAndGetRow "/" ModeDir;
  go_lift (newNodeForEntry globals "/" remotedir cacheRow "/").

(** ** Directories *)

Definition set_dir_data (d : lazyDirData) (dir : Dir) : Dir :=
  {| dir_path := dir_path dir; dir_belowPath := dir_belowPath dir; dir_inode := dir_inode dir;
     dir_direct := dir_direct dir; dir_data := d |}.
Definition set_dd_fileInfo (fi : option FileInfo) (d : lazyDirData) : lazyDirData :=
  {| dd_fileInfo := fi; didReadDir := didReadDir d; dirEntries := dirEntries d; rows := rows d |}.
Definition set_dirEntries (es : gmap string OneDirEntry) (d : lazyDirData) : lazyDirData :=
  {| dd_fileInfo := dd_fileInfo d; didReadDir := didReadDir d; dirEntries := Some es;
     rows := rows d |}.
Definition set_row (name : string) (row : option CachedRow) (d : lazyDirData) : lazyDirData :=
  {| dd_fileInfo := dd_fileInfo d; didReadDir := didReadDir d; dirEntries := dirEntries d;
     rows := <[name := row]> (rows d) |}.

Definition Dir_Attr : GoM (Dir * W) Attr :=
  dir ← get_node;
  go_zoom (λ s, (dd_fileInfo (dir_data s.1), s.2))
    (λ '(fi, w) s, (set_dir_data (set_dd_fileInfo fi (dir_data s.1)) s.1, w))
    (commonAttr (dir_inode dir) (dir_direct dir) (dir_belowPath dir)).

(** The end of [Lookup]. *)
Definition remember (name : string) (cachedRow : option CachedRow) : GoM (Dir * W) Node :=
  on_node (go_modify (λ dir, set_dir_data (set_row name cachedRow (dir_data dir)) dir));;
  dir ← get_node;
  go_lift (newNodeForEntry globals (dir_path dir) (dir_belowPath dir) cachedRow name).

Definition Lookup (name : string) : GoM (Dir * W) Node :=
  dir ← get_node;
  let path := Join [dir_path dir; name] in
  let slow : GoM (Dir * W) Node :=
    cachedRow ← metadata (GetFullEntry path);
    let cached := bool_decide (is_Some cachedRow) in
    let belowPath := Join [dir_belowPath dir; name] in
    if dir_direct dir then
      AccountDir LookupFuseOp;;
      r ← go_try (on_world (Lstat RemoteDomain belowPath));
      let reload := (cachedRow ← metadata (GetFullEntry path); remember name cachedRow) in
      match r with
      | inr fileInfo =>
          metadata (PutNewOrUpdateWithType path (mode_type (Mode fileInfo)));;
          reload
      | inl err =>
          if cached then reload
          else if IsNotExist err then
            metadata (PutNewOrUpdateNoEntry path);;
            go_err EFuseENOENT
          else go_err err
      end
    else if negb cached then
      AccountMiss LookupFuseOp;;
      r ← go_try (on_world (Lstat RemoteDomain belowPath));
      match r with
      | inl err =>
          if negb (IsNotExist err) then go_err err
          else
            _ ← metadata (PutNewNoEntry path);
            go_err EFuseENOENT
      | inr fileInfo =>
          _ ← metadata (PutNewWithType path (mode_type (Mode fileInfo)));
          cachedRow ← metadata (GetFullEntry path);
          remember name cachedRow
      end
    else
      AccountHit LookupFuseOp;;
      remember name cachedRow in
  match (if negb (dir_direct dir) then rows (dir_data dir) !! name else None) with
  | Some cachedRow =>
      go_lift (newNodeForEntry globals (dir_path dir) (dir_belowPath dir) cachedRow name)
  | None => slow
  end.

Definition dirent_type (modeType : Z) : outcome DirentType :=
  if mode_type modeType =? 0 then Ret DT_File
  else if mode_type modeType =? ModeDir then Ret DT_Dir
  else if mode_type modeType =? ModeSymlink then Ret DT_Link
  else Panic "unknown type".

(** The final loop of [ReadDirAll]; Go leaves the order of a map's entries open. *)
Fixpoint make_dirents (es : list (string * OneDirEntry)) : outcome (list Dirent) :=
  match es with
  | [] => Ret []
  | (basename, dirEntry) :: es =>
      if negb (Valid dirEntry) then make_dirents es
      else
        t ← dirent_type (EntModeType dirEntry);
        des ← make_dirents es;
        Ret ({| de_Inode := EntInode dirEntry; de_Name := basename; de_Type := t |} :: des)
  end.

(** Both branches that read the directory do this with the open directory [f]. *)
Definition store_listing (dir : Dir) (f : tracedReader) : GoM (Dir * W) () :=
  belowEntries ← on_world (tr_Readdir f);
  metadata (PutDirEntries (dir_inode dir) (dir_path dir) belowEntries).

Definition load_listing (dir : Dir) : GoM (Dir * W) () :=
  entries ← metadata (GetDirEntries (dir_inode dir) ∅);
  on_node (go_modify (λ dir, set_dir_data (set_dirEntries entries (dir_data dir)) dir)).

Definition list_dirents : GoM (Dir * W) (list Dirent) :=
  dir ← get_node;
  go_lift (make_dirents (map_to_list (default ∅ (dirEntries (dir_data dir))))).

(** A deferred [f.Close()] runs when the whole function returns. *)
Definition ReadDirAll : GoM (Dir * W) (list Dirent) :=
  dir ← get_node;
  let cached := bool_decide (is_Some (dirEntries (dir_data dir))) in
  if dir_direct dir then
    AccountDir ReaddirFuseOp;;
    r ← go_try (on_world (Open RemoteDomain (dir_belowPath dir)));
    match r with
    | inr f =>
        go_defer (on_world (tr_Close f))
          (store_listing dir f;; load_listing dir;; list_dirents)
    | inl err => if cached then load_listing dir;; list_dirents else go_err err
    end
  else if negb cached then
    AccountMiss ReaddirFuseOp;;
    f ← on_world (Open RemoteDomain (dir_belowPath dir));
    go_defer (on_world (tr_Close f))
      (store_listing dir f;; load_listing dir;; list_dirents)
  else
    AccountHit ReaddirFuseOp;;
    list_dirents.

(** ** Files *)

Definition set_file_data (d : lazyFileData) (file : FileNode) : FileNode :=
  {| file_path := file_path file; file_belowPath := file_belowPath file;
     file_inode := file_inode file; file_direct := file_direct file; file_data := d |}.
Definition set_fd_fileInfo (fi : option FileInfo) (d : lazyFileData) : lazyFileData :=
  {| fd_fileInfo := fi; contentHash := contentHash d |}.
Definition set_hash (h : Key) (d : lazyFileData) : lazyFileData :=
  {| fd_fileInfo := fd_fileInfo d; contentHash := Some h |}.

Definition File_Attr : GoM (FileNode * W) Attr :=
  file ← get_node;
  go_zoom (λ s, (fd_fileInfo (file_data s.1), s.2))
    (λ '(fi, w) s, (set_file_data (set_fd_fileInfo fi (file_data s.1)) s.1, w))
    (commonAttr (file_inode file) (file_direct file) (file_belowPath file)).

Definition store_hash (file : FileNode) (key : Key) : GoM (FileNode * W) () :=
  metadata (PutContentHash (file_inode file) key);;
  on_node (go_modify (λ file, set_file_data (set_hash key (file_data file)) file)).

Definition File_Open : GoM (FileNode * W) openFile :=
  file ← get_node;
  let cached := bool_decide (is_Some (contentHash (file_data file))) in
  (if file_direct file then
     AccountDir OpenFuseOp;;
     r ← go_try (on_world (PutContents (g_content globals) (file_belowPath file)));
     match r with
     | inr key => store_hash file key
     | inl err => if cached then mret () else go_err err
     end
   else if negb cached then
     AccountMiss OpenFuseOp;;
     key ← on_world (PutContents (g_content globals) (file_belowPath file));
     store_hash file key
   else AccountHit OpenFuseOp);;
  file ← get_node;
  match contentHash (file_data file) with
  | None => go_panic nil_deref
  | Some key =>
      path ← on_world (GetFileForContents (g_content globals) key);
      input ← on_world (Open LocalDomain path);
      mret {| of_path := file_path file; of_reader := Some input |}
  end.

(** [req.Size] and [req.Offset] are arguments, [resp.Data] is the result. *)
Definition openFile_Read (size : nat) (offset : Z) : GoM (openFile * W) bytes :=
  AccountHit ReadFuseOp;;
  file ← get_node;
  match of_reader file with
  | None => go_panic nil_deref
  | Some reader =>
      r ← on_world (tr_ReadAt reader size offset);
      let '(data, err) := r in
      match err with
      | None | Some EEOF => mret data
      | Some err => go_err err
      end
  end.

Definition openFile_Release : GoM (openFile * W) () :=
  file ← get_node;
  match of_reader file with
  | None => mret ()
  | Some reader =>
      on_world (tr_Close reader);;
      set_node {| of_path := of_path file; of_reader := None |}
  end.

(** ** Symbolic links *)

Definition set_link_data (d : lazySymlinkData) (l : Symlink) : Symlink :=
  {| link_path := link_path l; link_belowPath := link_belowPath l; link_inode := link_inode l;
     link_direct := link_direct l; link_data := d |}.
Definition set_ld_fileInfo (fi : option FileInfo) (d : lazySymlinkData) : lazySymlinkData :=
  {| ld_fileInfo := fi; target := target d |}.
Definition set_ld_target (t : string) (d : lazySymlinkData) : lazySymlinkData :=
  {| ld_fileInfo := ld_fileInfo d; target := Some t |}.

Definition Symlink_Attr : GoM (Symlink * W) Attr :=
  symlink ← get_node;
  go_zoom (λ s, (ld_fileInfo (link_data s.1), s.2))
    (λ '(fi, w) s, (set_link_data (set_ld_fileInfo fi (link_data s.1)) s.1, w))
    (commonAttr (link_inode symlink) (link_direct symlink) (link_belowPath symlink)).

Definition store_target (symlink : Symlink) (t : string) : GoM (Symlink * W) () :=
  metadata (PutSymlinkTarget (link_inode symlink) t);;
  on_node (go_modify (λ l, set_link_data (set_ld_target t (link_data l)) l)).

Definition Symlink_Readlink : GoM (Symlink * W) string :=
  symlink ← get_node;
  let cached := bool_decide (is_Some (target (link_data symlink))) in
  (if link_direct symlink then
     AccountDir ReadlinkFuseOp;;
     r ← go_try (on_world (Readlink RemoteDomain (link_belowPath symlink)));
     match r with
     | inr t => store_target symlink t
     | inl err => if cached then mret () else go_err err
     end
   else if negb cached then
     AccountMiss ReadlinkFuseOp;;
     t ← on_world (Readlink RemoteDomain (link_belowPath symlink));
     store_target symlink t
   else AccountHit ReadlinkFuseOp);;
  symlink ← get_node;
  match target (link_data symlink) with
  | None => go_panic nil_deref
  | Some t => mret t
  end.
End handlers.
