(* ===== verification/FsLogic.v ===== *)
(** Reasoning about the file system's handlers.

    [settles Q E F r] says how a handler ended: with a result, an error or, when a loop of the
    metadata cache ran out of fuel, neither; never with a panic.  The predicates see the node,
    the kernel state and the rows of the database; the statistics stay well formed. *)
From S2P Require Import Prelude GoStrings GoPath Stats Types DirEntries Sql Sqlite Kernel.
From S2P Require Import Syscalls Metadata MetadataSpec WorldPost Md5 Content Fs.
#[local] Open Scope Z_scope.

Section settles.
Context {OS DB : Type} `{KernelLaws OS, SqlLaws DB, !Fuel}.
Abbreviation W := (World OS DB).

Definition db_view (w : W) : list prow := conn_rows (w_conn w).

Definition settles {N A} (Q : A → N → OS → list prow → Prop)
    (E : error → N → OS → list prow → Prop) (F : N → OS → list prow → Prop)
    (r : outcome A * (N * W)) : Prop :=
  stats_wf (w_stats r.2.2) ∧
  match r with
  | (Ret a, (n, w)) => Q a n (w_os w) (db_view w)
  | (Err e, (n, w)) => E e n (w_os w) (db_view w)
  | (OutOfFuel, (n, w)) => F n (w_os w) (db_view w)
  | _ => False
  end.

Section rules.
Context {N : Type}.
Implicit Types (n : N) (w : W).

Lemma settles_weaken {A} (Q Q' : A → N → OS → list prow → Prop) E E' F F' r :
  settles Q E F r → (∀ a n s t, Q a n s t → Q' a n s t) → (∀ e n s t, E e n s t → E' e n s t) →
  (∀ n s t, F n s t → F' n s t) → settles Q' E' F' r.
Proof.
  intros [Hwf Hr] HQ HE HF. split; [done|]. destruct r as [[a|e| | |] [n w]]; auto.
Qed.

Lemma settles_ret {A} (Q : A → N → OS → list prow → Prop) E F a n w :
  stats_wf (w_stats w) → Q a n (w_os w) (db_view w) → settles Q E F (Ret a, (n, w)).
Proof. done. Qed.

Lemma settles_err {A} (Q : A → N → OS → list prow → Prop) (E : error → N → OS → list prow → Prop)
    F e n w :
  stats_wf (w_stats w) → E e n (w_os w) (db_view w) → settles Q E F (Err e, (n, w)).
Proof. done. Qed.

Lemma settles_bind {A B} (P : A → N → OS → list prow → Prop) (Q : B → N → OS → list prow → Prop)
    E F (f : A → GoM (N * W) B) (m : GoM (N * W) A) s :
  settles P E F (m s) →
  (∀ a n w, stats_wf (w_stats w) → P a n (w_os w) (db_view w) → settles Q E F (f a (n, w))) →
  settles Q E F (go_bind f m s).
Proof.
  unfold settles, go_bind. intros [Hwf Hm] Hf.
  destruct (m s) as [[a|e| | |] [n w]]; simpl in *; [by apply Hf|done..].
Qed.

(** Reading the node. *)
Lemma settles_get {B} (Q : B → N → OS → list prow → Prop) E F (f : N → GoM (N * W) B) n w :
  settles Q E F (f n (n, w)) → settles Q E F (go_bind f get_node (n, w)).
Proof. done. Qed.

(** A pure computation. *)
Lemma settles_lift {A B} (Q : B → N → OS → list prow → Prop) E F (o : outcome A)
    (f : A → GoM (N * W) B) a s :
  o = Ret a → settles Q E F (f a s) → settles Q E F (go_bind f (go_lift o) s).
Proof. by intros ->. Qed.

(** An accounting call. *)
Lemma settles_account {A} (Q : A → N → OS → list prow → Prop) E F ev
    (f : () → GoM (N * W) A) n w :
  stats_wf (w_stats w) → valid_counter (ev_counter ev) →
  (∀ st, bumped ev (w_stats w) st → settles Q E F (f () (n, set_w_stats st w))) →
  settles Q E F (go_bind f (on_world (on_stats (account ev))) (n, w)).
Proof.
  intros Hwf Hv Hf. destruct (account_bumped ev _ Hwf Hv) as (st & Hst & Hb).
  unfold go_bind, on_world, on_stats, go_zoom. simpl. rewrite Hst. by apply Hf.
Qed.

(** A counted system call, whose error is looked at or handed on. *)
Lemma settles_counted {A} (Q : A → N → OS → list prow → Prop) E F d op (m : GoM OS A) n w :
  stats_wf (w_stats w) → d ∈ allDomains → op ∈ allOsOps → answers (m (w_os w)).1 →
  (∀ a s, m (w_os w) = (Ret a, s) → Q a n s (db_view w)) →
  (∀ e s, m (w_os w) = (Err e, s) → E e n s (db_view w)) →
  settles Q E F (on_world (on_stats (AccountOsOp d op);; on_os m) (n, w)).
Proof.
  intros Hwf Hd Hop Ha HQ HE.
  destruct (account_bumped {| ev_counter := COs d op; ev_amount := 0 |} _ Hwf (conj Hd Hop))
    as (st & Hst & Hb). unfold account in Hst. simpl in Hst.
  apply bumped_wf in Hb; [|done].
  unfold on_world, mbind, go_mbind, go_bind, on_stats, on_os, go_zoom. simpl. rewrite Hst. simpl.
  destruct (m (w_os w)) as [[a|e| | |] s]; simpl in *; try done; (split; [done|]); auto.
Qed.

Lemma settles_try {A} (Q : A → N → OS → list prow → Prop) E E' F (m : GoM (N * W) A) s :
  settles Q E F (m s) →
  settles (λ r n s t, match r with inr a => Q a n s t | inl e => E e n s t end) E' F (go_try m s).
Proof. unfold settles, go_try. intros [Hwf Hm]. by destruct (m s) as [[] [n w]]. Qed.

(** A call of the metadata cache. *)
Lemma settles_metadata {A} (Fr : list prow → Prop) (Qr : A → list prow → Prop)
    (m : GoM (Conn DB) A) n w :
  stats_wf (w_stats w) → ran_or Fr Qr (m (w_conn w)) →
  settles (λ a n' s t, n' = n ∧ s = w_os w ∧ Qr a t)
    (λ e n' s t, (∃ code, e = ESqlite code) ∧ n' = n ∧ s = w_os w ∧ Fr t)
    (λ n' s t, n' = n ∧ s = w_os w ∧ Fr t) (metadata m (n, w)).
Proof.
  intros Hwf Hm. unfold settles, metadata, on_world, on_conn, go_zoom, db_view. simpl.
  destruct (m (w_conn w)) as [[a|[]| | |] c]; simpl in *; try done.
  split; [done|]. split; [by eexists|done].
Qed.

(** A call of the metadata cache, and what comes after it. *)
Lemma settles_bind_metadata {A B} Fr Qr (Q : B → N → OS → list prow → Prop) E F
    (f : A → GoM (N * W) B) (m : GoM (Conn DB) A) n w :
  stats_wf (w_stats w) → ran_or Fr Qr (m (w_conn w)) →
  (∀ code t, Fr t → E (ESqlite code) n (w_os w) t) → (∀ t, Fr t → F n (w_os w) t) →
  (∀ a w', stats_wf (w_stats w') → w_os w' = w_os w → Qr a (db_view w') →
     settles Q E F (f a (n, w'))) →
  settles Q E F (go_bind f (metadata m) (n, w)).
Proof.
  intros Hwf Hm HE HF Hf. eapply settles_bind.
  - eapply settles_weaken; [by apply settles_metadata|intros a n' s t Hx; exact Hx|..].
    + intros e n' s t ([code ->] & -> & -> & Ht). auto.
    + intros n' s t (-> & -> & Ht). auto.
  - intros a n' w' Hwf' (-> & Hs & Hq). auto.
Qed.

(** A counted system call that does what the kernel's [c] does. *)
Definition system_call {A} (c : GoM OS A) (m : GoM (N * W) A) : Prop := ∀ n w,
  stats_wf (w_stats w) →
  settles (λ a n' s t, n' = n ∧ t = db_view w ∧ c (w_os w) = (Ret a, s))
    (λ e n' s t, n' = n ∧ t = db_view w ∧ c (w_os w) = (Err e, s)) (λ _ _ _, False) (m (n, w)).

(** Its error is handed on. *)
Lemma settles_bind_call {A B} c (Q : B → N → OS → list prow → Prop) E F
    (f : A → GoM (N * W) B) m n w :
  system_call c m → stats_wf (w_stats w) →
  (∀ e s, c (w_os w) = (Err e, s) → E e n s (db_view w)) →
  (∀ a w', stats_wf (w_stats w') → db_view w' = db_view w → c (w_os w) = (Ret a, w_os w') →
     settles Q E F (f a (n, w'))) →
  settles Q E F (go_bind f m (n, w)).
Proof.
  intros Hm Hwf HE Hf. eapply settles_bind.
  - eapply settles_weaken; [by apply Hm|intros a n' s t Hx; exact Hx|..|done].
    intros e n' s t (-> & -> & Hc). auto.
  - intros a n' w' Hwf' (-> & Hdb & Hc). auto.
Qed.

(** Its error is looked at. *)
Lemma settles_bind_try_call {A B} c (Q : B → N → OS → list prow → Prop) E F
    (f : error + A → GoM (N * W) B) m n w :
  system_call c m → stats_wf (w_stats w) →
  (∀ e w', stats_wf (w_stats w') → db_view w' = db_view w → c (w_os w) = (Err e, w_os w') →
     settles Q E F (f (inl e) (n, w'))) →
  (∀ a w', stats_wf (w_stats w') → db_view w' = db_view w → c (w_os w) = (Ret a, w_os w') →
     settles Q E F (f (inr a) (n, w'))) →
  settles Q E F (go_bind f (go_try m) (n, w)).
Proof.
  intros Hm Hwf HE Hf. eapply settles_bind.
  - eapply settles_weaken; [by apply settles_try with (E' := λ _ _ _ _, False), Hm| |done..].
    intros r n' s t Hx. exact Hx.
  - intros [e|a] n' w' Hwf' (-> & Hdb & Hc); auto.
Qed.
End rules.

(** Working on a part of the node. *)
Lemma settles_zoom {N P A} (get : N → P) (put : P → N → N)
    (Q : A → N → OS → list prow → Prop) E F (m : GoM (P * W) A) n w :
  settles (λ a p s t, Q a (put p n) s t) (λ e p s t, E e (put p n) s t)
    (λ p s t, F (put p n) s t) (m (get n, w)) →
  settles Q E F
    (go_zoom (λ s, (get s.1, s.2)) (λ '(p, w) s, (put p s.1, w)) m (n, w)).
Proof. unfold settles, go_zoom. simpl. by destruct (m (get n, w)) as [[] [p w']]. Qed.

(** ** The system calls of the handlers *)

Lemma Lstat_answers p (s : OS) : answers (os_Lstat p s).1.
Proof. pose proof (Lstat_spec p s) as Hs. destruct (os_Lstat p s). by destruct Hs as [Ha _]. Qed.
Lemma Readlink_answers p (s : OS) : answers (os_Readlink p s).1.
Proof. pose proof (Readlink_spec p s) as Hs. destruct (os_Readlink p s). by destruct Hs as [Ha _]. Qed.

Lemma Lstat_call {N} p : system_call (N := N) (os_Lstat p) (on_world (Lstat RemoteDomain p)).
Proof.
  intros n w Hwf. apply settles_counted; [done|right; by left|right; by left| |done|done].
  apply Lstat_answers.
Qed.

Lemma Readlink_call {N} p :
  system_call (N := N) (os_Readlink p) (on_world (Readlink RemoteDomain p)).
Proof.
  intros n w Hwf. apply settles_counted; [done|right; by left|do 6 right; by left| |done|done].
  apply Readlink_answers.
Qed.

Lemma settles_hit {N A} (Q : A → N → OS → list prow → Prop) E F op (f : () → GoM (N * W) A) n w :
  stats_wf (w_stats w) → op ∈ allFuseOps →
  (∀ st, stats_wf st → settles Q E F (f () (n, set_w_stats st w))) →
  settles Q E F (go_bind f (AccountHit op) (n, w)).
Proof.
  intros Hwf Hop Hf. apply (settles_account _ _ _ {| ev_counter := CHit op; ev_amount := 0 |});
    [done|done|]. intros st Hst. apply Hf. by eapply bumped_wf.
Qed.
Lemma settles_miss {N A} (Q : A → N → OS → list prow → Prop) E F op (f : () → GoM (N * W) A) n w :
  stats_wf (w_stats w) → op ∈ allFuseOps →
  (∀ st, stats_wf st → settles Q E F (f () (n, set_w_stats st w))) →
  settles Q E F (go_bind f (AccountMiss op) (n, w)).
Proof.
  intros Hwf Hop Hf. apply (settles_account _ _ _ {| ev_counter := CMiss op; ev_amount := 0 |});
    [done|done|]. intros st Hst. apply Hf. by eapply bumped_wf.
Qed.
Lemma settles_direct {N A} (Q : A → N → OS → list prow → Prop) E F op (f : () → GoM (N * W) A) n w :
  stats_wf (w_stats w) → op ∈ allFuseOps →
  (∀ st, stats_wf st → settles Q E F (f () (n, set_w_stats st w))) →
  settles Q E F (go_bind f (AccountDir op) (n, w)).
Proof.
  intros Hwf Hop Hf. apply (settles_account _ _ _ {| ev_counter := CDirect op; ev_amount := 0 |});
    [done|done|]. intros st Hst. apply Hf. by eapply bumped_wf.
Qed.

(** ** Open directories *)

Definition os_Open_traced (d : Z) (p : string) : GoM OS tracedReader :=
  f ← os_Open p; mret {| tr_domain := d; tr_file := f |}.

Lemma Open_call {N} d p :
  d ∈ allDomains → system_call (N := N) (os_Open_traced d p) (on_world (Open d p)).
Proof.
  intros Hd n w Hwf. unfold os_Open_traced.
  pose proof (Open_spec p (w_os w)) as Hs.
  destruct (account_bumped {| ev_counter := COs d OpenOsOp; ev_amount := 0 |} _ Hwf)
    as (st & Hst & Hb); [split; [done|do 3 right; by left]|]. unfold account in Hst. simpl in Hst.
  apply bumped_wf in Hb; [|done].
  unfold on_world, Open, mbind, go_mbind, go_bind, on_stats, on_os, go_zoom. simpl. rewrite Hst. simpl.
  destruct (os_Open p (w_os w)) as [[f|e| | |] s]; simpl in *; try by destruct Hs.
  all: by split.
Qed.

Lemma opened_traced d p (s : OS) f s' :
  os_Open_traced d p s = (Ret f, s') → os_Open p s = (Ret (tr_file f), s') ∧ tr_domain f = d.
Proof.
  unfold os_Open_traced, mbind, go_mbind, go_bind. by destruct (os_Open p s) as [[] ?]; intros [= <- <-].
Qed.
Lemma not_opened_traced d p (s : OS) e s' :
  os_Open_traced d p s = (Err e, s') → os_Open p s = (Err e, s').
Proof.
  unfold os_Open_traced, mbind, go_mbind, go_bind. by destruct (os_Open p s) as [[] ?]; intros [= <- <-].
Qed.

Lemma Readdir_call {N} tr :
  tr_domain tr ∈ allDomains →
  system_call (N := N) (file_Readdir (tr_file tr)) (on_world (tr_Readdir tr)).
Proof.
  intros Hd n w Hwf. apply settles_counted; [done|done|do 5 right; by left| |done|done].
  pose proof (Readdir_spec (tr_file tr) (w_os w)) as Hs.
  destruct (file_Readdir (tr_file tr) (w_os w)). by destruct Hs.
Qed.

(** A deferred [Close] changes the kernel state only. *)
Lemma settles_defer_close {N A} (Q : A → N → list prow → Prop) (E : error → N → list prow → Prop)
    (F : N → list prow → Prop) tr (m : GoM (N * W) A) s :
  tr_domain tr ∈ allDomains →
  settles (λ a n _ t, Q a n t) (λ e n _ t, E e n t) (λ n _ t, F n t) (m s) →
  settles (λ a n _ t, Q a n t) (λ e n _ t, E e n t) (λ n _ t, F n t)
    (go_defer (on_world (tr_Close tr)) m s).
Proof.
  intros Hd [Hwf Hm]. unfold go_defer.
  assert (∀ (n : N) (w : W), stats_wf (w_stats w) → ∃ o w', on_world (tr_Close tr) (n, w) = (o, (n, w')) ∧
    answers o ∧ stats_wf (w_stats w') ∧ w_conn w' = w_conn w) as Hclose.
  { intros n w Hw. pose proof (Close_spec (tr_file tr) (w_os w)) as Hs.
    destruct (account_bumped {| ev_counter := COs (tr_domain tr) CloseOsOp; ev_amount := 0 |} _ Hw)
      as (st & Hst & Hb); [split; [done|by left]|]. unfold account in Hst. simpl in Hst.
    apply bumped_wf in Hb; [|done].
    unfold on_world, tr_Close, mbind, go_mbind, go_bind, on_stats, on_os, go_zoom. simpl.
    rewrite Hst. simpl. destruct (file_Close (tr_file tr) (w_os w)) as [o s'].
    do 2 eexists. split; [done|]. simpl. by destruct Hs. }
  destruct (m s) as [[a|e| | |] [n w]]; simpl in *; try done;
    destruct (Hclose n w Hwf) as (o & w' & -> & Ho & Hwf' & Hc); unfold settles, db_view in *;
    destruct o; try done; simpl; by rewrite Hc.
Qed.

(** ** Calls of the content cache *)

(** They do not touch the database. *)
Definition same_conn (w w' : W) : Prop := w_conn w' = w_conn w.

#[export] Instance same_conn_preorder : PreOrder same_conn.
Proof. split; [by intros ?|]. unfold same_conn. intros w1 w2 w3. congruence. Qed.

Lemma on_stats_conn {A} (m : GoM Stats A) : framed same_conn (on_stats m).
Proof. intros w. unfold on_stats, go_zoom. by destruct (m _). Qed.
Lemma on_os_conn {A} (m : GoM OS A) : framed same_conn (on_os m).
Proof. intros w. unfold on_os, go_zoom. by destruct (m _). Qed.
#[local] Hint Resolve on_stats_conn on_os_conn : go.

Lemma copy2_conn fuel dst1 src h n : framed same_conn (copy2_loop fuel dst1 src h n).
Proof.
  revert h n. induction fuel as [|fuel IH]; intros h n; cbn [copy2_loop];
    unfold tr_Read, account_read; framed_solve.
Qed.

Lemma HasKey_conn cache k : framed same_conn (HasKey cache k).
Proof. unfold HasKey, Lstat. framed_solve. Qed.

Lemma PutContents_conn cache path : framed same_conn (PutContents cache path).
Proof.
  pose proof copy2_conn as Hcopy. pose proof HasKey_conn as Hkey.
  unfold PutContents, fetch, copy2, store_temp, Open, Mkdir, Rename, Remove, tr_Close. framed_solve.
Qed.

Lemma GetFileForContents_conn cache k : framed same_conn (GetFileForContents cache k).
Proof. pose proof HasKey_conn as Hkey. unfold GetFileForContents. framed_solve. Qed.

Lemma settles_of_os {N A} (Q : A → OS → Prop) E F (m : GoM W A) (n : N) w :
  framed same_conn m → os_post Q E F (m w) →
  settles (λ a n' s t, n' = n ∧ Q a s ∧ t = db_view w) (λ e n' s t, n' = n ∧ E e s ∧ t = db_view w)
    (λ n' s t, n' = n ∧ F s ∧ t = db_view w) (on_world m (n, w)).
Proof.
  intros Hm [Hwf Hp]. specialize (Hm w). unfold settles, on_world, go_zoom, db_view. simpl.
  unfold same_conn in Hm. destruct (m w) as [[] w']; simpl in *; by rewrite ?Hm.
Qed.
End settles.
