(* ===== verification/FsProps.v ===== *)
(** The guarantees of the file system's handlers: what each does in cached, uncached and direct
    mode, that hits need neither the remote nor the database, and that misses fill the cache. *)
From S2P Require Import Prelude GoStrings GoPath Stats Types DirEntries Sql Sqlite Kernel.
From S2P Require Import Syscalls Metadata MetadataSpec MetadataProps WorldPost Md5 Content.
From S2P Require Import ContentProps Fs FsLogic.
#[local] Open Scope Z_scope.

(** The attributes of a node with known file information. *)
Definition attr_of (inode : Z) (fi : FileInfo) : Attr :=
  {| a_Inode := inode; a_Mode := Mode fi; a_Size := uint64 (Size fi); a_Mtime := ModTime fi |}.

(** A file information that the remote may return for [path]. *)
Definition lawful_info (path : string) (fi : FileInfo) : Prop :=
  FileInfo_wf fi ∧ is_int64 (ModTime fi) ∧ Name fi = Base path.

#[local] Arguments newNodeForEntry : simpl never.
#[local] Arguments Join : simpl never.

Ltac in_ops := repeat (first [by left | right]).

Section fs.
Context {OS DB : Type} `{KernelLaws OS, SqlLaws DB, !Fuel}.
Context (globals : globalState).
Abbreviation W := (World OS DB).

(** ** Attributes *)

(** The remote was asked and its answer stored. *)
Definition info_fetched (m : gmap string CachedRow) (path belowPath : string) (cr : CachedRow)
    (fi : FileInfo) (s0 s : OS) (t : list prow) : Prop :=
  os_Lstat belowPath s0 = (Ret fi, s) ∧ table_repr t (<[path := entry_set_info fi cr]> m).

Lemma fetch_info_settles m path belowPath cr (fi0 : option FileInfo) fi s (w : W) :
  table_repr (db_view w) m → m !! path = Some cr → lawful_info path fi →
  os_Lstat belowPath s = (Ret fi, w_os w) → stats_wf (w_stats w) →
  settles (λ _ n s' t, n = Some fi ∧ info_fetched m path belowPath cr fi s s' t)
    (λ e n s' t, (∃ code, e = ESqlite code) ∧ n = fi0 ∧ t = db_view w)
    (λ n s' t, n = fi0 ∧ t = db_view w)
    ((metadata (PutFileInfo (Inode cr) fi);; set_node (Some fi)) (fi0, w)).
Proof.
  intros Ht Hm (Hwf & Htime & Hname) Hl Hst.
  eapply settles_bind_metadata; [done|by apply PutFileInfo_stores_ran|naive_solver|naive_solver|].
  intros u w' Hst' Hs Ht'. split; [done|]. simpl. unfold info_fetched. by rewrite Hs.
Qed.

Lemma commonAttr_settles m path belowPath cr (fi0 : option FileInfo) direct (w : W) :
  stats_wf (w_stats w) → table_repr (db_view w) m → m !! path = Some cr →
  (∀ fi s, os_Lstat belowPath (w_os w) = (Ret fi, s) → lawful_info path fi) →
  settles
    (λ a n s t, ∃ fi, n = Some fi ∧ a = attr_of (Inode cr) fi ∧
       ((direct = false ∧ fi0 = Some fi ∧ s = w_os w ∧ t = db_view w) ∨
        ((direct = true ∨ fi0 = None) ∧ info_fetched m path belowPath cr fi (w_os w) s t) ∨
        (direct = true ∧ fi0 = Some fi ∧ t = db_view w ∧
         ∃ e, os_Lstat belowPath (w_os w) = (Err e, s))))
    (λ e n s t, n = fi0 ∧ t = db_view w ∧
       ((∃ code, e = ESqlite code) ∨ (fi0 = None ∧ os_Lstat belowPath (w_os w) = (Err e, s))))
    (λ n s t, n = fi0 ∧ t = db_view w)
    (commonAttr (Inode cr) direct belowPath (fi0, w)).
Proof.
  intros Hwf Ht Hm Hlaw. unfold commonAttr. apply settles_get.
  eapply settles_bind with (P := λ _ n s t, ∃ fi, n = Some fi ∧
       ((direct = false ∧ fi0 = Some fi ∧ s = w_os w ∧ t = db_view w) ∨
        ((direct = true ∨ fi0 = None) ∧ info_fetched m path belowPath cr fi (w_os w) s t) ∨
        (direct = true ∧ fi0 = Some fi ∧ t = db_view w ∧
         ∃ e, os_Lstat belowPath (w_os w) = (Err e, s)))).
  2:{ intros u n w' Hwf' (fi & -> & Hcase). apply settles_get. split; [done|]. by exists fi. }
  destruct direct; [|destruct (bool_decide (is_Some fi0)) eqn:Hc; simpl].
  - apply settles_direct; [done|in_ops|]. intros st Hst.
    eapply settles_bind_try_call; [apply Lstat_call|done|..]; intros x w' Hwf' Hdb Hl;
      change (db_view w' = db_view w) in Hdb.
    + destruct (bool_decide (is_Some fi0)) eqn:Hc; (split; [done|]); simpl.
      * apply bool_decide_eq_true in Hc as [fi ->]. naive_solver.
      * apply bool_decide_eq_false, eq_None_not_Some in Hc. auto.
    + rewrite <- Hdb in Ht. eapply settles_weaken; [by eapply fetch_info_settles; eauto|..];
        rewrite ?Hdb; naive_solver.
  - apply bool_decide_eq_true in Hc as [fi ->].
    rewrite <- (go_ret_bind (AccountHit AttrFuseOp)).
    apply settles_hit; [done|in_ops|]. intros st Hst. split; [done|]. exists fi.
    split; [done|]. by left.
  - apply bool_decide_eq_false, eq_None_not_Some in Hc. subst fi0.
    apply settles_miss; [done|in_ops|]. intros st Hst.
    eapply settles_bind_call; [apply Lstat_call|done|naive_solver|]. intros fi w' Hwf' Hdb Hl.
    change (db_view w' = db_view w) in Hdb.
    rewrite <- Hdb in Ht. eapply settles_weaken; [by eapply fetch_info_settles; eauto|..];
      rewrite ?Hdb; naive_solver.
Qed.

(** ** Symbolic links *)

Definition target_fetched (m : gmap string CachedRow) (l : Symlink) (cr : CachedRow) (a : string)
    (s0 s : OS) (t : list prow) : Prop :=
  os_Readlink (link_belowPath l) s0 = (Ret a, s) ∧
  table_repr t (<[link_path l := entry_set_target (stored a) cr]> m).

Definition with_target (a : string) (l : Symlink) : Symlink :=
  set_link_data (set_ld_target a (link_data l)) l.

Lemma store_target_settles m l cr a s (w : W) :
  table_repr (db_view w) m → m !! link_path l = Some cr → Inode cr = link_inode l →
  os_Readlink (link_belowPath l) s = (Ret a, w_os w) → stats_wf (w_stats w) →
  settles (λ _ n s' t, n = with_target a l ∧ target_fetched m l cr a s s' t)
    (λ e n s' t, (∃ code, e = ESqlite code) ∧ n = l ∧ t = db_view w)
    (λ n s' t, n = l ∧ t = db_view w)
    (store_target l a (l, w)).
Proof.
  intros Ht Hm Hi Hl Hst. unfold store_target. rewrite <- Hi.
  eapply settles_bind_metadata; [done|by apply PutSymlinkTarget_ran|naive_solver|naive_solver|].
  intros u w' Hst' Hs Ht'. split; [done|]. simpl. unfold target_fetched. by rewrite Hs.
Qed.

Lemma Symlink_Readlink_settles m (l : Symlink) cr (w : W) :
  stats_wf (w_stats w) → table_repr (db_view w) m →
  m !! link_path l = Some cr → Inode cr = link_inode l →
  settles
    (λ a n s t,
       ((link_direct l = false ∧ target (link_data l) = Some a ∧ n = l ∧ s = w_os w ∧ t = db_view w) ∨
        ((link_direct l = true ∨ target (link_data l) = None) ∧ n = with_target a l ∧
         target_fetched m l cr a (w_os w) s t) ∨
        (link_direct l = true ∧ target (link_data l) = Some a ∧ n = l ∧ t = db_view w ∧
         ∃ e, os_Readlink (link_belowPath l) (w_os w) = (Err e, s))))
    (λ e n s t, n = l ∧ t = db_view w ∧
       ((∃ code, e = ESqlite code) ∨
        (target (link_data l) = None ∧ os_Readlink (link_belowPath l) (w_os w) = (Err e, s))))
    (λ n s t, n = l ∧ t = db_view w)
    (Symlink_Readlink (l, w)).
Proof.
  intros Hwf Ht Hm Hi. unfold Symlink_Readlink. apply settles_get.
  eapply settles_bind with (P := λ _ n s t, ∃ a, target (link_data n) = Some a ∧
       ((link_direct l = false ∧ target (link_data l) = Some a ∧ n = l ∧ s = w_os w ∧ t = db_view w) ∨
        ((link_direct l = true ∨ target (link_data l) = None) ∧ n = with_target a l ∧
         target_fetched m l cr a (w_os w) s t) ∨
        (link_direct l = true ∧ target (link_data l) = Some a ∧ n = l ∧ t = db_view w ∧
         ∃ e, os_Readlink (link_belowPath l) (w_os w) = (Err e, s)))).
  2:{ intros u n w' Hwf' (a & Ha & Hcase). apply settles_get. rewrite Ha. by split. }
  destruct (link_direct l) eqn:Hd;
    [|destruct (bool_decide (is_Some (target (link_data l)))) eqn:Hc; simpl].
  - apply settles_direct; [done|in_ops|]. intros st Hst.
    eapply settles_bind_try_call; [apply Readlink_call|done|..]; intros x w' Hwf' Hdb Hl;
      change (db_view w' = db_view w) in Hdb.
    + destruct (bool_decide (is_Some (target (link_data l)))) eqn:Hc; (split; [done|]); simpl.
      * apply bool_decide_eq_true in Hc as [a Ha]. naive_solver.
      * apply bool_decide_eq_false, eq_None_not_Some in Hc. auto.
    + rewrite <- Hdb in Ht. eapply settles_weaken; [by eapply store_target_settles|..];
        rewrite ?Hdb; naive_solver.
  - apply bool_decide_eq_true in Hc as [a Ha].
    rewrite <- (go_ret_bind (AccountHit ReadlinkFuseOp)).
    apply settles_hit; [done|in_ops|]. intros st Hst. split; [done|]. exists a.
    split; [done|]. by left.
  - apply bool_decide_eq_false, eq_None_not_Some in Hc.
    apply settles_miss; [done|in_ops|]. intros st Hst.
    eapply settles_bind_call; [apply Readlink_call|done|naive_solver|]. intros a w' Hwf' Hdb Hl.
    change (db_view w' = db_view w) in Hdb.
    rewrite <- Hdb in Ht. eapply settles_weaken; [by eapply store_target_settles|..];
      rewrite ?Hdb; naive_solver.
Qed.

(** ** Lookups *)

Definition child_path (dir : Dir) (name : string) : string := Join [dir_path dir; name].
Definition child_below (dir : Dir) (name : string) : string := Join [dir_belowPath dir; name].
Definition node_for (dir : Dir) (name : string) (row : CachedRow) : outcome Node :=
  newNodeForEntry globals (dir_path dir) (dir_belowPath dir) (Some row) name.
Definition remembered (dir : Dir) (name : string) (row : CachedRow) : Dir :=
  set_dir_data (set_row name (Some row) (dir_data dir)) dir.

Lemma newNodeForEntry_cases p b row name :
  TypeName row ∈ type_names →
  (TypeName row = "noentry" ∧ newNodeForEntry globals p b (Some row) name = Err EFuseENOENT) ∨
  (TypeName row ≠ "noentry" ∧ ∃ nd, newNodeForEntry globals p b (Some row) name = Ret nd).
Proof.
  unfold newNodeForEntry.
  intros [->|[->|[->| ->]]]%type_names_spec; simpl; eauto.
Qed.

(** Engine failures: rows can have been added, nothing else has changed. *)
Definition engine_failed (m : gmap string CachedRow) (dir : Dir) (n : Dir) (t : list prow) : Prop :=
  n = dir ∧ ∃ m', m ⊆ m' ∧ table_repr t m'.

(** A metadata call that leaves the table as it is when it fails. *)
Lemma settles_bind_meta {A B} (Qr : A → list prow → Prop) m m0 (dir : Dir) method (w : W)
    (Q : B → Dir → OS → list prow → Prop) E F (f : A → GoM (Dir * W) B) :
  stats_wf (w_stats w) → table_repr (db_view w) m → m0 ⊆ m →
  ran (db_view w) Qr (method (w_conn w)) →
  (∀ code s t, engine_failed m0 dir dir t → E (ESqlite code) dir s t) →
  (∀ s t, engine_failed m0 dir dir t → F dir s t) →
  (∀ a w', stats_wf (w_stats w') → w_os w' = w_os w → Qr a (db_view w') →
     settles Q E F (f a (dir, w'))) →
  settles Q E F (go_bind f (metadata method) (dir, w)).
Proof.
  intros Hwf Ht Hm Hr HE HF Hf.
  eapply settles_bind_metadata; [done|exact Hr|intros code t ->|intros t ->|done]; [apply HE|apply HF];
    by split; [|exists m].
Qed.

Lemma remember_settles (E : error → Dir → OS → list prow → Prop) F dir name row (w : W) :
  stats_wf (w_stats w) → TypeName row ∈ type_names →
  (TypeName row = "noentry" → E EFuseENOENT (remembered dir name row) (w_os w) (db_view w)) →
  settles (λ nd n s t, node_for dir name row = Ret nd ∧ n = remembered dir name row ∧
             s = w_os w ∧ t = db_view w) E F
    (remember globals name (Some row) (dir, w)).
Proof.
  intros Hwf Hty HE. unfold remember.
  unfold mbind, go_mbind, go_bind, on_node, get_node, go_modify, go_zoom, go_lift. simpl.
  destruct (newNodeForEntry_cases (dir_path dir) (dir_belowPath dir) row name Hty)
    as [[Hn ->]|[Hn [nd Hnd]]]; [by split; auto|].
  rewrite Hnd. by split.
Qed.

Lemma sqlTypeName_not_noentry mode : sqlTypeName mode ≠ Ret "noentry".
Proof.
  intros Hty%sqlTypeName_names. repeat (apply elem_of_cons in Hty as [?|Hty]; [done|]).
  by apply elem_of_nil in Hty.
Qed.

Lemma table_type t m p cr : table_repr t m → m !! p = Some cr → TypeName cr ∈ type_names.
Proof.
  intros [_ _ Hrows Hmap] Hm. destruct (Hmap _ _ Hm) as (_ & r & Hr & Hrp).
  destruct (Hrows _ Hr) as (p' & cr' & Hp' & Hm' & Hrr).
  assert (cr' = cr) as -> by congruence. apply Hrr.
Qed.

(** The path is in the database. *)
Lemma Lookup_hit_settles m dir name row (w : W) :
  stats_wf (w_stats w) → table_repr (db_view w) m → number_like (child_path dir name) = false →
  dir_direct dir = false → rows (dir_data dir) !! name = None →
  m !! child_path dir name = Some row →
  settles
    (λ nd n s t, node_for dir name row = Ret nd ∧ n = remembered dir name row ∧
                 s = w_os w ∧ table_repr t m)
    (λ e n s t, s = w_os w ∧ table_repr t m ∧
       (((∃ code, e = ESqlite code) ∧ n = dir) ∨
        (e = EFuseENOENT ∧ TypeName row = "noentry" ∧ n = remembered dir name row)))
    (λ n s t, n = dir ∧ s = w_os w ∧ table_repr t m)
    (Lookup globals name (dir, w)).
Proof.
  intros Hwf Ht Hp Hd Hrows Hrow. unfold Lookup. apply settles_get. rewrite Hd, Hrows. simpl.
  eapply settles_bind_metadata; [done|by apply GetFullEntry_lookup_ran|naive_solver|naive_solver|].
  intros o w' Hwf' Hs [-> Ht']. change (Join [dir_path dir; name]) with (child_path dir name).
  rewrite Hrow. simpl. apply settles_hit; [done|in_ops|]. intros st Hst.
  eapply settles_weaken; [apply remember_settles with
    (E := λ e n s t, e = EFuseENOENT ∧ TypeName row = "noentry" ∧ n = remembered dir name row ∧
                     s = w_os w ∧ table_repr t m) (F := λ _ _ _, False)
    |..|done].
  - done.
  - by eapply table_type.
  - intros Hn. by split_and!.
  - intros nd n s t (Hnd & -> & -> & ->). by split_and!.
  - intros e n s t (-> & Hn & -> & -> & Htt). split_and!; [done|done|]. by right.
Qed.

(** The path is new. *)
Lemma Lookup_miss_settles m dir name (w : W) :
  stats_wf (w_stats w) → table_repr (db_view w) m → number_like (child_path dir name) = false →
  dir_direct dir = false → rows (dir_data dir) !! name = None →
  m !! child_path dir name = None →
  (∀ fi s, os_Lstat (child_below dir name) (w_os w) = (Ret fi, s) →
           ∃ ty, sqlTypeName (mode_type (Mode fi)) = Ret ty) →
  settles
    (λ nd n s t, ∃ fi ty id, os_Lstat (child_below dir name) (w_os w) = (Ret fi, s) ∧
       sqlTypeName (mode_type (Mode fi)) = Ret ty ∧
       (∀ q cr, m !! q = Some cr → Inode cr ≠ id) ∧
       table_repr t (<[child_path dir name := new_entry id ty]> m) ∧
       node_for dir name (new_entry id ty) = Ret nd ∧ n = remembered dir name (new_entry id ty))
    (λ e n s t,
       ((∃ code, e = ESqlite code) ∧ engine_failed m dir n t) ∨
       (∃ e', os_Lstat (child_below dir name) (w_os w) = (Err e', s) ∧ n = dir ∧
          if IsNotExist e' then
            e = EFuseENOENT ∧ ∃ id, (∀ q cr, m !! q = Some cr → Inode cr ≠ id) ∧
              table_repr t (<[child_path dir name := new_entry id "noentry"]> m)
          else e = e' ∧ table_repr t m))
    (λ n s t, engine_failed m dir n t)
    (Lookup globals name (dir, w)).
Proof.
  intros Hwf Ht Hp Hd Hrows Hrow Hlaw. unfold Lookup. apply settles_get. rewrite Hd, Hrows. simpl.
  fold (child_path dir name) (child_below dir name).
  eapply (settles_bind_meta _ m m); [done|done|done|by apply GetFullEntry_lookup_ran|by eauto|by auto|].
  intros o w1 Hwf1 Hs1 [-> Ht1]. rewrite Hrow. simpl.
  apply settles_miss; [done|in_ops|]. intros st Hst.
  eapply settles_bind_try_call; [apply Lstat_call|done|..]; intros x w2 Hwf2 Hdb Hl;
    change (db_view w2 = db_view w1) in Hdb; change (w_os (set_w_stats st w1)) with (w_os w1) in Hl;
    rewrite Hs1 in Hl; rewrite <- Hdb in Ht1.
  - destruct (IsNotExist x) eqn:Hx; simpl; cycle 1.
    { split; [done|]. right. exists x. by rewrite Hx. }
    eapply (settles_bind_meta _ m m);
      [done|done|done|by eapply put_new_adds_ran; [right|..]|by eauto|by auto|].
    intros id w3 Hwf3 Hs3 (_ & Hfresh & Ht3). split; [done|]. right.
    exists x. rewrite Hx, Hs3. split_and!; [done..|]. eauto.
  - destruct (Hlaw _ _ Hl) as [ty Hty].
    eapply (settles_bind_meta _ m m);
      [done|done|done|by eapply put_new_adds_ran; [left; eauto|..]|by eauto|by auto|].
    intros id w3 Hwf3 Hs3 (_ & Hfresh & Ht3).
    eapply (settles_bind_meta _ (<[child_path dir name := new_entry id ty]> m) m);
      [done|done|by apply insert_subseteq|by apply GetFullEntry_lookup_ran|by eauto|by auto|].
    intros o w4 Hwf4 Hs4 [-> Ht4]. rewrite lookup_insert_eq.
    eapply settles_weaken; [apply remember_settles with (E := λ _ _ _ _, False) (F := λ _ _ _, False)
      |..|done|done].
    + done.
    + by eapply sqlTypeName_type_names.
    + simpl. intros ->. by apply sqlTypeName_not_noentry in Hty.
    + intros nd n s t (Hnd & -> & -> & ->). exists x, ty, id.
      split_and!; [congruence|done|done|done|done|done].
Qed.

(** ** Lookups in direct mode *)

(** Engine failures: only the row of one path can have changed. *)
Definition engine_failed_at (p : string) (m : gmap string CachedRow) (dir n : Dir)
    (t : list prow) : Prop :=
  n = dir ∧ ∃ m', table_repr t m' ∧ ∀ q, q ≠ p → m' !! q = m !! q.

Lemma settles_bind_meta_at {A B} p (Qr : A → list prow → Prop) m m0 (dir : Dir) method (w : W)
    (Q : B → Dir → OS → list prow → Prop) E F (f : A → GoM (Dir * W) B) :
  stats_wf (w_stats w) → table_repr (db_view w) m → (∀ q, q ≠ p → m !! q = m0 !! q) →
  ran (db_view w) Qr (method (w_conn w)) →
  (∀ code s t, engine_failed_at p m0 dir dir t → E (ESqlite code) dir s t) →
  (∀ s t, engine_failed_at p m0 dir dir t → F dir s t) →
  (∀ a w', stats_wf (w_stats w') → w_os w' = w_os w → Qr a (db_view w') →
     settles Q E F (f a (dir, w'))) →
  settles Q E F (go_bind f (metadata method) (dir, w)).
Proof.
  intros Hwf Ht Hm Hr HE HF Hf.
  eapply settles_bind_metadata; [done|exact Hr|intros code t ->|intros t ->|done]; [apply HE|apply HF];
    by split; [|exists m].
Qed.

(** Reloading and remembering the row. *)
Lemma reload_settles m m0 dir name row (E : error → Dir → OS → list prow → Prop) (w : W) :
  stats_wf (w_stats w) → table_repr (db_view w) m → number_like (child_path dir name) = false →
  (∀ q, q ≠ child_path dir name → m !! q = m0 !! q) → m !! child_path dir name = Some row →
  (∀ t, TypeName row = "noentry" → table_repr t m →
     E EFuseENOENT (remembered dir name row) (w_os w) t) →
  (∀ code n s t, engine_failed_at (child_path dir name) m0 dir n t → E (ESqlite code) n s t) →
  settles (λ nd n s t, node_for dir name row = Ret nd ∧ n = remembered dir name row ∧
             s = w_os w ∧ table_repr t m) E
    (λ n s t, engine_failed_at (child_path dir name) m0 dir n t)
    ((cachedRow ← metadata (GetFullEntry (child_path dir name)); remember globals name cachedRow)
       (dir, w)).
Proof.
  intros Hwf Ht Hp Hm0 Hrow HEn HEs.
  eapply (settles_bind_meta_at (child_path dir name) _ m m0);
    [done|done|done|by apply GetFullEntry_lookup_ran|by auto|done|].
  intros o w1 Hwf1 Hs1 [-> Ht1]. rewrite Hrow.
  eapply settles_weaken; [apply remember_settles with (F := λ _ _ _, False) (E := E)|..|done|done].
  - done.
  - by eapply table_type.
  - intros Hn. rewrite Hs1. by apply HEn.
  - intros nd n s t (Hnd & -> & -> & ->). by split_and!.
Qed.

(** The type of the row is set to what the remote says, or a row of that type is created. *)
Lemma retyped t m path ty :
  match m !! path with
  | Some cr => table_repr t (<[path := entry_set_type ty cr]> m)
  | None => ∃ inode, (∀ q cr, m !! q = Some cr → Inode cr ≠ inode) ∧
                     table_repr t (<[path := new_entry inode ty]> m)
  end →
  ∃ row, table_repr t (<[path := row]> m) ∧ TypeName row = ty ∧
         ∀ cr, m !! path = Some cr → row = entry_set_type ty cr.
Proof.
  destruct (m !! path) as [cr|].
  - intros Ht. exists (entry_set_type ty cr). split_and!; [done|done|]. by intros cr' [= <-].
  - intros (id & _ & Ht). by exists (new_entry id ty).
Qed.

Lemma Lookup_direct_settles m dir name (w : W) :
  stats_wf (w_stats w) → table_repr (db_view w) m → number_like (child_path dir name) = false →
  dir_direct dir = true →
  (∀ fi s, os_Lstat (child_below dir name) (w_os w) = (Ret fi, s) →
           ∃ ty, sqlTypeName (mode_type (Mode fi)) = Ret ty) →
  settles
    (λ nd n s t, ∃ row m', node_for dir name row = Ret nd ∧ n = remembered dir name row ∧
       table_repr t m' ∧ m' !! child_path dir name = Some row ∧
       ((∃ fi ty, os_Lstat (child_below dir name) (w_os w) = (Ret fi, s) ∧
           sqlTypeName (mode_type (Mode fi)) = Ret ty ∧ TypeName row = ty ∧
           m' = <[child_path dir name := row]> m ∧
           ∀ cr, m !! child_path dir name = Some cr → row = entry_set_type ty cr) ∨
        (∃ e, os_Lstat (child_below dir name) (w_os w) = (Err e, s) ∧
           m !! child_path dir name = Some row ∧ m' = m)))
    (λ e n s t,
       ((∃ code, e = ESqlite code) ∧ engine_failed_at (child_path dir name) m dir n t) ∨
       (∃ e', os_Lstat (child_below dir name) (w_os w) = (Err e', s) ∧
          match m !! child_path dir name with
          | Some row => e = EFuseENOENT ∧ TypeName row = "noentry" ∧
                        n = remembered dir name row ∧ table_repr t m
          | None => n = dir ∧
              if IsNotExist e' then
                e = EFuseENOENT ∧ ∃ id, (∀ q cr, m !! q = Some cr → Inode cr ≠ id) ∧
                  table_repr t (<[child_path dir name := new_entry id "noentry"]> m)
              else e = e' ∧ table_repr t m
          end))
    (λ n s t, engine_failed_at (child_path dir name) m dir n t)
    (Lookup globals name (dir, w)).
Proof.
  intros Hwf Ht Hp Hd Hlaw. unfold Lookup. apply settles_get. rewrite Hd. simpl.
  fold (child_path dir name) (child_below dir name).
  eapply (settles_bind_meta_at _ _ m m);
    [done|done|done|by apply GetFullEntry_lookup_ran|by eauto|by auto|].
  intros o w1 Hwf1 Hs1 [-> Ht1].
  apply settles_direct; [done|in_ops|]. intros st Hst.
  eapply settles_bind_try_call; [apply Lstat_call|done|..]; intros x w2 Hwf2 Hdb Hl;
    change (db_view w2 = db_view w1) in Hdb; change (w_os (set_w_stats st w1)) with (w_os w1) in Hl;
    rewrite Hs1 in Hl; rewrite <- Hdb in Ht1.
  - destruct (m !! child_path dir name) as [row|] eqn:Hrow; simpl.
    + eapply settles_weaken; [eapply (reload_settles m m dir name row (λ e n s t,
          ((∃ code, e = ESqlite code) ∧ engine_failed_at (child_path dir name) m dir n t) ∨
          (s = w_os w2 ∧ e = EFuseENOENT ∧ TypeName row = "noentry" ∧
           n = remembered dir name row ∧ table_repr t m)))|..|done]; try done; try naive_solver.
    + destruct (IsNotExist x) eqn:Hx; cycle 1.
      { split; [done|]. right. exists x. by rewrite Hx. }
      eapply (settles_bind_meta_at _ _ m m);
        [done|done|done|by eapply put_or_update_sets_type_ran; [right|..]|by eauto|by auto|].
      intros u w3 Hwf3 Hs3 Ht3. rewrite Hrow in Ht3. destruct Ht3 as (id & Hfresh & Ht3).
      split; [done|]. right. exists x. rewrite Hx, Hs3. split_and!; [done..|]. eauto.
  - destruct (Hlaw _ _ Hl) as [ty Hty].
    eapply (settles_bind_meta_at _ _ m m);
      [done|done|done|by eapply put_or_update_sets_type_ran; [left; eauto|..]|by eauto|by auto|].
    intros u w3 Hwf3 Hs3 (row & Htr & Hrty & Hrow)%retyped.
    eapply settles_weaken; [eapply (reload_settles (<[child_path dir name := row]> m) m dir name row
        (λ e n s t, (∃ code, e = ESqlite code) ∧ engine_failed_at (child_path dir name) m dir n t))
      |..|done]; try done.
    + intros q Hq. by apply lookup_insert_ne.
    + apply lookup_insert_eq.
    + intros t Hn _. rewrite Hn in Hrty. subst ty. by apply sqlTypeName_not_noentry in Hty.
    + eauto.
    + intros nd n s t (Hnd & -> & -> & Htt). exists row, (<[child_path dir name := row]> m).
      split_and!; [done|done|done|apply lookup_insert_eq|]. left. exists x, ty.
      split_and!; [congruence|done|done|done|done].
    + auto.
Qed.

(** ** Listings *)

Lemma mode_type_idem m : mode_type (mode_type m) = mode_type m.
Proof. unfold mode_type. by rewrite <- Z.land_assoc, Z.land_diag. Qed.

Lemma dirent_type_ok m ty :
  sqlTypeName (mode_type m) = Ret ty → ∃ d, dirent_type (mode_type m) = Ret d.
Proof.
  rewrite sqlTypeName_mode_type. unfold dirent_type. rewrite mode_type_idem.
  repeat case_match; try done; eauto.
Qed.

(** The entries of a listing are made one by one. *)
Lemma make_dirents_ok (l : list (string * OneDirEntry)) :
  Forall (λ x, Valid x.2 = true ∧ ∃ d, dirent_type (EntModeType x.2) = Ret d) l →
  ∃ des, make_dirents l = Ret des ∧
    Forall2 (λ x d, de_Name d = x.1 ∧ de_Inode d = EntInode x.2 ∧
                    dirent_type (EntModeType x.2) = Ret (de_Type d)) l des.
Proof.
  induction 1 as [|[name e] l [Hv [d Hd]] _ (des & Hdes & IH)]; [by exists []|].
  simpl in *. rewrite Hv, Hdes. simpl. unfold mbind, outcome_mbind. rewrite Hd.
  eexists. split; [done|]. by constructor.
Qed.

(** What [ReadDirAll] reports of a remote listing [l] below [dir]: its names, each once, with
    the inode of the child's row and the type it was listed with. *)
Definition reports (dir : Dir) (l : list FileInfo) (m : gmap string CachedRow)
    (des : list Dirent) : Prop :=
  Permutation (de_Name <$> des) (Name <$> l) ∧
  ∀ d, d ∈ des → ∃ fi ch, fi ∈ l ∧ de_Name d = Name fi ∧
    m !! child_path dir (Name fi) = Some ch ∧ de_Inode d = Inode ch ∧
    dirent_type (mode_type (Mode fi)) = Ret (de_Type d).

(** The listings for which the metadata cache works as meant. *)
Definition listing_ok (l : list FileInfo) : Prop :=
  NoDup (Name <$> l) ∧
  Forall (λ fi, good_name (Name fi) = true ∧ plain_name (Name fi) = true ∧
                ∃ ty, sqlTypeName (mode_type (Mode fi)) = Ret ty) l.

Lemma reports_entries dir l m (es : gmap string OneDirEntry) :
  listing_ok l →
  (∀ fi, fi ∈ l → ∃ ch, m !! child_path dir (Name fi) = Some ch ∧
     es !! Name fi = Some {| Valid := true; EntInode := Inode ch;
                             EntModeType := mode_type (Mode fi) |}) →
  (∀ n, is_Some (es !! n) → n ∈ Name <$> l) →
  ∃ des, make_dirents (map_to_list es) = Ret des ∧ reports dir l m des.
Proof.
  intros [Hnd Hl] Hes Hdom. rewrite Forall_forall in Hl.
  assert (∀ x, x ∈ map_to_list es → ∃ fi ch, fi ∈ l ∧ x.1 = Name fi ∧
    m !! child_path dir (Name fi) = Some ch ∧
    x.2 = {| Valid := true; EntInode := Inode ch; EntModeType := mode_type (Mode fi) |}) as Hx.
  { intros [n e] Hin%elem_of_map_to_list. simpl.
    destruct (proj1 (list_elem_of_fmap _ _ _) (Hdom n (mk_is_Some _ _ Hin))) as (fi & -> & Hfi).
    destruct (Hes fi Hfi) as (ch & Hch & He). exists fi, ch. split_and!; [done..|]. congruence. }
  destruct (make_dirents_ok (map_to_list es)) as (des & Hdes & HF2).
  { apply Forall_forall. intros x Hin. destruct (Hx x Hin) as (fi & ch & Hfi & _ & _ & ->).
    split; [done|]. destruct (Hl fi Hfi) as (_ & _ & ty & Hty). by eapply dirent_type_ok. }
  exists des. split; [done|]. 
  assert (de_Name <$> des = (map_to_list es).*1) as Hnames.
  { clear -HF2. induction HF2 as [|x d l des (Hn & _) _ IH]; [done|]. rewrite !fmap_cons. by f_equal. }
  split.
  - rewrite Hnames. apply NoDup_Permutation; [apply NoDup_fst_map_to_list|done|].
    intros n. rewrite list_elem_of_fmap. split.
    + intros ([n' e] & -> & Hin%elem_of_map_to_list). apply Hdom. by eexists.
    + intros (fi & -> & Hfi)%list_elem_of_fmap. destruct (Hes fi Hfi) as (ch & _ & He).
      eexists (_, _). split; [|by apply elem_of_map_to_list]. done.
  - intros d Hd. apply list_elem_of_lookup in Hd as [i Hi].
    destruct (Forall2_lookup_r _ _ _ _ _ HF2 Hi) as (x & Hxi & Hn & Hin & Hty).
    apply list_elem_of_lookup_2 in Hxi. destruct (Hx x Hxi) as (fi & ch & Hfi & Hx1 & Hch & Hx2).
    rewrite Hx2 in Hin, Hty. exists fi, ch. split_and!; [done|congruence|done|done|done].
Qed.

(** Rows other than that of [p] are as they were, or new. *)
Definition others_kept (p : string) (m m' : gmap string CachedRow) : Prop :=
  ∀ q cr, q ≠ p → m !! q = Some cr → m' !! q = Some cr.

Definition with_entries (es : gmap string OneDirEntry) (dir : Dir) : Dir :=
  set_dir_data (set_dirEntries es (dir_data dir)) dir.

Definition listed (m : gmap string CachedRow) (dir : Dir) (drow : CachedRow) (l : list FileInfo)
    (des : list Dirent) (n : Dir) (t : list prow) : Prop :=
  ∃ m' es, table_repr t m' ∧ m' !! dir_path dir = Some (entry_set_entries es drow) ∧
    others_kept (dir_path dir) m m' ∧ reports dir l m' des ∧ n = with_entries es dir.
Definition not_listed (m : gmap string CachedRow) (dir n : Dir) (t : list prow) : Prop :=
  n = dir ∧ ∃ m', table_repr t m' ∧ others_kept (dir_path dir) m m'.

Lemma not_listed_refl m dir t : table_repr t m → not_listed m dir dir t.
Proof. intros Ht. split; [done|]. exists m. split; [done|]. by intros q cr _. Qed.

Lemma not_listed_more m dir t m' : m ⊆ m' → table_repr t m' → not_listed m dir dir t.
Proof.
  intros Hsub Ht. split; [done|]. exists m'. split; [done|]. intros q cr _ Hq. by eapply lookup_weaken.
Qed.

(** A stored listing: what it says of the children and what it leaves alone. *)
Definition listing_stored (m : gmap string CachedRow) (cs : list string) (drow : CachedRow)
    (l : list FileInfo) (es : gmap string OneDirEntry) (m' : gmap string CachedRow) : Prop :=
  m' !! abs_path cs = Some (entry_set_entries es drow) ∧
  (∀ fi, fi ∈ l → ∃ ch, m' !! Join [abs_path cs; Name fi] = Some ch ∧
     es !! Name fi = Some {| Valid := true; EntInode := Inode ch;
                             EntModeType := mode_type (Mode fi) |}) ∧
  (∀ n, is_Some (es !! n) → n ∈ Name <$> l) ∧ others_kept (abs_path cs) m m'.

Lemma store_listing_settles m dir drow cs f (w : W) :
  stats_wf (w_stats w) → table_repr (db_view w) m →
  dir_path dir = abs_path cs → Forall (λ n, good_name n = true) cs →
  m !! abs_path cs = Some drow → Inode drow = dir_inode dir → tr_domain f ∈ allDomains →
  (∀ l s, file_Readdir (tr_file f) (w_os w) = (Ret l, s) → listing_ok l) →
  settles (λ _ n _ t, n = dir ∧ ∃ l s m' es, file_Readdir (tr_file f) (w_os w) = (Ret l, s) ∧
             table_repr t m' ∧ listing_stored m cs drow l es m')
    (λ _ n _ t, not_listed m dir n t) (λ n _ t, not_listed m dir n t)
    (store_listing dir f (dir, w)).
Proof.
  intros Hwf Ht Hpath Hcs Hdrow Hino Hdom Hok. unfold store_listing. rewrite <- Hino, Hpath.
  eapply settles_bind_call; [by apply Readdir_call|done| |].
  { intros e s Hl. by apply not_listed_refl. }
  intros l w1 Hwf1 Hdb Hl. destruct (Hok _ _ Hl) as [Hnd Hall]. rewrite <- Hdb in Ht.
  eapply settles_weaken; [eapply settles_metadata; [done|by apply PutDirEntries_lists_ran]|..].
  - intros u n s t (-> & _ & m' & es & Ht' & Hd' & Hes & Hdm & Hk). split; [done|].
    exists l, (w_os w1), m', es. by split_and!.
  - intros e n s t (_ & -> & _ & m' & Hsub & Ht'). by eapply not_listed_more.
  - intros n s t (-> & _ & m' & Hsub & Ht'). by eapply not_listed_more.
Qed.

Lemma fetch_listing_settles m dir drow cs f (w : W) :
  stats_wf (w_stats w) → table_repr (db_view w) m →
  dir_path dir = abs_path cs → Forall (λ n, good_name n = true) cs →
  m !! dir_path dir = Some drow → Inode drow = dir_inode dir → tr_domain f ∈ allDomains →
  (∀ l s, file_Readdir (tr_file f) (w_os w) = (Ret l, s) → listing_ok l) →
  settles (λ des n _ t, ∃ l s, file_Readdir (tr_file f) (w_os w) = (Ret l, s) ∧
             listed m dir drow l des n t)
    (λ _ n _ t, not_listed m dir n t) (λ n _ t, not_listed m dir n t)
    ((store_listing dir f;; load_listing dir;; list_dirents) (dir, w)).
Proof.
  intros Hwf Ht Hpath Hcs Hdrow Hino Hdom Hok. rewrite Hpath in Hdrow.
  eapply settles_bind; [by eapply store_listing_settles|].
  intros u n w1 Hwf1 (-> & l & s1 & m' & es & Hl & Ht' & Hd' & Hes & Hdm & Hk).
  assert (∀ t, table_repr t m' → not_listed m dir dir t) as Hnot.
  { intros t Htt. split; [done|]. exists m'. by rewrite Hpath. }
  unfold load_listing. rewrite <- Hino.
  replace (Inode drow) with (Inode (entry_set_entries es drow)) by done.
  eapply settles_bind with (P := λ _ n s t, n = with_entries es dir ∧ table_repr t m').
  { eapply settles_bind_metadata; [done|by apply (GetDirEntries_lookup_ran m' (abs_path cs))|..].
    - intros code t ->. by apply Hnot.
    - intros t ->. by apply Hnot.
    - intros o w2 Hwf2 _ [-> Ht2]. split; [done|]. simpl. by rewrite (left_id_L ∅ (∪)). }
  intros u' n w2 Hwf2 (-> & Ht2). apply settles_get. simpl.
  destruct (reports_entries dir l m' es (Hok _ _ Hl)) as (des & Hdes & Hrep).
  { unfold child_path. by rewrite Hpath. }
  { done. }
  unfold go_lift. rewrite Hdes. split; [done|]. simpl. exists l, s1. split; [done|].
  exists m', es. rewrite Hpath. by split_and!.
Qed.

(** A directory that is not listed yet. *)
Lemma ReadDirAll_miss_settles m dir drow cs (w : W) :
  stats_wf (w_stats w) → table_repr (db_view w) m →
  dir_path dir = abs_path cs → Forall (λ n, good_name n = true) cs →
  m !! dir_path dir = Some drow → Inode drow = dir_inode dir →
  dir_direct dir = true ∨ dirEntries (dir_data dir) = None →
  (∀ f s1 l s2, os_Open (dir_belowPath dir) (w_os w) = (Ret f, s1) →
     file_Readdir f s1 = (Ret l, s2) → listing_ok l) →
  (dir_direct dir = true → ∀ e s, os_Open (dir_belowPath dir) (w_os w) ≠ (Err e, s)) →
  settles
    (λ des n _ t, ∃ f s1 l s2, os_Open (dir_belowPath dir) (w_os w) = (Ret f, s1) ∧
       file_Readdir f s1 = (Ret l, s2) ∧ listed m dir drow l des n t)
    (λ _ n _ t, not_listed m dir n t) (λ n _ t, not_listed m dir n t)
    (ReadDirAll (dir, w)).
Proof.
  intros Hwf Ht Hpath Hcs Hdrow Hino Hmode Hok Hopen. unfold ReadDirAll. apply settles_get.
  assert (∀ f (w' : W), stats_wf (w_stats w') → db_view w' = db_view w →
    os_Open_traced RemoteDomain (dir_belowPath dir) (w_os w) = (Ret f, w_os w') →
    settles
    (λ des n _ t, ∃ f s1 l s2, os_Open (dir_belowPath dir) (w_os w) = (Ret f, s1) ∧
       file_Readdir f s1 = (Ret l, s2) ∧ listed m dir drow l des n t)
    (λ _ n _ t, not_listed m dir n t) (λ n _ t, not_listed m dir n t)
    (go_defer (on_world (tr_Close f))
       (store_listing dir f;; load_listing dir;; list_dirents) (dir, w'))) as Hfetch.
  { intros f w' Hwf' Hdb [Ho Hd]%opened_traced.
    assert (tr_domain f ∈ allDomains) as Hdom by (rewrite Hd; right; by left).
    apply (settles_defer_close (λ des n t, ∃ f s1 l s2,
        os_Open (dir_belowPath dir) (w_os w) = (Ret f, s1) ∧
        file_Readdir f s1 = (Ret l, s2) ∧ listed m dir drow l des n t)
      (λ _ n t, not_listed m dir n t) (λ n t, not_listed m dir n t)); [done|].
    rewrite <- Hdb in Ht. eapply settles_weaken; [by eapply fetch_listing_settles; eauto|..|done|done].
    intros des n s' t (l & s2 & Hl & Hlist). simpl. by exists (tr_file f), (w_os w'), l, s2. }
  destruct (dir_direct dir) eqn:Hd; simpl.
  - apply settles_direct; [done|in_ops|]. intros st Hst.
    eapply settles_bind_try_call; [apply Open_call; right; by left|done|..].
    { intros e w1 _ _ He%not_opened_traced. by destruct (Hopen eq_refl e (w_os w1)). }
    intros f w1 Hwf1 Hdb Ho. by apply Hfetch.
  - destruct Hmode as [?|Hnone]; [done|]. rewrite Hnone. simpl.
    apply settles_miss; [done|in_ops|]. intros st Hst.
    eapply settles_bind_call; [apply Open_call; right; by left|done|..].
    + intros e s _. by apply not_listed_refl.
    + intros f w1 Hwf1 Hdb Ho. by apply Hfetch.
Qed.

(** ** Files *)

Definition with_hash (k : string) (f : FileNode) : FileNode :=
  set_file_data (set_hash k (file_data f)) f.

(** The metadata after a call that may have recorded a digest for the file. *)
Definition hash_recorded (m : gmap string CachedRow) (f : FileNode) (cr : CachedRow)
    (t : list prow) : Prop :=
  table_repr t m ∨ ∃ k, table_repr t (<[file_path f := entry_set_hash (stored k) cr]> m).

(** The handle reads the contents [c], which are in the cache under their digest [k]. *)
Definition reads_contents (rs : list string) (h : openFile) (k : string) (c : bytes) (s : OS) : Prop :=
  digest c = k ∧ os_local s !! key_path rs k = Some (Regular c) ∧
  ∃ rd, of_reader h = Some rd ∧ tr_domain rd = LocalDomain ∧
        os_image s !! f_fd (tr_file rd) = Some c.

Context (rs : list string) (Hroot : owns_root (OS := OS) rs).
Context (Hcache : g_content globals = NewContentCache (abs_path rs)).

(** Fetching the contents and recording their digest. *)
Lemma fetch_contents_settles m (f : FileNode) cr (w : W) :
  stats_wf (w_stats w) → table_repr (db_view w) m → m !! file_path f = Some cr →
  Inode cr = file_inode f → content_inv rs (os_local (w_os w)) →
  settles
    (λ k n s t, n = f ∧ t = db_view w ∧ is_key k = true ∧ content_inv rs (os_local s) ∧
       content_extends rs (os_local (w_os w)) (os_local s) ∧
       ∀ c, opens_with (file_belowPath f) (w_os w) c → k = digest c)
    (λ _ n s t, n = f ∧ t = db_view w ∧ content_inv rs (os_local s) ∧
       content_extends rs (os_local (w_os w)) (os_local s))
    (λ n s t, n = f ∧ t = db_view w ∧ content_inv rs (os_local s) ∧
       content_extends rs (os_local (w_os w)) (os_local s))
    (on_world (PutContents (g_content globals) (file_belowPath f)) (f, w)).
Proof.
  intros Hwf Ht Hm Hi Hinv. destruct Hroot as [Hg Hl]. rewrite Hcache.
  eapply settles_weaken.
  { eapply settles_of_os; [apply PutContents_conn|]. by apply (PutContents_post rs Hg Hl). }
  - intros k n s t (-> & (h & Hh & Hdone) & ->). pose proof (put_done_extends rs Hg _ _ _ _ Hdone) as He.
    destruct Hdone as [-> _]. split_and!; [done|done|apply digest_is_key| |done|].
    + by eapply content_extends_inv.
    + intros c Hc. by rewrite (Hh c Hc).
  - intros e n s t (-> & Hf & ->). apply (put_failed_extends rs) in Hf.
    split_and!; [done|done| |done]. by eapply content_extends_inv.
  - intros n s t (-> & [_ Hf] & ->). apply (put_failed_extends rs) in Hf.
    split_and!; [done|done| |done]. by eapply content_extends_inv.
Qed.

Lemma store_hash_settles m (f : FileNode) cr k (w : W) :
  stats_wf (w_stats w) → table_repr (db_view w) m → m !! file_path f = Some cr →
  Inode cr = file_inode f →
  settles
    (λ _ n s t, n = with_hash k f ∧ s = w_os w ∧
       table_repr t (<[file_path f := entry_set_hash (stored k) cr]> m))
    (λ _ n s t, n = f ∧ s = w_os w ∧ t = db_view w) (λ n s t, n = f ∧ s = w_os w ∧ t = db_view w)
    (store_hash f k (f, w)).
Proof.
  intros Hwf Ht Hm Hi. unfold store_hash. rewrite <- Hi.
  eapply settles_bind_metadata; [done|by apply PutContentHash_ran|by intros code t ->|by intros t ->|].
  intros u w' Hwf' Hs Ht'. split; [done|]. simpl. by rewrite Hs.
Qed.

(** Opening the file of a digest that is recorded in the node. *)
Lemma open_contents_settles (f : FileNode) k (w : W) :
  stats_wf (w_stats w) → is_key k = true → content_inv rs (os_local (w_os w)) →
  settles
    (λ h n s t, n = f ∧ os_local s = os_local (w_os w) ∧ t = db_view w ∧
       ∃ c, reads_contents rs h k c s)
    (λ _ n s t, n = f ∧ os_local s = os_local (w_os w) ∧ t = db_view w) (λ _ _ _, False)
    ((path ← on_world (GetFileForContents (g_content globals) k);
      input ← on_world (Open LocalDomain path);
      mret {| of_path := file_path f; of_reader := Some input |}) (f, w)).
Proof.
  intros Hwf Hk Hinv. destruct Hroot as [Hg Hl]. rewrite Hcache. eapply settles_bind.
  { eapply settles_weaken; [eapply settles_of_os;
      [apply GetFileForContents_conn|by apply (GetFileForContents_post rs Hg Hl)]|..].
    - intros p n s t Hx. exact Hx.
    - intros e n s t (-> & Hs & ->). done.
    - by intros n s t (_ & [] & _). }
  intros p n w1 Hwf1 (-> & (-> & Hl1 & [nd Hnd]) & Hdb).
  destruct (Hinv _ _ Hk Hnd) as (c & -> & Hc).
  pose proof (Open_spec (key_path rs k) (w_os w1)) as Hs.
  eapply settles_bind_call; [apply Open_call; by left|done|..].
  { intros e s Ho%not_opened_traced. rewrite Ho in Hs. destruct Hs as (_ & Hls & _).
    split_and!; [done|congruence|done]. }
  intros rd w2 Hwf2 Hdb2 [Ho Hd]%opened_traced. rewrite Ho in Hs. destruct Hs as (_ & Hls & _ & _ & Him).
  split; [done|]. split_and!; [done|congruence|congruence|]. exists c.
  split; [done|]. split; [simpl; congruence|]. exists rd. split_and!; [done..|].
  apply Him; [by apply local_key|by rewrite Hl1].
Qed.

Definition opened (m : gmap string CachedRow) (f : FileNode) (cr : CachedRow) (k : string)
    (s0 : OS) (t0 : list prow) (n : FileNode) (t : list prow) : Prop :=
  (contentHash (file_data f) = Some k ∧ n = f ∧ t = t0) ∨
  ((file_direct f = true ∨ contentHash (file_data f) = None) ∧ n = with_hash k f ∧
   table_repr t (<[file_path f := entry_set_hash (stored k) cr]> m) ∧
   ∀ c, opens_with (file_belowPath f) s0 c → k = digest c).

(** The content cache only grew and is content addressed. *)
Definition content_kept (s0 s : OS) : Prop :=
  content_inv rs (os_local s) ∧ content_extends rs (os_local s0) (os_local s).

(** The node [n] knows the digest [k] of its contents. *)
Definition hash_known (m : gmap string CachedRow) (f : FileNode) (cr : CachedRow) (s0 : OS)
    (t0 : list prow) (k : string) (n : FileNode) (t : list prow) : Prop :=
  is_key k = true ∧ file_path n = file_path f ∧ hash_recorded m f cr t ∧
  contentHash (file_data n) = Some k ∧ opened m f cr k s0 t0 n t.

Lemma hash_known_before m f cr s0 t0 k :
  is_key k = true → table_repr t0 m → contentHash (file_data f) = Some k →
  hash_known m f cr s0 t0 k f t0.
Proof. intros Hk Ht Hf. split_and!; [done|done|by left|done|by left]. Qed.

(** The contents are fetched and their digest is recorded. *)
Lemma fetch_and_store_settles m (f : FileNode) cr k s0 t0 (w : W) :
  stats_wf (w_stats w) → table_repr (db_view w) m → m !! file_path f = Some cr →
  Inode cr = file_inode f → is_key k = true → content_kept s0 (w_os w) →
  (∀ c, opens_with (file_belowPath f) s0 c → k = digest c) →
  file_direct f = true ∨ contentHash (file_data f) = None →
  settles (λ _ n s t, content_kept s0 s ∧ ∃ k, hash_known m f cr s0 t0 k n t)
    (λ _ n s t, content_kept s0 s ∧ hash_recorded m f cr t)
    (λ n s t, content_kept s0 s ∧ hash_recorded m f cr t)
    (store_hash f k (f, w)).
Proof.
  intros Hwf Ht Hm Hi Hk Hc Hd Hmode.
  eapply settles_weaken; [by apply (store_hash_settles m f cr k w)|..].
  - intros u n s t (-> & -> & Ht'). split; [done|]. exists k. split_and!; [done|done| |done|].
    + right. by exists k.
    + right. by split_and!.
  - intros e n s t (-> & -> & ->). split; [done|by left].
  - intros n s t (-> & -> & ->). split; [done|by left].
Qed.

Lemma File_Open_settles m (f : FileNode) cr (w : W) :
  stats_wf (w_stats w) → table_repr (db_view w) m → m !! file_path f = Some cr →
  Inode cr = file_inode f → content_inv rs (os_local (w_os w)) →
  (∀ k, contentHash (file_data f) = Some k → is_key k = true) →
  settles
    (λ h n s t, content_kept (w_os w) s ∧ ∃ k c, reads_contents rs h k c s ∧
       contentHash (file_data n) = Some k ∧ opened m f cr k (w_os w) (db_view w) n t)
    (λ _ n s t, content_kept (w_os w) s ∧ hash_recorded m f cr t)
    (λ n s t, content_kept (w_os w) s ∧ hash_recorded m f cr t)
    (File_Open globals (f, w)).
Proof.
  intros Hwf Ht Hm Hi Hinv Hkey. unfold File_Open. apply settles_get.
  eapply settles_bind with (P := λ _ n s t, content_kept (w_os w) s ∧
    ∃ k, hash_known m f cr (w_os w) (db_view w) k n t).
  2:{ intros u n w' Hwf' ([Hinv' Hext'] & k & Hk & Hpath & Hrec & Hhash & Hop). apply settles_get.
      rewrite Hhash.
      eapply settles_weaken; [by eapply (open_contents_settles n k w')|..|done].
      - intros h n' s t (-> & Hl & -> & c & Hc). split; [by split; rewrite Hl|]. by exists k, c.
      - intros e n' s t (-> & Hl & ->). split; [by split; rewrite Hl|done]. }
  assert (∀ t n s, n = f ∧ t = db_view w ∧ content_inv rs (os_local s) ∧
    content_extends rs (os_local (w_os w)) (os_local s) → content_kept (w_os w) s ∧ hash_recorded m f cr t)
    as Hfailed by (intros t n s (_ & -> & ? & ?); by split; [|left]).
  destruct (file_direct f) eqn:Hd;
    [|destruct (bool_decide (is_Some (contentHash (file_data f)))) eqn:Hc; simpl].
  - apply settles_direct; [done|in_ops|]. intros st Hst. eapply settles_bind.
    { eapply settles_weaken; [eapply settles_try;
        by apply (fetch_contents_settles m f cr (set_w_stats st w))|..].
      - intros r n s t Hx. exact Hx.
      - intros e n s t Hx. exact Hx.
      - intros n s t Hx. exact (Hfailed t n s Hx). }
    intros [e|k] n w1 Hwf1 Hx; destruct Hx as (-> & Hdb & Hx); change (db_view w1 = db_view w) in Hdb.
    + destruct (bool_decide (is_Some (contentHash (file_data f)))) eqn:Hc; (split; [done|]); simpl;
        rewrite Hdb; (split; [done|]); [|by left].
      apply bool_decide_eq_true in Hc as [k Hkf]. exists k. by apply hash_known_before; auto.
    + destruct Hx as (Hk & Hc1 & Hc2 & Hcd). rewrite <- Hdb in Ht.
      apply fetch_and_store_settles; auto; done.
  - apply bool_decide_eq_true in Hc as [k Hkf].
    rewrite <- (go_ret_bind (AccountHit OpenFuseOp)).
    apply settles_hit; [done|in_ops|]. intros st Hst. split; [done|]. simpl.
    split; [by split|]. exists k. by apply hash_known_before; auto.
  - apply bool_decide_eq_false, eq_None_not_Some in Hc.
    apply settles_miss; [done|in_ops|]. intros st Hst. eapply settles_bind.
    { eapply settles_weaken; [by apply (fetch_contents_settles m f cr (set_w_stats st w))| |
        intros e n s t Hx; exact (Hfailed t n s Hx)|intros n s t Hx; exact (Hfailed t n s Hx)].
      intros r n s t Hx. exact Hx. }
    intros k n w1 Hwf1 (-> & Hdb & Hk & Hc1 & Hc2 & Hcd). change (db_view w1 = db_view w) in Hdb.
    rewrite <- Hdb in Ht. apply fetch_and_store_settles; auto; done.
Qed.

(** Reading from a handle. *)
Lemma openFile_Read_settles h k c size offset (w : W) :
  stats_wf (w_stats w) → reads_contents rs h k c (w_os w) → 0 ≤ offset →
  settles (λ data n s t, n = h ∧ t = db_view w ∧ os_local s = os_local (w_os w) ∧
             data = take size (drop (Z.to_nat offset) c))
    (λ _ n s t, n = h ∧ t = db_view w ∧ os_local s = os_local (w_os w)) (λ _ _ _, False)
    (openFile_Read size offset (h, w)).
Proof.
  intros Hwf (Hc & Hl & rd & Hrd & Hd & Him) Hoff. unfold openFile_Read.
  apply settles_hit; [done|in_ops|]. intros st Hst. apply settles_get. rewrite Hrd.
  eapply settles_bind with (P := λ '(data, err) n s t, n = h ∧ t = db_view w ∧
    os_local s = os_local (w_os w) ∧
    (err = None ∨ err = Some EEOF → data = take size (drop (Z.to_nat offset) c))).
  { unfold tr_ReadAt. pose proof (ReadAt_spec (tr_file rd) size offset (w_os w)) as Hs.
    destruct (account_bumped {| ev_counter := COs (tr_domain rd) ReadOsOp; ev_amount := 0 |} st Hst)
      as (st1 & Hst1 & Hb1); [rewrite Hd; split; [by left|do 4 right; by left]|].
    unfold account in Hst1. simpl in Hst1. apply bumped_wf in Hb1; [|done].
    unfold on_world, mbind, go_mbind, go_bind, on_stats, on_os, go_zoom. simpl. rewrite Hst1. simpl.
    destruct (file_ReadAt (tr_file rd) size offset (w_os w)) as [o s].
    destruct Hs as (Hls & data & err & -> & Hlen & Hdata). simpl.
    specialize (Hdata c Him Hoff). unfold account_read.
    destruct (bool_decide (err = None) && (0 <? Z.of_nat (length data))); [|by split].
    destruct (account_bumped {| ev_counter := CRead (tr_domain rd);
      ev_amount := Z.of_nat (length data) |} st1 Hb1) as (st2 & Hst2 & Hb2); [rewrite Hd; by left|].
    unfold account in Hst2. simpl in Hst2. apply bumped_wf in Hb2; [|done].
    unfold on_stats, go_zoom. simpl. rewrite Hst2. by split. }
  intros [data err] n w1 Hwf1 (-> & Hdb & Hls & Hdata).
  destruct err as [[]|]; (split; [done|]); simpl; split_and!; done || (apply Hdata; auto).
Qed.
End fs.
