(* ===== verification/FsTheorems.v ===== *)
(** The properties of the file system, with their instances on a small tree. *)
From S2P Require Import Prelude GoStrings GoPath Stats Types DirEntries Sql Sqlite Kernel.
From S2P Require Import Syscalls Metadata MetadataSpec MetadataProps WorldPost Md5 Content.
From S2P Require Import ContentProps Fs FsLogic FsProps.
#[local] Open Scope Z_scope.
#[local] Arguments newNodeForEntry : simpl never.
#[local] Arguments Join : simpl never.
#[local] Arguments make_dirents : simpl never.

(** A handler answers from the node alone: the answer is [a], the only effect is that the hit
    counter of [op] goes up by one. *)
Definition served_from_memory {OS DB N A} (op : FuseOp) (m : GoM (N * World OS DB) A) (n : N)
    (a : A) : Prop :=
  ∀ w, stats_wf (w_stats w) → ∃ st,
    m (n, w) = (Ret a, (n, set_w_stats st w)) ∧
    bumped {| ev_counter := CHit op; ev_amount := 0 |} (w_stats w) st.

Section lemmas.
Context {OS DB : Type} `{KernelLaws OS, SqlLaws DB, !Fuel}.
Context (globals : globalState).

Lemma account_hit {N} op (n : N) (w : World OS DB) :
  stats_wf (w_stats w) → op ∈ allFuseOps → ∃ st,
  AccountHit op (n, w) = (Ret (), (n, set_w_stats st w)) ∧
  bumped {| ev_counter := CHit op; ev_amount := 0 |} (w_stats w) st.
Proof.
  intros Hwf Hop.
  destruct (account_bumped {| ev_counter := CHit op; ev_amount := 0 |} _ Hwf Hop) as (st & Hst & Hb).
  exists st. split; [|done]. unfold AccountHit, on_world, on_stats, go_zoom. simpl.
  unfold account in Hst. simpl in Hst. by rewrite Hst.
Qed.

Lemma hit_attr inode belowPath fi :
  served_from_memory (OS := OS) (DB := DB) AttrFuseOp (commonAttr inode false belowPath)
    (Some fi) (attr_of inode fi).
Proof.
  intros w Hwf. destruct (account_hit AttrFuseOp (Some fi) w Hwf ltac:(in_ops)) as (st & Hst & Hb).
  exists st. split; [|done]. unfold commonAttr, get_node, on_node, go_get, mbind, go_mbind, go_bind,
    go_zoom. simpl. by rewrite Hst.
Qed.

Lemma hit_readlink l t :
  link_direct l = false → target (link_data l) = Some t →
  served_from_memory (OS := OS) (DB := DB) ReadlinkFuseOp Symlink_Readlink l t.
Proof.
  intros Hd Ht w Hwf. destruct (account_hit ReadlinkFuseOp l w Hwf ltac:(in_ops)) as (st & Hst & Hb).
  exists st. split; [|done]. unfold Symlink_Readlink, get_node, on_node, go_get, mbind, go_mbind,
    go_bind, go_zoom. simpl. rewrite Hd, Ht. simpl. rewrite Hst. simpl. by rewrite Ht.
Qed.

(** A known listing is answered from memory, or panics on an entry of an unknown type. *)
Lemma hit_listing dir es (w : World OS DB) :
  dir_direct dir = false → dirEntries (dir_data dir) = Some es → stats_wf (w_stats w) → ∃ st,
  ReadDirAll (dir, w) = (make_dirents (map_to_list es), (dir, set_w_stats st w)) ∧
  bumped {| ev_counter := CHit ReaddirFuseOp; ev_amount := 0 |} (w_stats w) st.
Proof.
  intros Hd Hes Hwf. destruct (account_hit ReaddirFuseOp dir w Hwf ltac:(in_ops)) as (st & Hst & Hb).
  exists st. split; [|done]. unfold ReadDirAll, list_dirents, get_node, on_node, go_get, mbind,
    go_mbind, go_bind, go_zoom, go_lift. simpl. rewrite Hd, Hes. simpl. rewrite Hst. simpl.
  by rewrite Hes.
Qed.

Lemma hit_readdir dir es des :
  dir_direct dir = false → dirEntries (dir_data dir) = Some es →
  make_dirents (map_to_list es) = Ret des →
  served_from_memory (OS := OS) (DB := DB) ReaddirFuseOp ReadDirAll dir des.
Proof.
  intros Hd Hes Hdes w Hwf. destruct (hit_listing dir es w Hd Hes Hwf) as (st & -> & Hb).
  exists st. by rewrite Hdes.
Qed.

Lemma hit_lookup dir name row (w : World OS DB) :
  dir_direct dir = false → rows (dir_data dir) !! name = Some row →
  Lookup globals name (dir, w)
  = (newNodeForEntry globals (dir_path dir) (dir_belowPath dir) row name, (dir, w)).
Proof.
  intros Hd Hrow. unfold Lookup, mbind at 1, go_mbind, go_bind at 1.
  unfold get_node, on_node, go_get, go_zoom. simpl. rewrite Hd. simpl. rewrite Hrow. done.
Qed.

(** A preorder on the rows is kept by a handler when the database calls keep it. *)
Definition rows_rel {N} (R : relation (list prow)) : relation (N * World OS DB) :=
  λ s s', R (db_view s.2) (db_view s'.2).

#[export] Instance rows_rel_preorder {N} R `{!PreOrder R} : PreOrder (rows_rel (N := N) R).
Proof. unfold rows_rel. split; [by intros ?|by intros ?????; etrans]. Qed.

Lemma framed_metadata {N A} (R : relation (list prow)) (m : GoM (Conn DB) A) :
  framed (on_rows R) m → framed (rows_rel (N := N) R) (metadata m).
Proof.
  intros Hm [n w]. specialize (Hm (w_conn w)). unfold metadata, on_world, on_conn, go_zoom. simpl.
  by destruct (m (w_conn w)).
Qed.

Lemma framed_on_world_conn {N A} (R : relation (list prow)) `{!PreOrder R} (m : GoM (World OS DB) A) :
  framed same_conn m → framed (rows_rel (N := N) R) (on_world m).
Proof.
  intros Hm [n w]. specialize (Hm w). unfold on_world, go_zoom, rows_rel, db_view. simpl.
  destruct (m w) as [o w']. simpl in *. by rewrite Hm.
Qed.

Lemma framed_on_node {N A} (R : relation (list prow)) `{!PreOrder R} (m : GoM N A) :
  framed (rows_rel R) (on_node (OS := OS) (DB := DB) m).
Proof. intros [n w]. unfold on_node, go_zoom, rows_rel. simpl. by destruct (m n). Qed.

Lemma framed_part {N P A} (R : relation (list prow)) (get : N → P) (put : P → N → N)
    (m : GoM (P * World OS DB) A) :
  framed (rows_rel R) m →
  framed (rows_rel R)
    (go_zoom (λ s, (get s.1, s.2)) (λ '(p, w) s, (put p s.1, w)) m).
Proof. intros Hm [n w]. specialize (Hm (get n, w)). unfold go_zoom. simpl. by destruct (m _) as [o []]. Qed.
End lemmas.

Section contended.
Context {OS DB : Type} `{Kernel OS, SqlEngine DB, !Fuel}.
Context (globals : globalState).

(** The database answers the query that it is busy. *)
Definition contended (q : SqlQuery) (d d' : DB) : Prop := db_query q d = (Err (ESqlite ErrBusy), d').

(** [c'] is the connection after that one answer and a sleep for every step of the fuel. *)
Definition stuck_at (d' : DB) (c c' : Conn DB) : Prop :=
  c_db c' = d' ∧ slept_more retry_fuel (c_rt c) (c_rt c').

Lemma query_stuck {A B} q d' (dest : list SqlValue → outcome A)
    (k : GoM (Conn DB) A → GoM (Conn DB) B) (c : Conn DB) :
  query_rowid q ≤ MaxInt64 → contended q (c_db c) d' →
  (∀ m c1 c2, m c1 = (OutOfFuel, c2) → k m c1 = (OutOfFuel, c2)) →
  ∃ c', go_bind (λ row, k (Scan row dest)) (RetryQueryRow q) c = (OutOfFuel, c') ∧ stuck_at d' c c'.
Proof.
  intros Hid Hq Hk. unfold go_bind. rewrite RetryQueryRow_call, Hq by done.
  destruct (retry_loop_stuck (row_Scan (RowErr (ESqlite ErrBusy)) dest) retry_fuel baseDelay
              (set_db d' c)) as (rt & E & Hs); [done|].
  eexists. split; [by apply Hk, E|]. by split.
Qed.

Lemma GetFullEntry_stuck path d' (c : Conn DB) :
  contended (getFullEntryStmt path) (c_db c) d' →
  ∃ c', GetFullEntry path c = (OutOfFuel, c') ∧ stuck_at d' c c'.
Proof.
  intros Hq. refine (query_stuck _ _ _ (λ m, go_bind _ (go_try m)) c _ Hq _); [done|].
  intros m c1 c2 E. unfold go_bind, go_try. by rewrite E.
Qed.

Lemma GetDirEntries_stuck inode es d' (c : Conn DB) :
  inode ≤ MaxInt64 → contended (getDirEntriesStmt inode) (c_db c) d' →
  ∃ c', GetDirEntries inode es c = (OutOfFuel, c') ∧ stuck_at d' c c'.
Proof.
  intros Hi Hq. refine (query_stuck (getDirEntriesStmt inode) _ _ (λ m, go_bind _ m) c Hi Hq _).
  intros m c1 c2 E. unfold go_bind. by rewrite E.
Qed.

Lemma putOneDirEntry_stuck path e ty d' (c : Conn DB) :
  sqlTypeName (mode_type (Mode e)) = Ret ty →
  contended (getInodeStmt (Join [path; Name e])) (c_db c) d' →
  ∃ c', putOneDirEntry path e c = (OutOfFuel, c') ∧ stuck_at d' c c'.
Proof.
  intros Hty Hq. unfold putOneDirEntry, mbind at 1, go_mbind. unfold go_bind at 1, go_lift at 1. rewrite Hty.
  refine (query_stuck _ _ _ (λ m, go_bind _ (go_try m)) c _ Hq _); [done|].
  intros m c1 c2 E. unfold go_bind, go_try. by rewrite E.
Qed.

Lemma Lookup_stuck dir name d' (w : World OS DB) :
  dir_direct dir = true ∨ rows (dir_data dir) !! name = None →
  contended (getFullEntryStmt (child_path dir name)) (c_db (w_conn w)) d' →
  ∃ c', Lookup globals name (dir, w) = (OutOfFuel, (dir, set_w_conn c' w)) ∧ stuck_at d' (w_conn w) c'.
Proof.
  intros Hslow Hq. destruct (GetFullEntry_stuck _ _ (w_conn w) Hq) as (c' & E & Hs).
  exists c'. split; [|done]. unfold Lookup, mbind at 1, go_mbind, go_bind at 1.
  unfold get_node, on_node, go_get, go_zoom. simpl.
  assert ((if negb (dir_direct dir) then rows (dir_data dir) !! name else None) = None) as ->
    by (destruct Hslow as [-> | ->]; [done|by destruct (negb _)]).
  unfold metadata, on_world, on_conn, go_zoom, go_bind at 1, mbind. simpl.
  unfold child_path in E. by rewrite E.
Qed.

Lemma rootNode_stuck remotedir d' (w : World OS DB) :
  contended (getFullEntryStmt "/") (c_db (w_conn w)) d' →
  ∃ c', rootNode globals remotedir w = (OutOfFuel, set_w_conn c' w) ∧ stuck_at d' (w_conn w) c'.
Proof.
  intros Hq. destruct (GetFullEntry_stuck _ _ (w_conn w) Hq) as (c' & E & Hs).
  exists c'. split; [|done].
  unfold rootNode, putAndGetRow, on_conn, mbind, go_mbind, go_bind, go_zoom. by rewrite E.
Qed.
End contended.

(** The handlers of the three kinds of nodes and of handles. *)
Inductive DirCall : Type := CallDirAttr | CallLookup (name : string) | CallReadDirAll.
Inductive FileCall : Type := CallFileAttr | CallOpen.
Inductive SymlinkCall : Type := CallSymlinkAttr | CallReadlink.

Section inodes.
Context {OS DB : Type} `{KernelLaws OS, SqlLaws DB, !Fuel}.
Context (globals : globalState).
Abbreviation W := (World OS DB).

Definition dir_call (c : DirCall) : GoM (Dir * W) () :=
  match c with
  | CallDirAttr => _ ← Dir_Attr; mret ()
  | CallLookup name => _ ← Lookup globals name; mret ()
  | CallReadDirAll => _ ← ReadDirAll; mret ()
  end.
Definition file_call (c : FileCall) : GoM (FileNode * W) () :=
  match c with
  | CallFileAttr => _ ← File_Attr; mret ()
  | CallOpen => _ ← File_Open globals; mret ()
  end.
Definition symlink_call (c : SymlinkCall) : GoM (Symlink * W) () :=
  match c with
  | CallSymlinkAttr => _ ← Symlink_Attr; mret ()
  | CallReadlink => _ ← Symlink_Readlink; mret ()
  end.

Section rel.
Context (R : relation (list prow)) `{!PreOrder R}.
Context (HR : ∀ call, framed (on_rows (DB := DB) R) (metadata_call call)).

Lemma framed_call {A} (m : GoM (Conn DB) A) call :
  (∀ c, (metadata_call call c).2 = (m c).2) → framed (on_rows R) m.
Proof. intros Hm c. rewrite <- Hm. apply HR. Qed.

Lemma call_state {A} (m : GoM (Conn DB) A) (c : Conn DB) :
  ((_ ← m; mret ()) c).2 = (m c).2.
Proof. unfold mbind, go_mbind, go_bind. by destruct (m c) as [[] ?]. Qed.

Lemma framed_methods {N} :
  (∀ i out, framed (rows_rel (OS := OS) (N := N) R) (metadata (GetDirEntries i out))) ∧
  (∀ p, framed (rows_rel (OS := OS) (N := N) R) (metadata (GetFullEntry p))) ∧
  (∀ p fm, framed (rows_rel (OS := OS) (N := N) R) (metadata (PutNewWithType p fm))) ∧
  (∀ p, framed (rows_rel (OS := OS) (N := N) R) (metadata (PutNewNoEntry p))) ∧
  (∀ p fm, framed (rows_rel (OS := OS) (N := N) R) (metadata (PutNewOrUpdateWithType p fm))) ∧
  (∀ p, framed (rows_rel (OS := OS) (N := N) R) (metadata (PutNewOrUpdateNoEntry p))) ∧
  (∀ i fi, framed (rows_rel (OS := OS) (N := N) R) (metadata (PutFileInfo i fi))) ∧
  (∀ i h, framed (rows_rel (OS := OS) (N := N) R) (metadata (PutContentHash i h))) ∧
  (∀ i t, framed (rows_rel (OS := OS) (N := N) R) (metadata (PutSymlinkTarget i t))) ∧
  (∀ i p l, framed (rows_rel (OS := OS) (N := N) R) (metadata (PutDirEntries i p l))).
Proof.
  split_and!; intros; apply framed_metadata.
  - apply (framed_call _ (CallGetDirEntries i out)). apply call_state.
  - apply (framed_call _ (CallGetFullEntry p)). apply call_state.
  - apply (framed_call _ (CallPutNewWithType p fm)). apply call_state.
  - apply (framed_call _ (CallPutNewNoEntry p)). apply call_state.
  - by apply (framed_call _ (CallPutNewOrUpdateWithType p fm)).
  - by apply (framed_call _ (CallPutNewOrUpdateNoEntry p)).
  - by apply (framed_call _ (CallPutFileInfo i fi)).
  - by apply (framed_call _ (CallPutContentHash i h)).
  - by apply (framed_call _ (CallPutSymlinkTarget i t)).
  - by apply (framed_call _ (CallPutDirEntries i p l)).
Qed.

Lemma framed_os {N A} (m : GoM W A) :
  framed same_conn m → framed (rows_rel (N := N) R) (on_world m).
Proof. by apply framed_on_world_conn. Qed.

Lemma Lstat_conn d p : framed same_conn (Lstat (OS := OS) (DB := DB) d p).
Proof. apply framed_bind; [apply _|apply on_stats_conn|intros ?; apply on_os_conn]. Qed.
Lemma Readlink_conn d p : framed same_conn (Readlink (OS := OS) (DB := DB) d p).
Proof. apply framed_bind; [apply _|apply on_stats_conn|intros ?; apply on_os_conn]. Qed.
Lemma Open_conn d p : framed same_conn (Open (OS := OS) (DB := DB) d p).
Proof.
  apply framed_bind; [apply _|apply on_stats_conn|intros ?].
  apply framed_bind; [apply _|apply on_os_conn|intros ?; apply framed_const, _].
Qed.
Lemma tr_Close_conn tr : framed same_conn (tr_Close (OS := OS) (DB := DB) tr).
Proof. apply framed_bind; [apply _|apply on_stats_conn|intros ?; apply on_os_conn]. Qed.
Lemma tr_Readdir_conn tr : framed same_conn (tr_Readdir (OS := OS) (DB := DB) tr).
Proof. apply framed_bind; [apply _|apply on_stats_conn|intros ?; apply on_os_conn]. Qed.

Lemma framed_accounts {N} op :
  framed (rows_rel (N := N) R) (AccountHit (OS := OS) (DB := DB) op) ∧
  framed (rows_rel (N := N) R) (AccountMiss (OS := OS) (DB := DB) op) ∧
  framed (rows_rel (N := N) R) (AccountDir (OS := OS) (DB := DB) op).
Proof. split_and!; apply framed_os, on_stats_conn. Qed.

Lemma framed_get_node {N} : framed (rows_rel (N := N) R) (get_node (OS := OS) (DB := DB)).
Proof. by apply framed_on_node. Qed.
Lemma framed_set_node {N} (n : N) : framed (rows_rel R) (set_node (OS := OS) (DB := DB) n).
Proof. by apply framed_on_node. Qed.

#[local] Hint Resolve Lstat_conn Readlink_conn Open_conn tr_Close_conn tr_Readdir_conn
  PutContents_conn GetFileForContents_conn framed_get_node framed_set_node framed_on_node : go.
#[local] Hint Extern 1 (framed (rows_rel R) (on_world _)) => apply framed_os : go.
#[local] Hint Extern 1 (framed (rows_rel R) (AccountHit _)) => apply framed_accounts : go.
#[local] Hint Extern 1 (framed (rows_rel R) (AccountMiss _)) => apply framed_accounts : go.
#[local] Hint Extern 1 (framed (rows_rel R) (AccountDir _)) => apply framed_accounts : go.
#[local] Hint Extern 1 (framed (rows_rel R) (metadata _)) => apply framed_methods : go.

Lemma framed_commonAttr i d p : framed (rows_rel R) (commonAttr (OS := OS) (DB := DB) i d p).
Proof. unfold commonAttr. framed_solve. Qed.

Lemma framed_remember name row : framed (rows_rel R) (remember (OS := OS) (DB := DB) globals name row).
Proof. unfold remember. framed_solve. Qed.

Lemma framed_Lookup name : framed (rows_rel R) (Lookup (OS := OS) (DB := DB) globals name).
Proof. pose proof framed_remember as Hrem. unfold Lookup. framed_solve. Qed.

Lemma framed_ReadDirAll : framed (rows_rel R) (ReadDirAll (OS := OS) (DB := DB)).
Proof. unfold ReadDirAll, store_listing, load_listing, list_dirents. framed_solve. Qed.

Lemma framed_File_Open : framed (rows_rel R) (File_Open (OS := OS) (DB := DB) globals).
Proof. unfold File_Open, store_hash. framed_solve. Qed.

Lemma framed_Readlink : framed (rows_rel R) (Symlink_Readlink (OS := OS) (DB := DB)).
Proof. unfold Symlink_Readlink, store_target. framed_solve. Qed.

Lemma framed_dir_call c : framed (rows_rel R) (dir_call c).
Proof.
  destruct c; simpl; apply framed_bind; try apply _; try (intros ?; apply framed_const, _);
    auto using framed_Lookup, framed_ReadDirAll.
  apply framed_bind; [apply _|apply framed_get_node|intros dir].
  apply (framed_part R (λ d, dd_fileInfo (dir_data d))
           (λ fi d, set_dir_data (set_dd_fileInfo fi (dir_data d)) d)), framed_commonAttr.
Qed.
Lemma framed_file_call c : framed (rows_rel R) (file_call c).
Proof.
  destruct c; simpl; apply framed_bind; try apply _; try (intros ?; apply framed_const, _);
    auto using framed_File_Open.
  apply framed_bind; [apply _|apply framed_get_node|intros f].
  apply (framed_part R (λ f, fd_fileInfo (file_data f))
           (λ fi f, set_file_data (set_fd_fileInfo fi (file_data f)) f)), framed_commonAttr.
Qed.
Lemma framed_symlink_call c : framed (rows_rel R) (symlink_call c).
Proof.
  destruct c; simpl; apply framed_bind; try apply _; try (intros ?; apply framed_const, _);
    auto using framed_Readlink.
  apply framed_bind; [apply _|apply framed_get_node|intros f].
  apply (framed_part R (λ l, ld_fileInfo (link_data l))
           (λ fi l, set_link_data (set_ld_fileInfo fi (link_data l)) l)), framed_commonAttr.
Qed.
End rel.
End inodes.

(** * Properties *)

(** C24 (functional).  What is cached in a node is served from memory: outside of direct mode,
    attributes, symlink targets and listings that the node holds, and children that it has looked
    up before, are answered without any system call or database access, in every state of the
    remote.  For attributes, targets and listings the only effect is that the hit counter of the
    operation goes up by one; a known child is found without any effect, so that such a lookup is
    not even counted as a hit. *)
Theorem hits_are_served_from_memory {OS DB} `{KernelLaws OS, SqlLaws DB, !Fuel}
    (globals : globalState) :
  (∀ inode belowPath fi,
     served_from_memory (OS := OS) (DB := DB) AttrFuseOp (commonAttr inode false belowPath)
       (Some fi) (attr_of inode fi)) ∧
  (∀ l t, link_direct l = false → target (link_data l) = Some t →
     served_from_memory (OS := OS) (DB := DB) ReadlinkFuseOp Symlink_Readlink l t) ∧
  (∀ dir es des, dir_direct dir = false → dirEntries (dir_data dir) = Some es →
     make_dirents (map_to_list es) = Ret des →
     served_from_memory (OS := OS) (DB := DB) ReaddirFuseOp ReadDirAll dir des) ∧
  (∀ dir name row (w : World OS DB), dir_direct dir = false →
     rows (dir_data dir) !! name = Some row →
     Lookup globals name (dir, w)
     = (newNodeForEntry globals (dir_path dir) (dir_belowPath dir) row name, (dir, w))).
Proof.
  split_and!; [apply hit_attr|apply hit_readlink|apply hit_readdir|by intros; apply hit_lookup].
Qed.

(** C17 (error).  One busy answer to a row query stops the program for good.  However long the
    retries go on, [GetFullEntry], [GetDirEntries] and the loop of [PutDirEntries] do not return:
    they made the query once, and sleep and look at its answer again and again, so that the
    database is not asked any more, also when it is long free.  So a lookup of a name, known in
    the database or not, that the directory does not remember or in direct mode, stays in its
    first query, with the node as it was (and its lock held), without asking the remote and
    without an answer for the kernel; and a mount whose first query is answered so never gets as
    far as serving. *)
Theorem contended_query_never_returns {OS DB} `{Kernel OS, SqlEngine DB, !Fuel}
    (globals : globalState) :
  (∀ path d' (c : Conn DB), contended (getFullEntryStmt path) (c_db c) d' →
     ∃ c', GetFullEntry path c = (OutOfFuel, c') ∧ stuck_at d' c c') ∧
  (∀ inode es d' (c : Conn DB), inode ≤ MaxInt64 → contended (getDirEntriesStmt inode) (c_db c) d' →
     ∃ c', GetDirEntries inode es c = (OutOfFuel, c') ∧ stuck_at d' c c') ∧
  (∀ path e ty d' (c : Conn DB), sqlTypeName (mode_type (Mode e)) = Ret ty →
     contended (getInodeStmt (Join [path; Name e])) (c_db c) d' →
     ∃ c', putOneDirEntry path e c = (OutOfFuel, c') ∧ stuck_at d' c c') ∧
  (∀ dir name d' (w : World OS DB), dir_direct dir = true ∨ rows (dir_data dir) !! name = None →
     contended (getFullEntryStmt (child_path dir name)) (c_db (w_conn w)) d' →
     ∃ c', Lookup globals name (dir, w) = (OutOfFuel, (dir, set_w_conn c' w)) ∧
           stuck_at d' (w_conn w) c') ∧
  (∀ remotedir d' (w : World OS DB), contended (getFullEntryStmt "/") (c_db (w_conn w)) d' →
     ∃ c', rootNode globals remotedir w = (OutOfFuel, set_w_conn c' w) ∧ stuck_at d' (w_conn w) c').
Proof.
  split_and!; eauto using GetFullEntry_stuck, GetDirEntries_stuck, putOneDirEntry_stuck,
    Lookup_stuck, rootNode_stuck.
Qed.

(** C26 (functional).  Attributes, in every mode, on a database that has the node's row: a known
    file information is served as it is outside of direct mode; otherwise the remote is asked, and
    its answer is returned, remembered in the node and stored in the database; in direct mode a
    failing remote is covered by what is known; and an error, which only the database or a remote
    that fails without anything known can cause, changes nothing. *)
Theorem commonAttr_behaviour {OS DB} `{KernelLaws OS, SqlLaws DB, !Fuel}
    (m : gmap string CachedRow) (path belowPath : string) (cr : CachedRow)
    (fi0 : option FileInfo) (direct : bool) (w : World OS DB) :
  stats_wf (w_stats w) → table_repr (db_view w) m → m !! path = Some cr →
  (∀ fi s, os_Lstat belowPath (w_os w) = (Ret fi, s) → lawful_info path fi) →
  settles
    (λ a n s t, ∃ fi, n = Some fi ∧ a = attr_of (Inode cr) fi ∧
       ((direct = false ∧ fi0 = Some fi ∧ s = w_os w ∧ t = db_view w) ∨
        ((direct = true ∨ fi0 = None) ∧ info_fetched m path belowPath cr fi (w_os w) s t) ∨
        (direct = true ∧ fi0 = Some fi ∧ t = db_view w ∧
         ∃ e, os_Lstat belowPath (w_os w) = (Err e, s))))
    (λ e n s t, n = fi0 ∧ t = db_view w ∧
       ((∃ code, e = ESqlite code) ∨ (fi0 = None ∧ os_Lstat belowPath (w_os w) = (Err e, s))))
    (λ n s t, n = fi0 ∧ t = db_view w)
    (commonAttr (Inode cr) direct belowPath (fi0, w)).
Proof. apply commonAttr_settles. Qed.

(** [Readlink], in every mode: as [commonAttr_behaviour], for the target of a
    symbolic link. *)
Theorem Readlink_behaviour {OS DB} `{KernelLaws OS, SqlLaws DB, !Fuel}
    (m : gmap string CachedRow) (l : Symlink) (cr : CachedRow) (w : World OS DB) :
  stats_wf (w_stats w) → table_repr (db_view w) m →
  m !! link_path l = Some cr → Inode cr = link_inode l →
  settles
    (λ a n s t,
       ((link_direct l = false ∧ target (link_data l) = Some a ∧ n = l ∧ s = w_os w ∧
         t = db_view w) ∨
        ((link_direct l = true ∨ target (link_data l) = None) ∧ n = with_target a l ∧
         target_fetched m l cr a (w_os w) s t) ∨
        (link_direct l = true ∧ target (link_data l) = Some a ∧ n = l ∧ t = db_view w ∧
         ∃ e, os_Readlink (link_belowPath l) (w_os w) = (Err e, s))))
    (λ e n s t, n = l ∧ t = db_view w ∧
       ((∃ code, e = ESqlite code) ∨
        (target (link_data l) = None ∧ os_Readlink (link_belowPath l) (w_os w) = (Err e, s))))
    (λ n s t, n = l ∧ t = db_view w)
    (Symlink_Readlink (l, w)).
Proof. apply Symlink_Readlink_settles. Qed.

(** C23 (functional).  A lookup of a path that the database knows, outside of direct mode, is
    answered without the remote: the node of the row, which the directory remembers, or ENOENT
    when the row is a recorded absence; the database is not changed. *)
Theorem Lookup_known {OS DB} `{KernelLaws OS, SqlLaws DB, !Fuel} (globals : globalState)
    (m : gmap string CachedRow) (dir : Dir) (name : string) (row : CachedRow) (w : World OS DB) :
  stats_wf (w_stats w) → table_repr (db_view w) m → number_like (child_path dir name) = false →
  dir_direct dir = false → rows (dir_data dir) !! name = None →
  m !! child_path dir name = Some row →
  settles
    (λ nd n s t, node_for globals dir name row = Ret nd ∧ n = remembered dir name row ∧
                 s = w_os w ∧ table_repr t m)
    (λ e n s t, s = w_os w ∧ table_repr t m ∧
       (((∃ code, e = ESqlite code) ∧ n = dir) ∨
        (e = EFuseENOENT ∧ TypeName row = "noentry" ∧ n = remembered dir name row)))
    (λ n s t, n = dir ∧ s = w_os w ∧ table_repr t m)
    (Lookup globals name (dir, w)).
Proof. apply Lookup_hit_settles. Qed.

(** C22 (functional).  A lookup of an unknown path outside of direct mode asks the remote once: a
    file, directory or symlink gets a new row of its type under a fresh inode and the node of that
    row; an absent name gets a row that records the absence, and ENOENT; any other failure of the
    remote is returned and nothing is recorded. *)
Theorem Lookup_unknown {OS DB} `{KernelLaws OS, SqlLaws DB, !Fuel} (globals : globalState)
    (m : gmap string CachedRow) (dir : Dir) (name : string) (w : World OS DB) :
  stats_wf (w_stats w) → table_repr (db_view w) m → number_like (child_path dir name) = false →
  dir_direct dir = false → rows (dir_data dir) !! name = None →
  m !! child_path dir name = None →
  (∀ fi s, os_Lstat (child_below dir name) (w_os w) = (Ret fi, s) →
           ∃ ty, sqlTypeName (mode_type (Mode fi)) = Ret ty) →
  settles
    (λ nd n s t, ∃ fi ty id, os_Lstat (child_below dir name) (w_os w) = (Ret fi, s) ∧
       sqlTypeName (mode_type (Mode fi)) = Ret ty ∧
       (∀ q cr, m !! q = Some cr → Inode cr ≠ id) ∧
       table_repr t (<[child_path dir name := new_entry id ty]> m) ∧
       node_for globals dir name (new_entry id ty) = Ret nd ∧
       n = remembered dir name (new_entry id ty))
    (λ e n s t,
       ((∃ code, e = ESqlite code) ∧ engine_failed m dir n t) ∨
       (∃ e', os_Lstat (child_below dir name) (w_os w) = (Err e', s) ∧ n = dir ∧
          if IsNotExist e' then
            e = EFuseENOENT ∧ ∃ id, (∀ q cr, m !! q = Some cr → Inode cr ≠ id) ∧
              table_repr t (<[child_path dir name := new_entry id "noentry"]> m)
          else e = e' ∧ table_repr t m))
    (λ n s t, engine_failed m dir n t)
    (Lookup globals name (dir, w)).
Proof. apply Lookup_miss_settles. Qed.

(** A lookup in direct mode always asks the remote: what exists there gets the
    row of its path created or its type corrected, keeping its inode; when the remote fails, a
    known row is used as it is; an unknown name that is absent is recorded as absent. *)
Theorem Lookup_direct {OS DB} `{KernelLaws OS, SqlLaws DB, !Fuel} (globals : globalState)
    (m : gmap string CachedRow) (dir : Dir) (name : string) (w : World OS DB) :
  stats_wf (w_stats w) → table_repr (db_view w) m → number_like (child_path dir name) = false →
  dir_direct dir = true →
  (∀ fi s, os_Lstat (child_below dir name) (w_os w) = (Ret fi, s) →
           ∃ ty, sqlTypeName (mode_type (Mode fi)) = Ret ty) →
  settles
    (λ nd n s t, ∃ row m', node_for globals dir name row = Ret nd ∧ n = remembered dir name row ∧
       table_repr t m' ∧ m' !! child_path dir name = Some row ∧
       ((∃ fi ty, os_Lstat (child_below dir name) (w_os w) = (Ret fi, s) ∧
           sqlTypeName (mode_type (Mode fi)) = Ret ty ∧ TypeName row = ty ∧
           m' = <[child_path dir name := row]> m ∧
           ∀ cr, m !! child_path dir name = Some cr → row = entry_set_type ty cr) ∨
        (∃ e, os_Lstat (child_below dir name) (w_os w) = (Err e, s) ∧
           m !! child_path dir name = Some row ∧ m' = m)))
    (λ e n s t,
       ((∃ code, e = ESqlite code) ∧ engine_failed_at (child_path dir name) m dir n t) ∨
       (∃ e', os_Lstat (child_below dir name) (w_os w) = (Err e', s) ∧
          match m !! child_path dir name with
          | Some row => e = EFuseENOENT ∧ TypeName row = "noentry" ∧
                        n = remembered dir name row ∧ table_repr t m
          | None => n = dir ∧
              if IsNotExist e' then
                e = EFuseENOENT ∧ ∃ id, (∀ q cr, m !! q = Some cr → Inode cr ≠ id) ∧
                  table_repr t (<[child_path dir name := new_entry id "noentry"]> m)
              else e = e' ∧ table_repr t m
          end))
    (λ n s t, engine_failed_at (child_path dir name) m dir n t)
    (Lookup globals name (dir, w)).
Proof. apply Lookup_direct_settles. Qed.

(** C27 (functional).  Listing a directory for the first time, or in direct mode with a reachable
    remote, reports exactly the names of the remote directory, each once, with the type the remote
    gave it and with the inode of the database row of its own path, which is created when it is
    missing; the listing is stored for the directory and remembered in the node, and no other row
    changes.  After an error the node is as before and no other row has changed. *)
Theorem ReadDirAll_fetches {OS DB} `{KernelLaws OS, SqlLaws DB, !Fuel}
    (m : gmap string CachedRow) (dir : Dir) (drow : CachedRow) (cs : list string)
    (w : World OS DB) :
  stats_wf (w_stats w) → table_repr (db_view w) m →
  dir_path dir = abs_path cs → Forall (λ n, good_name n = true) cs →
  m !! dir_path dir = Some drow → Inode drow = dir_inode dir →
  dir_direct dir = true ∨ dirEntries (dir_data dir) = None →
  (∀ f s1 l s2, os_Open (dir_belowPath dir) (w_os w) = (Ret f, s1) →
     file_Readdir f s1 = (Ret l, s2) → listing_ok l) →
  (dir_direct dir = true → ∀ e s, os_Open (dir_belowPath dir) (w_os w) ≠ (Err e, s)) →
  settles
    (λ des n _ t, ∃ f s1 l s2, os_Open (dir_belowPath dir) (w_os w) = (Ret f, s1) ∧
       file_Readdir f s1 = (Ret l, s2) ∧ listed m dir drow l des n t)
    (λ _ n _ t, not_listed m dir n t) (λ n _ t, not_listed m dir n t)
    (ReadDirAll (dir, w)).
Proof. apply ReadDirAll_miss_settles. Qed.

(** C25 (safety).  [Open] of a file hands out a handle on contents that are in the content cache
    under the digest the node records: the recorded digest when it is known (outside of direct
    mode without asking the remote, in direct mode when the remote fails), otherwise the digest of
    everything the remote file delivered, which is then recorded.  Whatever the outcome, the
    content cache only grows and stays content addressed. *)
Theorem Open_behaviour {OS DB} `{KernelLaws OS, SqlLaws DB, !Fuel} (globals : globalState)
    (rs : list string) (m : gmap string CachedRow) (f : FileNode) (cr : CachedRow)
    (w : World OS DB) :
  owns_root (OS := OS) rs → g_content globals = NewContentCache (abs_path rs) →
  stats_wf (w_stats w) → table_repr (db_view w) m → m !! file_path f = Some cr →
  Inode cr = file_inode f → content_inv rs (os_local (w_os w)) →
  (∀ k, contentHash (file_data f) = Some k → is_key k = true) →
  settles
    (λ h n s t, content_kept rs (w_os w) s ∧ ∃ k c, reads_contents rs h k c s ∧
       contentHash (file_data n) = Some k ∧ opened m f cr k (w_os w) (db_view w) n t)
    (λ _ n s t, content_kept rs (w_os w) s ∧ hash_recorded m f cr t)
    (λ n s t, content_kept rs (w_os w) s ∧ hash_recorded m f cr t)
    (File_Open globals (f, w)).
Proof. intros Hroot Hcache. by apply File_Open_settles. Qed.

(** A read from such a handle returns exactly the requested part of the
    contents, shortened at their end, or an error of the local file system; the remote and the
    database are not involved. *)
Theorem Read_delivers {OS DB} `{KernelLaws OS, SqlLaws DB, !Fuel} (rs : list string)
    (h : openFile) (k : string) (c : bytes) (size : nat) (offset : Z) (w : World OS DB) :
  stats_wf (w_stats w) → reads_contents rs h k c (w_os w) → 0 ≤ offset →
  settles (λ data n s t, n = h ∧ t = db_view w ∧ os_local s = os_local (w_os w) ∧
             data = take size (drop (Z.to_nat offset) c))
    (λ _ n s t, n = h ∧ t = db_view w ∧ os_local s = os_local (w_os w)) (λ _ _ _, False)
    (openFile_Read size offset (h, w)).
Proof. apply openFile_Read_settles. Qed.

(** C28 (invariant).  No handler of the file system, whatever its outcome, takes a row away from
    the database or changes its path or inode number, and paths and inodes stay unique: a file
    keeps its inode for as long as the cache lives. *)
Theorem handlers_keep_inodes {OS DB} `{KernelLaws OS, SqlLaws DB, !Fuel} (globals : globalState) :
  (∀ c (dir : Dir) (w : World OS DB),
     ids_extend (db_view w) (db_view (dir_call globals c (dir, w)).2.2)) ∧
  (∀ c (f : FileNode) (w : World OS DB),
     ids_extend (db_view w) (db_view (file_call globals c (f, w)).2.2)) ∧
  (∀ c (l : Symlink) (w : World OS DB),
     ids_extend (db_view w) (db_view (symlink_call c (l, w)).2.2)).
Proof.
  assert (∀ call, framed (on_rows (DB := DB) ids_extend) (metadata_call call)) as Hcall.
  { intros call. apply framed_metadata_call; [apply _|..]; intros;
      auto using framed_RetryExec_ids, framed_RetryQueryRow_ids, framed_Scan_ids. }
  split_and!.
  - intros c dir w. by apply (framed_dir_call globals ids_extend Hcall c (dir, w)).
  - intros c f w. by apply (framed_file_call globals ids_extend Hcall c (f, w)).
  - intros c l w. by apply (framed_symlink_call ids_extend Hcall c (l, w)).
Qed.

(** * Witnesses: a remote directory with a file, a symbolic link and nothing else *)

#[local] Instance sample_fs_fuel : Fuel := {| retry_fuel := 2; copy_fuel := 8 |}.

Definition link_info : FileInfo := {| Name := "l"; Size := 4; Mode := ModeSymlink + 511; ModTime := 7 |}.
Definition root_info : FileInfo := {| Name := "r"; Size := 0; Mode := ModeDir + 493; ModTime := 7 |}.

Definition sample_tree : MemOs :=
  {| mo_local := ∅;
     mo_remote := <["/r" := RDir root_info [sample_info; link_info]]>
                    (<["/r/a" := RFile sample_info hello]>
                       (<["/r/l" := RLink link_info "a"]> ∅));
     mo_handles := ∅; mo_next := 3; mo_drawn := ∅; mo_faults := [] |}.

(** The database knows the root and "/a". *)
Definition sample_fs : World MemOs MemDb :=
  {| w_stats := NewStats; w_os := sample_tree; w_conn := sample_conn |}.

Definition sample_globals : globalState :=
  {| g_content := NewContentCache (abs_path ["cache"]);
     cachedPathRegex := λ p, negb (String.prefix "/l" p) |}.

Definition sample_root : Dir :=
  {| dir_path := "/"; dir_belowPath := "/r"; dir_inode := 1; dir_direct := false;
     dir_data := {| dd_fileInfo := None; didReadDir := false; dirEntries := None; rows := ∅ |} |}.
Definition sample_root_direct : Dir :=
  {| dir_path := "/"; dir_belowPath := "/r"; dir_inode := 1; dir_direct := true;
     dir_data := {| dd_fileInfo := None; didReadDir := false; dirEntries := None; rows := ∅ |} |}.
Definition sample_file : FileNode :=
  {| file_path := "/a"; file_belowPath := "/r/a"; file_inode := 2; file_direct := false;
     file_data := {| fd_fileInfo := None; contentHash := None |} |}.
Definition sample_link : Symlink :=
  {| link_path := "/a"; link_belowPath := "/r/l"; link_inode := 2; link_direct := false;
     link_data := {| ld_fileInfo := None; target := None |} |}.

(** The root after the lookup of "a"; its second lookup counts nothing. *)
Definition sample_root_known : Dir := remembered sample_root "a" (new_entry 2 "file").

Lemma hits_are_served_from_memory_witness :
  served_from_memory (OS := MemOs) (DB := MemDb) AttrFuseOp (commonAttr 2 false "/r/a")
    (Some sample_info) (attr_of 2 sample_info) ∧
  Lookup sample_globals "a" (sample_root_known, sample_fs)
  = (Ret (NodeFile sample_file), (sample_root_known, sample_fs)).
Proof.
  destruct (hits_are_served_from_memory (OS := MemOs) (DB := MemDb) sample_globals)
    as (Hattr & _ & _ & Hlookup). split.
  - apply Hattr.
  - exact (Hlookup sample_root_known "a" (Some (new_entry 2 "file")) sample_fs eq_refl eq_refl).
Defined.

(** The same small tree when another program has the database locked for one query. *)
Definition locked_once : World MemOs MemDb :=
  set_w_conn {| c_db := {| mem_rows := sample_rows; mem_faults := [Some ErrBusy] |};
                c_rt := sample_runtime |} sample_fs.

(** The database knows "/a" and is free again, but the lookup of "a" does not return. *)
Lemma contended_query_never_returns_witness :
  ∃ c', Lookup sample_globals "a" (sample_root, locked_once)
        = (OutOfFuel, (sample_root, set_w_conn c' locked_once)) ∧
        stuck_at {| mem_rows := sample_rows; mem_faults := [] |} (w_conn locked_once) c'.
Proof.
  destruct (contended_query_never_returns (OS := MemOs) (DB := MemDb) sample_globals)
    as (_ & _ & _ & Hlookup & _).
  apply Hlookup; [by right|reflexivity].
Defined.

Lemma sample_lawful fi s : os_Lstat "/r/a" sample_tree = (Ret fi, s) → lawful_info "/a" fi.
Proof.
  intros E. apply (f_equal fst) in E. vm_compute in E. injection E as <-.
  split; [by split|done].
Qed.

Lemma commonAttr_behaviour_witness :
  settles
    (λ a n s t, ∃ fi, n = Some fi ∧ a = attr_of 2 fi ∧
       ((false = false ∧ (None : option FileInfo) = Some fi ∧ s = sample_tree ∧ t = sample_rows) ∨
        ((false = true ∨ (None : option FileInfo) = None) ∧
         info_fetched sample_map "/a" "/r/a" (new_entry 2 "file") fi sample_tree s t) ∨
        (false = true ∧ (None : option FileInfo) = Some fi ∧ t = sample_rows ∧
         ∃ e, os_Lstat "/r/a" sample_tree = (Err e, s))))
    (λ e n s t, n = None ∧ t = sample_rows ∧
       ((∃ code, e = ESqlite code) ∨
        ((None : option FileInfo) = None ∧ os_Lstat "/r/a" sample_tree = (Err e, s))))
    (λ n s t, n = None ∧ t = sample_rows)
    (commonAttr 2 false "/r/a" (None, sample_fs)).
Proof.
  refine (commonAttr_behaviour sample_map "/a" "/r/a" (new_entry 2 "file") None false sample_fs
            NewStats_wf sample_repr _ sample_lawful).
  done.
Defined.

Lemma Readlink_behaviour_witness :
  settles
    (λ a n s t,
       ((false = false ∧ (None : option string) = Some a ∧ n = sample_link ∧ s = sample_tree ∧
         t = sample_rows) ∨
        ((false = true ∨ (None : option string) = None) ∧ n = with_target a sample_link ∧
         target_fetched sample_map sample_link (new_entry 2 "file") a sample_tree s t) ∨
        (false = true ∧ (None : option string) = Some a ∧ n = sample_link ∧ t = sample_rows ∧
         ∃ e, os_Readlink "/r/l" sample_tree = (Err e, s))))
    (λ e n s t, n = sample_link ∧ t = sample_rows ∧
       ((∃ code, e = ESqlite code) ∨
        ((None : option string) = None ∧ os_Readlink "/r/l" sample_tree = (Err e, s))))
    (λ n s t, n = sample_link ∧ t = sample_rows)
    (Symlink_Readlink (sample_link, sample_fs)).
Proof.
  refine (Readlink_behaviour sample_map sample_link (new_entry 2 "file") sample_fs
            NewStats_wf sample_repr _ _); done.
Defined.

Lemma Lookup_known_witness :
  settles
    (λ nd n s t, node_for sample_globals sample_root "a" (new_entry 2 "file") = Ret nd ∧
       n = remembered sample_root "a" (new_entry 2 "file") ∧ s = sample_tree ∧
       table_repr t sample_map)
    (λ e n s t, s = sample_tree ∧ table_repr t sample_map ∧
       (((∃ code, e = ESqlite code) ∧ n = sample_root) ∨
        (e = EFuseENOENT ∧ "file" = "noentry" ∧
         n = remembered sample_root "a" (new_entry 2 "file"))))
    (λ n s t, n = sample_root ∧ s = sample_tree ∧ table_repr t sample_map)
    (Lookup sample_globals "a" (sample_root, sample_fs)).
Proof.
  refine (Lookup_known sample_globals sample_map sample_root "a" (new_entry 2 "file") sample_fs
            NewStats_wf sample_repr _ _ _ _); done.
Defined.

Lemma sample_link_type fi s :
  os_Lstat "/r/l" sample_tree = (Ret fi, s) → ∃ ty, sqlTypeName (mode_type (Mode fi)) = Ret ty.
Proof.
  intros E. apply (f_equal fst) in E. vm_compute in E. injection E as <-. by exists "symlink".
Qed.

Lemma Lookup_unknown_witness :
  settles
    (λ nd n s t, ∃ fi ty id, os_Lstat "/r/l" sample_tree = (Ret fi, s) ∧
       sqlTypeName (mode_type (Mode fi)) = Ret ty ∧
       (∀ q cr, sample_map !! q = Some cr → Inode cr ≠ id) ∧
       table_repr t (<["/l" := new_entry id ty]> sample_map) ∧
       node_for sample_globals sample_root "l" (new_entry id ty) = Ret nd ∧
       n = remembered sample_root "l" (new_entry id ty))
    (λ e n s t,
       ((∃ code, e = ESqlite code) ∧ engine_failed sample_map sample_root n t) ∨
       (∃ e', os_Lstat "/r/l" sample_tree = (Err e', s) ∧ n = sample_root ∧
          if IsNotExist e' then
            e = EFuseENOENT ∧ ∃ id, (∀ q cr, sample_map !! q = Some cr → Inode cr ≠ id) ∧
              table_repr t (<["/l" := new_entry id "noentry"]> sample_map)
          else e = e' ∧ table_repr t sample_map))
    (λ n s t, engine_failed sample_map sample_root n t)
    (Lookup sample_globals "l" (sample_root, sample_fs)).
Proof.
  refine (Lookup_unknown sample_globals sample_map sample_root "l" sample_fs
            NewStats_wf sample_repr _ _ _ _ sample_link_type); done.
Defined.

Lemma Lookup_direct_witness :
  settles
    (λ nd n s t, ∃ row m', node_for sample_globals sample_root_direct "l" row = Ret nd ∧
       n = remembered sample_root_direct "l" row ∧
       table_repr t m' ∧ m' !! "/l" = Some row ∧
       ((∃ fi ty, os_Lstat "/r/l" sample_tree = (Ret fi, s) ∧
           sqlTypeName (mode_type (Mode fi)) = Ret ty ∧ TypeName row = ty ∧
           m' = <["/l" := row]> sample_map ∧
           ∀ cr, sample_map !! "/l" = Some cr → row = entry_set_type ty cr) ∨
        (∃ e, os_Lstat "/r/l" sample_tree = (Err e, s) ∧ sample_map !! "/l" = Some row ∧
           m' = sample_map)))
    (λ e n s t,
       ((∃ code, e = ESqlite code) ∧ engine_failed_at "/l" sample_map sample_root_direct n t) ∨
       (∃ e', os_Lstat "/r/l" sample_tree = (Err e', s) ∧
          match sample_map !! "/l" with
          | Some row => e = EFuseENOENT ∧ TypeName row = "noentry" ∧
                        n = remembered sample_root_direct "l" row ∧ table_repr t sample_map
          | None => n = sample_root_direct ∧
              if IsNotExist e' then
                e = EFuseENOENT ∧ ∃ id, (∀ q cr, sample_map !! q = Some cr → Inode cr ≠ id) ∧
                  table_repr t (<["/l" := new_entry id "noentry"]> sample_map)
              else e = e' ∧ table_repr t sample_map
          end))
    (λ n s t, engine_failed_at "/l" sample_map sample_root_direct n t)
    (Lookup sample_globals "l" (sample_root_direct, sample_fs)).
Proof.
  refine (Lookup_direct sample_globals sample_map sample_root_direct "l" sample_fs
            NewStats_wf sample_repr _ _ sample_link_type); done.
Defined.

Lemma sample_listing_ok : listing_ok [sample_info; link_info].
Proof.
  split; [by apply (bool_decide_unpack _); vm_compute|].
  repeat constructor; eexists; by vm_compute.
Qed.

Lemma sample_readdir f s1 l s2 :
  os_Open "/r" sample_tree = (Ret f, s1) → file_Readdir f s1 = (Ret l, s2) → listing_ok l.
Proof.
  intros E. assert (f_fd f = 3 ∧ mo_faults s1 = [] ∧
    (h_entries <$> (mo_handles s1 !! 3)) = Some [sample_info; link_info]) as (Hf & Hfault & Hh).
  { injection E as <- <-. by split_and!. }
  simpl. unfold mem_Readdir, fallible, with_fault. rewrite Hfault, Hf. simpl.
  destruct (mo_handles s1 !! 3) as [h|]; [|done]. simpl in Hh. injection Hh as Hh. rewrite Hh.
  intros [= <- _]. exact sample_listing_ok.
Qed.

Lemma ReadDirAll_fetches_witness :
  settles
    (λ des n _ t, ∃ f s1 l s2, os_Open "/r" sample_tree = (Ret f, s1) ∧
       file_Readdir f s1 = (Ret l, s2) ∧
       listed sample_map sample_root (new_entry 1 "directory") l des n t)
    (λ _ n _ t, not_listed sample_map sample_root n t)
    (λ n _ t, not_listed sample_map sample_root n t)
    (ReadDirAll (sample_root, sample_fs)).
Proof.
  refine (ReadDirAll_fetches sample_map sample_root (new_entry 1 "directory") [] sample_fs
            NewStats_wf sample_repr _ _ _ _ _ sample_readdir _);
    [done|constructor|done|done|by right|done].
Defined.

Lemma Open_behaviour_witness :
  settles
    (λ h n s t, content_kept ["cache"] sample_tree s ∧ ∃ k c,
       reads_contents ["cache"] h k c s ∧ contentHash (file_data n) = Some k ∧
       opened sample_map sample_file (new_entry 2 "file") k sample_tree sample_rows n t)
    (λ _ n s t, content_kept ["cache"] sample_tree s ∧
       hash_recorded sample_map sample_file (new_entry 2 "file") t)
    (λ n s t, content_kept ["cache"] sample_tree s ∧
       hash_recorded sample_map sample_file (new_entry 2 "file") t)
    (File_Open sample_globals (sample_file, sample_fs)).
Proof.
  refine (Open_behaviour sample_globals ["cache"] sample_map sample_file (new_entry 2 "file")
            sample_fs owns_sample_root eq_refl NewStats_wf sample_repr _ _ _ _); done.
Defined.

(** A handle on the cached contents. *)
Definition sample_handle : openFile :=
  {| of_path := "/a"; of_reader := Some {| tr_domain := LocalDomain;
       tr_file := {| f_fd := 3; f_name := key_path ["cache"] (digest hello) |} |} |}.
Definition sample_fs_open : World MemOs MemDb :=
  {| w_stats := NewStats;
     w_os := {| mo_local := <[key_path ["cache"] (digest hello) := Regular hello]> ∅;
                mo_remote := ∅;
                mo_handles := <[3 := {| h_stream := hello; h_image := hello; h_writes := None;
                                        h_entries := [] |}]> ∅;
                mo_next := 4; mo_drawn := ∅; mo_faults := [] |};
     w_conn := sample_conn |}.

Lemma sample_reads : reads_contents ["cache"] sample_handle (digest hello) hello (w_os sample_fs_open).
Proof.
  split; [done|]. split; [apply lookup_insert_eq|]. eexists. split_and!; done.
Qed.

Lemma Read_delivers_witness :
  settles (λ data n s t, n = sample_handle ∧ t = sample_rows ∧
             os_local s = os_local (w_os sample_fs_open) ∧
             data = take 3 (drop (Z.to_nat 1) hello))
    (λ _ n s t, n = sample_handle ∧ t = sample_rows ∧
       os_local s = os_local (w_os sample_fs_open)) (λ _ _ _, False)
    (openFile_Read 3 1 (sample_handle, sample_fs_open)).
Proof.
  refine (Read_delivers ["cache"] sample_handle (digest hello) hello 3 1 sample_fs_open
            NewStats_wf sample_reads _). lia.
Defined.

Lemma handlers_keep_inodes_witness :
  ids_extend sample_rows
    (db_view (dir_call sample_globals CallReadDirAll (sample_root, sample_fs)).2.2).
Proof.
  exact (proj1 (handlers_keep_inodes (OS := MemOs) (DB := MemDb) sample_globals)
           CallReadDirAll sample_root sample_fs).
Defined.
