(* ===== verification/Opening.v ===== *)
(** Opening and closing the caches: newSqliteDb and RetriablePrepare of internal/cache/sqlite.go,
    NewMetadataCache and Close of internal/cache/metadata.go, and internal/cache/cache.go.

    database/sql is an interface here ([SqlDriver]) whose laws ([SqlDriverLaws]) say which
    databases and statements are open; [MemDriver] is an executable instance that can be told to
    fail.  The rows are the concern of Sql.v. *)
From S2P Require Import Prelude GoStrings GoPath Stats Types Sqlite Kernel Syscalls WorldPost.
From S2P Require Import Content ContentProps.
#[local] Open Scope Z_scope.

(** * database/sql *)

(** The open databases, the statements that can be executed with their database and text, and
    the statements that were executed directly, the first one first. *)
Record sql_view : Type := {
  v_handles : gset Z;
  v_stmts : gmap Z (Z * string);
  v_ran : list (Z * string);
}.

Definition add_handle (h : Z) (v : sql_view) : sql_view :=
  {| v_handles := {[h]} ∪ v_handles v; v_stmts := v_stmts v; v_ran := v_ran v |}.
Definition add_ran (h : Z) (q : string) (v : sql_view) : sql_view :=
  {| v_handles := v_handles v; v_stmts := v_stmts v; v_ran := v_ran v ++ [(h, q)] |}.
Definition add_stmt (i h : Z) (q : string) (v : sql_view) : sql_view :=
  {| v_handles := v_handles v; v_stmts := <[i := (h, q)]> (v_stmts v); v_ran := v_ran v |}.
Definition del_stmt (i : Z) (v : sql_view) : sql_view :=
  {| v_handles := v_handles v; v_stmts := delete i (v_stmts v); v_ran := v_ran v |}.
Definition del_handle (h : Z) (v : sql_view) : sql_view :=
  {| v_handles := (v_handles v) ∖ {[h]};
     v_stmts := filter (λ x, x.2.1 ≠ h) (v_stmts v); v_ran := v_ran v |}.

(** [*sql.DB] and [*sql.Stmt] are numbers. *)
Class SqlDriver (DB : Type) : Type := {
  sql_Open : string → GoM DB Z;              (* sql.Open("sqlite3", path) *)
  db_Ping : Z → GoM DB ();
  db_Exec : Z → string → GoM DB ();
  db_Prepare : Z → string → GoM DB Z;
  db_Close : Z → GoM DB ();
  stmt_Close : Z → GoM DB ();
}.

Class SqlDriverView (DB : Type) : Type := { drv_view : DB → sql_view }.

(** A call that fails changes nothing here, except that the [Close] calls mark their object
    closed before they can fail. *)
Class SqlDriverLaws (DB : Type) `{SqlDriver DB, SqlDriverView DB} : Prop := {
  sql_Open_spec path d :
    post (λ h d', (h ∉ v_handles (drv_view d)) ∧ drv_view d' = add_handle h (drv_view d))
      (λ _ d', drv_view d' = drv_view d) (λ _, False) (sql_Open path d);
  db_Ping_spec h d :
    post (λ _ d', drv_view d' = drv_view d) (λ _ d', drv_view d' = drv_view d) (λ _, False)
      (db_Ping h d);
  db_Exec_spec h q d :
    post (λ _ d', drv_view d' = add_ran h q (drv_view d)) (λ _ d', drv_view d' = drv_view d)
      (λ _, False) (db_Exec h q d);
  db_Prepare_spec h q d :
    post (λ i d', v_stmts (drv_view d) !! i = None ∧ drv_view d' = add_stmt i h q (drv_view d))
      (λ _ d', drv_view d' = drv_view d) (λ _, False) (db_Prepare h q d);
  db_Close_spec h d :
    post (λ _ d', drv_view d' = del_handle h (drv_view d))
      (λ _ d', drv_view d' = del_handle h (drv_view d)) (λ _, False) (db_Close h d);
  stmt_Close_spec i d :
    post (λ _ d', drv_view d' = del_stmt i (drv_view d))
      (λ _ d', drv_view d' = del_stmt i (drv_view d)) (λ _, False) (stmt_Close i d);
}.

(** * The metadata cache *)

Definition schemaDDL : list string := [
  "PRAGMA cache_size = 10000"; "PRAGMA journal_mode = OFF"; "PRAGMA read_uncommitted = ON";
  "PRAGMA synchronous = OFF";
  "CREATE TABLE IF NOT EXISTS paths (
		path STRING PRIMARY KEY,
		type STRING NOT NULL,

		mode INTEGER,
		size INTEGER,
		mtime_nsec INTEGER,

		dirEntries STRING,
		contentHash STRING,

		target STRING
	)"
]%string.

(** The statement fields of [MetadataCache]. *)
Inductive StmtField : Type :=
  | FgetDirEntries | FgetInode | FgetFullEntry | FupdateEntry | FputNewEntry | FputFileInfo
  | FputContentHash | FputSymlinkTarget | FputDirEntries.

#[export] Instance StmtField_eq_dec : EqDecision StmtField.
Proof. solve_decision. Defined.

(** What each field is prepared with; Sql.v has the meaning of these texts. *)
Definition query_of (f : StmtField) : string :=
  match f with
  | FgetDirEntries => "SELECT dirEntries FROM paths WHERE ROWID = ?"
  | FgetInode => "SELECT ROWID FROM paths WHERE path = ?"
  | FgetFullEntry => "SELECT ROWID, type, mode, size, mtime_nsec, dirEntries, contentHash, target FROM paths WHERE path = ?"
  | FupdateEntry => "UPDATE paths SET type = ? WHERE path = ?"
  | FputNewEntry => "INSERT INTO paths (path, type) VALUES (?, ?)"
  | FputFileInfo => "UPDATE paths SET mode = ?, size = ?, mtime_nsec = ? WHERE ROWID = ?"
  | FputContentHash => "UPDATE paths SET contentHash = ? WHERE ROWID = ?"
  | FputSymlinkTarget => "UPDATE paths SET target = ? WHERE ROWID = ?"
  | FputDirEntries => "UPDATE paths SET dirEntries = ? WHERE ROWID = ?"
  end.

(** The database and the statements, which can be nil. *)
Record MetadataCache : Type := { mc_db : Z; mc_stmt : StmtField → option Z }.

Definition set_stmt (f : StmtField) (stmt : option Z) (c : MetadataCache) : MetadataCache :=
  {| mc_db := mc_db c; mc_stmt := λ g, if decide (g = f) then stmt else mc_stmt c g |}.

(** [Cache]. *)
Record Cache : Type := { Cache_Metadata : MetadataCache; Cache_Content : ContentCache }.

(** The order of the fields in the literal of NewMetadataCache, and of the calls in closeStmts. *)
Definition prepare_order : list StmtField :=
  [FgetDirEntries; FgetInode; FgetFullEntry; FupdateEntry; FputNewEntry; FputFileInfo;
   FputContentHash; FputSymlinkTarget; FputDirEntries].
Definition close_order : list StmtField :=
  [FputDirEntries; FputSymlinkTarget; FputContentHash; FputFileInfo; FputNewEntry; FupdateEntry;
   FgetFullEntry; FgetInode; FgetDirEntries].

Section opening.
Context {DB : Type} `{SqlDriver DB}.

Definition initDatabase (db : Z) (ddl : list string) : GoM DB () :=
  go_for ddl (λ statement, db_Exec db statement).

(** A failed [Ping] returns without closing the database. *)
Definition newSqliteDb (path : string) (ddl : list string) : GoM DB Z :=
  db ← sql_Open path;
  db_Ping db;;
  r ← go_try (initDatabase db ddl);
  match r with
  | inl err => go_ignore (db_Close db);; go_err err
  | inr _ => mret db
  end.

Definition RetriablePrepare (db : Z) (query : string) : GoM DB Z := db_Prepare db query.

(** The closure [prepareStmt]; the captured [stmtError] is passed in and returned. *)
Definition prepareStmt (db : Z) (query : string) (stmtError : option error)
    : GoM DB (option Z * option error) :=
  match stmtError with
  | Some err => mret (None, Some err)
  | None =>
      r ← go_try (RetriablePrepare db query);
      match r with
      | inl err => mret (None, Some err)
      | inr stmt => mret (Some stmt, None)
      end
  end.

Fixpoint prepareStmts (fs : list StmtField) (c : MetadataCache) (stmtError : option error)
    : GoM DB (MetadataCache * option error) :=
  match fs with
  | [] => mret (c, stmtError)
  | f :: fs =>
      r ← prepareStmt (mc_db c) (query_of f) stmtError;
      let '(stmt, stmtError) := r in
      prepareStmts fs (set_stmt f stmt c) stmtError
  end.

Definition NewMetadataCache (path : string) : GoM DB MetadataCache :=
  db ← newSqliteDb path schemaDDL;
  r ← prepareStmts prepare_order {| mc_db := db; mc_stmt := λ _, None |} None;
  let '(cache, stmtError) := r in
  match stmtError with
  | Some err => go_ignore (db_Close db);; go_err err
  | None => mret cache
  end.

(** The closure [closeStmt]. *)
Definition closeStmt (f : StmtField) (cache : MetadataCache) (firstError : option error)
    : GoM DB (MetadataCache * option error) :=
  match mc_stmt cache f, firstError with
  | Some stmt, None =>
      r ← go_try (stmt_Close stmt);
      match r with
      | inl err => mret (cache, Some err)
      | inr _ => mret (set_stmt f None cache, None)
      end
  | _, _ => mret (cache, firstError)
  end.

Fixpoint closeStmts_from (fs : list StmtField) (cache : MetadataCache) (firstError : option error)
    : GoM DB (MetadataCache * option error) :=
  match fs with
  | [] => mret (cache, firstError)
  | f :: fs =>
      r ← closeStmt f cache firstError;
      let '(cache, firstError) := r in
      closeStmts_from fs cache firstError
  end.

(** The receiver is a pointer: the cache is returned together with the error. *)
Definition closeStmts (cache : MetadataCache) : GoM DB (MetadataCache * option error) :=
  closeStmts_from close_order cache None.

Definition MetadataCache_Close (cache : MetadataCache) : GoM DB (MetadataCache * option error) :=
  r ← closeStmts cache;
  let '(cache, err) := r in
  match err with
  | Some err => mret (cache, Some err)
  | None =>
      r ← go_try (db_Close (mc_db cache));
      mret (cache, match r with inl err => Some err | inr _ => None end)
  end.

Definition NewCache {OS} `{Kernel OS} (root : string) : GoM (World OS DB) Cache :=
  let contentCache := NewContentCache root in
  let metadataFile := Join [root; "metadata.db"] in
  r ← go_try (on_conn (on_db (NewMetadataCache metadataFile)));
  match r with
  | inl err =>
      go_ignore (Remove LocalDomain metadataFile);;
      go_ignore (Remove LocalDomain root);;
      go_err err
  | inr metadataCache =>
      mret {| Cache_Metadata := metadataCache; Cache_Content := contentCache |}
  end.

Definition Cache_Close (c : Cache) : GoM DB (Cache * option error) :=
  r ← MetadataCache_Close (Cache_Metadata c);
  let '(metadata, err) := r in
  mret ({| Cache_Metadata := metadata; Cache_Content := Cache_Content c |}, err).
End opening.

(** * Lemmas *)

Lemma query_of_inj f g : query_of f = query_of g → f = g.
Proof. by destruct f, g. Qed.

Lemma prepare_order_all f : f ∈ prepare_order.
Proof. unfold prepare_order. destruct f; repeat (first [by left | right]). Qed.
Lemma prepare_order_NoDup : NoDup prepare_order.
Proof. apply (bool_decide_unpack _). by vm_compute. Qed.
Lemma close_order_all f : f ∈ close_order.
Proof. unfold close_order. destruct f; repeat (first [by left | right]). Qed.

Lemma mc_stmt_set f stmt c g :
  mc_stmt (set_stmt f stmt c) g = if decide (g = f) then stmt else mc_stmt c g.
Proof. done. Qed.
#[local] Arguments set_stmt : simpl never.

Section lemmas.
Context {DB : Type} `{SqlDriverLaws DB}.
Abbreviation view := (drv_view (DB := DB)).

(** Executing the schema on the database [h]. *)
Lemma initDatabase_post h ddl d :
  post (λ _ d', view d' = {| v_handles := v_handles (view d); v_stmts := v_stmts (view d);
                             v_ran := v_ran (view d) ++ ((λ q, (h, q)) <$> ddl) |})
    (λ _ d', v_handles (view d') = v_handles (view d) ∧ v_stmts (view d') = v_stmts (view d))
    (λ _, False) (initDatabase h ddl d).
Proof.
  unfold initDatabase. revert d. induction ddl as [|q ddl IH]; intros d; simpl.
  { rewrite app_nil_r. by destruct (view d). }
  apply post_bind. eapply post_weaken; [apply db_Exec_spec| | |done].
  - intros ? d1 E. eapply post_weaken; [apply IH| | |done].
    + intros ? d2 ->. rewrite E. simpl. by rewrite <-app_assoc.
    + intros e d2. by rewrite E.
  - by intros e d1 ->.
Qed.

(** What [newSqliteDb] leaves when it fails: nothing, or a database that could not be pinged. *)
Definition open_failed (path : string) (d : DB) (e : error) (d' : DB) : Prop :=
  (v_handles (view d') = v_handles (view d) ∧ v_stmts (view d') = v_stmts (view d)) ∨
  (∃ h d1, sql_Open path d = (Ret h, d1) ∧ (db_Ping h d1).1 = Err e ∧
           view d' = add_handle h (view d)).

(** Every statement belongs to an open database. *)
Definition view_wf (v : sql_view) : Prop :=
  map_Forall (λ _ x, x.1 ∈ v_handles v) (v_stmts v).

(** A database that is closed again leaves no trace. *)
Lemma closed_again h (v v1 : sql_view) :
  view_wf v → h ∉ v_handles v → v_handles v1 = {[h]} ∪ v_handles v →
  (∀ i x, v_stmts v1 !! i = Some x → v_stmts v !! i = Some x ∨ x.1 = h) →
  v_stmts v ⊆ v_stmts v1 →
  v_handles (del_handle h v1) = v_handles v ∧ v_stmts (del_handle h v1) = v_stmts v.
Proof.
  intros Hwf Hh Hv Hs Hsub. simpl. split; [set_solver|].
  apply map_eq. intros i. rewrite map_lookup_filter. destruct (v_stmts v !! i) as [x|] eqn:E.
  - rewrite (lookup_weaken _ _ _ _ E Hsub). simpl. rewrite option_guard_True; [done|].
    intros Hx. apply Hh. rewrite <-Hx. by apply (Hwf i).
  - destruct (v_stmts v1 !! i) as [x|] eqn:E1; [|done]. simpl.
    apply Hs in E1 as [E1| ->]; [congruence|]. rewrite option_guard_False; [done|]. by intros [].
Qed.

Lemma newSqliteDb_post path ddl d :
  view_wf (view d) →
  post (λ h d', (h ∉ v_handles (view d)) ∧
          view d' = {| v_handles := {[h]} ∪ v_handles (view d); v_stmts := v_stmts (view d);
                       v_ran := v_ran (view d) ++ ((λ q, (h, q)) <$> ddl) |})
    (open_failed path d) (λ _, False) (newSqliteDb path ddl d).
Proof.
  intros Hwf. unfold newSqliteDb, mbind, go_mbind, go_bind at 1.
  pose proof (sql_Open_spec path d) as Ho.
  destruct (sql_Open path d) as [[h|e| | |] d1] eqn:EO; simpl in Ho; try done;
    [|left; by rewrite Ho].
  destruct Ho as [Hh E1]. unfold go_bind at 1.
  pose proof (db_Ping_spec h d1) as Hp.
  destruct (db_Ping h d1) as [[[]|e| | |] d2] eqn:EP; simpl in Hp; try done;
    [|right; exists h, d1; rewrite Hp, EP; by split_and!].
  apply post_bind, post_try. eapply post_weaken; [apply initDatabase_post| | |done].
  - intros ? d3 E3. simpl. split; [done|]. rewrite E3, Hp, E1. done.
  - intros e d3 [Hh3 Hs3]. apply post_bind, post_ignore.
    assert (v_handles (del_handle h (view d3)) = v_handles (view d) ∧
            v_stmts (del_handle h (view d3)) = v_stmts (view d)) as Hclosed.
    { apply closed_again; [done|done|by rewrite Hh3, Hp, E1|..]; rewrite Hs3, Hp, E1; simpl; auto. }
    eapply post_weaken; [apply db_Close_spec| | |done]; intros ? d4 E4; left; by rewrite E4.
Qed.

(** What preparing the fields [fs] of [c] adds. *)
Definition prepared (fs : list StmtField) (c : MetadataCache) (v : sql_view)
    (c' : MetadataCache) (v' : sql_view) : Prop :=
  mc_db c' = mc_db c ∧ v_handles v' = v_handles v ∧ v_ran v' = v_ran v ∧
  v_stmts v ⊆ v_stmts v' ∧
  (∀ i x, v_stmts v' !! i = Some x → v_stmts v !! i = Some x ∨ x.1 = mc_db c) ∧
  (∀ f, f ∉ fs → mc_stmt c' f = mc_stmt c f).

(** The field [f] holds a statement of its own text on the database of [c']. *)
Definition holds_stmt (v : sql_view) (c' : MetadataCache) (v' : sql_view) (f : StmtField) : Prop :=
  ∃ i, mc_stmt c' f = Some i ∧ v_stmts v !! i = None ∧
       v_stmts v' !! i = Some (mc_db c', query_of f).

Lemma prepared_refl c v : prepared [] c v c v.
Proof. by split_and!; auto. Qed.

Lemma prepared_skip f fs c v c' v' :
  f ∉ fs → prepared fs (set_stmt f None c) v c' v' → prepared (f :: fs) c v c' v'.
Proof.
  intros Hf (Hdb & Hh & Hr & Hsub & Hnew & Hrest). split_and!; try done.
  intros g [Hg Hgs]%not_elem_of_cons. rewrite (Hrest g Hgs), mc_stmt_set. by rewrite decide_False.
Qed.

Lemma prepared_step f fs i c v c' v' :
  v_stmts v !! i = None → f ∉ fs →
  prepared fs (set_stmt f (Some i) c) (add_stmt i (mc_db c) (query_of f) v) c' v' →
  prepared (f :: fs) c v c' v' ∧ holds_stmt v c' v' f.
Proof.
  intros Hi Hf (Hdb & Hh & Hr & Hsub & Hnew & Hrest). unfold add_stmt in *.
  cbn [v_stmts v_handles v_ran] in *. split; [split_and!; try done|].
  - etrans; [by apply insert_subseteq|exact Hsub].
  - intros j x Hj. apply Hnew in Hj as [Hj|Hj]; [|by right].
    apply lookup_insert_Some in Hj as [[_ <-]|[_ Hj]]; [by right|by left].
  - intros g [Hg Hgs]%not_elem_of_cons. rewrite (Hrest g Hgs), mc_stmt_set. by rewrite decide_False.
  - exists i. split_and!; [by rewrite (Hrest f Hf), mc_stmt_set, decide_True|done|].
    rewrite Hdb. eapply lookup_weaken; [|exact Hsub]. apply lookup_insert_eq.
Qed.

Lemma holds_stmt_weaken v v1 c' v' g :
  v_stmts v ⊆ v_stmts v1 → holds_stmt v1 c' v' g → holds_stmt v c' v' g.
Proof.
  intros Hsub (i & Hc & Hi & Hv). exists i. split_and!; [done| |done].
  by eapply lookup_weaken_None.
Qed.

Lemma prepareStmts_post fs c stmtError d :
  NoDup fs →
  post (λ '(c', e') d', prepared fs c (view d) c' (view d') ∧
          (e' = None → stmtError = None ∧ ∀ f, f ∈ fs → holds_stmt (view d) c' (view d') f))
    (λ _ _, False) (λ _, False) (prepareStmts fs c stmtError d).
Proof.
  revert c stmtError d. induction fs as [|f fs IH]; intros c stmtError d Hnd; cbn [prepareStmts].
  { simpl. split; [apply prepared_refl|]. intros ->. split; [done|]. by intros f ?%elem_of_nil. }
  apply NoDup_cons in Hnd as [Hf Hnd]. apply post_bind. unfold prepareStmt.
  destruct stmtError as [err|].
  { simpl. eapply post_weaken; [by apply IH| |done|done]. intros [c' e'] d' [Hp He].
    split; [by apply prepared_skip|]. by intros [? _]%He. }
  apply post_bind, post_try. eapply post_weaken; [apply db_Prepare_spec| | |done].
  - intros i d1 [Hi E1]. simpl. eapply post_weaken; [by apply IH| |done|done].
    intros [c' e'] d' [Hp He]. rewrite E1 in Hp, He.
    apply prepared_step in Hp as [Hp Hfi]; [|done..]. split; [done|].
    intros [_ Hall]%He. split; [done|]. intros g [->|Hg]%elem_of_cons; [done|].
    eapply holds_stmt_weaken; [|by apply Hall]. by apply insert_subseteq.
  - intros e d1 E1. simpl. eapply post_weaken; [by apply IH| |done|done].
    intros [c' e'] d' [Hp He]. rewrite E1 in Hp, He. split; [by apply prepared_skip|].
    by intros [? _]%He.
Qed.

(** What closing the fields [fs] of [c] takes away. *)
Definition released (c : MetadataCache) (v : sql_view) (c' : MetadataCache) (v' : sql_view) : Prop :=
  mc_db c' = mc_db c ∧ v_handles v' = v_handles v ∧ v_stmts v' ⊆ v_stmts v ∧
  ∀ f, mc_stmt c' f = mc_stmt c f ∨
       (mc_stmt c' f = None ∧ ∀ i, mc_stmt c f = Some i → v_stmts v' !! i = None).

Lemma released_refl c v : released c v c v.
Proof. split_and!; auto. Qed.

Lemma released_step f i c v c' v' :
  mc_stmt c f = Some i → released (set_stmt f None c) (del_stmt i v) c' v' → released c v c' v'.
Proof.
  intros Hi (Hdb & Hh & Hsub & Hf). split_and!; [done|done| |].
  - etrans; [exact Hsub|apply delete_subseteq].
  - intros g. specialize (Hf g). rewrite mc_stmt_set in Hf. destruct (decide (g = f)) as [->|]; [|done].
    right. split; [by destruct Hf as [|[? _]]|]. intros j Hj. simplify_eq.
    eapply lookup_weaken_None; [|exact Hsub]. apply lookup_delete_eq.
Qed.

(** After an error nothing more is closed. *)
Lemma closeStmts_failed fs c err d : closeStmts_from fs c (Some err) d = (Ret (c, Some err), d).
Proof.
  induction fs as [|f fs IH]; [done|]. cbn [closeStmts_from]. unfold closeStmt, mbind, go_mbind, go_bind.
  by destruct (mc_stmt c f).
Qed.

Lemma closeStmts_post fs c d :
  post (λ '(c', e') d', released c (view d) c' (view d') ∧
          (e' = None → ∀ f, f ∈ fs ∨ mc_stmt c f = None → mc_stmt c' f = None))
    (λ _ _, False) (λ _, False) (closeStmts_from fs c None d).
Proof.
  revert c d. induction fs as [|f fs IH]; intros c d; cbn [closeStmts_from].
  { simpl. split; [apply released_refl|]. by intros _ f [?%elem_of_nil|]. }
  apply post_bind. unfold closeStmt. destruct (mc_stmt c f) as [i|] eqn:Hi.
  - apply post_bind, post_try. eapply post_weaken; [apply stmt_Close_spec| | |done].
    + intros ? d1 E1. simpl. eapply post_weaken; [apply IH| |done|done]. intros [c' e'] d' [Hr He].
      rewrite E1 in Hr. split; [by eapply released_step|]. intros E g Hg.
      apply He; [done|]. rewrite mc_stmt_set. destruct (decide (g = f)); [by right|].
      destruct Hg as [[->|Hg]%elem_of_cons|Hg]; [done|by left|by right].
    + intros e d1 E1. simpl. rewrite closeStmts_failed. simpl. rewrite E1. split; [|done].
      split_and!; [done|done|apply delete_subseteq|auto].
  - simpl. eapply post_weaken; [apply IH| |done|done]. intros [c' e'] d' [Hr He].
    split; [done|]. intros E g [[->|Hg]%elem_of_cons|Hg]; apply He; auto.
Qed.

(** What [NewMetadataCache] adds when it succeeds. *)
Definition cache_opened (d : DB) (c : MetadataCache) (d' : DB) : Prop :=
  (mc_db c ∉ v_handles (view d)) ∧ v_handles (view d') = {[mc_db c]} ∪ v_handles (view d) ∧
  v_ran (view d') = v_ran (view d) ++ ((λ q, (mc_db c, q)) <$> schemaDDL) ∧
  v_stmts (view d) ⊆ v_stmts (view d') ∧ ∀ f, holds_stmt (view d) c (view d') f.

Lemma NewMetadataCache_post path d :
  view_wf (view d) →
  post (cache_opened d) (open_failed path d) (λ _, False) (NewMetadataCache path d).
Proof.
  intros Hwf. unfold NewMetadataCache. apply post_bind.
  eapply post_weaken; [by apply newSqliteDb_post| |done|done]. intros h d1 [Hh E1].
  apply post_bind. eapply post_weaken; [apply prepareStmts_post, prepare_order_NoDup| |done|done].
  intros [c e] d2 [(Hdb & Hh2 & Hr & Hsub & Hnew & _) He]. rewrite E1 in *.
  cbn [mc_db v_handles v_stmts v_ran] in *. destruct e as [err|].
  - apply post_bind, post_ignore.
    assert (v_handles (del_handle h (view d2)) = v_handles (view d) ∧
            v_stmts (del_handle h (view d2)) = v_stmts (view d)) as Hclosed by by apply closed_again.
    eapply post_weaken; [apply db_Close_spec| | |done]; intros ? d4 E4; left; by rewrite E4.
  - destruct (He eq_refl) as [_ Hall]. unfold cache_opened. simpl. rewrite Hdb. split_and!; try done.
    intros f. destruct (Hall f (prepare_order_all f)) as (i & ? & ? & ?). by exists i.
Qed.

(** The event of a removal in the cache. *)
Definition removal : stat_event := {| ev_counter := COs LocalDomain RemoveOsOp; ev_amount := 0 |}.

(** [Remove] of a local path, with the answer of the kernel. *)
Lemma Remove_run {OS} `{KernelLaws OS} p (w : World OS DB) :
  stats_wf (w_stats w) → ∃ o s st, os_Remove p (w_os w) = (o, s) ∧ answers o ∧ stats_wf st ∧
    account removal (w_stats w) = (Ret (), st) ∧
    Remove LocalDomain p w = (o, set_w_os s (set_w_stats st w)).
Proof.
  intros Hwf. destruct (account_bumped removal _ Hwf) as (st & Hst & Hb);
    [split; [by left|do 7 right; by left]|]. pose proof Hst as Hst'. unfold account in Hst. simpl in Hst.
  pose proof (Remove_spec p (w_os w)) as Hs. destruct (os_Remove p (w_os w)) as [o s] eqn:E.
  exists o, s, st. split_and!; [done|apply Hs|by eapply bumped_wf|done|].
  unfold Remove, mbind, go_mbind, go_bind, on_stats, on_os, go_zoom. simpl. rewrite Hst. simpl.
  by rewrite E.
Qed.

Lemma ignore_run {S A} (m : GoM S A) s o s' :
  m s = (o, s') → answers o → go_ignore m s = (Ret (), s').
Proof. intros E Ho. unfold go_ignore, go_bind, go_try. rewrite E. by destruct o. Qed.
End lemmas.

(** * Properties *)

(** C33 (safety).  [NewMetadataCache] either returns a cache on a new database on which the whole
    schema was executed in order, with every field a new statement prepared from the field's own
    text; or it fails and leaves no database and no statement open, except for a database that
    was opened but could not be pinged. *)
Theorem NewMetadataCache_opens {DB} `{SqlDriverLaws DB} (path : string) (d : DB) :
  view_wf (drv_view d) →
  post (cache_opened d) (open_failed path d) (λ _, False) (NewMetadataCache path d).
Proof. apply NewMetadataCache_post. Qed.

Lemma Close_ran {DB} `{SqlDriverLaws DB} (c : MetadataCache) (d : DB) :
  post (λ '(c', err) d',
      mc_db c' = mc_db c ∧
      (∀ f, mc_stmt c' f = mc_stmt c f ∨
            (mc_stmt c' f = None ∧ ∀ i, mc_stmt c f = Some i → v_stmts (drv_view d') !! i = None)) ∧
      (err = None → (∀ f, mc_stmt c' f = None) ∧
                    v_handles (drv_view d') = (v_handles (drv_view d)) ∖ {[mc_db c]}) ∧
      ((∃ f, mc_stmt c' f ≠ None) → v_handles (drv_view d') = v_handles (drv_view d)))
    (λ _ _, False) (λ _, False) (MetadataCache_Close c d).
Proof.
  unfold MetadataCache_Close, closeStmts. apply post_bind.
  eapply post_weaken; [apply closeStmts_post| |done|done].
  intros [c' err] d1 [(Hdb & Hh & Hsub & Hf) He]. destruct err as [err|].
  { simpl. by split_and!. }
  assert (∀ f, mc_stmt c' f = None) as Hnil by (intros f; apply He; [done|left; apply close_order_all]).
  apply post_bind, post_try.
  assert (∀ d2, drv_view d2 = del_handle (mc_db c') (drv_view d1) →
    (∀ f i, mc_stmt c f = Some i → v_stmts (drv_view d2) !! i = None) ∧
    v_handles (drv_view d2) = (v_handles (drv_view d)) ∖ {[mc_db c]}) as Hend.
  { intros d2 ->. simpl. split; [|by rewrite Hh, Hdb]. intros f i Hi.
    apply map_lookup_filter_None. left. destruct (Hf f) as [E|[_ Hgone]]; [|by apply Hgone].
    by rewrite Hnil, Hi in E. }
  eapply post_weaken; [apply db_Close_spec| | |done]; intros ? d2 E2; apply Hend in E2 as [Hst Hhd];
    simpl; (split_and!; [done|right; split; [done|by intros i ?; eapply Hst]|done|]);
    by intros [f []].
Qed.

(** [Close] never closes the database under a statement that is still open: each
    field is as before or set to nil with its statement closed; without an error every field is
    nil and the database is closed; when a field is left, the database stays open, so that a
    later [Close] goes on with the fields that are left. *)
Theorem Close_releases {DB} `{SqlDriverLaws DB} (c : MetadataCache) (d : DB) :
  post (λ '(c', err) d',
      mc_db c' = mc_db c ∧
      (∀ f, mc_stmt c' f = mc_stmt c f ∨
            (mc_stmt c' f = None ∧ ∀ i, mc_stmt c f = Some i → v_stmts (drv_view d') !! i = None)) ∧
      (err = None → (∀ f, mc_stmt c' f = None) ∧
                    v_handles (drv_view d') = (v_handles (drv_view d)) ∖ {[mc_db c]}) ∧
      ((∃ f, mc_stmt c' f ≠ None) → v_handles (drv_view d') = v_handles (drv_view d)))
    (λ _ _, False) (λ _, False) (MetadataCache_Close c d).
Proof. apply Close_ran. Qed.

(** C34 (error).  [NewCache] succeeds exactly when the metadata cache can be opened, without a
    system call.  When it cannot, for whatever reason, contention included, it returns that error
    after it has tried to remove, in this order, the file metadata.db and the cache directory
    itself, and has done and counted nothing else; a failure of either removal is ignored.  So
    unless its removal fails, metadata.db is gone, and with it all that the database of an existing
    cache held; the second removal succeeds where the kernel lets it, for an empty directory. *)
Theorem NewCache_behaviour {OS DB} `{KernelLaws OS, SqlDriverLaws DB} (rs : list string)
    (w : World OS DB) :
  let root := abs_path rs in let m := abs_path (rs ++ ["metadata.db"]) in
  Forall (λ n, good_name n = true) rs → is_local m = true →
  stats_wf (w_stats w) → view_wf (drv_view (c_db (w_conn w))) →
  match NewMetadataCache m (c_db (w_conn w)) with
  | (Ret c, d') =>
      NewCache root w = (Ret {| Cache_Metadata := c; Cache_Content := NewContentCache root |},
                         set_w_conn (set_db d' (w_conn w)) w)
  | (Err e, d') =>
      let '(o1, s1) := os_Remove m (w_os w) in
      let '(o2, s2) := os_Remove root s1 in
      ∃ st, account_all [removal; removal] (w_stats w) = (Ret (), st) ∧
        NewCache root w
        = (Err e, {| w_stats := st; w_os := s2; w_conn := set_db d' (w_conn w) |}) ∧
        os_local s1 = (if decide (o1 = Ret ()) then delete m (os_local (w_os w)) else os_local (w_os w)) ∧
        (is_local root = false → os_local s2 = os_local s1)
  | _ => False
  end.
Proof.
  intros root m Hg Hm Hwf Hview. unfold NewCache.
  unfold root. rewrite (Join_abs_path rs "metadata.db") by done. fold m root.
  pose proof (NewMetadataCache_post m (c_db (w_conn w)) Hview) as Hnew.
  unfold go_try, on_conn, on_db, go_zoom, mbind, go_mbind, go_bind. simpl.
  destruct (NewMetadataCache m (c_db (w_conn w))) as [[c|e| | |] d'] eqn:E; simpl in Hnew; try done.
  set (w1 := set_w_conn (set_db d' (w_conn w)) w).
  destruct (Remove_run m w1 Hwf) as (o1 & s1 & st1 & Hk1 & Ho1 & Hst1 & Ha1 & Hr1).
  set (w2 := set_w_os s1 (set_w_stats st1 w1)).
  destruct (Remove_run root w2 Hst1) as (o2 & s2 & st2 & Hk2 & Ho2 & Hst2 & Ha2 & Hr2).
  simpl in Hk1, Hk2, Ha1, Ha2. rewrite Hk1, Hk2. exists st2. split_and!.
  - unfold account_all. simpl. unfold go_bind. by rewrite Ha1, Ha2.
  - fold w1. rewrite (ignore_run _ _ _ _ Hr1 Ho1). fold w2. by rewrite (ignore_run _ _ _ _ Hr2 Ho2).
  - pose proof (Remove_spec m (w_os w)) as Hs. rewrite Hk1 in Hs. destruct Hs as (_ & Hs & _).
    specialize (Hs Hm). case_decide as Ho; [by subst|]. destruct o1 as [[]| | | |]; done.
  - pose proof (Remove_spec root s1) as Hs. rewrite Hk2 in Hs. apply Hs.
Qed.

(** * A driver in memory *)

(** [ms_faults] lists what happens to the coming calls: [Some code] makes one fail. *)
Record MemSql : Type := { ms_view : sql_view; ms_faults : list (option Z) }.

(** [ok] is the answer and effect of the call, [bad] what a failure leaves. *)
Definition ms_call {A} (ok : sql_view → A * sql_view) (bad : sql_view → sql_view) : GoM MemSql A :=
  λ d, match ms_faults d with
       | Some code :: fs => (Err (ESqlite code), {| ms_view := bad (ms_view d); ms_faults := fs |})
       | fs => let '(a, v) := ok (ms_view d) in
               (Ret a, {| ms_view := v; ms_faults := tail fs |})
       end.

#[export] Instance MemSql_driver : SqlDriver MemSql := {|
  sql_Open _ := ms_call (λ v, let h := fresh (v_handles v) in (h, add_handle h v)) id;
  db_Ping _ := ms_call (λ v, ((), v)) id;
  db_Exec h q := ms_call (λ v, ((), add_ran h q v)) id;
  db_Prepare h q :=
    ms_call (λ v, let i := fresh (dom (v_stmts v)) in (i, add_stmt i h q v)) id;
  db_Close h := ms_call (λ v, ((), del_handle h v)) (del_handle h);
  stmt_Close i := ms_call (λ v, ((), del_stmt i v)) (del_stmt i);
|}.
#[export] Instance MemSql_view : SqlDriverView MemSql := {| drv_view := ms_view |}.

Lemma ms_call_post {A} (ok : sql_view → A * sql_view) bad (Q : A → sql_view → Prop)
    (E : sql_view → Prop) d :
  Q (ok (ms_view d)).1 (ok (ms_view d)).2 → E (bad (ms_view d)) →
  post (λ a d', Q a (ms_view d')) (λ _ d', E (ms_view d')) (λ _, False) (ms_call ok bad d).
Proof.
  intros HQ HE. unfold ms_call.
  destruct (ms_faults d) as [|[code|] fs]; simpl; [|done|]; by destruct (ok (ms_view d)).
Qed.

#[export] Instance MemSql_laws : SqlDriverLaws MemSql.
Proof.
  split; intros; simpl.
  - apply (ms_call_post _ _ (λ h v, (h ∉ v_handles (ms_view d)) ∧ v = add_handle h (ms_view d))
             (λ v, v = ms_view d)); [|done]. split; [apply is_fresh|done].
  - by apply (ms_call_post _ _ (λ _ v, v = ms_view d) (λ v, v = ms_view d)).
  - by apply (ms_call_post _ _ (λ _ v, v = add_ran h q (ms_view d)) (λ v, v = ms_view d)).
  - apply (ms_call_post _ _ (λ i v, v_stmts (ms_view d) !! i = None ∧ v = add_stmt i h q (ms_view d))
             (λ v, v = ms_view d)); [|done]. split; [|done]. apply not_elem_of_dom, is_fresh.
  - by apply (ms_call_post _ _ (λ _ v, v = del_handle h (ms_view d)) (λ v, v = del_handle h (ms_view d))).
  - by apply (ms_call_post _ _ (λ _ v, v = del_stmt i (ms_view d)) (λ v, v = del_stmt i (ms_view d))).
Qed.

(** * Witnesses *)

Definition sample_sql (faults : list (option Z)) : MemSql :=
  {| ms_view := {| v_handles := ∅; v_stmts := ∅; v_ran := [] |}; ms_faults := faults |}.

Lemma sample_sql_wf faults : view_wf (drv_view (sample_sql faults)).
Proof. apply map_Forall_empty. Qed.

Lemma NewMetadataCache_opens_witness :
  let d := sample_sql [] in
  post (cache_opened d) (open_failed "/cache/metadata.db" d) (λ _, False)
    (NewMetadataCache "/cache/metadata.db" d) ∧
  v_ran (drv_view (NewMetadataCache "/cache/metadata.db" d).2)
  = (λ q, (0, q)) <$> schemaDDL.
Proof.
  split; [exact (NewMetadataCache_opens "/cache/metadata.db" (sample_sql []) (sample_sql_wf []))|].
  by vm_compute.
Defined.

(** A failing [Ping] leaves the database open. *)
Example ping_leaks :
  let r := NewMetadataCache "/cache/metadata.db" (sample_sql [None; Some ErrBusy]) in
  r.1 = Err (ESqlite ErrBusy) ∧ bool_decide (v_handles (drv_view r.2) = ∅) = false.
Proof. by vm_compute. Qed.

(** A cache that another process holds locked: the first statement of the schema is answered
    with contention. *)
Definition locked_world : World MemOs MemSql :=
  {| w_stats := NewStats;
     w_os := {| mo_local := <["/cache/metadata.db" := Regular hello]> ∅; mo_remote := ∅;
                mo_handles := ∅; mo_next := 3; mo_drawn := ∅; mo_faults := [] |};
     w_conn := {| c_db := sample_sql [None; None; Some ErrBusy];
                  c_rt := {| rt_rand := λ _, 0; rt_drawn := 0; rt_slept := [] |} |} |}.

Definition locked_result : outcome Cache * World MemOs MemSql :=
  NewCache (abs_path ["cache"]) locked_world.

Lemma NewCache_behaviour_witness :
  locked_result.1 = Err (ESqlite ErrBusy) ∧
  os_local (w_os locked_result.2) !! "/cache/metadata.db" = None ∧
  (getPerOsOpStats RemoveOsOp (w_stats locked_result.2)).1 = Ret {| LocalCount := 2; RemoteCount := 0 |}.
Proof.
  assert (Forall (λ n, good_name n = true) ["cache"]) as Hg by by repeat constructor.
  pose proof (NewCache_behaviour ["cache"] locked_world Hg eq_refl NewStats_wf (sample_sql_wf _)) as Hb.
  change (NewCache (abs_path ["cache"]) locked_world) with locked_result in Hb.
  change (abs_path (["cache"] ++ ["metadata.db"])) with "/cache/metadata.db" in Hb.
  destruct (NewMetadataCache "/cache/metadata.db" (c_db (w_conn locked_world))) as [r d'] eqn:Er.
  assert (r = Err (ESqlite ErrBusy)) as -> by (apply (f_equal fst) in Er; vm_compute in Er; by subst).
  destruct (os_Remove "/cache/metadata.db" (w_os locked_world)) as [o1 s1] eqn:E1.
  assert (o1 = Ret ()) as -> by (apply (f_equal fst) in E1; vm_compute in E1; by subst).
  destruct (os_Remove (abs_path ["cache"]) s1) as [o2 s2] eqn:E2.
  destruct Hb as (st & Hst & -> & Hl & Hk). split; [done|]. cbn [snd w_os w_stats]. split.
  - rewrite Hk, Hl, decide_True by done. apply lookup_delete_eq.
  - apply (f_equal snd) in Hst. simpl in Hst. subst st. by vm_compute.
Defined.

(** Closing a cache with two statements, the second of which fails. *)
Definition two_stmts : MetadataCache :=
  {| mc_db := 0; mc_stmt := λ f, match f with FputFileInfo => Some 0 | FgetInode => Some 1
                                 | _ => None end |}.
Definition two_open : MemSql :=
  {| ms_view := {| v_handles := {[0]};
                   v_stmts := <[0 := (0, query_of FputFileInfo)]>
                                (<[1 := (0, query_of FgetInode)]> ∅);
                   v_ran := [] |};
     ms_faults := [None; Some 1] |}.

Lemma Close_releases_witness :
  match MetadataCache_Close two_stmts two_open with
  | (Ret (c', Some _), d') =>
      mc_stmt c' FputFileInfo = None ∧ v_handles (drv_view d') = v_handles (drv_view two_open)
  | _ => False
  end.
Proof.
  pose proof (Close_releases two_stmts two_open) as Hc.
  assert (match MetadataCache_Close two_stmts two_open with
          | (Ret (c', err), _) => err = Some (ESqlite 1) ∧ mc_stmt c' FputFileInfo = None ∧
                                  mc_stmt c' FgetInode = Some 1
          | _ => False end) as Hrun by by vm_compute.
  destruct (MetadataCache_Close two_stmts two_open) as [[[c' err]| | | |] d']; try done.
  destruct Hrun as (-> & Hf & Hg), Hc as (_ & _ & _ & Hopen). split; [done|].
  apply Hopen. exists FgetInode. by rewrite Hg.
Defined.
