(* ===== verification/CommandLine.v ===== *)
(** The command line and the main program: cmd/sourcachefs/main.go.

    [Parse] is [flag.Parse] of the standard library on the three flags of the program.  The
    flags that github.com/golang/glog registers beside them are a parameter, as are
    [regexp.Compile], [fs.Loop] (Loop.v) and what the HTTP server does once it is started
    (StatusPage.v). *)
From S2P Require Import Prelude GoStrings GoPath Stats Types Sqlite Kernel Syscalls WorldPost.
From S2P Require Import Content ContentProps Fs Opening.
#[local] Open Scope Z_scope.

(** * package flag *)

(** The flags of the program. *)
Record Flags : Type := { fl_help : bool; fl_listen_address : string; fl_cached_path_regex : string }.

Definition default_flags : Flags :=
  {| fl_help := false; fl_listen_address := ""; fl_cached_path_regex := ".*" |}.

Definition set_help (b : bool) (fl : Flags) : Flags :=
  {| fl_help := b; fl_listen_address := fl_listen_address fl;
     fl_cached_path_regex := fl_cached_path_regex fl |}.
Definition set_listen_address (s : string) (fl : Flags) : Flags :=
  {| fl_help := fl_help fl; fl_listen_address := s; fl_cached_path_regex := fl_cached_path_regex fl |}.
Definition set_cached_path_regex (s : string) (fl : Flags) : Flags :=
  {| fl_help := fl_help fl; fl_listen_address := fl_listen_address fl; fl_cached_path_regex := s |}.

(** A flag that another package registers: whether it is boolean, and the values it accepts. *)
Record OtherFlag : Type := { ot_bool : bool; ot_accepts : string → bool }.

Inductive FlagError : Type :=
  | BadSyntax (arg : string)                (* bad flag syntax *)
  | NotDefined (name : string)              (* flag provided but not defined *)
  | BadBoolean (value name : string)        (* invalid boolean value *)
  | BadValue (value name : string)          (* invalid value *)
  | NeedsArgument (name : string).          (* flag needs an argument *)

Inductive ParseResult : Type :=
  | Parsed (fl : Flags) (rest : list string)
  | ParseHelp                               (* flag.ErrHelp *)
  | ParseFailed (e : FlagError).

(** [strconv.ParseBool]. *)
Definition ParseBool (s : string) : option bool :=
  if bool_decide (s ∈ ["1"; "t"; "T"; "TRUE"; "true"; "True"]) then Some true
  else if bool_decide (s ∈ ["0"; "f"; "F"; "FALSE"; "false"; "False"]) then Some false
  else None.

Definition dash : ascii := "-"%char.
Definition equals : ascii := "="%char.

(** Up to the first "=", and what comes after it. *)
Fixpoint cut_equals (s : string) : string * option string :=
  match s with
  | EmptyString => (EmptyString, None)
  | String c s =>
      if bool_decide (c = equals) then (EmptyString, Some s)
      else let '(name, value) := cut_equals s in (String c name, value)
  end.

Inductive ArgClass : Type :=
  | NotFlag | Terminator | BadFlag | AFlag (name : string) (value : option string).

(** What the flag package takes one argument for. *)
Definition flag_name (name : string) : ArgClass :=
  match name with
  | EmptyString => BadFlag
  | String c s =>
      if bool_decide (c = dash) || bool_decide (c = equals) then BadFlag
      else let '(n, v) := cut_equals s in AFlag (String c n) v
  end.

Definition classify (arg : string) : ArgClass :=
  match arg with
  | String c s =>
      if bool_decide (c = dash) then
        match s with
        | EmptyString => NotFlag
        | String d t =>
            if bool_decide (d = dash) then
              match t with EmptyString => Terminator | _ => flag_name t end
            else flag_name s
        end
      else NotFlag
  | EmptyString => NotFlag
  end.

Section parse.
Context (others : string → option OtherFlag).

Inductive Defined : Type :=
  | DBool (set : bool → Flags → Flags)
  | DString (set : string → Flags → Flags)
  | DOther (f : OtherFlag).

Definition defined (name : string) : option Defined :=
  if bool_decide (name = "help") then Some (DBool set_help)
  else if bool_decide (name = "listen_address") then Some (DString set_listen_address)
  else if bool_decide (name = "cached_path_regex") then Some (DString set_cached_path_regex)
  else DOther <$> others name.

Definition is_bool_flag (d : Defined) : bool :=
  match d with DBool _ => true | DString _ => false | DOther f => ot_bool f end.

(** [flag.Value.Set]. *)
Definition set_value (name value : string) (d : Defined) (fl : Flags) : FlagError + Flags :=
  match d with
  | DBool set => match ParseBool value with Some b => inr (set b fl) | None => inl (BadBoolean value name) end
  | DString set => inr (set value fl)
  | DOther f =>
      if ot_accepts f value then inr fl
      else inl (if ot_bool f then BadBoolean value name else BadValue value name)
  end.

(** The loop over [parseOne]. *)
Fixpoint Parse (args : list string) (fl : Flags) : ParseResult :=
  match args with
  | [] => Parsed fl []
  | arg :: args' =>
      match classify arg with
      | NotFlag => Parsed fl args
      | Terminator => Parsed fl args'
      | BadFlag => ParseFailed (BadSyntax arg)
      | AFlag name value =>
          match defined name with
          | None =>
              if bool_decide (name = "help") || bool_decide (name = "h") then ParseHelp
              else ParseFailed (NotDefined name)
          | Some d =>
              if is_bool_flag d then
                match set_value name (default "true" value) d fl with
                | inl e => ParseFailed e
                | inr fl => Parse args' fl
                end
              else
                match value, args' with
                | Some v, _ =>
                    match set_value name v d fl with
                    | inl e => ParseFailed e
                    | inr fl => Parse args' fl
                    end
                | None, v :: args'' =>
                    match set_value name v d fl with
                    | inl e => ParseFailed e
                    | inr fl => Parse args'' fl
                    end
                | None, [] => ParseFailed (NeedsArgument name)
                end
          end
      end
  end.
End parse.

(** * package main *)

(** What is written to the standard error, besides the log. *)
Inductive Message : Type :=
  | MFlag (e : FlagError)                          (* by the flag package *)
  | MSeeHelp (prog : string)                       (* Type '%s -help' for usage details *)
  | MUsageError (prog msg : string)                (* %s: %v *)
  | MUsage (prog : string)                         (* Usage: ... *)
  | MDefaults.                                     (* flag.PrintDefaults *)

(** How [main] ends when it is not by [glog.Fatal]. *)
Inductive Status : Type := Exit (code : Z) | MainReturned.

Record Program (OS DB : Type) : Type := {
  pg_stderr : list Message;
  pg_http : option (string * string);              (* the server's address and the mount point *)
  pg_world : World OS DB;
}.
Arguments pg_stderr {OS DB} p.
Arguments pg_http {OS DB} p.
Arguments pg_world {OS DB} p.
Arguments Build_Program {OS DB} _ _ _.

Section main.
Context {OS DB : Type} `{Kernel OS, SqlDriver DB}.
Context (others : string → option OtherFlag) (help_code : Z).
Context (regexp_Compile : string → error + (string → bool)).
Context (fs_Loop : string → globalState → string → GoM (World OS DB) ()).
Abbreviation M := (GoM (Program OS DB)).

Definition on_program {A} (m : GoM (World OS DB) A) : M A :=
  go_zoom pg_world (λ w p, {| pg_stderr := pg_stderr p; pg_http := pg_http p; pg_world := w |}) m.
Definition print (msg : Message) : M () :=
  go_modify (λ p, {| pg_stderr := pg_stderr p ++ [msg]; pg_http := pg_http p; pg_world := pg_world p |}).

Definition progname (argv0 : string) : string := Base argv0.

Definition flagUsage (argv0 : string) : M () := print (MSeeHelp (progname argv0)).

Definition usageError (argv0 msg : string) : M () :=
  print (MUsageError (progname argv0) msg);;
  flagUsage argv0.

Definition showHelp (argv0 : string) : M () :=
  print (MUsage (progname argv0));;
  print MDefaults.

(** [go runHTTPServer(...)]. *)
Definition start_http (address mountPoint : string) : M () :=
  go_modify (λ p, {| pg_stderr := pg_stderr p; pg_http := Some (address, mountPoint);
                     pg_world := pg_world p |}).

(** The deferred [cache.Close()]; its error is dropped. *)
Definition close_cache (cache : Cache) : GoM (World OS DB) () :=
  _ ← on_conn (on_db (Cache_Close cache)); mret ().

(** [main] after the command line. *)
Definition main_serve (fl : Flags) (targetDir cacheDir mountPoint : string) : M Status :=
  match regexp_Compile (fl_cached_path_regex fl) with
  | inl err =>
      go_fatal ("failed to compile regexp " +:+ fl_cached_path_regex fl +:+ ": " +:+ error_string err)
  | inr cachedPathRegex =>
      on_program (go_modify (set_w_stats NewStats));;
      r ← go_try (on_program (NewCache cacheDir));
      match r with
      | inl err => go_fatal ("failed to initialize cache: " +:+ error_string err)
      | inr cache =>
          go_defer (on_program (close_cache cache))
            ((if (0 <? String.length (fl_listen_address fl))%nat
              then start_http (fl_listen_address fl) mountPoint else mret ());;
             r ← go_try (on_program (fs_Loop targetDir
                   {| g_content := Cache_Content cache; cachedPathRegex := cachedPathRegex |}
                   mountPoint));
             match r with
             | inl err => go_fatal ("failed to serve file system: " +:+ error_string err)
             | inr _ => mret MainReturned
             end)
      end
  end.

(** [flag.Parse] exits on errors: with 2, or with [help_code] after a request for help. *)
Definition main (argv0 : string) (args : list string) : M Status :=
  match Parse others args default_flags with
  | ParseFailed e => print (MFlag e);; flagUsage argv0;; mret (Exit 2)
  | ParseHelp => flagUsage argv0;; mret (Exit help_code)
  | Parsed fl rest =>
      if fl_help fl then
        match rest with
        | [] => showHelp argv0;; mret (Exit 0)
        | _ => usageError argv0 "invalid number of arguments; expected 0";; mret (Exit 2)
        end
      else
        match rest with
        | [targetDir; cacheDir; mountPoint] => main_serve fl targetDir cacheDir mountPoint
        | _ => usageError argv0 "invalid number of arguments; expected 3";; mret (Exit 2)
        end
  end.
End main.

(** * Lemmas *)

(** What a command line says of one flag: with one dash or two, and without a value, with one behind
    an equals sign, or with one in the next argument. *)
Inductive Value : Type := NoValue | Behind (value : string) | Next (value : string).
Record Given : Type := { gv_double : bool; gv_name : string; gv_value : Value }.

Definition given_text (g : Given) : list string :=
  let d := (if gv_double g then "--" else "-") +:+ gv_name g in
  match gv_value g with
  | NoValue => [d]
  | Behind value => [d +:+ "=" +:+ value]
  | Next value => [d; value]
  end.

Definition value_text (v : Value) : option string :=
  match v with NoValue => None | Behind value | Next value => Some value end.

(** A name that can be told from the dashes before and the value behind it. *)
Definition flag_word (name : string) : Prop :=
  match name with EmptyString => False | String c _ => c ≠ dash ∧ has_char equals name = false end.

(** A boolean flag takes a boolean behind an equals sign, or none; the others take a value in
    either way. *)
Definition allowed (others : string → option OtherFlag) (g : Given) : Prop :=
  (gv_name g = "help" ∧ (gv_value g = NoValue ∨ ∃ v b, gv_value g = Behind v ∧ ParseBool v = Some b)) ∨
  ((gv_name g = "listen_address" ∨ gv_name g = "cached_path_regex") ∧ gv_value g ≠ NoValue) ∨
  ((gv_name g ∉ ["help"; "listen_address"; "cached_path_regex"]) ∧ flag_word (gv_name g) ∧
   ∃ f, others (gv_name g) = Some f ∧
     (if ot_bool f
      then (∀ v, gv_value g ≠ Next v) ∧ ot_accepts f (default "true" (value_text (gv_value g))) = true
      else ∃ v, value_text (gv_value g) = Some v ∧ ot_accepts f v = true)).

(** The last value that is given to a flag counts; without any, the flag has its default. *)
Definition last_given (name : string) (gs : list Given) : option Value :=
  last (omap (λ g, if bool_decide (gv_name g = name) then Some (gv_value g) else None) gs).
Definition given_flags (gs : list Given) : Flags :=
  {| fl_help :=
       match last_given "help" gs with
       | None => false
       | Some v => default true (s ← value_text v; ParseBool s)
       end;
     fl_listen_address := default "" (v ← last_given "listen_address" gs; value_text v);
     fl_cached_path_regex := default ".*" (v ← last_given "cached_path_regex" gs; value_text v) |}.

(** The effect of one of them. *)
Definition give (fl : Flags) (g : Given) : Flags :=
  {| fl_help :=
       if bool_decide (gv_name g = "help")
       then default true (s ← value_text (gv_value g); ParseBool s) else fl_help fl;
     fl_listen_address :=
       if bool_decide (gv_name g = "listen_address")
       then default "" (value_text (gv_value g)) else fl_listen_address fl;
     fl_cached_path_regex :=
       if bool_decide (gv_name g = "cached_path_regex")
       then default ".*" (value_text (gv_value g)) else fl_cached_path_regex fl |}.

Lemma last_given_snoc name gs g :
  last_given name (gs ++ [g]) =
  if bool_decide (gv_name g = name) then Some (gv_value g) else last_given name gs.
Proof.
  unfold last_given. rewrite omap_app. cbn [omap list_omap]. case_bool_decide; [by rewrite last_snoc|].
  by rewrite app_nil_r.
Qed.

Lemma foldl_give gs : foldl give default_flags gs = given_flags gs.
Proof.
  induction gs as [|g gs IH] using rev_ind; [done|]. rewrite foldl_snoc, IH.
  unfold give, given_flags. rewrite !last_given_snoc. simpl. by repeat case_bool_decide.
Qed.

(** ** One argument *)

Lemma cut_equals_app n v :
  has_char equals n = false →
  cut_equals n = (n, None) ∧ cut_equals (n +:+ "=" +:+ v) = (n, Some v).
Proof.
  induction n as [|c n IH]; [done|]. cbn [has_char]. intros [Hc Hn]%orb_false_iff.
  apply bool_decide_eq_false in Hc. destruct (IH Hn) as [IH1 IH2]. simpl.
  rewrite bool_decide_eq_false_2 by congruence. by rewrite IH1, IH2.
Qed.

Lemma cut_equals_inv s n v :
  cut_equals s = (n, v) →
  has_char equals n = false ∧ s = match v with None => n | Some v => n +:+ "=" +:+ v end.
Proof.
  revert n v. induction s as [|c s IH]; intros n v; simpl; [by intros [= <- <-]|].
  case_bool_decide as Hc; [intros [= <- <-]; by subst|].
  destruct (cut_equals s) as [n' v'] eqn:E. intros [= <- <-]. destruct (IH _ _ eq_refl) as [Hn Hs].
  cbn [has_char]. rewrite bool_decide_eq_false_2 by congruence. split; [done|].
  rewrite Hs. by destruct v'.
Qed.

(** The argument that names the flag, and the value in it. *)
Definition flag_arg (double : bool) (name : string) (v : option string) : string :=
  (if double then "--" else "-") +:+ name +:+ match v with None => "" | Some v => "=" +:+ v end.

Lemma classify_flag double name v :
  flag_word name → classify (flag_arg double name v) = AFlag name v.
Proof.
  destruct name as [|c n]; [done|]. intros [Hc Hn]. unfold flag_arg, classify.
  pose proof Hn as Hn'. cbn [has_char] in Hn'. apply orb_false_iff in Hn' as [He Hn'].
  apply bool_decide_eq_false in He.
  assert (flag_name (String c n +:+ match v with None => "" | Some v => "=" +:+ v end) = AFlag (String c n) v)
    as Hname.
  { simpl. rewrite !bool_decide_eq_false_2 by congruence. simpl.
    destruct (cut_equals_app n (default "" v) Hn') as [H1 H2].
    destruct v; simpl in *; [by rewrite H2|by rewrite string_app_nil_r, H1]. }
  destruct double; simpl in *; [exact Hname|]. rewrite (bool_decide_eq_false_2 (c = dash)) by done.
  rewrite (bool_decide_eq_false_2 (c = dash)) in Hname by done. exact Hname.
Qed.

Lemma flag_name_inv s :
  match flag_name s with
  | AFlag name v => flag_word name ∧ s = name +:+ match v with None => "" | Some v => "=" +:+ v end
  | BadFlag => True
  | _ => False
  end.
Proof.
  destruct s as [|c s]; [done|]. simpl. case_bool_decide as Hd; [done|]. case_bool_decide as He; [done|]. simpl.
  destruct (cut_equals s) as [n v] eqn:E. apply cut_equals_inv in E as [Hn ->]. split; [split; [done|]|].
  - cbn [has_char]. rewrite bool_decide_eq_false_2 by congruence. done.
  - simpl. f_equal. destruct v; [done|by rewrite string_app_nil_r].
Qed.

(** An argument that is not a flag. *)
Definition plain_arg (arg : string) : Prop := arg = "-" ∨ String.get 0 arg ≠ Some dash.

Lemma classify_inv arg :
  match classify arg with
  | NotFlag => plain_arg arg
  | Terminator => arg = "--"
  | BadFlag => True
  | AFlag name v => flag_word name ∧ ∃ double, arg = flag_arg double name v
  end.
Proof.
  assert (∀ (double : bool) s, match flag_name s with
    | AFlag name v => flag_word name ∧ ∃ double', (if double then "--" else "-") +:+ s = flag_arg double' name v
    | BadFlag => True
    | _ => False
    end) as Hname.
  { intros double s. pose proof (flag_name_inv s) as Hs. destruct (flag_name s); try done.
    destruct Hs as [Hn ->]. split; [done|]. by exists double. }
  unfold classify, plain_arg. destruct arg as [|c s]; [by right|].
  case_bool_decide as Hc; [subst c|right; simpl; congruence].
  destruct s as [|d t]; [by left|]. case_bool_decide as Hd.
  - subst d. destruct t as [|e t]; [done|]. specialize (Hname true (String e t)). by destruct (flag_name _).
  - specialize (Hname false (String d t)). by destruct (flag_name _).
Qed.

Lemma classify_plain arg : plain_arg arg → classify arg = NotFlag.
Proof.
  unfold plain_arg. intros [->|Hd]; [done|]. destruct arg as [|c s]; [done|]. simpl in *.
  by rewrite bool_decide_eq_false_2 by congruence.
Qed.

(** ** The whole command line *)

Lemma given_text_arg g :
  given_text g =
  match gv_value g with
  | NoValue => [flag_arg (gv_double g) (gv_name g) None]
  | Behind value => [flag_arg (gv_double g) (gv_name g) (Some value)]
  | Next value => [flag_arg (gv_double g) (gv_name g) None; value]
  end.
Proof.
  unfold given_text, flag_arg. destruct g as [double name []]; simpl; rewrite ?string_app_nil_r; try done.
  by destruct double.
Qed.

Lemma give_other fl g : gv_name g ∉ ["help"; "listen_address"; "cached_path_regex"] → give fl g = fl.
Proof.
  rewrite !elem_of_cons, elem_of_nil. intros Hn. unfold give.
  rewrite !bool_decide_eq_false_2 by naive_solver. by destruct fl.
Qed.

Lemma defined_other others name :
  name ∉ ["help"; "listen_address"; "cached_path_regex"] → defined others name = DOther <$> others name.
Proof.
  rewrite !elem_of_cons, elem_of_nil. intros Hn. unfold defined.
  by rewrite !bool_decide_eq_false_2 by naive_solver.
Qed.

Lemma allowed_word others g : allowed others g → flag_word (gv_name g).
Proof. intros [[-> _]|[[[->| ->] _]|(_ & ? & _)]]; done. Qed.

(** What is allowed is read, and has its effect. *)
Lemma Parse_given others g rest fl :
  allowed others g → Parse others (given_text g ++ rest) fl = Parse others rest (give fl g).
Proof.
  intros Hg. pose proof (λ v, classify_flag (gv_double g) (gv_name g) v (allowed_word _ _ Hg)) as Hc.
  rewrite given_text_arg. destruct g as [double name value]. unfold allowed in Hg. simpl in *.
  destruct Hg as [[-> [->|(v & b & -> & Hb)]]|[[[->| ->] Hv]|(Hn & _ & f & Hf & Ha)]].
  - cbn [app Parse]. rewrite Hc. by destruct fl.
  - cbn [app Parse]. rewrite Hc. simpl. rewrite Hb. unfold give. simpl. rewrite Hb. by destruct fl.
  - destruct value; [done|..]; cbn [app Parse]; rewrite Hc; by destruct fl.
  - destruct value; [done|..]; cbn [app Parse]; rewrite Hc; by destruct fl.
  - rewrite give_other by done. pose proof (defined_other others name Hn) as Hd. rewrite Hf in Hd.
    destruct (ot_bool f) eqn:Hb.
    + destruct Ha as [Hnx Ha]. destruct value; [| |by destruct (Hnx value)]; simpl in Ha; cbn [app Parse];
        rewrite Hc, Hd; simpl; by rewrite Hb, Ha.
    + destruct Ha as (v & Hv & Ha). destruct value; [done|..]; injection Hv as ->; cbn [app Parse];
        rewrite Hc, Hd; simpl; by rewrite Hb, Ha.
Qed.

Lemma Parse_givens others gs tail fl :
  Forall (allowed others) gs → Parse others (concat (given_text <$> gs) ++ tail) fl = Parse others tail (foldl give fl gs).
Proof.
  intros Hgs. revert fl. induction Hgs as [|g gs Hg Hgs IH]; intros fl; [done|].
  simpl. rewrite <- app_assoc, Parse_given by done. apply IH.
Qed.

(** What is read first is allowed. *)
Lemma Parse_inv others arg args fl fl' rest :
  Parse others (arg :: args) fl = Parsed fl' rest →
  (arg = "--" ∧ rest = args ∧ fl' = fl) ∨
  (plain_arg arg ∧ rest = arg :: args ∧ fl' = fl) ∨
  ∃ g args', allowed others g ∧ arg :: args = given_text g ++ args' ∧
    Parse others args' (give fl g) = Parsed fl' rest.
Proof.
  pose proof (classify_inv arg) as Hc. cbn [Parse].
  destruct (classify arg) as [| | |name v]; [intros [= <- <-]; auto..|done|].
  destruct Hc as [Hw (double & ->)]. intros E. right. right.
  assert (∀ value, match v, value with
      | None, NoValue => True | Some v, Behind v' => v = v' | None, Next v' => head args = Some v' | _, _ => False
      end → flag_arg double name v :: args =
        given_text {| gv_double := double; gv_name := name; gv_value := value |} ++
        match value with Next _ => tail args | _ => args end) as Htext.
  { intros value Hv. rewrite given_text_arg. simpl. destruct v, value; simplify_eq; try done.
    destruct args; simplify_eq/=. done. }
  destruct (defined others name) as [d|] eqn:Hd; [|by destruct (_ || _)].
  unfold defined in Hd. case_bool_decide as Hhelp; [|case_bool_decide as Hla; [|case_bool_decide as Hre]].
  2, 3: injection Hd as <-; simpl in E; destruct v as [v|]; [|destruct args as [|v args]; [done|]];
    [exists {| gv_double := double; gv_name := name; gv_value := Behind v |}, args|
     exists {| gv_double := double; gv_name := name; gv_value := Next v |}, args];
    (split; [right; left; simpl; by auto|]); (split; [by apply Htext|by subst]).
  - subst name. injection Hd as <-. simpl in E.
    destruct (ParseBool (default "true" v)) as [b|] eqn:Hb; [|done].
    exists {| gv_double := double; gv_name := "help"; gv_value := match v with None => NoValue | Some v => Behind v end |}, args.
    split; [left; simpl; split; [done|]; destruct v; [right; by eauto|by left]|].
    split; [rewrite (Htext (match v with None => NoValue | Some v => Behind v end)) by (by destruct v); by destruct v|].
    rewrite <- E. f_equal. unfold give. simpl. destruct v; simpl in *; [by rewrite Hb|]. by injection Hb as <-.
  - destruct (others name) as [f|] eqn:Hf; simplify_eq/=.
    assert (name ∉ ["help"; "listen_address"; "cached_path_regex"]) as Hn by set_solver.
    assert (∀ value args', (if ot_bool f
        then (∀ v, value ≠ Next v) ∧ ot_accepts f (default "true" (value_text value)) = true
        else ∃ v, value_text value = Some v ∧ ot_accepts f v = true) →
      flag_arg double name v :: args = given_text {| gv_double := double; gv_name := name; gv_value := value |} ++ args' →
      Parse others args' fl = Parsed fl' rest →
      ∃ g args', allowed others g ∧ flag_arg double name v :: args = given_text g ++ args' ∧
        Parse others args' (give fl g) = Parsed fl' rest) as Hother.
    { intros value args' Ha Ht Hp. exists {| gv_double := double; gv_name := name; gv_value := value |}, args'.
      split; [by right; right; eauto|]. split; [done|]. by rewrite give_other. }
    destruct (ot_bool f) eqn:Hb.
    + destruct (ot_accepts f (default "true" v)) eqn:Ha; [|done].
      apply (Hother (match v with None => NoValue | Some v => Behind v end) args); [|rewrite (Htext (match v with None => NoValue | Some v => Behind v end)) by (by destruct v); by destruct v|done].
      by destruct v.
    + destruct v as [v|]; [|destruct args as [|v args]; [done|]];
        (destruct (ot_accepts f v) eqn:Ha; [|done]).
      * apply (Hother (Behind v) args); [by eauto|by apply Htext|done].
      * apply (Hother (Next v) args); [by eauto|by apply Htext|done].
Qed.

Lemma Parse_all_inv others n args fl fl' rest :
  (length args ≤ n)%nat → Parse others args fl = Parsed fl' rest →
  ∃ gs tail, args = concat (given_text <$> gs) ++ tail ∧ Forall (allowed others) gs ∧
    (tail = "--" :: rest ∨ tail = rest ∧ ∀ arg, head rest = Some arg → plain_arg arg) ∧
    fl' = foldl give fl gs.
Proof.
  revert args fl. induction n as [|n IH]; intros [|arg args] fl Hn E; simpl in Hn; [|lia| |].
  1, 2: injection E as <- <-; exists [], []; split_and!; [done|constructor|by right|done].
  destruct (Parse_inv _ _ _ _ _ _ E) as [(-> & -> & ->)|[(Hp & -> & ->)|(g & args' & Hg & Ht & E')]].
  - exists [], ("--" :: args). split_and!; [done|constructor|by left|done].
  - exists [], (arg :: args). split_and!; [done|constructor|right; split; [done|by intros ? [= <-]]|done].
  - destruct (IH args' (give fl g)) as (gs & tail & -> & Hgs & Htail & ->); [|done|].
    { apply (f_equal length) in Ht. rewrite length_app in Ht. simpl in Ht.
      assert (1 ≤ length (given_text g))%nat by (unfold given_text; destruct (gv_value g); simpl; lia). lia. }
    exists (g :: gs), tail. split_and!; [by rewrite Ht; simpl; rewrite <- app_assoc|by constructor|done|done].
Qed.

(** * Properties *)

(** C21 (roundtrip).  [flag.Parse] reads exactly what can be written: a command line is parsed to
    the flags [fl] and the arguments [rest] if and only if it is made of flags, each with one dash
    or two, with the value behind an equals sign or in the next argument, boolean flags also
    without one, in any order and any number of times, also those of other packages; then the
    arguments, the first of which does not look like a flag, or which come behind a "--"; and [fl]
    has, for each flag, the last value that is given to it or its default: no help, no server, and
    every path cached. *)
Theorem Parse_spelled (others : string → option OtherFlag) (args : list string) (fl : Flags)
    (rest : list string) :
  Parse others args default_flags = Parsed fl rest ↔
  ∃ gs tail, args = concat (given_text <$> gs) ++ tail ∧ Forall (allowed others) gs ∧
    (tail = "--" :: rest ∨ tail = rest ∧ ∀ arg, head rest = Some arg → plain_arg arg) ∧
    fl = given_flags gs.
Proof.
  split.
  - intros E. destruct (Parse_all_inv _ _ _ _ _ _ (le_n _) E) as (gs & tail & ? & ? & ? & ->).
    exists gs, tail. by rewrite foldl_give.
  - intros (gs & tail & -> & Hgs & Htail & ->). rewrite Parse_givens, foldl_give by done.
    destruct Htail as [->|[-> Hrest]]; [done|]. destruct rest as [|arg rest]; [done|].
    cbn [Parse]. by rewrite classify_plain by (by apply Hrest).
Qed.

(** Both ways of giving a value, a flag that is given twice and one of another package. *)
Lemma Parse_spelled_witness :
  Parse (λ name, if bool_decide (name = "v") then Some {| ot_bool := false; ot_accepts := λ _, true |} else None)
    ["--listen_address"; ":1"; "-v=2"; "-help=false"; "-listen_address=:1234"; "/net"; "/cache"; "/mnt"]
    default_flags
  = Parsed {| fl_help := false; fl_listen_address := ":1234"; fl_cached_path_regex := ".*" |}
      ["/net"; "/cache"; "/mnt"].
Proof.
  apply Parse_spelled.
  exists [{| gv_double := true; gv_name := "listen_address"; gv_value := Next ":1" |};
          {| gv_double := false; gv_name := "v"; gv_value := Behind "2" |};
          {| gv_double := false; gv_name := "help"; gv_value := Behind "false" |};
          {| gv_double := false; gv_name := "listen_address"; gv_value := Behind ":1234" |}],
    ["/net"; "/cache"; "/mnt"].
  split; [reflexivity|]. split; [|split; [|reflexivity]].
  - repeat (apply Forall_cons; split); [..|constructor].
    + right. left. by auto.
    + right. right. split; [by vm_compute; set_solver|]. split; [done|]. eexists. split; [reflexivity|]. by exists "2".
    + left. split; [done|]. right. by exists "false", false.
    + right. left. by auto.
  - right. split; [done|]. intros arg [= <-]. by right.
Defined.

(** The command line asks for the file system. *)
Definition asks_to_serve (others : string → option OtherFlag) (args : list string) : Prop :=
  ∃ fl targetDir cacheDir mountPoint,
    Parse others args default_flags = Parsed fl [targetDir; cacheDir; mountPoint] ∧ fl_help fl = false.

(** C20 (error).  Every other command line than one with three arguments and without -help only
    prints a message and exits: with 0 for -help alone, with 2 for a wrong number of arguments,
    an unknown flag or a bad value; no file is touched, no cache is opened and no server
    started. *)
Theorem exits_before_serving {OS DB} `{Kernel OS, SqlDriver DB} (others : string → option OtherFlag)
    (help_code : Z) (regexp_Compile : string → error + (string → bool))
    (fs_Loop : string → globalState → string → GoM (World OS DB) ()) (argv0 : string)
    (args : list string) (p : Program OS DB) :
  ¬ asks_to_serve others args →
  ∃ code msgs,
    main others help_code regexp_Compile fs_Loop argv0 args p
    = (Ret (Exit code), {| pg_stderr := pg_stderr p ++ msgs; pg_http := pg_http p;
                           pg_world := pg_world p |}) ∧
    msgs ≠ [] ∧
    match Parse others args default_flags with
    | ParseHelp => code = help_code
    | ParseFailed e => code = 2 ∧ MFlag e ∈ msgs
    | Parsed fl rest => code = if fl_help fl && bool_decide (rest = []) then 0 else 2
    end.
Proof.
  intros Hno. unfold main, usageError, showHelp, flagUsage, print, go_modify, mbind, go_mbind, go_bind.
  destruct (Parse others args default_flags) as [fl rest| |e] eqn:E.
  - destruct (fl_help fl) eqn:Hh.
    + destruct rest; simpl; do 2 eexists; (split; [by rewrite <- app_assoc|done]).
    + destruct rest as [|a [|b [|c [|d rest]]]]; simpl;
        try (do 2 eexists; split; [by rewrite <- app_assoc|done]).
      destruct Hno. by exists fl, a, b, c.
  - simpl. do 2 eexists. by split.
  - simpl. do 2 eexists. split; [by rewrite <- app_assoc|]. split_and!; [done|done|by left].
Qed.

Definition sample_program : Program MemOs MemSql :=
  {| pg_stderr := []; pg_http := None;
     pg_world := {| w_stats := NewStats;
       w_os := {| mo_local := ∅; mo_remote := ∅; mo_handles := ∅; mo_next := 0; mo_drawn := ∅; mo_faults := [] |};
       w_conn := {| c_db := {| ms_view := {| v_handles := ∅; v_stmts := ∅; v_ran := [] |};
                               ms_faults := [] |};
                    c_rt := sample_runtime |} |} |}.

Lemma exits_before_serving_witness :
  ∃ code msgs,
    main (λ _, None) 0 (λ _, inr (λ _, true)) (λ _ _ _, go_diverge) "bin/sourcachefs" ["-help"; "x"]
      sample_program
    = (Ret (Exit code), {| pg_stderr := [] ++ msgs; pg_http := None; pg_world := pg_world sample_program |}) ∧
    msgs ≠ [] ∧ code = 2.
Proof.
  apply (exits_before_serving (OS := MemOs) (DB := MemSql) (λ _, None) 0 (λ _, inr (λ _, true))
    (λ _ _ _, go_diverge) "bin/sourcachefs" ["-help"; "x"] sample_program).
  intros (fl & a & b & c & E & _). vm_compute in E. discriminate E.
Defined.

Section closing.
Context {OS DB : Type} `{KernelLaws OS, SqlDriverLaws DB}.
Abbreviation W := (World OS DB).
Definition world_view (w : W) : sql_view := drv_view (c_db (w_conn w)).

(** A cache that [NewCache] returns is on a database that was not open before. *)
Lemma NewCache_opened root (w w1 : W) cache :
  view_wf (world_view w) → NewCache root w = (Ret cache, w1) →
  (mc_db (Cache_Metadata cache) ∉ v_handles (world_view w)) ∧
  v_handles (world_view w1) = {[mc_db (Cache_Metadata cache)]} ∪ v_handles (world_view w).
Proof.
  intros Hv. unfold NewCache, go_try, on_conn, on_db, go_zoom, mbind, go_mbind, go_bind at 1. simpl.
  pose proof (NewMetadataCache_post (Join [root; "metadata.db"]) (c_db (w_conn w)) Hv) as Hp.
  destruct (NewMetadataCache _ (c_db (w_conn w))) as [[c|e| | |] d]; simpl in Hp; try done.
  - intros [= <- <-]. simpl. by destruct Hp as (Hn & Hh & _).
  - unfold go_bind. destruct (go_ignore (Remove (OS := OS) (DB := DB) _ _) _) as [[[]|?|?|?|] w2];
      try done. by destruct (go_ignore (Remove (OS := OS) (DB := DB) _ _) w2) as [[[]|?|?|?|] w3].
Qed.

(** The state in which [main] has closed the cache, as far as that went. *)
Definition cache_closed (cache : Cache) (w w2 w3 : W) : Prop :=
  ∃ c' err, w_os w3 = w_os w2 ∧ Cache_Close cache (c_db (w_conn w2)) = (Ret (c', err), c_db (w_conn w3)) ∧
    (err = None → v_handles (world_view w3) = v_handles (world_view w)).

Lemma close_cache_run cache (w w2 : W) :
  (mc_db (Cache_Metadata cache) ∉ v_handles (world_view w)) →
  v_handles (world_view w2) = {[mc_db (Cache_Metadata cache)]} ∪ v_handles (world_view w) →
  ∃ w3, close_cache cache w2 = (Ret tt, w3) ∧ cache_closed cache w w2 w3.
Proof.
  intros Hn Hh. pose proof (Close_ran (Cache_Metadata cache) (c_db (w_conn w2))) as Hp.
  unfold close_cache, cache_closed, Cache_Close, on_conn, on_db, go_zoom, mbind, go_mbind, go_bind.
  destruct (MetadataCache_Close (Cache_Metadata cache) (c_db (w_conn w2))) as [[[c' err]|?|?|?|] d];
    try done. simpl in *. eexists. split; [done|]. do 2 eexists. split_and!; [done|done|].
  intros Herr. destruct Hp as (_ & _ & Hclosed & _). destruct (Hclosed Herr) as [_ Hd].
  unfold world_view in *. simpl. rewrite Hd, Hh. set_solver.
Qed.
End closing.

(** Once the cache is open, its database is closed exactly when [fs.Loop] returns without an error
    or panics: [main] then returns (or panics) after closing it; an error of [fs.Loop] exits the
    process with the database still open. *)
Lemma main_serve_ran {OS DB} `{KernelLaws OS, SqlDriverLaws DB}
    (regexp_Compile : string → error + (string → bool))
    (fs_Loop : string → globalState → string → GoM (World OS DB) ()) (p : Program OS DB) (fl : Flags)
    (targetDir cacheDir mountPoint : string) (r : string → bool) (cache : Cache)
    (w1 w2 : World OS DB) ol :
  regexp_Compile (fl_cached_path_regex fl) = inr r → view_wf (world_view (pg_world p)) →
  NewCache cacheDir (set_w_stats NewStats (pg_world p)) = (Ret cache, w1) →
  fs_Loop targetDir {| g_content := Cache_Content cache; cachedPathRegex := r |} mountPoint w1
    = (ol, w2) →
  world_view w2 = world_view w1 →
  let '(o, p') := main_serve regexp_Compile fs_Loop fl targetDir cacheDir mountPoint p in
  match ol with
  | Ret _ => o = Ret MainReturned ∧ cache_closed cache (pg_world p) w2 (pg_world p')
  | Panic msg => o = Panic msg ∧ cache_closed cache (pg_world p) w2 (pg_world p')
  | Err e => o = Fatal ("failed to serve file system: " +:+ error_string e) ∧ pg_world p' = w2
  | Fatal msg => o = Fatal msg ∧ pg_world p' = w2
  | OutOfFuel => o = OutOfFuel ∧ pg_world p' = w2
  end.
Proof.
  intros Hr Hv Hnew El Hview.
  destruct (NewCache_opened _ _ _ _ (Hv : view_wf (world_view (set_w_stats NewStats (pg_world p)))) Hnew)
    as [Hn Hh].
  destruct (close_cache_run cache (pg_world p) w2) as (w3 & Hclose & Hclosed);
    [done|by rewrite Hview|].
  unfold main_serve. rewrite Hr.
  unfold on_program, go_try, go_zoom, go_modify, mbind, go_mbind, go_bind. simpl. rewrite Hnew. simpl.
  unfold go_defer. destruct (0 <? String.length (fl_listen_address fl))%nat; simpl; rewrite El;
    destruct ol; simpl; rewrite ?Hclose; by split.
Qed.
