(* ===== verification/Remote.v ===== *)
(** The remote tree as the program means it to be used: read-only and not changing while the
    file system runs.

    [RemoteView] names the tree in a kernel state and [RemoteLaws] is what the kernel's calls
    then answer; descriptors of open files stay what they are until they are closed.  [MemOs]
    satisfies the laws.  [tree_ok] are the trees the cache can represent. *)
From S2P Require Import Prelude GoStrings GoPath Types DirEntries Sql Sqlite Kernel MetadataSpec.
From S2P Require Import Md5 ContentProps Fs FsProps.
#[local] Open Scope Z_scope.

(** Every call of the kernel, for what holds of all of them. *)
Inductive KernelCall : Type :=
  | KLstat (p : string) | KMkdir (p : string) (mode : Z) | KOpen (p : string)
  | KReadlink (p : string) | KRemove (p : string) | KRename (p q : string)
  | KTempFile (dir prefix : string) | KRead (f : File) (n : nat)
  | KReadAt (f : File) (n : nat) (off : Z) | KWrite (f : File) (data : bytes)
  | KReaddir (f : File) | KClose (f : File).

Definition kernel_call `{Kernel OS} (c : KernelCall) : GoM OS () :=
  match c with
  | KLstat p => _ ← os_Lstat p; mret ()
  | KMkdir p mode => os_Mkdir p mode
  | KOpen p => _ ← os_Open p; mret ()
  | KReadlink p => _ ← os_Readlink p; mret ()
  | KRemove p => os_Remove p
  | KRename p q => os_Rename p q
  | KTempFile dir prefix => _ ← os_TempFile dir prefix; mret ()
  | KRead f n => _ ← file_Read f n; mret ()
  | KReadAt f n off => _ ← file_ReadAt f n off; mret ()
  | KWrite f data => _ ← file_Write f data; mret ()
  | KReaddir f => _ ← file_Readdir f; mret ()
  | KClose f => file_Close f
  end.

(** The descriptor a call closes. *)
Definition closes (c : KernelCall) : option Z :=
  match c with KClose f => Some (f_fd f) | _ => None end.

Class RemoteView (OS : Type) : Type := { remote_tree : OS → string → option rnode }.

Definition rnode_info (n : rnode) : FileInfo :=
  match n with RFile i _ | RDir i _ | RLink i _ => i end.

Class RemoteLaws (OS : Type) `{Kernel OS, KernelView OS, RemoteView OS} : Prop := {
  tree_kept c s : remote_tree (kernel_call c s).2 = remote_tree s;
  image_kept c s fd x :
    closes c ≠ Some fd → os_image s !! fd = Some x → os_image (kernel_call c s).2 !! fd = Some x;
  Open_fresh p s f s' : os_Open p s = (Ret f, s') → os_image s !! f_fd f = None;
  TempFile_fresh dir prefix s f s' :
    os_TempFile dir prefix s = (Ret f, s') → os_image s !! f_fd f = None;
  remote_Lstat p s :
    is_local p = false →
    match (os_Lstat p s).1 with
    | Ret fi => ∃ nd, remote_tree s p = Some nd ∧ fi = rnode_info nd
    | Err e => e ≠ EFuseENOENT ∧ (IsNotExist e = true → remote_tree s p = None)
    | _ => True
    end;
  remote_Readlink p s t s' :
    is_local p = false → os_Readlink p s = (Ret t, s') →
    ∃ info, remote_tree s p = Some (RLink info t);
  remote_Open p s f s' info c :
    is_local p = false → os_Open p s = (Ret f, s') → remote_tree s p = Some (RFile info c) →
    os_stream s' !! f_fd f = Some c;
  remote_Readdir p s f s' l s'' info l' :
    is_local p = false → os_Open p s = (Ret f, s') → file_Readdir f s' = (Ret l, s'') →
    remote_tree s p = Some (RDir info l') → Permutation l l';
}.

(** ** The kernel in memory *)

#[export] Instance MemOs_remote : RemoteView MemOs := {| remote_tree s p := mo_remote s !! p |}.

Definition mem_quiet (s s' : MemOs) : Prop :=
  mo_remote s' = mo_remote s ∧
  ∀ fd x, (h_image <$> mo_handles s) !! fd = Some x → (h_image <$> mo_handles s') !! fd = Some x.

Lemma mem_quiet_handles s s' :
  mo_remote s' = mo_remote s → mo_handles s' = mo_handles s → mem_quiet s s'.
Proof. intros Hr Hh. split; [done|]. by rewrite Hh. Qed.

Lemma dropped_state {S A} (m : GoM S A) s : ((_ ← m; mret ()) s).2 = (m s).2.
Proof. unfold mbind, go_mbind, go_bind. by destruct (m s) as [[] ?]. Qed.

Lemma new_handle_quiet p h s : mem_quiet s (new_handle p h s).2.
Proof.
  destruct (new_handle_cases p h s) as [[e ->]|[Hn ->]]; [by apply mem_quiet_handles|].
  split; [done|]. simpl. intros fd x. rewrite fmap_insert, lookup_insert.
  case_decide; [|done]. subst. by rewrite lookup_fmap, Hn.
Qed.

Lemma mem_call_quiet c (s : MemOs) : mem_quiet s (kernel_call c s).2.
Proof.
  destruct c; simpl; rewrite ?dropped_state; simpl.
  - unfold no_false_enoent, mem_Lstat. mem_cases; repeat case_match; simplify_eq/=;
      by apply mem_quiet_handles.
  - unfold mem_Mkdir. mem_cases; repeat case_match; simplify_eq/=; by apply mem_quiet_handles.
  - unfold mem_Open. mem_cases; [by apply mem_quiet_handles|].
    repeat case_match; simplify_eq/=; try (by apply mem_quiet_handles);
      match goal with Hn : new_handle ?p ?h ?t = _ |- _ =>
        pose proof (new_handle_quiet p h t) as Hq; by rewrite Hn in Hq end.
  - unfold mem_Readlink. mem_cases; repeat case_match; simplify_eq/=; by apply mem_quiet_handles.
  - unfold mem_Remove. mem_cases; repeat case_match; simplify_eq/=; by apply mem_quiet_handles.
  - unfold mem_Rename. mem_cases; repeat case_match; simplify_eq/=; by apply mem_quiet_handles.
  - unfold mem_TempFile. mem_cases; [by apply mem_quiet_handles|].
    repeat case_match; simplify_eq/=; try (by apply mem_quiet_handles);
      match goal with Hn : new_handle ?p ?h ?t = _ |- _ =>
        pose proof (new_handle_quiet p h t) as Hq; by rewrite Hn in Hq end.
  - unfold mem_Read. mem_cases; [by apply mem_quiet_handles|].
    destruct (mo_handles s !! f_fd f) as [h|] eqn:Hh; [|by apply mem_quiet_handles].
    destruct (n =? 0)%nat; [by apply mem_quiet_handles|].
    destruct (h_stream h); [by apply mem_quiet_handles|]. split; [done|]. simpl.
    intros fd x. rewrite fmap_insert, lookup_insert. case_decide; [subst|done].
    by rewrite lookup_fmap, Hh.
  - unfold mem_ReadAt. mem_cases; [by apply mem_quiet_handles|].
    repeat case_match; simplify_eq/=; by apply mem_quiet_handles.
  - unfold mem_Write. mem_cases; [by apply mem_quiet_handles|].
    repeat case_match; simplify_eq/=; by apply mem_quiet_handles.
  - unfold mem_Readdir. mem_cases; repeat case_match; simplify_eq/=; by apply mem_quiet_handles.
  - unfold mem_Close. mem_cases; repeat case_match; simplify_eq/=; by apply mem_quiet_handles.
Qed.

Lemma mem_Lstat_remote p (s : MemOs) :
  is_local (OS := MemOs) p = false →
  match (os_Lstat p s).1 with
  | Ret fi => ∃ nd, remote_tree s p = Some nd ∧ fi = rnode_info nd
  | Err e => e ≠ EFuseENOENT ∧ (IsNotExist e = true → remote_tree s p = None)
  | _ => True
  end.
Proof.
  simpl. intros Hp. unfold no_false_enoent, mem_Lstat, mem_has. rewrite Hp. mem_cases.
  - destruct (bool_decide (no = ENOENT)) eqn:Hno; [destruct (bool_decide (is_Some _)) eqn:Hs|];
      simpl; rewrite ?Hno; (split; [done|]); try done.
    intros _. apply bool_decide_eq_false in Hs. by apply eq_None_not_Some.
  - destruct (mo_remote s !! p) as [nd|] eqn:Hr; simpl; [|by split]. by exists nd; destruct nd.
Qed.

Lemma new_handle_inv p h s f s' :
  new_handle p h s = (inr f, s') →
  mo_handles s !! f_fd f = None ∧ mo_handles s' !! f_fd f = Some h.
Proof.
  destruct (new_handle_cases p h s) as [[e ->]|[Hn ->]]; [done|].
  intros [= <- <-]. split; [done|]. simpl. by rewrite lookup_insert_eq.
Qed.

(** Both laws on [Open], and the one on [Readdir]. *)
Lemma mem_Open_inv p (s : MemOs) f s' :
  os_Open p s = (Ret f, s') →
  mo_handles s !! f_fd f = None ∧
  (is_local (OS := MemOs) p = false → ∃ h, mo_handles s' !! f_fd f = Some h ∧
     match mo_remote s !! p with
     | Some (RFile _ c) => h_stream h = c
     | Some (RDir _ l) => h_entries h = l
     | _ => True
     end).
Proof.
  simpl. unfold mem_Open. mem_cases; [done|].
  destruct (mem_is_local p) eqn:Hp; [destruct (mo_local s !! p) as [[]|]|
    destruct (mo_remote s !! p) as [[]|] eqn:Hr]; simpl; try done.
  all: match goal with |- context [new_handle ?p ?h ?t] =>
    destruct (new_handle p h t) as [[e|g] s1] eqn:Hn end; [done|]; intros [= <- <-];
    apply new_handle_inv in Hn as [Hn1 Hn2]; (split; [done|]); intros; simplify_eq; eauto.
Qed.

#[export] Instance MemOs_remote_laws : RemoteLaws MemOs.
Proof.
  split.
  - intros c s. destruct (mem_call_quiet c s) as [Hr _]. simpl. by rewrite Hr.
  - intros c s fd x _ Hx. by apply (mem_call_quiet c s).
  - intros p s f s' Ho. apply mem_Open_inv in Ho as [Hn _]. simpl. by rewrite lookup_fmap, Hn.
  - intros dir prefix s f s'. simpl. unfold mem_TempFile. mem_cases; [done|].
    destruct (bool_decide _); simpl; [done|].
    match goal with |- context [new_handle ?p ?h ?t] =>
      destruct (new_handle p h t) as [[e|g] s1] eqn:Hn end; [done|]. intros [= <- <-].
    apply new_handle_inv in Hn as [Hn _]. simpl in Hn. by rewrite lookup_fmap, Hn.
  - apply mem_Lstat_remote.
  - intros p s t s' _. simpl. unfold mem_Readlink. mem_cases; [done|].
    destruct (mo_remote s !! p) as [[]|]; intros; simplify_eq/=. by eexists.
  - intros p s f s' info c Hp Ho Hr. apply mem_Open_inv in Ho as [_ Ho].
    destruct (Ho Hp) as (h & Hh & Hc). simpl in *. rewrite lookup_fmap, Hh. simpl.
    rewrite Hr in Hc. by rewrite Hc.
  - intros p s f s' l s'' info l' Hp Ho Hd Hr. apply mem_Open_inv in Ho as [_ Ho].
    destruct (Ho Hp) as (h & Hh & Hc). simpl in *. rewrite Hr in Hc.
    revert Hd. unfold mem_Readdir. mem_cases; [done|]. rewrite Hh.
    intros [= <- <-]. by rewrite Hc.
Qed.

(** * Trees the cache can represent *)

Abbreviation good_path cs := (Forall (λ n, good_name n = true) cs).

(** The type bits of an entry and its type name. *)
Definition rnode_type (nd : rnode) : Z :=
  match nd with RFile _ _ => 0 | RDir _ _ => ModeDir | RLink _ _ => ModeSymlink end.
Definition rnode_type_name (nd : rnode) : string :=
  match nd with RFile _ _ => "file" | RDir _ _ => "directory" | RLink _ _ => "symlink" end.

Lemma sqlTypeName_rnode nd : sqlTypeName (rnode_type nd) = Ret (rnode_type_name nd).
Proof. by destruct nd. Qed.

Lemma rnode_type_name_known nd : rnode_type_name nd ∈ type_names.
Proof. eapply sqlTypeName_type_names, sqlTypeName_rnode. Qed.

Lemma rnode_type_name_entry nd : rnode_type_name nd ≠ "noentry".
Proof. by destruct nd. Qed.

Lemma rnode_type_idem nd : mode_type (rnode_type nd) = rnode_type nd.
Proof. by destruct nd. Qed.

(** What the program can store about an entry: a size and a time of 64 bits, a mode of 32 bits
    whose type bits are those of the entry, and texts that the numeric affinity of the columns
    leaves alone. *)
Record rnode_ok (nd : rnode) : Prop := {
  rn_info : FileInfo_wf (rnode_info nd);
  rn_mtime : is_int64 (ModTime (rnode_info nd));
  rn_type : mode_type (Mode (rnode_info nd)) = rnode_type nd;
  rn_text : match nd with
            | RFile _ c => number_like (digest c) = false
            | RLink _ t => number_like t = false
            | RDir _ _ => True
            end;
}.

Section tree.
Context (tree : string → option rnode) (rr : list string).

(** The entry behind the path with the components [cs]. *)
Definition tree_at (cs : list string) : option rnode := tree (abs_path (rr ++ cs)).

(** The remote directory [rr] exists, the cache directory is not below it, every entry can be
    stored, and every listing has the plain, distinct names of entries with the types they are
    listed with. *)
Record tree_ok (is_local : string → bool) : Prop := {
  to_rr : good_path rr;
  to_root : ∃ info l, tree_at [] = Some (RDir info l);
  to_remote : ∀ cs, good_path cs → is_local (abs_path (rr ++ cs)) = false;
  to_node : ∀ cs nd, good_path cs → tree_at cs = Some nd → rnode_ok nd;
  to_listing : ∀ cs info l, good_path cs → tree_at cs = Some (RDir info l) →
    listing_ok l ∧
    ∀ fi, fi ∈ l → ∃ nd, tree_at (cs ++ [Name fi]) = Some nd ∧ mode_type (Mode fi) = rnode_type nd;
}.
End tree.

Lemma listing_ok_permutation l l' : Permutation l l' → listing_ok l' → listing_ok l.
Proof. intros Hl. unfold listing_ok. by rewrite Hl. Qed.

Lemma good_path_snoc cs n : good_path (cs ++ [n]) ↔ good_path cs ∧ good_name n = true.
Proof. rewrite Forall_app, Forall_singleton. done. Qed.

(** The remote path of the root node. *)
Lemma Join_remote_root rr : good_path rr → Join [abs_path rr; "/"] = abs_path rr.
Proof.
  intros Hrr. unfold Join. rewrite bool_decide_eq_false_2 by done.
  change (StrJoin "/" [abs_path rr; "/"]) with (abs_path rr +:+ "//").
  destruct rr as [|c rr]; [done|].
  assert (abs_path (c :: rr) +:+ "//" = "/" +:+ StrJoin "/" (((c :: rr) ++ [""]) ++ [""])) as ->.
  { unfold abs_path. rewrite !StrJoin_snoc by done. by rewrite !string_app_assoc. }
  unfold Clean, abs_path. rewrite bool_decide_eq_false_2 by done.
  change (Split slash ("/" +:+ StrJoin "/" (((c :: rr) ++ [""]) ++ [""])))
    with ("" :: Split slash (StrJoin "/" (((c :: rr) ++ [""]) ++ [""]))).
  change (is_rooted _) with true. rewrite clean_comps_skip.
  rewrite (Split_StrJoin slash); [|done|repeat (apply Forall_app; split); eauto using good_names_no_slash].
  rewrite <- app_assoc, (clean_comps_app true (c :: rr)) by done.
  rewrite app_nil_r. cbn [app clean_comps]. rewrite !bool_decide_eq_true_2 by done.
  cbn [orb]. by rewrite rev_involutive.
Qed.
