(* ===== verification/FsTermination.v ===== *)
(** Every handler of the file system ends while the database is not contended; one that shares the
    kernel and the database with others does so unless it waits for one of them. *)
From S2P Require Import Prelude GoStrings GoPath Stats Types DirEntries Sql Sqlite Kernel.
From S2P Require Import Syscalls Metadata MetadataSpec MetadataProps WorldPost Md5 Content.
From S2P Require Import ContentProps Fs FsLogic FsProps FsTheorems Remote.
#[local] Open Scope Z_scope.
#[local] Arguments Join : simpl never.

(** The remote file at [path] cannot be opened, or ends within the copy loop's fuel. *)
Definition ends_in_fuel `{Kernel OS, KernelView OS, Fuel} (path : string) (s : OS) : Prop :=
  (∃ c, opens_with path s c ∧ (length c < copy_fuel)%nat) ∨ (∃ e s', os_Open path s = (Err e, s')).

(** From one state: the computation ends, in a state with [I], or stops in one with [W]. *)
Definition ends {S A} (I W : S → Prop) (m : GoM S A) (s : S) : Prop :=
  ((m s).1 = OutOfFuel → W (m s).2) ∧ I (m s).2.

Lemma ends_bind {S A B} (I W : S → Prop) (f : A → GoM S B) (m : GoM S A) s :
  ends I W m s → (∀ a, halts I W (f a)) → ends I W (go_bind f m) s.
Proof.
  unfold ends, go_bind. intros [Ho Hs] Hf.
  destruct (m s) as [[a| | | |] s']; simpl in *; try (by split; auto). by apply Hf.
Qed.

Lemma ends_try {S A} (I W : S → Prop) (m : GoM S A) s : ends I W m s → ends I W (go_try m) s.
Proof.
  unfold ends, go_try. intros [Ho Hs]. destruct (m s) as [[] s']; simpl in *; by split; auto.
Qed.

Section termination.
Context {OS DB : Type} `{Kernel OS, SqlEngine DB, !Fuel}.
Context (globals : globalState).
Abbreviation W := (World OS DB).
(** Where a call of the kernel or the database can stop, and the databases without contention. *)
Context (stalls : OS → Prop) (quiet waits : DB → Prop).
Context (kernel_ends : ∀ c s, (kernel_call c s).1 = OutOfFuel → stalls (kernel_call c s).2).
Context (exec_quiet : ∀ st d, quiet d → ends_quietly quiet waits (db_exec st d)).
Context (query_quiet : ∀ q d, quiet d → ends_quietly quiet waits (db_query q d)).
Context (some_fuel : (0 < retry_fuel)%nat).

Definition quiet_world (w : W) : Prop := quiet (c_db (w_conn w)).
Definition stuck_world (w : W) : Prop := stalls (w_os w) ∨ waits (c_db (w_conn w)).
Definition quiet_state {N} (s : N * W) : Prop := quiet_world s.2.
Definition stuck_state {N} (s : N * W) : Prop := stuck_world s.2.
Abbreviation WHalts := (halts quiet_world stuck_world).
Abbreviation Halts := (halts quiet_state stuck_state).
Abbreviation HaltsAt N := (halts (quiet_state (N := N)) (stuck_state (N := N))).

Lemma halts_on_stats {A} (m : GoM Stats A) :
  (∀ s, (m s).1 ≠ OutOfFuel) → WHalts (on_stats m).
Proof.
  intros Ho w Hw. specialize (Ho (w_stats w)).
  unfold on_stats, go_zoom, quiet_world in *. by destruct (m _).
Qed.

Lemma halts_on_os {A} (m : GoM OS A) :
  (∀ s, (m s).1 = OutOfFuel → stalls (m s).2) → WHalts (on_os m).
Proof.
  intros Ho w Hw. specialize (Ho (w_os w)). unfold on_os, go_zoom, quiet_world, stuck_world in *.
  destruct (m _) as [o s']. simpl. split; [intros ->; left; by apply Ho|done].
Qed.

Lemma AccountOsOp_ends d op s : (AccountOsOp d op s).1 ≠ OutOfFuel.
Proof.
  unfold AccountOsOp, getPerOsOpStats, mbind, go_mbind, go_bind.
  destruct (osOpStats s !! op); simpl; [|done]. by repeat case_match.
Qed.
Lemma AccountReadBytes_ends d n s : (AccountReadBytes d n s).1 ≠ OutOfFuel.
Proof. unfold AccountReadBytes. by repeat case_match. Qed.
Lemma Account_ends op s :
  (AccountCacheHit op s).1 ≠ OutOfFuel ∧ (AccountCacheMiss op s).1 ≠ OutOfFuel ∧
  (AccountDirect op s).1 ≠ OutOfFuel.
Proof.
  unfold AccountCacheHit, AccountCacheMiss, AccountDirect, getPerFuseOpStats, mbind, go_mbind, go_bind.
  by destruct (fuseOpStats s !! op).
Qed.

Lemma halts_counted {A} d op (m : GoM OS A) :
  (∀ s, (m s).1 = OutOfFuel → stalls (m s).2) → WHalts (on_stats (AccountOsOp d op);; on_os m).
Proof.
  intros Hm. apply halts_bind; [apply halts_on_stats, AccountOsOp_ends|intros _].
  by apply halts_on_os.
Qed.

(** A call with a result is one of [kernel_call] with the result dropped. *)
Lemma dropped_ends {A} (m : GoM OS A) s :
  (((_ ← m; mret ()) s).1 = OutOfFuel → stalls ((_ ← m; mret ()) s).2) →
  (m s).1 = OutOfFuel → stalls (m s).2.
Proof. unfold mbind, go_mbind, go_bind. destruct (m s) as [[] s']; try done. simpl. auto. Qed.

Lemma Lstat_halts d p : WHalts (Lstat d p).
Proof. apply halts_counted. intros s. exact (dropped_ends _ s (kernel_ends (KLstat p) s)). Qed.
Lemma Readlink_halts d p : WHalts (Readlink d p).
Proof. apply halts_counted. intros s. exact (dropped_ends _ s (kernel_ends (KReadlink p) s)). Qed.
Lemma tr_Close_halts tr : WHalts (tr_Close tr).
Proof. apply halts_counted. intros s. exact (kernel_ends (KClose (tr_file tr)) s). Qed.
Lemma tr_Readdir_halts tr : WHalts (tr_Readdir tr).
Proof. apply halts_counted. intros s. exact (dropped_ends _ s (kernel_ends (KReaddir (tr_file tr)) s)). Qed.
Lemma Open_halts d p : WHalts (Open d p).
Proof.
  apply halts_bind; [apply halts_on_stats, AccountOsOp_ends|intros _].
  apply halts_bind; [|intros ?; by apply halts_const].
  apply halts_on_os. intros s. exact (dropped_ends _ s (kernel_ends (KOpen p) s)).
Qed.

Lemma tr_ReadAt_halts tr n off : WHalts (tr_ReadAt tr n off).
Proof.
  apply halts_bind; [apply halts_on_stats, AccountOsOp_ends|intros _].
  apply halts_bind; [|intros [data err]; apply halts_bind; [|intros _; by apply halts_const]].
  - apply halts_on_os. intros s. exact (dropped_ends _ s (kernel_ends (KReadAt (tr_file tr) n off) s)).
  - unfold account_read. destruct (_ && _); [|by apply halts_const].
    apply halts_on_stats, AccountReadBytes_ends.
Qed.

Lemma pathForKey_ends cache k : pathForKey cache k ≠ OutOfFuel.
Proof. unfold pathForKey, bucketForKey. by destruct (_ <? _)%nat. Qed.

Lemma GetFileForContents_halts cache k : WHalts (GetFileForContents cache k).
Proof.
  unfold GetFileForContents, HasKey. pose proof Lstat_halts. pose proof pathForKey_ends.
  halts_solve.
Qed.

Lemma on_world_halts {N A} (m : GoM W A) : WHalts m → HaltsAt N (on_world m).
Proof.
  intros Hm. apply (halts_zoom _ _ quiet_world stuck_world);
    [done|by intros []|by intros [] ?|by intros [] ?].
Qed.

Lemma accounts_halt {N} op :
  HaltsAt N (AccountHit op) ∧ HaltsAt N (AccountMiss op) ∧
  HaltsAt N (AccountDir op).
Proof. split_and!; apply on_world_halts, halts_on_stats; intros s; apply Account_ends. Qed.

(** ** The methods of the metadata cache *)

Abbreviation CHalts := (halts (quiet_conn quiet) (waiting_conn waits)).

Lemma halts_metadata {N A} (m : GoM (Conn DB) A) :
  CHalts m → HaltsAt N (metadata m).
Proof.
  intros Hm. apply on_world_halts.
  apply (halts_zoom _ _ (quiet_conn quiet) (waiting_conn waits)); [done..|]. by right.
Qed.

Lemma methods_halt {N} :
  (∀ i out, HaltsAt N (metadata (GetDirEntries i out))) ∧
  (∀ p, HaltsAt N (metadata (GetFullEntry p))) ∧
  (∀ p fm, HaltsAt N (metadata (PutNewWithType p fm))) ∧
  (∀ p, HaltsAt N (metadata (PutNewNoEntry p))) ∧
  (∀ p fm, HaltsAt N (metadata (PutNewOrUpdateWithType p fm))) ∧
  (∀ p, HaltsAt N (metadata (PutNewOrUpdateNoEntry p))) ∧
  (∀ i fi, HaltsAt N (metadata (PutFileInfo i fi))) ∧
  (∀ i h, HaltsAt N (metadata (PutContentHash i h))) ∧
  (∀ i t, HaltsAt N (metadata (PutSymlinkTarget i t))) ∧
  (∀ i p l, HaltsAt N (metadata (PutDirEntries i p l))).
Proof.
  pose proof (metadata_call_halts quiet waits exec_quiet query_quiet some_fuel) as Hc.
  split_and!; intros; apply halts_metadata.
  - apply halts_dropped, (Hc (CallGetDirEntries i out)).
  - apply halts_dropped, (Hc (CallGetFullEntry p)).
  - apply halts_dropped, (Hc (CallPutNewWithType p fm)).
  - apply halts_dropped, (Hc (CallPutNewNoEntry p)).
  - apply (Hc (CallPutNewOrUpdateWithType p fm)).
  - apply (Hc (CallPutNewOrUpdateNoEntry p)).
  - apply (Hc (CallPutFileInfo i fi)).
  - apply (Hc (CallPutContentHash i h)).
  - apply (Hc (CallPutSymlinkTarget i t)).
  - apply (Hc (CallPutDirEntries i p l)).
Qed.

(** ** The handlers *)

Lemma on_node_halts {N A} (m : GoM N A) :
  (∀ n, (m n).1 ≠ OutOfFuel) → Halts (on_node (OS := OS) (DB := DB) m).
Proof. intros Hm [n w] Hw. specialize (Hm n). unfold on_node, go_zoom. simpl. by destruct (m n). Qed.

Lemma get_node_halts {N} : Halts (get_node (N := N) (OS := OS) (DB := DB)).
Proof. by apply on_node_halts. Qed.
Lemma set_node_halts {N} (n : N) : Halts (set_node (OS := OS) (DB := DB) n).
Proof. by apply on_node_halts. Qed.

Lemma newNodeForEntry_ends p b row name : newNodeForEntry globals p b row name ≠ OutOfFuel.
Proof. unfold newNodeForEntry. by repeat case_match. Qed.

Lemma make_dirents_ends es : make_dirents es ≠ OutOfFuel.
Proof.
  induction es as [|[n e] es IH]; [done|]. cbn [make_dirents]. destruct (negb _); [done|].
  unfold dirent_type, mbind, outcome_mbind. repeat case_match; simpl; try done; by destruct (make_dirents es).
Qed.

#[local] Hint Resolve Lstat_halts Readlink_halts Open_halts tr_Close_halts tr_Readdir_halts
  tr_ReadAt_halts GetFileForContents_halts on_world_halts get_node_halts set_node_halts
  newNodeForEntry_ends make_dirents_ends : go.
#[local] Hint Extern 1 (Halts (AccountHit _)) => apply accounts_halt : go.
#[local] Hint Extern 1 (Halts (AccountMiss _)) => apply accounts_halt : go.
#[local] Hint Extern 1 (Halts (AccountDir _)) => apply accounts_halt : go.
#[local] Hint Extern 1 (Halts (metadata _)) => apply methods_halt : go.
#[local] Hint Extern 1 (Halts (on_node (go_modify _))) => by apply on_node_halts : go.

Lemma commonAttr_halts i d p : Halts (commonAttr i d p).
Proof. unfold commonAttr. halts_solve. Qed.

Lemma remember_halts name row : Halts (remember globals name row).
Proof. unfold remember. halts_solve. Qed.

Lemma Lookup_halts name : Halts (Lookup globals name).
Proof. pose proof remember_halts. unfold Lookup. halts_solve. Qed.

Lemma ReadDirAll_halts : Halts ReadDirAll.
Proof. unfold ReadDirAll, store_listing, load_listing, list_dirents. halts_solve. Qed.

Lemma Readlink_handler_halts : Halts Symlink_Readlink.
Proof. unfold Symlink_Readlink, store_target. halts_solve. Qed.

Lemma store_hash_halts f key : Halts (store_hash f key).
Proof. unfold store_hash. halts_solve. Qed.

Lemma part_halts {N P A} (get : N → P) (put : P → N → N) (m : GoM (P * W) A) :
  Halts m → Halts (go_zoom (λ s, (get s.1, s.2)) (λ '(p, w) s, (put p s.1, w)) m).
Proof. intros Hm. apply (halts_zoom _ _ quiet_state stuck_state);
    [done|by intros []|by intros [] []|by intros [] []]. Qed.

(** An accounting call leaves the kernel state alone. *)
Lemma ends_account {N A} ev (g : () → GoM (N * W) A) n w :
  stats_wf (w_stats w) → valid_counter (ev_counter ev) →
  (∀ st, stats_wf st → ends quiet_state stuck_state (g ()) (n, set_w_stats st w)) →
  ends quiet_state stuck_state (go_bind g (on_world (on_stats (account ev)))) (n, w).
Proof.
  intros Hwf Hv Hg. destruct (account_bumped ev _ Hwf Hv) as (st & Hst & Hb).
  unfold ends, go_bind, on_world, on_stats, go_zoom. simpl. rewrite Hst.
  by apply Hg, (bumped_wf ev (w_stats w)).
Qed.

(** The part of [Open] before the contents are opened, for the node [f]. *)
#[local] Abbreviation fetch_hash f :=
  (if file_direct f then
     AccountDir OpenFuseOp;;
     r ← go_try (on_world (PutContents (g_content globals) (file_belowPath f)));
     match r with
     | inr key => store_hash f key
     | inl err => if bool_decide (is_Some (contentHash (file_data f))) then mret () else go_err err
     end
   else if negb (bool_decide (is_Some (contentHash (file_data f)))) then
     AccountMiss OpenFuseOp;;
     key ← on_world (PutContents (g_content globals) (file_belowPath f));
     store_hash f key
   else AccountHit OpenFuseOp).

(** [PutContents] has the one loop whose length the remote decides. *)
Lemma File_Open_ends (f : FileNode) (w : W) :
  stats_wf (w_stats w) →
  (∀ st, stats_wf st → ends quiet_world stuck_world
     (PutContents (g_content globals) (file_belowPath f)) (set_w_stats st w)) →
  quiet_world w → ends quiet_state stuck_state (File_Open globals) (f, w).
Proof.
  intros Hwf Hput0 Hq. pose proof store_hash_halts.
  assert (∀ st, stats_wf st →
    ends quiet_state stuck_state (on_world (PutContents (g_content globals) (file_belowPath f)))
      (f, set_w_stats st w)) as Hput.
  { intros st [Ho Hw]%Hput0. unfold ends, on_world, go_zoom. simpl. by destruct (PutContents _ _ _). }
  change (ends quiet_state stuck_state (go_bind (λ _ : (), file ← get_node;
      match contentHash (file_data file) with
      | None => go_panic nil_deref
      | Some key =>
          path ← on_world (GetFileForContents (g_content globals) key);
          input ← on_world (Open LocalDomain path);
          mret {| of_path := file_path file; of_reader := Some input |}
      end) (fetch_hash f)) (f, w)).
  apply ends_bind; [|intros _; halts_solve].
  destruct (file_direct f); [|destruct (negb _); [|by apply accounts_halt]].
  - apply (ends_account {| ev_counter := CDirect OpenFuseOp; ev_amount := 0 |}); [done|in_ops|].
    intros st Hst. apply ends_bind; [by apply ends_try, Hput|]. intros r. halts_solve.
  - apply (ends_account {| ev_counter := CMiss OpenFuseOp; ev_amount := 0 |}); [done|in_ops|].
    intros st Hst. apply ends_bind; [by apply Hput|]. intros r. halts_solve.
Qed.

Lemma dir_call_halts c : Halts (dir_call globals c).
Proof.
  pose proof Lookup_halts. pose proof ReadDirAll_halts.
  destruct c; simpl; [|halts_solve..]. apply halts_bind; [|intros ?; halts_solve].
  apply halts_bind; [halts_solve|intros dir].
  apply (part_halts (λ d, dd_fileInfo (dir_data d))
           (λ fi d, set_dir_data (set_dd_fileInfo fi (dir_data d)) d)), commonAttr_halts.
Qed.

Lemma file_attr_halts : Halts (file_call globals CallFileAttr).
Proof.
  apply halts_bind; [|intros ?; halts_solve]. apply halts_bind; [halts_solve|intros f].
  apply (part_halts (λ f, fd_fileInfo (file_data f))
           (λ fi f, set_file_data (set_fd_fileInfo fi (file_data f)) f)), commonAttr_halts.
Qed.

Lemma symlink_call_halts c : Halts (symlink_call c).
Proof.
  pose proof Readlink_handler_halts.
  destruct c; simpl; [|halts_solve]. apply halts_bind; [|intros ?; halts_solve].
  apply halts_bind; [halts_solve|intros l].
  apply (part_halts (λ l, ld_fileInfo (link_data l))
           (λ fi l, set_link_data (set_ld_fileInfo fi (link_data l)) l)), commonAttr_halts.
Qed.

Lemma handle_halts size off : Halts (openFile_Read size off) ∧ Halts openFile_Release.
Proof. unfold openFile_Read, openFile_Release. split; halts_solve. Qed.
End termination.

(** * One handler alone *)

Section alone.
Context {OS DB : Type} `{KernelLaws OS, SqlLaws DB, !Fuel} (quiet : DB → Prop).

Lemma dropped_returns {S A} (m : GoM S A) s :
  ((_ ← m; mret ()) s).1 ≠ OutOfFuel ↔ (m s).1 ≠ OutOfFuel.
Proof.
  unfold mbind, go_mbind, go_bind. destruct (m s) as [[] ?]; simpl;
    split; try done; intros Hn _; by apply Hn.
Qed.

(** The laws say of every call that it answers. *)
Lemma kernel_answers c (s : OS) : (kernel_call c s).1 ≠ OutOfFuel.
Proof.
  destruct c as [p|p mode|p|p|p|p q|dir pre|f n|f n off|f data|f|f]; cbn [kernel_call];
    try apply <- @dropped_returns.
  - pose proof (Lstat_spec p s) as Hs. destruct (os_Lstat p s) as [[] ?]; by destruct Hs.
  - pose proof (Mkdir_spec p mode s) as Hs. destruct (os_Mkdir p mode s) as [[] ?]; by destruct Hs.
  - pose proof (Open_spec p s) as Hs. destruct (os_Open p s) as [[] ?]; by destruct Hs.
  - pose proof (Readlink_spec p s) as Hs. destruct (os_Readlink p s) as [[] ?]; by destruct Hs.
  - pose proof (Remove_spec p s) as Hs. destruct (os_Remove p s) as [[] ?]; by destruct Hs.
  - pose proof (Rename_spec p q s) as Hs. destruct (os_Rename p q s) as [[] ?]; by destruct Hs.
  - pose proof (TempFile_spec dir pre s) as Hs.
    destruct (os_TempFile dir pre s) as [[] ?]; by destruct Hs.
  - pose proof (Read_spec f n s) as Hs. destruct (file_Read f n s). by destruct Hs as (_ & _ & ? & ? & -> & _).
  - pose proof (ReadAt_spec f n off s) as Hs. destruct (file_ReadAt f n off s).
    by destruct Hs as (_ & ? & ? & -> & _).
  - pose proof (Write_spec f data s) as Hs. destruct (file_Write f data s).
    by destruct Hs as (_ & _ & ? & ? & -> & _).
  - pose proof (Readdir_spec f s) as Hs. destruct (file_Readdir f s) as [[] ?]; by destruct Hs.
  - pose proof (Close_spec f s) as Hs. destruct (file_Close f s) as [[] ?]; by destruct Hs.
Qed.

Lemma PutContents_ends_short rs path (w : World OS DB) :
  owns_root (OS := OS) rs → stats_wf (w_stats w) → quiet (c_db (w_conn w)) →
  ends_in_fuel path (w_os w) →
  ends (quiet_world quiet) (stuck_world (λ _, False) (λ _, False))
    (PutContents (NewContentCache (abs_path rs)) path) w.
Proof.
  intros [Hg Hl] Hwf Hq Hshort. split.
  - pose proof (PutContents_post rs Hg Hl path w Hwf) as [_ Hp]. unfold the_cache in Hp.
    destruct Hshort as [(c & Hc & Hlen)|(e & s' & He)].
    + destruct (PutContents _ path w) as [[] w']; simpl in *; try done.
      destruct Hp as [Hf _]. specialize (Hf c Hc). lia.
    + unfold PutContents, Open, mbind, go_mbind, go_bind, go_wrap, on_stats, on_os, go_zoom.
      pose proof (AccountOsOp_ends RemoteDomain OpenOsOp (w_stats w)).
      destruct (AccountOsOp _ _ _) as [[[]| | | |] st]; simpl in *; try done. by rewrite He.
  - pose proof (PutContents_conn (NewContentCache (abs_path rs)) path w) as Hc.
    unfold same_conn, quiet_world in *. by rewrite Hc.
Qed.
End alone.

(** * The property *)

(** C29 (termination).  While the database answers no call with contention, every handler ends, on
    every node and in every state of the remote; opening a file needs that the remote cannot open
    it or delivers fewer bytes than the copy loop has iterations. *)
Theorem handlers_end {OS DB} `{KernelLaws OS, SqlLaws DB, !Fuel} (globals : globalState)
    (rs : list string) (quiet : DB → Prop) :
  (∀ st d, quiet d → (db_exec st d).1 ≠ Err (ESqlite ErrBusy) ∧ quiet (db_exec st d).2) →
  (∀ q d, quiet d → (db_query q d).1 ≠ Err (ESqlite ErrBusy) ∧ quiet (db_query q d).2) →
  (0 < retry_fuel)%nat → owns_root (OS := OS) rs →
  g_content globals = NewContentCache (abs_path rs) →
  ∀ w : World OS DB, stats_wf (w_stats w) → quiet (c_db (w_conn w)) →
  (∀ c dir, (dir_call globals c (dir, w)).1 ≠ OutOfFuel) ∧
  (∀ f, (file_call globals CallFileAttr (f, w)).1 ≠ OutOfFuel) ∧
  (∀ f, ends_in_fuel (file_belowPath f) (w_os w) →
     (file_call globals CallOpen (f, w)).1 ≠ OutOfFuel) ∧
  (∀ c l, (symlink_call c (l, w)).1 ≠ OutOfFuel) ∧
  (∀ h size off, (openFile_Read size off (h, w)).1 ≠ OutOfFuel) ∧
  (∀ h, (openFile_Release (h, w)).1 ≠ OutOfFuel).
Proof.
  intros He Hq Hf Hroot Hg w Hwf Hw. destruct (engine_ends quiet He Hq) as [He' Hq'].
  assert (∀ c (s : OS), (kernel_call c s).1 = OutOfFuel → False) as Hk by apply kernel_answers.
  assert (∀ {N A} (m : GoM (N * World OS DB) A) n,
    ends (quiet_state quiet) (stuck_state (λ _, False) (λ _, False)) m (n, w) →
    (m (n, w)).1 ≠ OutOfFuel) as Hends by (intros N A m n [Hs _] Ho; by destruct (Hs Ho)).
  split_and!; intros; apply Hends.
  - by apply (dir_call_halts globals _ quiet _ Hk He' Hq' Hf).
  - by apply (file_attr_halts globals _ quiet _ Hk He' Hq' Hf).
  - apply (ends_bind (quiet_state quiet)); [|intros ?; by apply halts_const].
    apply (File_Open_ends globals _ quiet _ Hk He' Hq' Hf); [done| |done].
    intros st Hst. rewrite Hg. by apply PutContents_ends_short.
  - by apply (symlink_call_halts _ quiet _ Hk He' Hq' Hf).
  - by apply (handle_halts _ quiet _ Hk size off).
  - by apply (handle_halts _ quiet _ Hk 0 0).
Qed.

#[local] Instance sample_end_fuel : Fuel := {| retry_fuel := 1; copy_fuel := 8 |}.

Lemma sample_ends_in_fuel : ends_in_fuel "/r/a" sample_tree.
Proof. left. exists hello. split; [|simpl; lia]. eexists _, _. split; [by vm_compute|done]. Qed.

Lemma handlers_end_witness :
  (dir_call sample_globals CallReadDirAll (sample_root, sample_fs)).1 ≠ OutOfFuel ∧
  (file_call sample_globals CallOpen (sample_file, sample_fs)).1 ≠ OutOfFuel.
Proof.
  assert (0 < retry_fuel)%nat as Hf by (simpl; lia).
  destruct (handlers_end sample_globals ["cache"] (λ d, mem_faults d = []) mem_exec_quiet
              mem_query_quiet Hf owns_sample_root eq_refl sample_fs NewStats_wf eq_refl)
    as (Hd & _ & Ho & _).
  split; [apply Hd|apply Ho, sample_ends_in_fuel].
Defined.
