(* ===== verification/Coherence.v ===== *)
(** The metadata cache of a tree that does not change.

    [coherent m] says that every row of the map [m] agrees with the remote tree: its type name,
    file information, directory entries, digest and link target are those of the entry at its
    path, and a recorded absence is an absence.  [le m m'] orders the maps by what they record:
    nothing recorded is ever lost or renumbered. *)
From S2P Require Import Prelude GoStrings GoPath Types DirEntries Sql Sqlite Kernel.
From S2P Require Import Metadata MetadataSpec MetadataProps Md5 FsProps Remote.
#[local] Open Scope Z_scope.

#[local] Arguments Join : simpl never.

(** * The order on what is recorded *)

Definition kept {A} (o o' : option A) : Prop := is_Some o → is_Some o'.

Lemma kept_some {A} (o : option A) x : kept o (Some x).
Proof. intros _. by eexists. Qed.
#[local] Hint Resolve kept_some : core.

(** Nothing of [k] is lost in [cr]. *)
Record row_le (k cr : CachedRow) : Prop := {
  le_inode : Inode cr = Inode k;
  le_type : TypeName cr = TypeName k;
  le_info : kept (RowFileInfo k) (RowFileInfo cr);
  le_entries : kept (DirEntries k) (DirEntries cr);
  le_hash : kept (ContentHash k) (ContentHash cr);
  le_target : kept (Target k) (Target cr);
}.

#[export] Instance row_le_preorder : PreOrder row_le.
Proof.
  split; [by split; try intros ?|]. intros x y z [] []. split; unfold kept in *; congruence || auto.
Qed.

Definition le (m m' : gmap string CachedRow) : Prop :=
  ∀ p cr, m !! p = Some cr → ∃ cr', m' !! p = Some cr' ∧ row_le cr cr'.

#[export] Instance le_preorder : PreOrder le.
Proof.
  split; [by intros m p cr Hm; exists cr|]. intros m1 m2 m3 H12 H23 p cr Hm.
  destruct (H12 _ _ Hm) as (cr2 & Hm2 & ?). destruct (H23 _ _ Hm2) as (cr3 & Hm3 & ?).
  exists cr3. split; [done|]. by etrans.
Qed.

Lemma le_subseteq m m' : m ⊆ m' → le m m'.
Proof. intros Hs p cr Hm. exists cr. split; [by eapply lookup_weaken|done]. Qed.

Lemma le_insert m p cr cr' : m !! p = Some cr → row_le cr cr' → le m (<[p := cr']> m).
Proof.
  intros Hm Hr q k Hq. rewrite lookup_insert. case_decide as Hpq; [|by exists k].
  subst q. simplify_eq. by exists cr'.
Qed.

Lemma le_insert_new m p cr : m !! p = None → le m (<[p := cr]> m).
Proof. intros Hm. by apply le_subseteq, insert_subseteq. Qed.

Lemma le_inode_of m m' p cr cr' :
  le m m' → m !! p = Some cr → m' !! p = Some cr' → Inode cr' = Inode cr.
Proof. intros Hle Hm Hm'. destruct (Hle _ _ Hm) as (x & Hx & []). congruence. Qed.

(** * Rows that agree with the tree *)

(** The fields of a file information that the program looks at; the name is that of its row. *)
Definition info_agrees (nd : rnode) (fi : FileInfo) : Prop :=
  Size fi = Size (rnode_info nd) ∧ Mode fi = Mode (rnode_info nd) ∧
  ModTime fi = ModTime (rnode_info nd).

Section coherence.
Context (tree : string → option rnode) (rr : list string) (is_loc : string → bool).
Context (Htree : tree_ok tree rr is_loc).
Abbreviation at_ := (tree_at tree rr).

(** The entries recorded for a directory: the names of its listing, each with its type and the
    inode of its row. *)
Definition entries_ok (m : gmap string CachedRow) (cs : list string)
    (es : gmap string OneDirEntry) : Prop :=
  ∃ info l, at_ cs = Some (RDir info l) ∧
    (∀ name, is_Some (es !! name) ↔ name ∈ Name <$> l) ∧
    ∀ name d, es !! name = Some d → ∃ nd cr,
      at_ (cs ++ [name]) = Some nd ∧ m !! abs_path (cs ++ [name]) = Some cr ∧
      d = {| Valid := true; EntInode := Inode cr; EntModeType := rnode_type nd |}.

Record row_ok (m : gmap string CachedRow) (cs : list string) (cr : CachedRow) : Prop := {
  ro_type : TypeName cr = match at_ cs with Some nd => rnode_type_name nd | None => "noentry" end;
  ro_info : ∀ fi, RowFileInfo cr = Some fi → ∃ nd, at_ cs = Some nd ∧ info_agrees nd fi;
  ro_entries : ∀ es, DirEntries cr = Some es → entries_ok m cs es;
  ro_hash : ∀ k, ContentHash cr = Some k → ∃ info c, at_ cs = Some (RFile info c) ∧ k = digest c;
  ro_target : ∀ t, Target cr = Some t → ∃ info, at_ cs = Some (RLink info t);
}.

Definition coherent (m : gmap string CachedRow) : Prop :=
  ∀ cs cr, good_path cs → m !! abs_path cs = Some cr → row_ok m cs cr.

Lemma entries_ok_mono m m' cs es : le m m' → entries_ok m cs es → entries_ok m' cs es.
Proof.
  intros Hle (info & l & Hat & Hdom & Hes). exists info, l. split_and!; [done..|].
  intros name d Hd. destruct (Hes _ _ Hd) as (nd & cr & Hnd & Hm & ->).
  destruct (Hle _ _ Hm) as (cr' & Hm' & Hr). exists nd, cr'. split_and!; [done..|].
  by rewrite (le_inode _ _ Hr).
Qed.

Lemma row_ok_mono m m' cs cr : le m m' → row_ok m cs cr → row_ok m' cs cr.
Proof. intros Hle []. split; eauto using entries_ok_mono. Qed.

(** One row changes. *)
Lemma coherent_insert m cs cr :
  good_path cs → coherent m → le m (<[abs_path cs := cr]> m) →
  row_ok (<[abs_path cs := cr]> m) cs cr → coherent (<[abs_path cs := cr]> m).
Proof.
  intros Hcs Hm Hle Hok cs' cr' Hcs'. rewrite lookup_insert. case_decide as Hp.
  - apply abs_path_inj in Hp as <-; [|done..]. by intros [= <-].
  - intros Hm'. by apply (row_ok_mono m), Hm.
Qed.

Lemma row_ok_new m cs id :
  row_ok m cs (new_entry id match at_ cs with Some nd => rnode_type_name nd | None => "noentry" end).
Proof. by split. Qed.

Lemma coherent_new m cs id ty :
  good_path cs → coherent m → m !! abs_path cs = None →
  ty = match at_ cs with Some nd => rnode_type_name nd | None => "noentry" end →
  coherent (<[abs_path cs := new_entry id ty]> m).
Proof.
  intros Hcs Hm Hn ->. apply coherent_insert; [done|done|by apply le_insert_new|apply row_ok_new].
Qed.

(** A row in which a field is set to what the tree says. *)
Lemma coherent_set m cs cr cr' :
  good_path cs → coherent m → m !! abs_path cs = Some cr → row_le cr cr' →
  (row_ok m cs cr → row_ok m cs cr') → coherent (<[abs_path cs := cr']> m).
Proof.
  intros Hcs Hm Hcr Hle Hok. pose proof (le_insert _ _ _ _ Hcr Hle).
  apply coherent_insert; [done..|]. apply (row_ok_mono m); auto.
Qed.

(** The type name that is recorded for a path. *)
Definition type_at (cs : list string) : string :=
  match at_ cs with Some nd => rnode_type_name nd | None => "noentry" end.

Lemma type_at_known cs : type_at cs ∈ type_names.
Proof.
  unfold type_at. destruct (at_ cs); [apply rnode_type_name_known|].
  unfold type_names. rewrite !elem_of_cons. auto 6.
Qed.

(** The table holds the coherent map [m]. *)
Definition db_ok (m : gmap string CachedRow) (t : list prow) : Prop := table_repr t m ∧ coherent m.
End coherence.
