(* ===== verification/Growth.v ===== *)
(** The metadata cache leads from coherent maps to larger coherent maps.

    [GrowingLaws] is what a client of the metadata cache relies on when it is not the only one;
    every method, called with what the tree answers, is proved from it ([grows]), once for the
    engine with one client and for the engine that several share. *)
From S2P Require Import Prelude GoStrings GoPath Types DirEntries Sql Sqlite Kernel.
From S2P Require Import Metadata MetadataSpec MetadataProps Md5 FsProps Remote Coherence.
#[local] Open Scope Z_scope.

#[local] Arguments Join : simpl never.
#[local] Arguments scanFullEntry : simpl never.
#[local] Arguments scanInt64Column : simpl never.
#[local] Hint Resolve kept_some : core.

(** * What the engine promises a client of the metadata cache

    [db_holds m d] is what a client knows of the database [d] after a call of its own; the
    database a statement finds may have grown in the meantime, when there are other clients.  A
    statement works on some table that holds a larger coherent map, and when what it does there
    is again to enlarge a coherent map, so does the whole call.  The engine with one client
    ([sequential_growing]) is one implementation, the engine that several share (Shared.v)
    another. *)
Abbreviation map_t := (gmap string CachedRow) (only parsing).

Class DbHolds (tree : string → option rnode) (rr : list string) (DB : Type) : Type :=
  db_holds : map_t → DB → Prop.

(** A call returned with [P], or the engine failed or never returned. *)
Definition engine_grew {DB A} (holds : map_t → DB → Prop) (m : map_t) (P : A → map_t → Prop)
    (r : outcome A * DB) : Prop :=
  match r with
  | (Ret a, d) => ∃ m', le m m' ∧ holds m' d ∧ P a m'
  | (Err (ESqlite _), d) | (OutOfFuel, d) => ∃ m', le m m' ∧ holds m' d
  | _ => False
  end.

Class GrowingLaws tree rr (DB : Type) `{SqlEngine DB, DbHolds tree rr DB} : Prop := {
  grow_inodes m d : db_holds m d → inodes_in_range m;
  grow_exec m d st (P : SqlResult → map_t → Prop) :
    db_holds m d →
    (∀ m1 t res t', le m m1 → db_ok tree rr m1 t → sql_effect db_affinity st t res t' →
       ∃ m2, le m1 m2 ∧ db_ok tree rr m2 t' ∧ P res m2) →
    engine_grew db_holds m P (db_exec st d);
  grow_query m d q (P : list (list SqlValue) → map_t → Prop) :
    db_holds m d →
    (∀ m1 t, le m m1 → db_ok tree rr m1 t → P (sql_select db_affinity q t) m1) →
    engine_grew db_holds m P (db_query q d);
}.

#[export] Instance sequential_holds {tree rr DB} `{SqlLaws DB} : DbHolds tree rr DB :=
  λ m d, db_ok tree rr m (db_rows d).

#[export] Instance sequential_growing {tree rr DB} `{SqlLaws DB} : GrowingLaws tree rr DB.
Proof.
  split.
  - intros m d [Ht _] p cr. by eapply table_inode_range.
  - intros m d st P Hd HP. pose proof (exec_spec st d) as Hs. unfold engine_grew.
    destruct (db_exec st d) as [[res|[]| | |] d']; try done.
    + destruct (HP m _ _ _ ltac:(done) Hd Hs) as (m2 & ? & ? & ?). by exists m2.
    + exists m. split; [done|]. unfold db_holds, sequential_holds in *. by rewrite Hs.
  - intros m d q P Hd HP. pose proof (query_spec q d) as Hs. unfold engine_grew.
    destruct (db_query q d) as [[rs|[]| | |] d']; try done.
    + destruct Hs as [-> Hs]. exists m. unfold db_holds, sequential_holds in *. rewrite Hs.
      split_and!; [done..|]. by apply HP.
    + exists m. split; [done|]. unfold db_holds, sequential_holds in *. by rewrite Hs.
Qed.

(** * The methods of the metadata cache *)

Section growth.
Context (tree : string → option rnode) (rr : list string) (is_loc : string → bool).
Context (Htree : tree_ok tree rr is_loc).
Context {DB : Type} `{AffinityLaws DB, !DbHolds tree rr DB, !GrowingLaws tree rr DB, !Fuel}.
Abbreviation at_ := (tree_at tree rr).
Abbreviation db_ok := (db_ok tree rr).
Abbreviation row_ok := (row_ok tree rr).
Abbreviation coherent := (coherent tree rr).

(** Called on a database that holds the coherent map [m], the method leads to one that holds a
    larger coherent map, also when the engine fails, and returns what [Q] says. *)
Definition grows {A} (m : map_t) (method : GoM (Conn DB) A) (Q : A → map_t → Prop) : Prop :=
  ∀ c, db_holds m (c_db c) → engine_grew (λ m c, db_holds m (c_db c)) m Q (method c).

Lemma engine_grew_weaken {X A} (holds : map_t → X → Prop) m0 m (P Q : A → map_t → Prop) r :
  le m0 m → engine_grew holds m P r → (∀ a m', le m m' → P a m' → Q a m') →
  engine_grew holds m0 Q r.
Proof.
  intros Hle Hr HPQ. unfold engine_grew in *. destruct r as [[a|[]| | |] d]; try done.
  - destruct Hr as (m' & Hm & Hd & Hp). exists m'. split_and!; [by etrans|done|by apply HPQ].
  - destruct Hr as (m' & Hm & Hd). exists m'. split; [by etrans|done].
  - destruct Hr as (m' & Hm & Hd). exists m'. split; [by etrans|done].
Qed.

Lemma grows_weaken {A} m (method : GoM (Conn DB) A) (P Q : A → map_t → Prop) :
  grows m method P → (∀ a m', P a m' → Q a m') → grows m method Q.
Proof. intros Hg HPQ c Hc. eapply engine_grew_weaken; [done|by apply Hg|auto]. Qed.

Lemma grows_ret {A} m (a : A) (Q : A → map_t → Prop) : Q a m → grows m (go_ret a) Q.
Proof. intros HQ c Hc. by exists m. Qed.

Lemma grows_bind {A B} m (method : GoM (Conn DB) A) (f : A → GoM (Conn DB) B)
    (P : A → map_t → Prop) (Q : B → map_t → Prop) :
  grows m method P → (∀ a m', le m m' → P a m' → grows m' (f a) Q) →
  grows m (go_bind f method) Q.
Proof.
  intros Hm Hf c Hc. specialize (Hm c Hc). unfold go_bind.
  destruct (method c) as [[a|e| | |] c']; try done.
  destruct Hm as (m' & Hle & Hd & Hp). eapply engine_grew_weaken; [exact Hle|by apply Hf|done].
Qed.

Lemma grows_ext {A} m (method method' : GoM (Conn DB) A) Q :
  (∀ c, method c = method' c) → grows m method' Q → grows m method Q.
Proof. intros He Hg c Hc. rewrite He. by apply Hg. Qed.

Lemma grows_range {A} m (method : GoM (Conn DB) A) (Q : A → map_t → Prop) :
  (inodes_in_range m → grows m method Q) → grows m method Q.
Proof. intros Hg c Hc. apply Hg; [by eapply grow_inodes|done]. Qed.

(** Every attempt of a loop may find a larger map. *)
Lemma grows_retry {A} m (attempt : GoM (Conn DB) A) (Q : A → map_t → Prop) fuel delay :
  (∀ m', le m m' → grows m' attempt Q) → grows m (retry_loop fuel attempt delay) Q.
Proof.
  revert m delay. induction fuel as [|fuel IH]; intros m delay Ha c Hc; [by exists m|].
  pose proof (Ha m ltac:(done) c Hc) as Hg. destruct (attempt c) as [o c1] eqn:E.
  assert (o = Err (ESqlite ErrBusy) ∨ o ≠ Err (ESqlite ErrBusy)) as [->|Hne].
  { destruct o as [a|e| | |]; [by right|destruct (decide (e = ESqlite ErrBusy)) as [->|Hne]|by right..];
      [by left|right; congruence]. }
  - erewrite retry_loop_busy by done. destruct Hg as (m1 & Hle & Hd).
    eapply engine_grew_weaken; [exact Hle|apply IH|done].
    + intros m' Hm'. apply Ha. by etrans.
    + exact Hd.
  - by erewrite retry_loop_done.
Qed.

(** A statement. *)
Lemma RetryExec_grows m st (P : SqlResult → map_t → Prop) :
  stmt_rowid st ≤ MaxInt64 →
  (∀ m1 t res t', le m m1 → db_ok m1 t → sql_effect db_affinity st t res t' →
     ∃ m2, le m1 m2 ∧ db_ok m2 t' ∧ P res m2) →
  grows m (RetryExec st) P.
Proof.
  intros Hid HP. apply grows_retry. intros m' Hle [d rt] Hd.
  unfold Exec, uint64_arg. rewrite (proj2 (Z.leb_le _ _)) by done.
  unfold mbind, go_mbind, go_bind, go_lift, on_db, go_zoom; simpl.
  assert (engine_grew db_holds m' P (db_exec st d)) as Hg.
  { apply grow_exec; [done|]. intros m1 t res t' Hle'. apply HP. by etrans. }
  by destruct (db_exec st d).
Qed.

(** A query whose first row is scanned. *)
Lemma query_grows {A B} m q (dest : list SqlValue → outcome A) (k : error + A → GoM (Conn DB) B)
    (Q : B → map_t → Prop) :
  query_rowid q ≤ MaxInt64 → (∀ vals, scan_ok (dest vals)) →
  (∀ m1 t r, le m m1 → db_ok m1 t →
     r = match sql_select db_affinity q t with
         | [] => inl ENoRows
         | vals :: _ => match dest vals with Ret a => inr a | Err e => inl e | _ => r end
         end → grows m1 (k r) Q) →
  (∀ m1 code, le m m1 → grows m1 (k (inl (ESqlite code))) Q) →
  grows m (go_bind (λ row, go_bind k (go_try (Scan row dest))) (RetryQueryRow q)) Q.
Proof.
  intros Hid Hdest Hk Hcode.
  set (P := λ rs m1, ∃ t, db_ok m1 t ∧ rs = sql_select db_affinity q t).
  assert (∀ d, db_holds m d → engine_grew db_holds m P (db_query q d)) as Hq.
  { intros d Hd. apply grow_query; [done|]. intros m1 t _ Ht. by exists t. }
  intros [d rt] Hd. specialize (Hq d Hd).
  unfold go_bind at 1. rewrite RetryQueryRow_call by done. simpl.
  assert (∀ o c1 c' m1, le m m1 → db_holds m1 (c_db c') → Scan (DB := DB) o dest c1 = (OutOfFuel, c') →
    engine_grew (λ m c, db_holds m (c_db c)) m Q (go_bind k (go_try (Scan o dest)) c1)) as Hout.
  { intros o c1 c' m1 Hle Hd' E. unfold go_bind, go_try. rewrite E. by exists m1. }
  destruct (db_query q d) as [[rs|[]| | |] d']; try done; simpl.
  - destruct Hq as (m1 & Hle & Hd' & t & Ht & ->).
    pose proof (Hk m1 t) as Hk1.
    destruct (sql_select db_affinity q t) as [|vals ?]; simpl.
    + destruct (Scan_none dest (set_db d' {| c_db := d; c_rt := rt |})) as [E|E]; [|by eapply (Hout _ _ _ m1 Hle); [|exact E]].
      unfold go_bind, go_try. rewrite E. eapply engine_grew_weaken; [exact Hle|by apply Hk1|done].
    + assert (∀ vals, dest vals ≠ Err (ESqlite ErrBusy)) as Hnb.
      { intros vals' Hv. specialize (Hdest vals'). by rewrite Hv in Hdest. }
      destruct (Scan_vals dest vals (set_db d' {| c_db := d; c_rt := rt |}) (Hnb _)) as [E|E];
        [|by eapply (Hout _ _ _ m1 Hle); [|exact E]].
      unfold go_bind, go_try. rewrite E. specialize (Hdest vals).
      destruct (dest vals) as [a|[]| | |] eqn:Ed; try done;
        (eapply engine_grew_weaken; [exact Hle|apply Hk1; by rewrite ?Ed|done]).
  - destruct Hq as (m1 & Hle & Hd').
    destruct (Scan_sqlite_error dest code (set_db d' {| c_db := d; c_rt := rt |}))
      as (o & c' & E & Hc & [-> | ->]); [eapply (Hout _ _ _ m1 Hle); [|exact E]; by rewrite Hc|].
    unfold go_bind, go_try. rewrite E.
    eapply engine_grew_weaken; [exact Hle|apply Hcode; [done|]|done]. by rewrite Hc.
Qed.

Lemma go_bind_ext {S A B} (f g : A → GoM S B) (c : GoM S A) s :
  (∀ a s, f a s = g a s) → go_bind f c s = go_bind g c s.
Proof. intros Hfg. unfold go_bind. destruct (c s) as [[] ?]; [apply Hfg|done..]. Qed.

(** The same when the error of the scan is returned. *)
Lemma try_bind {S A B} (f : A → GoM S B) (c : GoM S A) s :
  go_bind f c s = go_bind (λ r, match r with inl e => go_err e | inr a => f a end) (go_try c) s.
Proof. unfold go_bind, go_try. by destruct (c s) as [[] ?]. Qed.

(** ** Rows *)

(** A row is added for a path that has none. *)
Lemma insert_grows m cs :
  good_path cs →
  grows m (RetryExec (putNewEntryStmt (abs_path cs) (type_at tree rr cs))) (λ res m',
    1 ≤ LastInsertId res ≤ MaxInt64 ∧
    m' !! abs_path cs = Some (new_entry (LastInsertId res) (type_at tree rr cs))).
Proof.
  intros Hcs. apply RetryExec_grows; [done|]. intros m1 t res t' Hle [Ht Hm] Heff.
  inversion Heff as [? ? ? Hu|p' ty' id Hst Hfp Hfi Hid Hres Hrows]; [done|].
  injection Hst as <- <-. subst res.
  destruct (table_repr_insert _ _ id _ _ Ht (abs_path_not_number cs) (type_at_known tree rr cs)
    Hid Hfp Hfi) as (Hn & _ & Ht').
  exists (<[abs_path cs := new_entry id (type_at tree rr cs)]> m1).
  split; [by apply le_insert_new|]. split; [|split; [done|by rewrite lookup_insert_eq]].
  split; [done|]. by apply coherent_new.
Qed.

Lemma putNew_grows m cs :
  good_path cs →
  grows m (putNew (abs_path cs) (type_at tree rr cs)) (λ _ m', is_Some (m' !! abs_path cs)).
Proof.
  intros Hcs. unfold putNew. eapply grows_bind; [by apply insert_grows|].
  intros res m' _ [Hid Hm']. unfold resultToInode. rewrite (proj2 (Z.ltb_ge _ _)) by lia.
  apply grows_ret. rewrite Hm'. by eexists.
Qed.

(** Setting the type of a row to what it is. *)
Lemma set_type_grows m cs :
  good_path cs →
  grows m (RetryExec (updateEntryStmt (type_at tree rr cs) (abs_path cs))) (λ res m',
    RowsAffected res = if bool_decide (is_Some (m' !! abs_path cs)) then 1 else 0).
Proof.
  intros Hcs. apply RetryExec_grows; [done|]. intros m1 t res t' Hle [Ht Hm] Heff.
  exists m1. split; [done|].
  inversion Heff as [where_ f last Hu Hres Hrows|]; [|done]. simpl in Hu. injection Hu as <- <-.
  pose proof (select_path _ _ _ Ht (abs_path_not_number cs)) as Hsel. simpl. unfold sql_count.
  destruct (m1 !! abs_path cs) as [cr|] eqn:Hcr.
  - destruct Hsel as (r & -> & Hr). split; [|done]. split; [|done].
    assert (entry_set_type (type_at tree rr cs) cr = cr) as Hty.
    { pose proof (ro_type _ _ _ _ _ (Hm cs cr Hcs Hcr)) as Hty. destruct cr; simpl in *. by rewrite Hty. }
    assert (spec_update (at_path (abs_path cs)) (λ _, entry_set_type (type_at tree rr cs)) m1 = m1) as Hsp.
    { rewrite (spec_update_at_path _ _ _ _ Hcr), Hty. by apply insert_id. }
    rewrite <- Hsp. apply table_repr_update; [done|done|..].
    + intros r' p' cr' _ Hr'. unfold path_is, at_path.
      rewrite Hr', affinity_text by apply abs_path_not_number. apply bool_decide_ext. naive_solver.
    + intros r' p' cr' [] _. split; try done; simpl.
      * apply affinity_text, type_not_number, type_at_known.
      * apply type_at_known.
  - rewrite Hsel. split; [|done]. split; [|done].
    by rewrite filter_update_none.
Qed.

Lemma putNewOrUpdate_grows m cs :
  good_path cs →
  grows m (putNewOrUpdate (abs_path cs) (type_at tree rr cs)) (λ _ m', is_Some (m' !! abs_path cs)).
Proof.
  intros Hcs. unfold putNewOrUpdate. eapply grows_bind; [by apply set_type_grows|].
  intros res m' _ ->. case_bool_decide as Hs; simpl; [by apply grows_ret|].
  eapply grows_bind; [by apply insert_grows|]. intros res2 m2 _ [_ Hm2]. apply grows_ret.
  rewrite Hm2. by eexists.
Qed.

Lemma type_at_Some cs nd : at_ cs = Some nd → type_at tree rr cs = rnode_type_name nd.
Proof. unfold type_at. by intros ->. Qed.
Lemma type_at_None cs : at_ cs = None → type_at tree rr cs = "noentry".
Proof. unfold type_at. by intros ->. Qed.

(** The mode type of an entry, as the handlers pass it on. *)
Lemma PutNewWithType_grows m cs nd :
  good_path cs → at_ cs = Some nd →
  grows m (PutNewWithType (abs_path cs) (rnode_type nd)) (λ _ m', is_Some (m' !! abs_path cs)).
Proof.
  intros Hcs Hat. eapply grows_ext; [|by apply putNew_grows]. intros c.
  rewrite (type_at_Some _ _ Hat). apply PutNewWithType_unfold, sqlTypeName_rnode.
Qed.

Lemma PutNewOrUpdateWithType_grows m cs nd :
  good_path cs → at_ cs = Some nd →
  grows m (PutNewOrUpdateWithType (abs_path cs) (rnode_type nd))
    (λ _ m', is_Some (m' !! abs_path cs)).
Proof.
  intros Hcs Hat. eapply grows_ext; [|by apply putNewOrUpdate_grows]. intros c.
  rewrite (type_at_Some _ _ Hat). apply PutNewOrUpdateWithType_unfold, sqlTypeName_rnode.
Qed.

Lemma PutNewNoEntry_grows m cs :
  good_path cs → at_ cs = None →
  grows m (PutNewNoEntry (abs_path cs)) (λ _ m', is_Some (m' !! abs_path cs)).
Proof.
  intros Hcs Hat. unfold PutNewNoEntry. rewrite <- (type_at_None _ Hat). by apply putNew_grows.
Qed.

Lemma PutNewOrUpdateNoEntry_grows m cs :
  good_path cs → at_ cs = None →
  grows m (PutNewOrUpdateNoEntry (abs_path cs)) (λ _ m', is_Some (m' !! abs_path cs)).
Proof.
  intros Hcs Hat. unfold PutNewOrUpdateNoEntry. rewrite <- (type_at_None _ Hat).
  by apply putNewOrUpdate_grows.
Qed.

(** ** Reading *)

Lemma GetFullEntry_grows m cs :
  good_path cs →
  grows m (GetFullEntry (abs_path cs)) (λ o m', o = m' !! abs_path cs ∧
    ∀ cr, o = Some cr → row_ok m' cs cr).
Proof.
  intros Hcs. apply query_grows; [done|apply scanFullEntry_ok| |].
  2:{ by intros m1 code _ c Hc; exists m1. }
  intros m1 t r _ [Ht Hm]. cbn [sql_select].
  pose proof (select_path _ _ _ Ht (abs_path_not_number cs)) as Hsel.
  destruct (m1 !! abs_path cs) as [cr|] eqn:Hcr.
  - destruct Hsel as (row & -> & Hrow). cbn [fmap list_fmap].
    destruct (decode_row _ _ _ Hrow) as (fe & Hfe & Hdec). unfold full_columns in Hfe. rewrite Hfe.
    intros -> c Hc. unfold mbind, go_mbind, go_bind, go_lift. rewrite Hdec. simpl.
    exists m1. split_and!; [done|done|done|]. intros k [= <-]. by apply Hm.
  - rewrite Hsel. cbn [fmap list_fmap]. intros -> c Hc. by exists m1.
Qed.

Lemma row_of_path m cs cr t :
  db_ok m t → m !! abs_path cs = Some cr →
  ∃ r, filter (λ r, rowid_is (Inode cr) r = true) t = [r] ∧ row_repr (abs_path cs) r cr.
Proof.
  intros [Ht _] Hcr. destruct (tr_map _ _ Ht _ _ Hcr) as (_ & r & Hr & Hrp).
  destruct (tr_rows _ _ Ht _ Hr) as (p' & cr' & Hp' & Hm' & Hrr).
  assert (p' = abs_path cs) as -> by congruence. assert (cr' = cr) as -> by congruence.
  exists r. split; [|done]. apply filter_unique with (f := r_rowid); [apply Ht|done|].
  intros y _. unfold rowid_is. rewrite Z.eqb_eq. by rewrite (rr_id _ _ _ Hrr).
Qed.

(** Reading back the entries of a directory. *)
Lemma GetDirEntries_grows m cs cr :
  good_path cs → m !! abs_path cs = Some cr →
  grows m (GetDirEntries (Inode cr) ∅) (λ es m', ∃ cr', m' !! abs_path cs = Some cr' ∧
    row_ok m' cs cr' ∧ es = default ∅ (DirEntries cr')).
Proof.
  intros Hcs Hcr. apply grows_range. intros Hr.
  eapply grows_ext.
  { intros c. unfold GetDirEntries, mbind, go_mbind. apply go_bind_ext. intros row c1. apply try_bind. }
  apply query_grows; [simpl; by apply (Hr (abs_path cs))|apply scanNullStringColumn_ok| |].
  2:{ by intros m1 code _ c Hc; exists m1. }
  intros m1 t r Hle Hdb. cbn [sql_select]. destruct (Hle _ _ Hcr) as (k & Hk & Hrow).
  destruct (row_of_path m1 cs k t Hdb Hk) as (row & Hsel & Hrr).
  rewrite <- (le_inode _ _ Hrow), Hsel. cbn [fmap list_fmap scanNullStringColumn].
  pose proof (rr_entries _ _ _ Hrr) as Hes. pose proof (proj2 Hdb cs k Hcs Hk) as Hok.
  destruct (DirEntries k) as [es|] eqn:Ek.
  - destruct Hes as (txt & -> & Hparse). intros -> c Hc. simpl.
    rewrite Hparse. exists m1. split_and!; [done|done|]. exists k. by rewrite Ek.
  - rewrite Hes. intros -> c Hc. exists m1. split_and!; [done|done|]. exists k. by rewrite Ek.
Qed.

(** ** Writing a field of a row *)

(** An update of the row of a path to what the tree says. *)
Lemma update_grows m cs cr st where_ f (g : string → CachedRow → CachedRow) :
  good_path cs → m !! abs_path cs = Some cr → stmt_rowid st = Inode cr →
  update_of db_affinity st = Some (where_, f) → (∀ r, where_ r = rowid_is (Inode cr) r) →
  (∀ r, r_rowid (f r) = r_rowid r ∧ r_path (f r) = r_path r) →
  (∀ r p k, row_repr p r k → row_repr p (f r) (g p k)) →
  (∀ k, row_le k (g (abs_path cs) k)) →
  (∀ m1 k, le m m1 → row_ok m1 cs k → row_ok m1 cs (g (abs_path cs) k)) →
  grows m (result ← RetryExec st; checkUpdateAffectedOneRow result)
    (λ _ m', ∃ k, m' !! abs_path cs = Some (g (abs_path cs) k)).
Proof.
  intros Hcs Hcr Hst Hu Hw Hf Hg Hle Hok. apply grows_range. intros Hr.
  eapply grows_bind with (P := λ _ m', ∃ k, m' !! abs_path cs = Some (g (abs_path cs) k)).
  2:{ intros res m' _ Hm'. unfold checkUpdateAffectedOneRow. destruct (negb _); by apply grows_ret. }
  apply RetryExec_grows; [rewrite Hst; by apply (Hr (abs_path cs))|].
  intros m1 t res t' Hm1 [Ht Hm] Heff.
  inversion Heff as [where' f' last Hu' Hres Hrows|p ty id ->]; [|done]. simplify_eq.
  destruct (Hm1 _ _ Hcr) as (k & Hk & Hrow). exists (<[abs_path cs := g (abs_path cs) k]> m1).
  split_and!; [by eapply le_insert| |exists k; by rewrite lookup_insert_eq]. split.
  - rewrite <- (spec_update_at_inode _ _ _ _ g Ht Hk). apply table_repr_update; [done|done|..].
    + intros r p k' Hrr _. rewrite Hw, <- (le_inode _ _ Hrow). by apply rowid_is_at_inode.
    + intros r p k' Hrr _. by apply Hg.
  - eapply coherent_set; [done|done|done|done|by apply Hok].
Qed.

Lemma PutFileInfo_grows m cs cr nd :
  good_path cs → at_ cs = Some nd → m !! abs_path cs = Some cr →
  grows m (PutFileInfo (Inode cr) (rnode_info nd))
    (λ _ m', ∃ cr', m' !! abs_path cs = Some cr' ∧ is_Some (RowFileInfo cr')).
Proof.
  intros Hcs Hat Hcr. pose proof (to_node _ _ _ Htree _ _ Hcs Hat) as [[Hsz Hmd] Hmt _ _].
  set (fi := rnode_info nd). unfold PutFileInfo.
  eapply grows_weaken; [eapply (update_grows m cs cr _ _ _ (λ p, entry_set_info
    (newFileInfo p (Size fi) (uint32 (Mode fi)) (Unix 0 (UnixNano (ModTime fi))))));
    [done|done|done|done|done|done|..]|].
  - intros r p k []. split; try done. simpl. by repeat eexists.
  - intros k. split; simpl; auto; done.
  - intros m1 k _ []. split; try done. simpl. intros fi' [= <-]. exists nd. split; [done|].
    unfold newFileInfo, info_agrees. simpl. rewrite uint32_small, Unix_UnixNano; done.
  - intros u m' [k Hk]. simpl in Hk. eexists. split; [exact Hk|]. by eexists.
Qed.

Lemma PutContentHash_grows m cs cr info c :
  good_path cs → at_ cs = Some (RFile info c) → m !! abs_path cs = Some cr →
  grows m (PutContentHash (Inode cr) (digest c))
    (λ _ m', ∃ cr', m' !! abs_path cs = Some cr' ∧ is_Some (ContentHash cr')).
Proof.
  intros Hcs Hat Hcr. pose proof (rn_text _ (to_node _ _ _ Htree _ _ Hcs Hat)) as Htxt. simpl in Htxt.
  eapply grows_weaken; [eapply (update_grows m cs cr _ _ _ (λ _, entry_set_hash (digest c)));
    [done|done|done|done|done|done|..]|].
  - intros r p k []. split; try done. simpl. by rewrite affinity_text.
  - intros k. split; simpl; auto; done.
  - intros m1 k _ []. split; try done. simpl. intros k' [= <-]. eauto.
  - intros u m' [k Hk]. simpl in Hk. eexists. split; [exact Hk|]. by eexists.
Qed.

Lemma PutSymlinkTarget_grows m cs cr info t :
  good_path cs → at_ cs = Some (RLink info t) → m !! abs_path cs = Some cr →
  grows m (PutSymlinkTarget (Inode cr) t)
    (λ _ m', ∃ cr', m' !! abs_path cs = Some cr' ∧ is_Some (Target cr')).
Proof.
  intros Hcs Hat Hcr. pose proof (rn_text _ (to_node _ _ _ Htree _ _ Hcs Hat)) as Htxt. simpl in Htxt.
  eapply grows_weaken; [eapply (update_grows m cs cr _ _ _ (λ _, entry_set_target t));
    [done|done|done|done|done|done|..]|].
  - intros r p k []. split; try done. simpl. by rewrite affinity_text.
  - intros k. split; simpl; auto; done.
  - intros m1 k _ []. split; try done. simpl. intros k' [= <-]. eauto.
  - intros u m' [k Hk]. simpl in Hk. eexists. split; [exact Hk|]. by eexists.
Qed.

(** ** Listings *)

(** The entry made of a listed file: its name, its type and the inode of its row. *)
Definition listed (m : map_t) (cs : list string) (fi : FileInfo) (e : entry) : Prop :=
  en_name e = Name fi ∧ sqlTypeName (mode_type (Mode fi)) = Ret (en_type e) ∧
  ∃ cr, m !! abs_path (cs ++ [Name fi]) = Some cr ∧ en_inode e = Inode cr.

Lemma listed_mono m m' cs fi e : le m m' → listed m cs fi e → listed m' cs fi e.
Proof.
  intros Hle (Hn & Ht & cr & Hcr & Hi). destruct (Hle _ _ Hcr) as (cr' & Hcr' & Hrow).
  split_and!; [done..|]. exists cr'. by rewrite (le_inode _ _ Hrow).
Qed.

(** A listed file is an entry of the tree, with the type it is listed with. *)
Definition lists_entry (cs : list string) (fi : FileInfo) : Prop :=
  good_name (Name fi) = true ∧
  ∃ nd, at_ (cs ++ [Name fi]) = Some nd ∧ mode_type (Mode fi) = rnode_type nd.

Lemma putOneDirEntry_grows m cs fi :
  good_path cs → lists_entry cs fi →
  grows m (putOneDirEntry (abs_path cs) fi) (λ e m', listed m' cs fi e).
Proof.
  intros Hcs (Hg & nd & Hat & Hmt). pose proof (sqlTypeName_rnode nd) as Hty.
  assert (good_path (cs ++ [Name fi])) as Hcs' by (by apply good_path_snoc).
  rewrite <- Hmt in Hty. unfold putOneDirEntry. rewrite Join_abs_path by done.
  eapply grows_bind with (P := λ ty m', ty = rnode_type_name nd).
  { unfold go_lift. rewrite Hty. by apply grows_ret. }
  intros ty m1 _ ->. apply query_grows; [done|apply scanInt64Column_ok| |].
  2:{ by intros m2 code _ c Hc; exists m2. }
  intros m2 t r _ Hdb. cbn [sql_select].
  pose proof (select_path _ _ _ (proj1 Hdb) (abs_path_not_number (cs ++ [Name fi]))) as Hsel.
  assert (∀ m3 id, 1 ≤ id ≤ MaxInt64 →
    (∃ cr, m3 !! abs_path (cs ++ [Name fi]) = Some cr ∧ id = Inode cr) →
    listed m3 cs fi {| en_name := Name fi; en_inode := uint64 id; en_type := rnode_type_name nd |})
    as Hlisted.
  { intros m3 id Hid (cr & Hcr & ->). split_and!; [done..|]. exists cr. split; [done|]. simpl.
    by apply uint64_inode. }
  destruct (m2 !! abs_path (cs ++ [Name fi])) as [cr|] eqn:Hcr.
  - destruct Hsel as (row & -> & Hrow). cbn [fmap list_fmap]. intros ->. simpl.
    apply grows_range. intros Hr. eapply grows_bind; [by apply grows_ret with (Q := λ id m', m' = m2 ∧ id = r_rowid row)|].
    intros id m3 _ [-> ->]. apply grows_ret. rewrite (rr_id _ _ _ Hrow).
    apply Hlisted; [by eapply Hr|by exists cr].
  - rewrite Hsel. cbn [fmap list_fmap]. intros ->.
    rewrite <- (type_at_Some _ _ Hat) in *.
    eapply grows_bind with (P := λ id m3, 1 ≤ id ≤ MaxInt64 ∧ m3 !! abs_path (cs ++ [Name fi]) =
      Some (new_entry id (type_at tree rr (cs ++ [Name fi])))).
    { eapply grows_bind; [by apply insert_grows|]. intros res m3 _ Hres. apply grows_ret. exact Hres. }
    intros id m3 _ [Hid Hm3]. apply grows_ret. apply Hlisted; [done|]. by eexists.
Qed.

Lemma putDirEntries_loop_grows m cs l :
  good_path cs → Forall (lists_entry cs) l →
  grows m (putDirEntries_loop (abs_path cs) l) (λ es m', Forall2 (listed m' cs) l es).
Proof.
  intros Hcs Hl. revert m. induction Hl as [|fi l Hfi Hl IH]; intros m; [by apply grows_ret|].
  cbn [putDirEntries_loop]. eapply grows_bind; [by apply putOneDirEntry_grows|].
  intros e m1 _ He. eapply grows_bind; [by apply IH|]. intros es m2 Hle Hes. apply grows_ret.
  constructor; [by eapply listed_mono|done].
Qed.

(** The entries made from a listing of the tree. *)
Lemma listed_entries_ok m cs info l l' es :
  good_path cs → at_ cs = Some (RDir info l') → Permutation l l' → NoDup (Name <$> l) →
  Forall (lists_entry cs) l → Forall2 (listed m cs) l es →
  entries_ok tree rr m cs (foldl add_entry ∅ es).
Proof.
  intros Hcs Hat Hperm Hnd Hl Hes. rewrite Forall_forall in Hl.
  assert (en_name <$> es = Name <$> l) as Hn.
  { clear -Hes. induction Hes as [|fi e l es (Hn & _) _ IH]; [done|]. rewrite !fmap_cons. by f_equal. }
  assert (∀ fi, fi ∈ l → ∃ ch, m !! abs_path (cs ++ [Name fi]) = Some ch ∧
    foldl add_entry ∅ es !! Name fi = Some {| Valid := true; EntInode := Inode ch;
                                              EntModeType := mode_type (Mode fi) |}) as Hfi.
  { intros fi Hfi. apply list_elem_of_lookup in Hfi as [i Hi].
    destruct (Forall2_lookup_l _ _ _ _ _ Hes Hi) as (e & He & Hen & Hty & ch & Hch & Hino).
    exists ch. split; [done|]. rewrite <- Hen, (entries_map_elem es e); [|by rewrite Hn|by eapply list_elem_of_lookup_2].
    unfold entry_value. by rewrite (entry_of_sqlTypeName _ _ _ Hty), Hino. }
  exists info, l'. split_and!; [done|..].
  - intros name. rewrite <- Hperm. split.
    + rewrite <- Hn. apply entries_map_dom. by rewrite Hn.
    + intros (fi & -> & Hin)%list_elem_of_fmap. destruct (Hfi fi Hin) as (ch & _ & ->). by eexists.
  - intros name d Hd. assert (name ∈ Name <$> l) as (fi & -> & Hin)%list_elem_of_fmap.
    { rewrite <- Hn. apply entries_map_dom; [by rewrite Hn|by eexists]. }
    destruct (Hfi fi Hin) as (ch & Hch & Hlk). destruct (Hl fi Hin) as (_ & nd & Hnd' & Hmt).
    exists nd, ch. split_and!; [done..|]. rewrite <- Hmt. congruence.
Qed.

Lemma PutDirEntries_grows m cs cr info l l' :
  good_path cs → at_ cs = Some (RDir info l') → Permutation l l' → m !! abs_path cs = Some cr →
  grows m (PutDirEntries (Inode cr) (abs_path cs) l)
    (λ _ m', ∃ cr', m' !! abs_path cs = Some cr' ∧ is_Some (DirEntries cr')).
Proof.
  intros Hcs Hat Hperm Hcr. destruct (to_listing _ _ _ Htree _ _ _ Hcs Hat) as [[Hnd Hall] Hch].
  assert (Forall (lists_entry cs) l ∧ Forall (λ fi, plain_name (Name fi) = true) l) as [Hl Hplain].
  { rewrite <- Forall_and. apply Forall_forall. intros fi Hfi. rewrite Hperm in Hfi.
    rewrite Forall_forall in Hall. destruct (Hall fi Hfi) as (? & ? & _). by repeat split; auto. }
  unfold PutDirEntries. eapply grows_bind; [by apply putDirEntries_loop_grows|].
  intros es m1 Hle Hes. destruct (Hle _ _ Hcr) as (cr1 & Hcr1 & Hrow).
  apply grows_range. intros Hr.
  assert (Forall entry_ok es) as Hok.
  { apply Forall_forall. intros e He. apply list_elem_of_lookup in He as [i Hi].
    destruct (Forall2_lookup_r _ _ _ _ _ Hes Hi) as (fi & Hfi & Hen & Hty & ch & Hch' & Hino).
    split; [|rewrite Hino|by eapply sqlTypeName_type_names].
    - rewrite Hen. eapply (proj1 (Forall_forall _ _) Hplain). by eapply list_elem_of_lookup_2.
    - specialize (Hr _ _ Hch'). unfold is_uint64, two64, MaxInt64 in *. lia. }
  rewrite <- (le_inode _ _ Hrow).
  eapply grows_weaken; [eapply (update_grows m1 cs cr1 _ _ _
    (λ _, entry_set_entries (foldl add_entry ∅ es))); [done|done|done|done|done|done|..]|].
  - intros r p k []. split; try done. simpl. exists (formatEntries es).
    split; [apply affinity_text, formatEntries_not_number|]. by apply parse_formatEntries_fold.
  - intros k. split; simpl; auto; done.
  - intros m2 k Hm2 []. split; try done. simpl. intros es' [= <-].
    eapply entries_ok_mono; [exact Hm2|]. apply (listed_entries_ok m1 cs info l l' es); try done. by rewrite Hperm.
  - intros u m' [k Hk]. simpl in Hk. eexists. split; [exact Hk|]. by eexists.
Qed.
End growth.
