(* ===== verification/HandlerLogic.v ===== *)
(** The interface between the handlers and what is below them, on a tree that does not change.

    [OsProtocol] is what the kernel promises a handler, and [GrowingLaws] (Growth.v) what the
    database promises; both hold for a handler that runs alone (Served.v) and for one that shares
    the kernel and the database with others (SharedOs.v, Shared.v).  [served] is the form in
    which every handler is proved (NodeServed.v): whatever its outcome, the invariant holds again
    for a larger map, and it neither panicked nor exited. *)
From S2P Require Import Prelude GoStrings GoPath Stats Types DirEntries Sql Sqlite Kernel.
From S2P Require Import Syscalls Metadata MetadataSpec MetadataProps WorldPost Md5 Content.
From S2P Require Import ContentProps Fs FsLogic FsProps Remote Coherence Growth.
#[local] Open Scope Z_scope.

#[local] Arguments Join : simpl never.

(** The open directory of a handler: none; one that it has just opened, at the remote path with
    the given components; or one that it only has still to close. *)
Inductive Holding : Type := Nothing | JustOpened (f : File) (cs : list string) | HasOpen (f : File).

(** [os_holds pinned h s] is what a handler knows of the kernel when the open handles deliver the
    contents [pinned] and it holds [h]; [os_shows pinned s f c] says that the new descriptor [f]
    delivers [c]. *)
Record OsProtocol (globals : globalState) (tree : string → option rnode) (rr : list string)
    (OS : Type) `{Kernel OS, Fuel} : Type := {
  os_holds : gmap Z bytes → Holding → OS → Prop;
  os_shows : gmap Z bytes → OS → File → bytes → Prop;
  holds_less pinned h s : os_holds pinned h s → os_holds pinned Nothing s;
  holds_read pinned f cs s : os_holds pinned (JustOpened f cs) s → os_holds pinned (HasOpen f) s;
  rule_Lstat {DB} pinned cs (w : World OS DB) :
    stats_wf (w_stats w) → os_holds pinned Nothing (w_os w) → good_path cs →
    os_post (λ fi s, os_holds pinned Nothing s ∧
               ∃ nd, tree_at tree rr cs = Some nd ∧ fi = rnode_info nd)
      (λ e s, os_holds pinned Nothing s ∧ e ≠ EFuseENOENT ∧
              (IsNotExist e = true → tree_at tree rr cs = None))
      (os_holds pinned Nothing) (Lstat RemoteDomain (abs_path (rr ++ cs)) w);
  rule_Readlink {DB} pinned cs (w : World OS DB) :
    stats_wf (w_stats w) → os_holds pinned Nothing (w_os w) → good_path cs →
    os_post (λ t s, os_holds pinned Nothing s ∧ ∃ info, tree_at tree rr cs = Some (RLink info t))
      (λ _, os_holds pinned Nothing) (os_holds pinned Nothing)
      (Readlink RemoteDomain (abs_path (rr ++ cs)) w);
  rule_Open {DB} pinned cs (w : World OS DB) :
    stats_wf (w_stats w) → os_holds pinned Nothing (w_os w) → good_path cs →
    os_post (λ tr s, tr_domain tr = RemoteDomain ∧ os_holds pinned (JustOpened (tr_file tr) cs) s)
      (λ _, os_holds pinned Nothing) (os_holds pinned Nothing)
      (Open RemoteDomain (abs_path (rr ++ cs)) w);
  rule_Readdir {DB} pinned tr cs info l0 (w : World OS DB) :
    stats_wf (w_stats w) → os_holds pinned (JustOpened (tr_file tr) cs) (w_os w) → good_path cs →
    tr_domain tr ∈ allDomains → tree_at tree rr cs = Some (RDir info l0) →
    os_post (λ l s, os_holds pinned (HasOpen (tr_file tr)) s ∧ Permutation l l0)
      (λ _, os_holds pinned (HasOpen (tr_file tr))) (os_holds pinned Nothing) (tr_Readdir tr w);
  rule_Close {DB} pinned tr (w : World OS DB) :
    stats_wf (w_stats w) → os_holds pinned (HasOpen (tr_file tr)) (w_os w) →
    tr_domain tr ∈ allDomains →
    os_post (λ _, os_holds pinned Nothing) (λ _, os_holds pinned Nothing)
      (os_holds pinned Nothing) (tr_Close tr w);
  rule_PutContents {DB} pinned cs info c (w : World OS DB) :
    stats_wf (w_stats w) → os_holds pinned Nothing (w_os w) → good_path cs →
    tree_at tree rr cs = Some (RFile info c) →
    os_post (λ k s, os_holds pinned Nothing s ∧ k = digest c)
      (λ _, os_holds pinned Nothing) (os_holds pinned Nothing)
      (PutContents (g_content globals) (abs_path (rr ++ cs)) w);
  rule_open_contents {DB} pinned cs info c (w : World OS DB) :
    stats_wf (w_stats w) → os_holds pinned Nothing (w_os w) → good_path cs →
    tree_at tree rr cs = Some (RFile info c) →
    os_post (λ tr s, os_holds pinned Nothing s ∧ tr_domain tr = LocalDomain ∧
               os_shows pinned s (tr_file tr) c)
      (λ _, os_holds pinned Nothing) (os_holds pinned Nothing)
      ((path ← GetFileForContents (g_content globals) (digest c); Open LocalDomain path) w);
  rule_ReadAt {DB} pinned tr size off c (w : World OS DB) :
    stats_wf (w_stats w) → os_holds pinned Nothing (w_os w) → tr_domain tr = LocalDomain →
    pinned !! f_fd (tr_file tr) = Some c → 0 ≤ off →
    os_post (λ '(data, err) s, os_holds pinned Nothing s ∧
               (err = None ∨ err = Some EEOF → data = take size (drop (Z.to_nat off) c)))
      (λ _, os_holds pinned Nothing) (os_holds pinned Nothing) (tr_ReadAt tr size off w);
}.
Arguments os_holds {globals tree rr OS _ _} o pinned h s.
Arguments os_shows {globals tree rr OS _ _} o pinned s f c.

Section served.
Context {OS DB : Type} `{Kernel OS, Fuel} (globals : globalState)
  (tree : string → option rnode) (rr : list string) (P : OsProtocol globals tree rr OS).
Context `{SqlEngine DB, !DbHolds tree rr DB, !GrowingLaws tree rr DB}.
Abbreviation W := (World OS DB).
Abbreviation at_ := (tree_at tree rr).

(** The invariant of the world. *)
Definition held (m : map_t) (pinned : gmap Z bytes) (h : Holding) (w : W) : Prop :=
  os_holds P pinned h (w_os w) ∧ db_holds m (c_db (w_conn w)).
Definition world_ok (m : map_t) (pinned : gmap Z bytes) (h : Holding) (w : W) : Prop :=
  stats_wf (w_stats w) ∧ held m pinned h w.

(** The outcome of a handler: the invariant again, with [Q] of a result and [E] of an error. *)
Definition served {N A} (m : map_t) (pinned : gmap Z bytes) (h : Holding)
    (Q : map_t → A → N → OS → Prop) (E : map_t → error → N → Prop)
    (r : outcome A * (N * W)) : Prop :=
  stats_wf (w_stats r.2.2) ∧
  match r with
  | (Ret a, (n, w)) => ∃ m', le m m' ∧ held m' pinned h w ∧ Q m' a n (w_os w)
  | (Err e, (n, w)) => ∃ m', le m m' ∧ held m' pinned h w ∧ E m' e n
  | (OutOfFuel, (n, w)) => ∃ m', le m m' ∧ held m' pinned Nothing w
  | _ => False
  end.

Lemma held_less m pinned h w : held m pinned h w → held m pinned Nothing w.
Proof. intros [Ho Hd]. split; [by eapply holds_less|done]. Qed.

Section rules.
Context {N : Type} (pinned : gmap Z bytes).
Implicit Types (m : map_t) (h : Holding) (n : N) (w : W) (E : map_t → error → N → Prop).

Lemma served_weaken {A} m h (Q Q' : map_t → A → N → OS → Prop) E E' r :
  served m pinned h Q E r → (∀ m' a n s, le m m' → Q m' a n s → Q' m' a n s) →
  (∀ m' e n, le m m' → E m' e n → E' m' e n) → served m pinned h Q' E' r.
Proof.
  intros [Hwf Hr] HQ HE. split; [done|]. destruct r as [[a|e| | |] [n w]]; naive_solver.
Qed.

Lemma served_from {A} m0 m h (Q : map_t → A → N → OS → Prop) E r :
  le m0 m → served m pinned h Q E r → served m0 pinned h Q E r.
Proof.
  intros Hle [Hwf Hr]. split; [done|].
  destruct r as [[a|e| | |] [n w]]; try done; destruct Hr as (m' & ? & Hr); exists m';
    (split; [by etrans|exact Hr]).
Qed.

Lemma served_ret {A} m h (Q : map_t → A → N → OS → Prop) E a n w :
  world_ok m pinned h w → Q m a n (w_os w) → served m pinned h Q E (Ret a, (n, w)).
Proof. intros [Hs Hh] HQ. split; [done|]. by exists m. Qed.

Lemma served_err {A} m h (Q : map_t → A → N → OS → Prop) E e n w :
  world_ok m pinned h w → E m e n → served m pinned h Q E (Err e, (n, w)).
Proof. intros [Hs Hh] HE. split; [done|]. by exists m. Qed.

Lemma served_bind {A B} m h (P0 : map_t → A → N → OS → Prop) (Q : map_t → B → N → OS → Prop) E
    (f : A → GoM (N * W) B) (c : GoM (N * W) A) s :
  served m pinned h P0 E (c s) →
  (∀ m' a n w, le m m' → world_ok m' pinned h w → P0 m' a n (w_os w) →
     served m' pinned h Q E (f a (n, w))) →
  served m pinned h Q E (go_bind f c s).
Proof.
  intros [Hwf Hc] Hf. unfold go_bind. destruct (c s) as [[a|e| | |] [n w]]; try by split.
  destruct Hc as (m' & Hle & Hh & Hp). eapply served_from; [exact Hle|]. by apply Hf.
Qed.

Lemma served_get {B} m h (Q : map_t → B → N → OS → Prop) E (f : N → GoM (N * W) B) n w :
  served m pinned h Q E (f n (n, w)) → served m pinned h Q E (go_bind f get_node (n, w)).
Proof. done. Qed.

Lemma served_try {A} m h (Q : map_t → A → N → OS → Prop) E E' (c : GoM (N * W) A) s :
  served m pinned h Q E (c s) →
  served m pinned h (λ m' r n s, match r with inr a => Q m' a n s | inl e => E m' e n end) E'
    (go_try c s).
Proof. intros [Hwf Hc]. unfold go_try. by destruct (c s) as [[a|e| | |] [n w]]. Qed.

(** Accounting calls. *)
Lemma served_account {A} m h (Q : map_t → A → N → OS → Prop) E op how (f : () → GoM (N * W) A) n w :
  world_ok m pinned h w → how ∈ [AccountHit op; AccountMiss op; AccountDir op] → op ∈ allFuseOps →
  (∀ w', world_ok m pinned h w' → w_os w' = w_os w → served m pinned h Q E (f () (n, w'))) →
  served m pinned h Q E (go_bind f how (n, w)).
Proof.
  intros [Hst Hh] Hhow Hop Hf.
  assert (∃ ev, valid_counter (ev_counter ev) ∧ how = on_world (on_stats (account ev)))
    as (ev & Hv & ->).
  { rewrite !elem_of_cons, elem_of_nil in Hhow. destruct Hhow as [->|[->|[->|[]]]].
    - by exists {| ev_counter := CHit op; ev_amount := 0 |}.
    - by exists {| ev_counter := CMiss op; ev_amount := 0 |}.
    - by exists {| ev_counter := CDirect op; ev_amount := 0 |}. }
  destruct (account_bumped ev _ Hst Hv) as (st & Hev & Hb). apply bumped_wf in Hb; [|done].
  unfold go_bind, on_world, on_stats, go_zoom. simpl. rewrite Hev. by apply Hf.
Qed.

(** A call of the metadata cache. *)
Lemma served_metadata {A} m h (Q : A → map_t → Prop) (method : GoM (Conn DB) A) n w E :
  world_ok m pinned h w → grows tree rr m method Q → (∀ m' code, le m m' → E m' (ESqlite code) n) →
  served m pinned h (λ m' a n' s, Q a m' ∧ n' = n ∧ s = w_os w) E (metadata method (n, w)).
Proof.
  intros [Hs [Ho Hd]] Hg HE. specialize (Hg (w_conn w) Hd).
  unfold served, held, metadata, on_world, on_conn, go_zoom, engine_grew in *. simpl.
  destruct (method (w_conn w)) as [[a|[]| | |] c]; simpl in *; try done.
  - destruct Hg as (m' & Hle & Hd' & Hq). split; [done|]. by exists m'.
  - destruct Hg as (m' & Hle & Hd'). split; [done|]. exists m'. auto.
  - destruct Hg as (m' & Hle & Hd'). split; [done|]. exists m'.
    split_and!; [done|by eapply holds_less|done].
Qed.

(** A computation on the kernel, which leaves the connection to the database alone. *)
Lemma served_os {A} m h h' (Q : map_t → A → N → OS → Prop) E (QO : A → OS → Prop)
    (EO : error → OS → Prop) (c : GoM W A) n w :
  world_ok m pinned h w → framed same_conn c →
  os_post QO EO (os_holds P pinned Nothing) (c w) →
  (∀ a s, QO a s → os_holds P pinned h' s ∧ Q m a n s) →
  (∀ e s, EO e s → os_holds P pinned h' s ∧ E m e n) →
  served m pinned h' Q E (on_world c (n, w)).
Proof.
  intros [Hs [Ho Hd]] Hc [Hwf Hp] HQ HE. specialize (Hc w). unfold same_conn in Hc.
  unfold served, held, on_world, go_zoom. simpl. destruct (c w) as [[a|e| | |] w']; simpl in *; try done;
    (split; [done|]); exists m; rewrite Hc.
  - destruct (HQ _ _ Hp). by repeat split.
  - destruct (HE _ _ Hp). by repeat split.
  - by repeat split.
Qed.

(** The same when what the handler holds depends on the outcome. *)
Lemma served_os_bind {A B} m h h' (Q : map_t → B → N → OS → Prop) E (QO : A → OS → Prop)
    (EO : error → OS → Prop) (c : GoM W A) (k : error + A → GoM (N * W) B) n w :
  world_ok m pinned h w → framed same_conn c →
  os_post QO EO (os_holds P pinned Nothing) (c w) →
  (∀ a w', QO a (w_os w') → stats_wf (w_stats w') → db_holds m (c_db (w_conn w')) →
     served m pinned h' Q E (k (inr a) (n, w'))) →
  (∀ e w', EO e (w_os w') → stats_wf (w_stats w') → db_holds m (c_db (w_conn w')) →
     served m pinned h' Q E (k (inl e) (n, w'))) →
  served m pinned h' Q E (go_bind k (go_try (on_world c)) (n, w)).
Proof.
  intros [Hs [Ho Hd]] Hc [Hwf Hp] HQ HE. specialize (Hc w). unfold same_conn in Hc.
  unfold go_bind, go_try, on_world, go_zoom. simpl.
  destruct (c w) as [[a|e| | |] w']; simpl in *; try done; rewrite <- Hc in Hd.
  - by apply HQ.
  - by apply HE.
  - split; [done|]. by exists m.
Qed.

#[local] Hint Resolve on_stats_conn on_os_conn PutContents_conn GetFileForContents_conn : go.
Ltac conn_solve :=
  unfold Lstat, Readlink, Open, tr_Readdir, tr_Close, tr_ReadAt, account_read; framed_solve.

Lemma served_Lstat m E cs n w :
  world_ok m pinned Nothing w → good_path cs →
  (∀ e, e ≠ EFuseENOENT → (IsNotExist e = true → at_ cs = None) → E m e n) →
  served m pinned Nothing
    (λ m' fi n' s, m' = m ∧ n' = n ∧ ∃ nd, at_ cs = Some nd ∧ fi = rnode_info nd) E
    (on_world (Lstat RemoteDomain (abs_path (rr ++ cs))) (n, w)).
Proof.
  intros Hw Hcs HE. eapply served_os; [done|conn_solve|apply (rule_Lstat _ _ _ _ P pinned cs);
    [apply Hw|apply Hw|done]|..].
  - intros fi s [Hs Hfi]. by repeat split.
  - intros e s (Hs & He1 & He2). split; [done|]. by apply HE.
Qed.

Lemma served_Readlink m E cs n w :
  world_ok m pinned Nothing w → good_path cs → (∀ e, E m e n) →
  served m pinned Nothing (λ m' t n' s, m' = m ∧ n' = n ∧ ∃ info, at_ cs = Some (RLink info t)) E
    (on_world (Readlink RemoteDomain (abs_path (rr ++ cs))) (n, w)).
Proof.
  intros Hw Hcs HE. eapply served_os; [done|conn_solve|apply (rule_Readlink _ _ _ _ P pinned cs);
    [apply Hw|apply Hw|done]|..].
  - intros t s [Hs Ht]. by repeat split.
  - intros e s Hs. by split.
Qed.

Lemma served_PutContents m E cs info c n w :
  world_ok m pinned Nothing w → good_path cs → at_ cs = Some (RFile info c) → (∀ e, E m e n) →
  served m pinned Nothing (λ m' k n' s, m' = m ∧ n' = n ∧ k = digest c) E
    (on_world (PutContents (g_content globals) (abs_path (rr ++ cs))) (n, w)).
Proof.
  intros Hw Hcs Hat HE. eapply served_os;
    [done|conn_solve|eapply (rule_PutContents _ _ _ _ P pinned cs); [apply Hw|apply Hw|done|done]|..].
  - intros k s [Hs ->]. by repeat split.
  - intros e s Hs. by split.
Qed.

Lemma on_world_bind {A B} (f : A → GoM W B) (c : GoM W A) (s : N * W) :
  on_world (go_bind f c) s = go_bind (λ a, on_world (f a)) (on_world c) s.
Proof. unfold on_world, go_zoom, go_bind. destruct s as [n w]. simpl. by destruct (c w) as [[] ?]. Qed.

(** The file under the digest of a file of the tree has the contents of that file. *)
Lemma served_open_contents m E cs info c p n w :
  world_ok m pinned Nothing w → good_path cs → at_ cs = Some (RFile info c) → (∀ e, E m e n) →
  served m pinned Nothing (λ m' hd n' s, m' = m ∧ n' = n ∧ of_path hd = p ∧
      ∃ rd, of_reader hd = Some rd ∧ tr_domain rd = LocalDomain ∧ os_shows P pinned s (tr_file rd) c) E
    ((path ← on_world (GetFileForContents (g_content globals) (digest c));
      input ← on_world (Open LocalDomain path);
      mret {| of_path := p; of_reader := Some input |}) (n, w)).
Proof.
  intros Hw Hcs Hat HE.
  set (c0 := (path ← GetFileForContents (g_content globals) (digest c); Open LocalDomain path) : GoM W _).
  assert (∀ s, (path ← on_world (GetFileForContents (g_content globals) (digest c));
      input ← on_world (Open LocalDomain path);
      mret {| of_path := p; of_reader := Some input |}) s
    = go_bind (λ input, go_ret {| of_path := p; of_reader := Some input |}) (on_world (N := N) c0) s)
    as ->.
  { intros [n' w']. unfold c0, mbind, go_mbind, mret, go_mret, go_bind, on_world, go_zoom. simpl.
    by destruct (GetFileForContents _ _ w') as [[] w2]. }
  eapply served_bind; [eapply served_os; [done|unfold c0; conn_solve|
    eapply (rule_open_contents _ _ _ _ P pinned cs); [apply Hw|apply Hw|done|done]|..]|].
  - intros tr s (Hs & Hdom & Hshow). split; [done|].
    instantiate (1 := λ m' tr n' s, m' = m ∧ n' = n ∧ tr_domain tr = LocalDomain ∧
      os_shows P pinned s (tr_file tr) c). done.
  - intros e s Hs. by split.
  - intros m' tr n' w' _ Hw' (-> & -> & Hdom & Hshow). apply served_ret; [done|].
    split_and!; [done..|]. by exists tr.
Qed.

(** Opening a directory, with the error in hand. *)
Lemma served_Open {B} m h (Q : map_t → B → N → OS → Prop) E cs (k : error + tracedReader → GoM (N * W) B)
    n w :
  world_ok m pinned Nothing w → good_path cs →
  (∀ tr w', tr_domain tr = RemoteDomain → world_ok m pinned (JustOpened (tr_file tr) cs) w' →
     served m pinned h Q E (k (inr tr) (n, w'))) →
  (∀ e w', world_ok m pinned Nothing w' → served m pinned h Q E (k (inl e) (n, w'))) →
  served m pinned h Q E
    (go_bind k (go_try (on_world (Open RemoteDomain (abs_path (rr ++ cs))))) (n, w)).
Proof.
  intros Hw Hcs HQ HE. eapply served_os_bind; [exact Hw|conn_solve|
    apply (rule_Open _ _ _ _ P pinned cs); [apply Hw|apply Hw|done]|..].
  - intros tr w' [Hdom Ho] Hs Hd. by apply HQ.
  - intros e w' Ho Hs Hd. by apply HE.
Qed.

(** Listing it. *)
Lemma served_Readdir {B} m (Q : map_t → B → N → OS → Prop) E cs info l0 tr
    (k : list FileInfo → GoM (N * W) B) n w :
  world_ok m pinned (JustOpened (tr_file tr) cs) w → good_path cs → tr_domain tr ∈ allDomains →
  at_ cs = Some (RDir info l0) → (∀ e, E m e n) →
  (∀ l w', Permutation l l0 → world_ok m pinned (HasOpen (tr_file tr)) w' →
     served m pinned (HasOpen (tr_file tr)) Q E (k l (n, w'))) →
  served m pinned (HasOpen (tr_file tr)) Q E (go_bind k (on_world (tr_Readdir tr)) (n, w)).
Proof.
  intros Hw Hcs Hdom Hat HE HQ. rewrite try_bind. eapply served_os_bind; [exact Hw|conn_solve|
    eapply (rule_Readdir _ _ _ _ P pinned); [apply Hw|apply Hw|done|done|done]|..].
  - intros l w' [Ho Hl] Hs Hd. by apply HQ.
  - intros e w' Ho Hs Hd. by apply served_err.
Qed.

(** Closing. *)
Lemma served_Close m E tr n w :
  world_ok m pinned (HasOpen (tr_file tr)) w → tr_domain tr ∈ allDomains → (∀ e, E m e n) →
  served m pinned Nothing (λ m' _ n' s, m' = m ∧ n' = n) E (on_world (tr_Close tr) (n, w)).
Proof.
  intros Hw Hdom HE. eapply served_os;
    [done|conn_solve|apply (rule_Close _ _ _ _ P pinned tr); [apply Hw|apply Hw|done]|..].
  - intros [] s Hs. by repeat split.
  - intros e s Hs. by split.
Qed.

(** The deferred closing of a directory. *)
Lemma served_defer_close {A} m (Q : map_t → A → N → Prop) E tr (body : GoM (N * W) A) s :
  tr_domain tr ∈ allDomains →
  served m pinned (HasOpen (tr_file tr)) (λ m a n _, Q m a n) E (body s) →
  served m pinned Nothing (λ m a n _, Q m a n) E (go_defer (on_world (tr_Close tr)) body s).
Proof.
  intros Hdom [Hwf Hb]. unfold go_defer. destruct (body s) as [o [n w]]. simpl in *.
  assert (∀ m', held m' pinned (HasOpen (tr_file tr)) w → ∃ o' w',
    on_world (N := N) (tr_Close tr) (n, w) = (o', (n, w')) ∧ stats_wf (w_stats w') ∧
    held m' pinned Nothing w' ∧ match o' with Ret _ | Err _ | OutOfFuel => True | _ => False end)
    as Hclose.
  { intros m' [Ho Hd]. destruct (rule_Close _ _ _ _ P pinned tr w Hwf Ho Hdom) as [Hwf' Hp].
    assert (framed (same_conn (OS := OS) (DB := DB)) (tr_Close tr)) as Hc by conn_solve.
    specialize (Hc w). unfold same_conn in Hc. unfold on_world, go_zoom. simpl.
    destruct (tr_Close tr w) as [o' w']. simpl in *. exists o', w'.
    destruct o'; try done; (split_and!; [done..| |done]); (split; [done|by rewrite Hc]). }
  destruct o as [a|e| | |]; try done.
  - destruct Hb as (m' & Hle & Hh & Hq). destruct (Hclose m' Hh) as (o' & w' & -> & Hwf' & Hh' & Ho').
    destruct o'; try done; (split; [done|]); by exists m'.
  - destruct Hb as (m' & Hle & Hh & Hq). destruct (Hclose m' Hh) as (o' & w' & -> & Hwf' & Hh' & Ho').
    destruct o'; try done; (split; [done|]); by exists m'.
Qed.

(** Reading from an open handle. *)
Lemma served_ReadAt m E tr size off c n w :
  world_ok m pinned Nothing w → tr_domain tr = LocalDomain → pinned !! f_fd (tr_file tr) = Some c →
  0 ≤ off → (∀ e, E m e n) →
  served m pinned Nothing (λ m' '(data, err) n' s, n' = n ∧
      (err = None ∨ err = Some EEOF → data = take size (drop (Z.to_nat off) c))) E
    (on_world (tr_ReadAt tr size off) (n, w)).
Proof.
  intros Hw Hdom Hfd Hoff HE. eapply served_os; [done|conn_solve|
    by apply (rule_ReadAt _ _ _ _ P pinned); [apply Hw|apply Hw|done|exact Hfd|done]|..].
  - intros [data err] s [Hs Hdata]. by repeat split.
  - intros e s Hs. by split.
Qed.
End rules.

(** Working on a part of the node. *)
Lemma served_zoom {N P0 A} (get : N → P0) (put : P0 → N → N) m pinned h
    (Q : map_t → A → N → OS → Prop) (E : map_t → error → N → Prop) (c : GoM (P0 * W) A) n w :
  served m pinned h (λ m' a p s, Q m' a (put p n) s) (λ m' e p, E m' e (put p n)) (c (get n, w)) →
  served m pinned h Q E (go_zoom (λ s, (get s.1, s.2)) (λ '(p, w) s, (put p s.1, w)) c (n, w)).
Proof. unfold served, go_zoom. simpl. by destruct (c (get n, w)) as [[] [p w']]. Qed.
End served.
