(* ===== verification/Served.v ===== *)
(** The handler that runs alone: the sequential implementation of the kernel's protocol.

    [os_ok pinned s] is what the kernel's state satisfies between two requests: the remote tree
    is the given one, the descriptors of the open handles still deliver their contents, and the
    content cache holds, under every key, contents that the tree or an earlier run put there.
    [sequential_protocol] derives the rules of [OsProtocol] from the laws of one kernel that
    nobody else uses, and [world_ok] and [served] are their forms for it. *)
From S2P Require Import Prelude GoStrings GoPath Stats Types DirEntries Sql Sqlite Kernel.
From S2P Require Import Syscalls Metadata MetadataSpec MetadataProps WorldPost Md5 Content.
From S2P Require Import ContentProps Fs FsLogic FsProps Remote Coherence Growth HandlerLogic.
#[local] Open Scope Z_scope.

#[local] Arguments Join : simpl never.
#[local] Arguments newNodeForEntry : simpl never.

(** * Calls of the kernel and the pinned descriptors *)

Section pinned.
Context {OS DB : Type} `{RemoteLaws OS, !Fuel}.
Context (tree : string → option rnode) (pinned : gmap Z bytes).

(** The tree is the given one and the pinned descriptors deliver their contents. *)
Definition pins (s : OS) : Prop := remote_tree s = tree ∧ pinned ⊆ os_image s.
Definition pins_rel (w w' : World OS DB) : Prop := pins (w_os w) → pins (w_os w').

#[export] Instance pins_rel_preorder : PreOrder pins_rel.
Proof. split; [by intros w|]. unfold pins_rel. intros x y z; auto. Qed.

Lemma pins_call {A} (m : GoM OS A) c s :
  (∀ s, (kernel_call c s).2 = (m s).2) → (∀ fd, closes c = Some fd → pinned !! fd = None) →
  pins s → pins (m s).2.
Proof.
  intros Hm Hc [Ht Hp]. rewrite <- Hm. split; [by rewrite tree_kept|].
  apply map_subseteq_spec. intros fd x Hx. apply image_kept; [|by eapply lookup_weaken].
  intros Hcl. by rewrite (Hc _ Hcl) in Hx.
Qed.

Lemma pins_os {A} (m : GoM OS A) c :
  (∀ s, (kernel_call c s).2 = (m s).2) → (∀ fd, closes c = Some fd → pinned !! fd = None) →
  framed pins_rel (on_os m).
Proof.
  intros Hm Hc w Hw. unfold on_os, go_zoom. pose proof (pins_call m c _ Hm Hc Hw) as Hp.
  by destruct (m (w_os w)).
Qed.

Lemma pins_stats {A} (m : GoM Stats A) : framed pins_rel (on_stats m).
Proof. intros w Hw. unfold on_stats, go_zoom. by destruct (m (w_stats w)). Qed.

Ltac pins_by c := eapply (pins_os _ c); [intros; simpl; by rewrite ?dropped_state|done].

Lemma pins_Lstat p : framed pins_rel (on_os (os_Lstat p)).
Proof. pins_by (KLstat p). Qed.
Lemma pins_Mkdir p mode : framed pins_rel (on_os (os_Mkdir p mode)).
Proof. pins_by (KMkdir p mode). Qed.
Lemma pins_Open p : framed pins_rel (on_os (os_Open p)).
Proof. pins_by (KOpen p). Qed.
Lemma pins_Remove p : framed pins_rel (on_os (os_Remove p)).
Proof. pins_by (KRemove p). Qed.
Lemma pins_Rename p q : framed pins_rel (on_os (os_Rename p q)).
Proof. pins_by (KRename p q). Qed.
Lemma pins_TempFile d p : framed pins_rel (on_os (os_TempFile d p)).
Proof. pins_by (KTempFile d p). Qed.
Lemma pins_Read f n : framed pins_rel (on_os (file_Read f n)).
Proof. pins_by (KRead f n). Qed.
Lemma pins_Write f d : framed pins_rel (on_os (file_Write f d)).
Proof. pins_by (KWrite f d). Qed.

Definition unpinned (f : File) : Prop := pinned !! f_fd f = None.

Lemma pins_Close f : unpinned f → framed pins_rel (on_os (file_Close f)).
Proof.
  intros Hf. eapply (pins_os _ (KClose f)); [done|]. by intros fd [= <-].
Qed.

(** A sequence whose rest needs to know what the first computation returned. *)
Lemma pins_bind_ret {A B} (f : A → GoM (World OS DB) B) (m : GoM (World OS DB) A) :
  framed pins_rel m →
  (∀ a w w', pins (w_os w) → m w = (Ret a, w') → framed pins_rel (f a)) →
  framed pins_rel (go_bind f m).
Proof.
  intros Hm Hf w Hw. specialize (Hm w Hw). unfold go_bind.
  destruct (m w) as [[a|e| | |] w'] eqn:E; try done. by apply (Hf a w w').
Qed.

(** A descriptor the kernel has just handed out is not pinned. *)
Lemma fresh_unpinned s f : pins s → os_image s !! f_fd f = None → unpinned f.
Proof. intros [_ Hp] Hf. unfold unpinned. by eapply lookup_weaken_None. Qed.

#[local] Hint Resolve pins_stats pins_Lstat pins_Mkdir pins_Open pins_Remove pins_Rename
  pins_TempFile pins_Read pins_Write pins_Close : go.

Lemma copy2_pins fuel dst1 src h n : framed pins_rel (copy2_loop fuel dst1 src h n).
Proof.
  revert h n. induction fuel as [|fuel IH]; intros h n; cbn [copy2_loop];
    unfold tr_Read, account_read; framed_solve.
Qed.

Lemma HasKey_pins cache k : framed pins_rel (HasKey cache k).
Proof. unfold HasKey, Lstat. framed_solve. Qed.

Lemma GetFileForContents_pins cache k : framed pins_rel (GetFileForContents cache k).
Proof. pose proof HasKey_pins as Hkey. unfold GetFileForContents. framed_solve. Qed.

Lemma fetch_pins cache path tr temp :
  unpinned (tr_file tr) → unpinned temp → framed pins_rel (fetch cache path tr temp).
Proof.
  intros Htr Ht. pose proof copy2_pins as Hcopy. pose proof HasKey_pins as Hkey.
  unfold fetch, copy2, store_temp, Mkdir, Rename, tr_Close. framed_solve.
Qed.

(** What [Open] and [TempFile] hand out is not pinned. *)
Lemma Open_unpinned d p (w : World OS DB) tr w' :
  pins (w_os w) → Open d p w = (Ret tr, w') → unpinned (tr_file tr).
Proof.
  intros Hw. unfold Open, mbind, go_mbind, go_bind, on_stats, on_os, go_zoom.
  destruct (AccountOsOp d OpenOsOp (w_stats w)) as [[] st]; simpl; try done.
  destruct (os_Open p (w_os w)) as [[f|e| | |] s] eqn:Eo; intros [= <- <-].
  eapply fresh_unpinned; [done|by eapply Open_fresh].
Qed.

Lemma PutContents_pins cache path : framed pins_rel (PutContents cache path).
Proof.
  unfold PutContents. apply pins_bind_ret; [unfold Open; framed_solve|].
  intros tr w w' Hw Ho.
  assert (unpinned (tr_file tr)) as Htr.
  { unfold go_wrap in Ho. destruct (Open RemoteDomain path w) as [[] ?] eqn:E; try done.
    simplify_eq. by eapply Open_unpinned. }
  apply framed_defer; [apply _| |unfold tr_Close; framed_solve].
  apply pins_bind_ret; [framed_solve|]. intros temp w1 w2 Hw1 Htmp.
  assert (unpinned temp) as Ht.
  { unfold go_wrap, on_os, go_zoom in Htmp.
    destruct (os_TempFile (root cache) "partial" (w_os w1)) as [[] ?] eqn:E; try done.
    simplify_eq. eapply fresh_unpinned; [done|by eapply TempFile_fresh]. }
  pose proof fetch_pins as Hfetch. unfold Remove. framed_solve.
Qed.
End pinned.

(** * The invariant of the world *)

(** What the end-to-end statements assume of the parts of an installation. *)
Record setup_ok {OS} `{KernelView OS} (globals : globalState) (rs : list string)
    (tree : string → option rnode) (rr : list string) (known : bytes → Prop) : Prop := {
  su_root : owns_root (OS := OS) rs;                       (* the cache directory *)
  su_cache : g_content globals = NewContentCache (abs_path rs);
  su_tree : tree_ok tree rr is_local;
  su_files : ∀ cs info c, good_path cs → tree_at tree rr cs = Some (RFile info c) → known c;
  su_collision : ∀ c c', known c → known c' → digest c = digest c' → c = c';
}.

Section sequential.
Context {OS : Type} `{KernelLaws OS, !RemoteView OS, !RemoteLaws OS, !Fuel}.
Context (globals : globalState) (rs : list string) (tree : string → option rnode)
  (rr : list string) (known : bytes → Prop).
Context (Hsetup : setup_ok (OS := OS) globals rs tree rr known).
Abbreviation at_ := (tree_at tree rr).

(** Every cached file holds known contents with the digest it is named by. *)
Definition content_ok (L : gmap string node) : Prop :=
  content_inv rs L ∧
  ∀ k c, is_key k = true → L !! key_path rs k = Some (Regular c) → known c.

Record os_ok (pinned : gmap Z bytes) (s : OS) : Prop := {
  ok_pins : pins tree pinned s;
  ok_content : content_ok (os_local s);
}.

(** What the handler holds: the descriptor of a directory it has opened is not pinned, and until
    it is read the state is the one its opening led to. *)
Definition seq_holds (pinned : gmap Z bytes) (h : Holding) (s : OS) : Prop :=
  os_ok pinned s ∧
  match h with
  | Nothing => True
  | JustOpened f cs => unpinned pinned f ∧ ∃ s0,
      os_Open (abs_path (rr ++ cs)) s0 = (Ret f, s) ∧ remote_tree s0 = tree
  | HasOpen f => unpinned pinned f
  end.
Definition seq_shows (pinned : gmap Z bytes) (s : OS) (f : File) (c : bytes) : Prop :=
  os_image s !! f_fd f = Some c ∧ unpinned pinned f.

Lemma remote_path cs : good_path cs → is_local (abs_path (rr ++ cs)) = false.
Proof. apply (to_remote _ _ _ (su_tree _ _ _ _ _ Hsetup)). Qed.

(** A kernel call that leaves the cache directory and the pinned descriptors alone. *)
Lemma os_ok_call {A} pinned (call : GoM OS A) c s :
  (∀ s, (kernel_call c s).2 = (call s).2) → (∀ fd, closes c = Some fd → pinned !! fd = None) →
  os_ok pinned s → os_local (call s).2 = os_local s → os_ok pinned (call s).2.
Proof.
  intros Hk Hc [Hp Hl] Hs. split; [by apply (pins_call _ _ call c s Hk Hc Hp)|by rewrite Hs].
Qed.

Ltac dropped := intros; simpl; by rewrite ?dropped_state.
Ltac os_call c :=
  match goal with Ho : os_ok ?pinned ?s |- context [?call ?s] =>
    assert (os_local (call s).2 = os_local s → os_ok pinned (call s).2)
      as Hok by (apply (os_ok_call pinned call c); [dropped|done|done])
  end.

Lemma seq_Lstat {DB} pinned cs (w : World OS DB) :
  stats_wf (w_stats w) → seq_holds pinned Nothing (w_os w) → good_path cs →
  os_post (λ fi s, seq_holds pinned Nothing s ∧ ∃ nd, at_ cs = Some nd ∧ fi = rnode_info nd)
    (λ e s, seq_holds pinned Nothing s ∧ e ≠ EFuseENOENT ∧ (IsNotExist e = true → at_ cs = None))
    (seq_holds pinned Nothing) (Lstat RemoteDomain (abs_path (rr ++ cs)) w).
Proof.
  intros Hs [Ho _] Hcs. apply os_post_counted; [done|in_ops|in_ops|].
  pose proof (remote_Lstat (abs_path (rr ++ cs)) (w_os w) (remote_path _ Hcs)) as Hl.
  rewrite (proj1 (ok_pins _ _ Ho)) in Hl.
  pose proof (Lstat_spec (abs_path (rr ++ cs)) (w_os w)) as Hspec.
  os_call (KLstat (abs_path (rr ++ cs))).
  destruct (os_Lstat _ (w_os w)) as [[fi|e| | |] s]; destruct Hspec as (Ha & Hloc & _);
    simpl in *; try done; (split; [split; [by apply Hok|done]|done]).
Qed.

Lemma seq_Readlink {DB} pinned cs (w : World OS DB) :
  stats_wf (w_stats w) → seq_holds pinned Nothing (w_os w) → good_path cs →
  os_post (λ t s, seq_holds pinned Nothing s ∧ ∃ info, at_ cs = Some (RLink info t))
    (λ _, seq_holds pinned Nothing) (seq_holds pinned Nothing)
    (Readlink RemoteDomain (abs_path (rr ++ cs)) w).
Proof.
  intros Hs [Ho _] Hcs. apply os_post_counted; [done|in_ops|in_ops|].
  pose proof (remote_Readlink (abs_path (rr ++ cs)) (w_os w)) as Hl.
  rewrite (proj1 (ok_pins _ _ Ho)) in Hl.
  pose proof (Readlink_spec (abs_path (rr ++ cs)) (w_os w)) as Hspec.
  os_call (KReadlink (abs_path (rr ++ cs))).
  destruct (os_Readlink _ (w_os w)) as [[t|e| | |] s]; destruct Hspec as (Ha & Hloc & _);
    simpl in *; try done.
  - split; [split; [by apply Hok|done]|]. eapply Hl; [by apply remote_path|done].
  - split; [by apply Hok|done].
Qed.

(** Opening: the descriptor is new. *)
Lemma seq_Open_at {DB} pinned d p (w : World OS DB) :
  stats_wf (w_stats w) → os_ok pinned (w_os w) → d ∈ allDomains →
  os_post (λ tr s, os_ok pinned s ∧ tr_domain tr = d ∧ unpinned pinned (tr_file tr) ∧
      os_Open p (w_os w) = (Ret (tr_file tr), s))
    (λ _, os_ok pinned) (λ _, False) (Open d p w).
Proof.
  intros Hs Ho Hd. unfold Open.
  apply (os_post_account _ _ _ {| ev_counter := COs d OpenOsOp; ev_amount := 0 |});
    [done|split; [done|in_ops]|]. intros w' Hwf' Hw' _.
  pose proof (Open_spec p (w_os w)) as Hspec.
  eapply (os_post_bind (λ f s, os_Open p (w_os w) = (Ret f, s) ∧ os_ok pinned s)).
  - apply os_post_os; [done|]. rewrite Hw'. os_call (KOpen p).
    destruct (os_Open p (w_os w)) as [[f|e| | |] s]; destruct Hspec as (Ha & Hloc & _);
      simpl in *; try done; auto.
  - intros f w2 Hwf2 [Hf Hok2]. split; [done|]. simpl. split_and!; try done.
    eapply (fresh_unpinned tree); [apply Ho|by eapply Open_fresh].
Qed.

Lemma seq_Open {DB} pinned cs (w : World OS DB) :
  stats_wf (w_stats w) → seq_holds pinned Nothing (w_os w) → good_path cs →
  os_post (λ tr s, tr_domain tr = RemoteDomain ∧ seq_holds pinned (JustOpened (tr_file tr) cs) s)
    (λ _, seq_holds pinned Nothing) (seq_holds pinned Nothing)
    (Open RemoteDomain (abs_path (rr ++ cs)) w).
Proof.
  intros Hs [Ho _] Hcs. eapply os_post_weaken; [by apply seq_Open_at; [| |in_ops]|..|done].
  - intros tr s (Hok & Hd & Hu & Hop). split; [done|]. split; [done|]. split; [done|].
    exists (w_os w). split; [done|]. apply (ok_pins _ _ Ho).
  - intros e s Hok. by split.
Qed.

(** Listing a directory of the tree that has just been opened. *)
Lemma seq_Readdir {DB} pinned tr cs info l0 (w : World OS DB) :
  stats_wf (w_stats w) → seq_holds pinned (JustOpened (tr_file tr) cs) (w_os w) → good_path cs →
  tr_domain tr ∈ allDomains → at_ cs = Some (RDir info l0) →
  os_post (λ l s, seq_holds pinned (HasOpen (tr_file tr)) s ∧ Permutation l l0)
    (λ _, seq_holds pinned (HasOpen (tr_file tr))) (seq_holds pinned Nothing) (tr_Readdir tr w).
Proof.
  intros Hs (Ho & Hu & s0 & Hop & Ht) Hcs Hd Hat. apply os_post_counted; [done|done|in_ops|].
  pose proof (Readdir_spec (tr_file tr) (w_os w)) as Hspec. os_call (KReaddir (tr_file tr)).
  destruct (file_Readdir (tr_file tr) (w_os w)) as [[l|e| | |] s] eqn:E0;
    destruct Hspec as (Ha & Hloc); simpl in *; try done.
  - split; [by split; [apply Hok|]|].
    eapply remote_Readdir; [by apply remote_path|exact Hop|exact E0|]. by rewrite Ht.
  - by split; [apply Hok|].
Qed.

Lemma seq_Close {DB} pinned tr (w : World OS DB) :
  stats_wf (w_stats w) → seq_holds pinned (HasOpen (tr_file tr)) (w_os w) →
  tr_domain tr ∈ allDomains →
  os_post (λ _, seq_holds pinned Nothing) (λ _, seq_holds pinned Nothing)
    (seq_holds pinned Nothing) (tr_Close tr w).
Proof.
  intros Hs [Ho Hu] Hd. apply os_post_counted; [done|done|in_ops|].
  pose proof (Close_spec (tr_file tr) (w_os w)) as Hspec.
  assert (os_local (file_Close (tr_file tr) (w_os w)).2 = os_local (w_os w) →
    os_ok pinned (file_Close (tr_file tr) (w_os w)).2) as Hok.
  { apply (os_ok_call pinned _ (KClose (tr_file tr))); [done| |done]. by intros fd [= <-]. }
  destruct (file_Close (tr_file tr) (w_os w)) as [[[]|e| | |] s]; destruct Hspec as (Ha & Hloc);
    simpl in *; try done; (split; [by apply Hok|done]).
Qed.

(** ** The content cache *)

Lemma content_ok_failed L L' : content_ok L → put_failed rs L L' → content_ok L'.
Proof.
  destruct (su_root _ _ _ _ _ Hsetup) as [Hg _]. intros [Hi Hk] Hf. split.
  - eapply content_extends_inv; [done|by eapply put_failed_extends|done].
  - intros k c Hkey. rewrite (put_failed_key rs Hg _ _ _ Hkey Hf). by apply Hk.
Qed.

Lemma content_ok_done L h k L' : known h → content_ok L → put_done rs L h k L' → content_ok L'.
Proof.
  destruct (su_root _ _ _ _ _ Hsetup) as [Hg _]. intros Hh [Hi Hk] Hd. split.
  - eapply content_extends_inv; [done|by eapply put_done_extends|done].
  - intros k' c Hkey Hc. destruct (put_done_key rs Hg _ _ _ _ _ _ Hkey Hd Hc) as [?|[= ->]]; [|done].
    by eapply Hk.
Qed.

(** A key comes from contents that could be opened. *)
Lemma PutContents_opened {DB} cache path (w : World OS DB) k w' :
  PutContents (OS := OS) (DB := DB) cache path w = (Ret k, w') → ∃ f s, os_Open path (w_os w) = (Ret f, s).
Proof.
  unfold PutContents, go_wrap, Open, mbind, go_mbind, go_bind, on_stats, on_os, go_zoom.
  destruct (AccountOsOp RemoteDomain OpenOsOp (w_stats w)) as [[] st]; simpl; try done.
  destruct (os_Open path (w_os w)) as [[f|e| | |] s]; simpl; try done. intros _. by exists f, s.
Qed.

Lemma seq_PutContents {DB} pinned cs info c (w : World OS DB) :
  stats_wf (w_stats w) → seq_holds pinned Nothing (w_os w) → good_path cs →
  at_ cs = Some (RFile info c) →
  os_post (λ k s, seq_holds pinned Nothing s ∧ k = digest c)
    (λ _, seq_holds pinned Nothing) (seq_holds pinned Nothing)
    (PutContents (g_content globals) (abs_path (rr ++ cs)) w).
Proof.
  intros Hs [Ho _] Hcs Hat. set (p := abs_path (rr ++ cs)).
  destruct (su_root _ _ _ _ _ Hsetup) as [Hg Hl].
  assert (∀ f s, os_Open p (w_os w) = (Ret f, s) → opens_with p (w_os w) c) as Hopen.
  { intros f s E0. exists f, s. split; [done|]. eapply remote_Open; [by apply (remote_path cs)|exact E0|].
    rewrite (proj1 (ok_pins _ _ Ho)). exact Hat. }
  rewrite (su_cache _ _ _ _ _ Hsetup).
  pose proof (PutContents_post rs Hg Hl p w Hs) as Hpost.
  pose proof (PutContents_pins tree pinned (NewContentCache (abs_path rs)) p w (ok_pins _ _ Ho)) as Hpins.
  pose proof (PutContents_opened (NewContentCache (abs_path rs)) p w) as Hop.
  unfold os_post, the_cache in *.
  destruct (PutContents _ p w) as [[k|e| | |] w'] eqn:E0; destruct Hpost as [Hwf' Hpost]; simpl in *;
    try done; (split; [done|]).
  - destruct Hpost as (h & Hh & Hdone). destruct (Hop _ _ eq_refl) as (f & s & Hf).
    assert (h = c) as -> by (by eapply Hh, Hopen).
    split; [|by destruct Hdone as [-> _]]. split; [|done].
    split; [done|]. eapply content_ok_done; [|apply Ho|done]. exact (su_files _ _ _ _ _ Hsetup _ _ _ Hcs Hat).
  - split; [|done]. split; [done|]. by eapply content_ok_failed; [apply Ho|].
  - destruct Hpost as [_ Hf]. split; [|done]. split; [done|]. by eapply content_ok_failed; [apply Ho|].
Qed.

(** The file under the digest of a file of the tree has the contents of that file. *)
Lemma seq_open_contents {DB} pinned cs info c (w : World OS DB) :
  stats_wf (w_stats w) → seq_holds pinned Nothing (w_os w) → good_path cs →
  at_ cs = Some (RFile info c) →
  os_post (λ tr s, seq_holds pinned Nothing s ∧ tr_domain tr = LocalDomain ∧
             seq_shows pinned s (tr_file tr) c)
    (λ _, seq_holds pinned Nothing) (seq_holds pinned Nothing)
    ((path ← GetFileForContents (g_content globals) (digest c); Open LocalDomain path) w).
Proof.
  intros Hs [Ho _] Hcs Hat. destruct (su_root _ _ _ _ _ Hsetup) as [Hg Hl].
  rewrite (su_cache _ _ _ _ _ Hsetup).
  eapply (os_post_bind (λ p s, os_ok pinned s ∧ p = key_path rs (digest c) ∧
    os_local s !! key_path rs (digest c) = Some (Regular c))).
  - pose proof (GetFileForContents_post rs Hg Hl (digest c) w (digest_is_key c) Hs) as Hpost.
    pose proof (GetFileForContents_pins tree pinned (NewContentCache (abs_path rs)) (digest c) w
      (ok_pins _ _ Ho)) as Hpins.
    unfold os_post, the_cache in *.
    destruct (GetFileForContents _ _ w) as [[q|e| | |] w'] eqn:E0; destruct Hpost as [Hwf' Hpost];
      simpl in *; try done; (split; [done|]).
    + destruct Hpost as (-> & Hloc & [nd Hnd]). destruct (ok_content _ _ Ho) as [Hinv Hkn].
      destruct (Hinv _ _ (digest_is_key c) Hnd) as (c' & -> & Hc').
      assert (c' = c) as ->.
      { eapply (su_collision _ _ _ _ _ Hsetup); [eapply Hkn; [|exact Hnd]; apply digest_is_key| |done].
        exact (su_files _ _ _ _ _ Hsetup _ _ _ Hcs Hat). }
      split_and!; [|done|by rewrite Hloc]. split; [done|]. rewrite Hloc. apply Ho.
    + split; [|done]. split; [done|]. rewrite Hpost. apply Ho.
  - intros q w' Hwf' (Ho' & -> & Hfile).
    eapply os_post_weaken; [by apply seq_Open_at; [| |by left]|..|done].
    + intros tr s (Hok & Hdom & Hun & Hop). split; [done|]. split; [done|]. split; [|done].
      pose proof (Open_spec (key_path rs (digest c)) (w_os w')) as Hspec. rewrite Hop in Hspec.
      destruct Hspec as (_ & _ & _ & _ & Him). apply Him; [|done].
      apply (local_key rs Hl), digest_is_key.
    + intros e s Hok. by split.
Qed.

Lemma seq_ReadAt {DB} pinned tr size off c (w : World OS DB) :
  stats_wf (w_stats w) → seq_holds pinned Nothing (w_os w) → tr_domain tr = LocalDomain →
  pinned !! f_fd (tr_file tr) = Some c → 0 ≤ off →
  os_post (λ '(data, err) s, seq_holds pinned Nothing s ∧
             (err = None ∨ err = Some EEOF → data = take size (drop (Z.to_nat off) c)))
    (λ _, seq_holds pinned Nothing) (seq_holds pinned Nothing) (tr_ReadAt tr size off w).
Proof.
  intros Hs [Ho _] Hdom Hfd Hoff. unfold tr_ReadAt.
  apply (os_post_account _ _ _ {| ev_counter := COs (tr_domain tr) ReadOsOp; ev_amount := 0 |});
    [done|split; [rewrite Hdom; by left|in_ops]|]. intros w1 Hwf1 Hw1 _. rewrite <- Hw1 in Ho.
  pose proof (ReadAt_spec (tr_file tr) size off (w_os w1)) as Hspec.
  eapply (os_post_bind (λ '(data, err) s, os_ok pinned s ∧
    (err = None ∨ err = Some EEOF → data = take size (drop (Z.to_nat off) c)))).
  - apply os_post_os; [done|]. os_call (KReadAt (tr_file tr) size off).
    destruct (file_ReadAt (tr_file tr) size off (w_os w1)) as [o s].
    destruct Hspec as (Hls & data & err & -> & Hlen & Hdata). simpl. split; [by apply Hok|].
    intros He. apply Hdata; [|done|done].
    exact (lookup_weaken _ _ _ _ Hfd (proj2 (ok_pins _ _ Ho))).
  - intros [data err] w2 Hwf2 [Hok2 Hdata]. unfold account_read.
    destruct (_ && _); [|by split].
    apply (os_post_account _ _ _ {| ev_counter := CRead (tr_domain tr);
      ev_amount := Z.of_nat (length data) |}); [done|rewrite Hdom; by left|].
    intros w3 Hwf3 Hw3 _. split; [done|]. simpl. by rewrite Hw3.
Qed.

(** The protocol of a kernel with one user. *)
Definition sequential_protocol : OsProtocol globals tree rr OS.
Proof.
  refine {| os_holds := seq_holds; os_shows := seq_shows |}.
  - intros pinned h s [Ho _]. by split.
  - intros pinned f cs s (Ho & Hu & _). by split.
  - intros DB. apply seq_Lstat.
  - intros DB. apply seq_Readlink.
  - intros DB. apply seq_Open.
  - intros DB. apply seq_Readdir.
  - intros DB. apply seq_Close.
  - intros DB. apply seq_PutContents.
  - intros DB. apply seq_open_contents.
  - intros DB. apply seq_ReadAt.
Defined.

(** * The invariant of the world *)

Section world.
Context {DB : Type} `{SqlLaws DB}.
Abbreviation W := (World OS DB).

Record world_ok (m : map_t) (pinned : gmap Z bytes) (w : W) : Prop := {
  ok_stats : stats_wf (w_stats w);
  ok_os : os_ok pinned (w_os w);
  ok_db : db_ok tree rr m (db_view w);
}.

(** The outcome of a handler: the invariant again, with [Q] of a result and [E] of an error. *)
Definition served {N A} (m : map_t) (pinned : gmap Z bytes) (Q : map_t → A → N → OS → Prop)
    (E : map_t → error → N → Prop) (r : outcome A * (N * W)) : Prop :=
  settles
    (λ a n s t, ∃ m', le m m' ∧ os_ok pinned s ∧ db_ok tree rr m' t ∧ Q m' a n s)
    (λ e n s t, ∃ m', le m m' ∧ os_ok pinned s ∧ db_ok tree rr m' t ∧ E m' e n)
    (λ n s t, ∃ m', le m m' ∧ os_ok pinned s ∧ db_ok tree rr m' t) r.

Lemma world_ok_alone m pinned w :
  world_ok m pinned w ↔ HandlerLogic.world_ok globals tree rr sequential_protocol m pinned Nothing w.
Proof. split; [intros [Hs Ho Hd]; by split; [|split; [split|]]|]. intros (Hs & (Ho & _) & Hd). by split. Qed.

Lemma served_alone {N A} m pinned (Q : map_t → A → N → OS → Prop) E r :
  HandlerLogic.served globals tree rr sequential_protocol m pinned Nothing Q E r →
  served m pinned Q E r.
Proof.
  intros [Hwf Hr]. split; [done|]. destruct r as [[a|e| | |] [n w]]; try done.
  - destruct Hr as (m' & Hle & [[Ho _] Hd] & Hq). by exists m'.
  - destruct Hr as (m' & Hle & [[Ho _] Hd] & Hq). by exists m'.
  - destruct Hr as (m' & Hle & [[Ho _] Hd]). by exists m'.
Qed.
End world.
End sequential.
