(* ===== verification/NodeServed.v ===== *)
(** Every handler on a tree that does not change: from a node whose data agrees with the tree
    and is recorded in the database, a handler leads to such a node again, and what it answers is
    what the tree says.  Proved once, for any kernel and database with the protocols of
    [OsProtocol] and [GrowingLaws]: for a handler that runs alone and for one among others. *)
From S2P Require Import Prelude GoStrings GoPath Stats Types DirEntries Sql Sqlite Kernel.
From S2P Require Import Syscalls Metadata MetadataSpec MetadataProps WorldPost Md5 Content.
From S2P Require Import ContentProps Fs FsLogic FsProps Remote Coherence Growth HandlerLogic.
#[local] Open Scope Z_scope.

#[local] Arguments Join : simpl never.
#[local] Arguments newNodeForEntry : simpl never.

(** What a node knows, as a row. *)
Definition dir_row (d : Dir) : CachedRow :=
  {| Inode := dir_inode d; TypeName := "directory"; RowFileInfo := dd_fileInfo (dir_data d);
     DidReadDir := false; DirEntries := dirEntries (dir_data d); ContentHash := None; Target := None |}.
Definition file_row (f : FileNode) : CachedRow :=
  {| Inode := file_inode f; TypeName := "file"; RowFileInfo := fd_fileInfo (file_data f);
     DidReadDir := false; DirEntries := None; ContentHash := contentHash (file_data f); Target := None |}.
Definition link_row (l : Symlink) : CachedRow :=
  {| Inode := link_inode l; TypeName := "symlink"; RowFileInfo := ld_fileInfo (link_data l);
     DidReadDir := false; DirEntries := None; ContentHash := None; Target := target (link_data l) |}.

Section nodes.
Context {OS DB : Type} `{Kernel OS, Fuel}.
Context (globals : globalState) (tree : string → option rnode) (rr : list string)
  (is_loc : string → bool) (Htree : tree_ok tree rr is_loc) (P : OsProtocol globals tree rr OS).
Context `{AffinityLaws DB, !DbHolds tree rr DB, !GrowingLaws tree rr DB}.
Abbreviation W := (World OS DB).
Abbreviation at_ := (tree_at tree rr).
Abbreviation served_with := (HandlerLogic.served globals tree rr P).
Abbreviation holding := (HandlerLogic.world_ok globals tree rr P).
Abbreviation served m pinned := (HandlerLogic.served globals tree rr P m pinned Nothing).
Abbreviation world_ok m pinned := (HandlerLogic.world_ok globals tree rr P m pinned Nothing).

(** A row that agrees with the tree and of which the database has lost nothing. *)
Definition recorded (m : map_t) (cs : list string) (k : CachedRow) : Prop :=
  row_ok tree rr m cs k ∧ ∃ cr, m !! abs_path cs = Some cr ∧ row_le k cr.

Record node_at (m : map_t) (cs : list string) (path below : string) (direct : bool)
    (k : CachedRow) : Prop := {
  na_good : good_path cs;
  na_path : path = abs_path cs;
  na_below : below = abs_path (rr ++ cs);
  na_direct : direct = negb (cachedPathRegex globals path);
  na_row : recorded m cs k;
}.

(** The rows a directory remembers of its children. *)
Definition rows_ok (m : map_t) (cs : list string) (rows : gmap string (option CachedRow)) : Prop :=
  ∀ name o, rows !! name = Some o → good_name name = true ∧
    ∃ k, o = Some k ∧ recorded m (cs ++ [name]) k.

Definition dir_ok (m : map_t) (cs : list string) (d : Dir) : Prop :=
  node_at m cs (dir_path d) (dir_belowPath d) (dir_direct d) (dir_row d) ∧
  rows_ok m cs (rows (dir_data d)).
Definition file_ok (m : map_t) (cs : list string) (f : FileNode) : Prop :=
  node_at m cs (file_path f) (file_belowPath f) (file_direct f) (file_row f).
Definition link_ok (m : map_t) (cs : list string) (l : Symlink) : Prop :=
  node_at m cs (link_path l) (link_belowPath l) (link_direct l) (link_row l).
Definition node_ok (m : map_t) (cs : list string) (nd : Node) : Prop :=
  match nd with
  | NodeDir d => dir_ok m cs d
  | NodeFile f => file_ok m cs f
  | NodeSymlink l => link_ok m cs l
  end.

Lemma recorded_mono m m' cs k : le m m' → recorded m cs k → recorded m' cs k.
Proof.
  intros Hle [Hok (cr & Hcr & Hrow)]. split; [by eapply row_ok_mono|].
  destruct (Hle _ _ Hcr) as (cr' & Hcr' & ?). exists cr'. split; [done|by etrans].
Qed.

Lemma node_at_mono m m' cs p b d k : le m m' → node_at m cs p b d k → node_at m' cs p b d k.
Proof. intros Hle []. split; eauto using recorded_mono. Qed.

Lemma rows_ok_mono m m' cs rws : le m m' → rows_ok m cs rws → rows_ok m' cs rws.
Proof.
  intros Hle Hr name o Ho. destruct (Hr _ _ Ho) as (Hg & k & -> & Hk). eauto using recorded_mono.
Qed.

Lemma dir_ok_mono m m' cs d : le m m' → dir_ok m cs d → dir_ok m' cs d.
Proof. intros Hle []. split; eauto using node_at_mono, rows_ok_mono. Qed.
Lemma file_ok_mono m m' cs f : le m m' → file_ok m cs f → file_ok m' cs f.
Proof. apply node_at_mono. Qed.
Lemma link_ok_mono m m' cs l : le m m' → link_ok m cs l → link_ok m' cs l.
Proof. apply node_at_mono. Qed.
Lemma node_ok_mono m m' cs nd : le m m' → node_ok m cs nd → node_ok m' cs nd.
Proof. destruct nd; [apply dir_ok_mono|apply file_ok_mono|apply link_ok_mono]. Qed.

(** The entry behind a node. *)
Lemma recorded_entry m cs k : recorded m cs k → TypeName k = type_at tree rr cs.
Proof. intros [[Hty _ _ _ _] _]. exact Hty. Qed.

Lemma dir_entry m cs d : dir_ok m cs d → ∃ info l, at_ cs = Some (RDir info l).
Proof.
  intros [Hn _]. pose proof (recorded_entry _ _ _ (na_row _ _ _ _ _ _ Hn)) as Ht. simpl in Ht.
  unfold type_at in Ht. destruct (at_ cs) as [[]|]; try done. eauto.
Qed.
Lemma file_entry m cs f : file_ok m cs f → ∃ info c, at_ cs = Some (RFile info c).
Proof.
  intros Hn. pose proof (recorded_entry _ _ _ (na_row _ _ _ _ _ _ Hn)) as Ht. simpl in Ht.
  unfold type_at in Ht. destruct (at_ cs) as [[]|]; try done. eauto.
Qed.
Lemma link_entry m cs l : link_ok m cs l → ∃ info t, at_ cs = Some (RLink info t).
Proof.
  intros Hn. pose proof (recorded_entry _ _ _ (na_row _ _ _ _ _ _ Hn)) as Ht. simpl in Ht.
  unfold type_at in Ht. destruct (at_ cs) as [[]|]; try done. eauto.
Qed.

(** ** Attributes *)

Lemma node_at_entry m cs p b d k : node_at m cs p b d k → TypeName k ≠ "noentry" → is_Some (at_ cs).
Proof.
  intros Hn Ht. rewrite (recorded_entry _ _ _ (na_row _ _ _ _ _ _ Hn)) in Ht. unfold type_at in Ht.
  destruct (at_ cs); [by eexists|done].
Qed.

(** The remembered information after a fetch. *)
Lemma node_at_set_info m cs p b d k cr nd :
  node_at m cs p b d k → at_ cs = Some nd → m !! abs_path cs = Some cr → Inode cr = Inode k →
  row_le k cr → is_Some (RowFileInfo cr) → node_at m cs p b d (entry_set_info (rnode_info nd) k).
Proof.
  intros [Hg Hp Hb Hd [[Ht Hi He Hh Htg] _]] Hat Hcr Hino [] Hs. split; [done..|]. split.
  - split; try done. simpl. intros fi [= <-]. by exists nd.
  - exists cr. split; [done|]. split; simpl; try done. by intros _.
Qed.

Lemma fetch_info_served m pinned cs p b d k nd fi0 (w : W) :
  world_ok m pinned w → node_at m cs p b d k → at_ cs = Some nd →
  served m pinned
    (λ m' _ fi _, fi = Some (rnode_info nd) ∧ node_at m' cs p b d (entry_set_info (rnode_info nd) k))
    (λ _ _ fi, fi = fi0)
    ((metadata (PutFileInfo (Inode k) (rnode_info nd));; set_node (Some (rnode_info nd))) (fi0, w)).
Proof.
  intros Hw Hn Hat. pose proof Hn as [Hg _ _ _ [Hok (cr & Hcr & Hrow)]].
  rewrite <- (le_inode _ _ Hrow). eapply served_bind.
  { eapply served_metadata; [done| |done].
    by eapply (PutFileInfo_grows _ _ _ Htree). }
  intros m' u n w' Hle Hw' ((cr' & Hcr' & Hs) & -> & _). apply served_ret; [done|]. split; [done|].
  pose proof (node_at_mono _ _ _ _ _ _ _ Hle Hn) as Hn'.
  destruct (na_row _ _ _ _ _ _ Hn') as [_ (cr2 & Hcr2 & Hrow2)]. simplify_eq.
  eapply node_at_set_info; [done..|by apply le_inode|done|done].
Qed.

Lemma entry_set_info_id fi k : RowFileInfo k = Some fi → entry_set_info fi k = k.
Proof. destruct k; simpl. by intros ->. Qed.

Lemma commonAttr_served m pinned cs p b d k (w : W) :
  world_ok m pinned w → node_at m cs p b d k → TypeName k ≠ "noentry" →
  served m pinned
    (λ m' a fi _, ∃ nd fi', at_ cs = Some nd ∧ fi = Some fi' ∧
       node_at m' cs p b d (entry_set_info fi' k) ∧ a = attr_of (Inode k) (rnode_info nd))
    (λ _ _ fi, fi = RowFileInfo k)
    (commonAttr (Inode k) d b (RowFileInfo k, w)).
Proof.
  intros Hw Hn Hty. destruct (node_at_entry _ _ _ _ _ _ Hn Hty) as [nd Hat].
  pose proof Hn as [Hg Hp -> Hd [Hok (cr & Hcr & Hrow)]].
  unfold commonAttr. apply served_get.
  eapply served_bind with (P0 := λ m' _ fi _, ∃ fi', fi = Some fi' ∧
    node_at m' cs p (abs_path (rr ++ cs)) d (entry_set_info fi' k)).
  2:{ intros m' u n w' Hle Hw' (fi & -> & Hn'). apply served_get. apply served_ret; [done|].
      exists nd, fi. split_and!; [done..|].
      destruct (na_row _ _ _ _ _ _ Hn') as [[_ Hi _ _ _] _]. simpl in Hi.
      destruct (Hi fi eq_refl) as (nd' & Hnd' & Hs & Hm & Ht). simplify_eq.
      unfold attr_of. by rewrite Hs, Hm, Ht. }
  assert (∀ m' w', world_ok m' pinned w' → le m m' →
    served m' pinned (λ m' _ fi _, ∃ fi', fi = Some fi' ∧
        node_at m' cs p (abs_path (rr ++ cs)) d (entry_set_info fi' k))
      (λ _ _ fi, fi = RowFileInfo k)
      ((metadata (PutFileInfo (Inode k) (rnode_info nd));; set_node (Some (rnode_info nd)))
         (RowFileInfo k, w'))) as Hfetch.
  { intros m' w' Hw' Hle. eapply served_weaken; [eapply fetch_info_served; [done| |done]|..].
    - by eapply node_at_mono.
    - intros m2 u fi s' _ [-> Hn']. by eexists.
    - done. }
  destruct d; [|destruct (bool_decide (is_Some (RowFileInfo k))) eqn:Hc; simpl].
  - eapply served_account; [done|in_ops|in_ops|]. intros w1 Hw1 _. eapply served_bind.
    { eapply served_try with (E := λ _ _ fi, fi = RowFileInfo k). by eapply served_Lstat. }
    intros m1 [e|fi] n w2 Hle Hw2 Hx.
    + subst n. destruct (bool_decide (is_Some (RowFileInfo k))) eqn:Hc; [|by apply served_err].
      apply bool_decide_eq_true in Hc as [fi Hfi]. apply served_ret; [done|]. exists fi.
      split; [done|]. rewrite entry_set_info_id by done. by eapply node_at_mono.
    + destruct Hx as (-> & -> & nd' & Hnd' & ->). simplify_eq. by apply Hfetch.
  - apply bool_decide_eq_true in Hc as [fi Hfi].
    rewrite <- (go_ret_bind (AccountHit AttrFuseOp)).
    eapply served_account; [done|in_ops|in_ops|]. intros w1 Hw1 _. apply served_ret; [done|].
    exists fi. split; [done|]. by rewrite entry_set_info_id.
  - eapply served_account; [done|in_ops|in_ops|]. intros w1 Hw1 _. eapply served_bind.
    { by eapply served_Lstat. }
    intros m1 fi n w2 Hle Hw2 (-> & -> & nd' & Hnd' & ->). simplify_eq. by apply Hfetch.
Qed.

(** The attributes a request gets. *)
Definition attr_answer (cs : list string) (inode : Z) (a : Attr) : Prop :=
  ∃ nd, at_ cs = Some nd ∧ a = attr_of inode (rnode_info nd).

Lemma Dir_Attr_served m pinned cs d (w : W) :
  world_ok m pinned w → dir_ok m cs d →
  served m pinned (λ m' a d' _, dir_ok m' cs d' ∧ dir_inode d' = dir_inode d ∧
      attr_answer cs (dir_inode d) a)
    (λ m' _ d', dir_ok m' cs d') (Dir_Attr (d, w)).
Proof.
  intros Hw [Hn Hr]. unfold Dir_Attr. apply served_get.
  apply (served_zoom _ _ _ _ (λ d, dd_fileInfo (dir_data d))
    (λ fi d, set_dir_data (set_dd_fileInfo fi (dir_data d)) d)).
  eapply served_weaken; [by apply (commonAttr_served _ _ _ _ _ _ _ _ Hw Hn)|..].
  - intros m' a fi s Hle (nd & fi' & Hat & -> & Hn' & ->). split_and!; [|done|by exists nd].
    split; [exact Hn'|by eapply rows_ok_mono].
  - intros m' e fi Hle ->. apply (dir_ok_mono m m'); [done|]. destruct d as [p b i dr [fi rd es rws]]. done.
Qed.

Lemma File_Attr_served m pinned cs f (w : W) :
  world_ok m pinned w → file_ok m cs f →
  served m pinned (λ m' a f' _, file_ok m' cs f' ∧ file_inode f' = file_inode f ∧
      attr_answer cs (file_inode f) a)
    (λ m' _ f', file_ok m' cs f') (File_Attr (f, w)).
Proof.
  intros Hw Hn. unfold File_Attr. apply served_get.
  apply (served_zoom _ _ _ _ (λ f, fd_fileInfo (file_data f))
    (λ fi f, set_file_data (set_fd_fileInfo fi (file_data f)) f)).
  eapply served_weaken; [by apply (commonAttr_served _ _ _ _ _ _ _ _ Hw Hn)|..].
  - intros m' a fi s Hle (nd & fi' & Hat & -> & Hn' & ->). split_and!; [exact Hn'|done|by exists nd].
  - intros m' e fi Hle ->. apply (file_ok_mono m m'); [done|]. destruct f as [p b i dr [fi h]]. done.
Qed.

Lemma Symlink_Attr_served m pinned cs l (w : W) :
  world_ok m pinned w → link_ok m cs l →
  served m pinned (λ m' a l' _, link_ok m' cs l' ∧ link_inode l' = link_inode l ∧
      attr_answer cs (link_inode l) a)
    (λ m' _ l', link_ok m' cs l') (Symlink_Attr (l, w)).
Proof.
  intros Hw Hn. unfold Symlink_Attr. apply served_get.
  apply (served_zoom _ _ _ _ (λ l, ld_fileInfo (link_data l))
    (λ fi l, set_link_data (set_ld_fileInfo fi (link_data l)) l)).
  eapply served_weaken; [by apply (commonAttr_served _ _ _ _ _ _ _ _ Hw Hn)|..].
  - intros m' a fi s Hle (nd & fi' & Hat & -> & Hn' & ->). split_and!; [exact Hn'|done|by exists nd].
  - intros m' e fi Hle ->. apply (link_ok_mono m m'); [done|]. destruct l as [p b i dr [fi t]]. done.
Qed.

(** ** Symbolic links *)

Lemma Symlink_Readlink_served m pinned cs l (w : W) :
  world_ok m pinned w → link_ok m cs l →
  served m pinned (λ m' a l' _, link_ok m' cs l' ∧ ∃ info, at_ cs = Some (RLink info a))
    (λ m' _ l', link_ok m' cs l') (Symlink_Readlink (l, w)).
Proof.
  intros Hw Hn. pose proof Hn as [Hg Hp Hb Hd [Hok (cr & Hcr & Hrow)]].
  unfold Symlink_Readlink. apply served_get.
  eapply served_bind with (P0 := λ m' _ l' _, link_ok m' cs l' ∧ is_Some (target (link_data l'))).
  2:{ intros m' u l' w' Hle Hw' [Hn' [t Ht]]. apply served_get. rewrite Ht. apply served_ret; [done|].
      split; [done|]. destruct (na_row _ _ _ _ _ _ Hn') as [[_ _ _ _ Htg] _]. by apply Htg. }
  assert (∀ m' w' info t, world_ok m' pinned w' → le m m' → at_ cs = Some (RLink info t) →
    served m' pinned (λ m' _ l' _, link_ok m' cs l' ∧ is_Some (target (link_data l')))
      (λ m' _ l', link_ok m' cs l') (store_target l t (l, w'))) as Hstore.
  { intros m' w' info t Hw' Hle Hat. unfold store_target.
    apply (link_ok_mono _ _ _ _ Hle) in Hn. pose proof Hn as [_ _ _ _ [Hok' (cr' & Hcr' & Hrow')]].
    change (link_inode l) with (Inode (link_row l)). rewrite <- (le_inode _ _ Hrow').
    eapply served_bind.
    { eapply served_metadata; [done| |intros; by eapply link_ok_mono].
      by eapply (PutSymlinkTarget_grows _ _ _ Htree). }
    intros m2 u n w2 Hle2 Hw2 ((cr2 & Hcr2 & Hs) & -> & _). apply served_ret; [done|].
    split; [|by eexists]. apply (link_ok_mono _ _ _ _ Hle2) in Hn.
    destruct Hn as [? ? ? ? [[] (cr3 & Hcr3 & [])]]. simplify_eq. split; try done. split.
    + split; try done. simpl. intros t' [= <-]. by exists info.
    + eexists. split; [eassumption|]. split; simpl; try done. by intros _. }
  rewrite Hb. destruct (link_direct l) eqn:Hdir;
    [|destruct (bool_decide (is_Some (target (link_data l)))) eqn:Hc; simpl].
  - eapply served_account; [done|in_ops|in_ops|]. intros w1 Hw1 _. eapply served_bind.
    { eapply served_try with (E := λ _ _ l', l' = l). by eapply served_Readlink. }
    intros m1 [e|t] n w2 Hle Hw2 Hx; simpl in Hx.
    + subst n. apply (link_ok_mono _ _ _ _ Hle) in Hn.
      destruct (bool_decide (is_Some (target (link_data l)))) eqn:Hc; [|by apply served_err].
      apply bool_decide_eq_true in Hc. by apply served_ret.
    + destruct Hx as (-> & -> & info & Hat). by eapply Hstore.
  - apply bool_decide_eq_true in Hc.
    rewrite <- (go_ret_bind (AccountHit ReadlinkFuseOp)).
    eapply served_account; [done|in_ops|in_ops|]. intros w1 Hw1 _. by apply served_ret.
  - eapply served_account; [done|in_ops|in_ops|]. intros w1 Hw1 _. eapply served_bind.
    { by eapply served_Readlink. }
    intros m1 t n w2 Hle Hw2 (-> & -> & info & Hat). by eapply Hstore.
Qed.

(** ** Files *)

Lemma store_hash_served m pinned cs f info c (w : W) :
  world_ok m pinned w → file_ok m cs f → at_ cs = Some (RFile info c) →
  served m pinned (λ m' _ f' _, file_ok m' cs f' ∧ contentHash (file_data f') = Some (digest c))
    (λ m' _ f', file_ok m' cs f') (store_hash f (digest c) (f, w)).
Proof.
  intros Hw Hn Hat. pose proof Hn as [Hg _ _ _ [_ (cr & Hcr & Hrow)]]. unfold store_hash.
  change (file_inode f) with (Inode (file_row f)). rewrite <- (le_inode _ _ Hrow).
  eapply served_bind.
  { eapply served_metadata; [done| |intros; by eapply file_ok_mono].
    by eapply (PutContentHash_grows _ _ _ Htree). }
  intros m2 u n w2 Hle Hw2 ((cr2 & Hcr2 & Hs) & -> & _). apply served_ret; [done|].
  split; [|done]. apply (file_ok_mono _ _ _ _ Hle) in Hn.
  destruct Hn as [? ? ? ? [[] (cr3 & Hcr3 & [])]]. simplify_eq. split; try done. split.
  - split; try done. simpl. intros k [= <-]. by exists info, c.
  - eexists. split; [eassumption|]. split; simpl; try done. by intros _.
Qed.

(** A handle whose pinned descriptor delivers the contents [c], and one that has just been made. *)
Definition handle_on (h : openFile) (c : bytes) (pinned : gmap Z bytes) : Prop :=
  ∃ rd, of_reader h = Some rd ∧ tr_domain rd = LocalDomain ∧ pinned !! f_fd (tr_file rd) = Some c.
Definition handle_shows (h : openFile) (c : bytes) (pinned : gmap Z bytes) (s : OS) : Prop :=
  ∃ rd, of_reader h = Some rd ∧ tr_domain rd = LocalDomain ∧ os_shows P pinned s (tr_file rd) c.

Lemma File_Open_served m pinned cs f (w : W) :
  world_ok m pinned w → file_ok m cs f →
  served m pinned (λ m' h f' s, file_ok m' cs f' ∧ of_path h = abs_path cs ∧
      ∃ info c, at_ cs = Some (RFile info c) ∧ handle_shows h c pinned s)
    (λ m' _ f', file_ok m' cs f') (File_Open globals (f, w)).
Proof.
  intros Hw Hn. pose proof Hn as [Hg Hp Hb Hd _].
  destruct (file_entry _ _ _ Hn) as (info & c & Hat).
  unfold File_Open. apply served_get.
  eapply served_bind with (P0 := λ m' _ f' _, file_ok m' cs f' ∧ contentHash (file_data f') = Some (digest c)).
  2:{ intros m' u f' w' Hle Hw' [Hn' Hk]. apply served_get. rewrite Hk.
      eapply served_weaken; [by eapply served_open_contents with (E := λ _ _ n, n = f')|..].
      - intros m2 h f2 s Hle2 (-> & -> & Hpath & rd & Hrd & Hdom & Hshow).
        split; [done|]. split; [by rewrite Hpath, (na_path _ _ _ _ _ _ Hn')|]. exists info, c.
        split; [done|by exists rd].
      - intros m2 e f2 Hle2 ->. by eapply file_ok_mono. }
  rewrite Hb.
  assert (∀ m' w', world_ok m' pinned w' → le m m' →
    served m' pinned (λ m' _ f' _, file_ok m' cs f' ∧ contentHash (file_data f') = Some (digest c))
      (λ m' _ f', file_ok m' cs f') (store_hash f (digest c) (f, w'))) as Hstore.
  { intros m' w' Hw' Hle. eapply store_hash_served; [done|by eapply file_ok_mono|done]. }
  assert (∀ k, contentHash (file_data f) = Some k → k = digest c) as Hkey.
  { intros k Hk. destruct (na_row _ _ _ _ _ _ Hn) as [[_ _ _ Hh _] _].
    destruct (Hh k Hk) as (info' & c' & Hat' & ->). by simplify_eq. }
  destruct (file_direct f) eqn:Hdir;
    [|destruct (bool_decide (is_Some (contentHash (file_data f)))) eqn:Hc; simpl].
  - eapply served_account; [done|in_ops|in_ops|]. intros w1 Hw1 _. eapply served_bind.
    { eapply served_try with (E := λ _ _ f', f' = f). by eapply served_PutContents. }
    intros m1 [e|k] n w2 Hle Hw2 Hx; simpl in Hx.
    + subst n. apply (file_ok_mono _ _ _ _ Hle) in Hn.
      destruct (bool_decide (is_Some (contentHash (file_data f)))) eqn:Hc; [|by apply served_err].
      apply bool_decide_eq_true in Hc as [k Hk]. apply served_ret; [done|]. split; [done|].
      by rewrite <- (Hkey k Hk).
    + destruct Hx as (-> & -> & ->). by apply Hstore.
  - apply bool_decide_eq_true in Hc as [k Hk].
    rewrite <- (go_ret_bind (AccountHit OpenFuseOp)).
    eapply served_account; [done|in_ops|in_ops|]. intros w1 Hw1 _. apply served_ret; [done|].
    split; [done|]. by rewrite <- (Hkey k Hk).
  - eapply served_account; [done|in_ops|in_ops|]. intros w1 Hw1 _. eapply served_bind.
    { by eapply served_PutContents. }
    intros m1 k n w2 Hle Hw2 (-> & -> & ->). by apply Hstore.
Qed.

(** Reading from a handle. *)
Lemma openFile_Read_served m pinned h c size off (w : W) :
  world_ok m pinned w → handle_on h c pinned → 0 ≤ off →
  served m pinned (λ m' data h' _, h' = h ∧ data = take size (drop (Z.to_nat off) c))
    (λ m' _ h', h' = h) (openFile_Read size off (h, w)).
Proof.
  intros Hw (rd & Hrd & Hdom & Hfd) Hoff. unfold openFile_Read.
  eapply served_account; [done|in_ops|in_ops|]. intros w1 Hw1 _. apply served_get. rewrite Hrd.
  eapply served_bind with (P0 := λ m' '(data, err) h' _, h' = h ∧
    (err = None ∨ err = Some EEOF → data = take size (drop (Z.to_nat off) c))).
  2:{ intros m' [data err] h' w' Hle Hw' [-> Hdata].
      destruct err as [[]|]; try (by apply served_err); apply served_ret; auto. }
  by eapply served_ReadAt.
Qed.

(** ** Nodes from rows *)

Lemma newNodeForEntry_recorded m cs p b k name :
  p = abs_path cs → b = abs_path (rr ++ cs) → good_path cs → good_name name = true →
  recorded m (cs ++ [name]) k →
  match newNodeForEntry globals p b (Some k) name with
  | Ret nd => node_ok m (cs ++ [name]) nd
  | Err e => e = EFuseENOENT ∧ at_ (cs ++ [name]) = None
  | _ => False
  end.
Proof.
  intros -> -> Hg Hname Hk. pose proof (to_rr _ _ _ Htree) as Hrr.
  unfold newNodeForEntry. rewrite !Join_abs_path by (rewrite ?Forall_app; auto).
  pose proof (recorded_entry _ _ _ Hk) as Hty. unfold type_at in Hty.
  assert (good_path (cs ++ [name])) as Hg' by (by apply good_path_snoc).
  destruct Hk as [[Ht Hi He Hh Htg] (cr & Hcr & [])].
  destruct (at_ (cs ++ [name])) as [[]|] eqn:Hat; simpl in Hty; rewrite Hty; simpl; try done.
  - split; simpl; [done|done|by rewrite app_assoc|done|].
    split; [split; simpl; rewrite ?Hat; done|]. exists cr. split; [done|]. split; simpl; try done; congruence || by intros [? ?].
  - split; [|intros n o; simpl; by rewrite lookup_empty]. split; simpl; [done|done|by rewrite app_assoc|done|].
    split; [split; simpl; rewrite ?Hat; done|]. exists cr. split; [done|]. split; simpl; try done; congruence || by intros [? ?].
  - split; simpl; [done|done|by rewrite app_assoc|done|].
    split; [split; simpl; rewrite ?Hat; done|]. exists cr. split; [done|]. split; simpl; try done; congruence || by intros [? ?].
Qed.

(** ** Lookups *)

(** A lookup found the child's node, or there is no child. *)
Lemma remember_served m pinned cs d name k (w : W) :
  world_ok m pinned w → dir_ok m cs d → good_name name = true → recorded m (cs ++ [name]) k →
  served m pinned (λ m' nd d' _, dir_ok m' cs d' ∧ node_ok m' (cs ++ [name]) nd)
    (λ m' e d', dir_ok m' cs d' ∧ (e = EFuseENOENT → at_ (cs ++ [name]) = None))
    (remember globals name (Some k) (d, w)).
Proof.
  intros Hw [Hn Hr] Hname Hk. unfold remember.
  set (d' := set_dir_data (set_row name (Some k) (dir_data d)) d).
  assert (dir_ok m cs d') as Hd'.
  { split; [exact Hn|]. intros n o. simpl. rewrite lookup_insert. case_decide; [subst n|by apply Hr].
    intros [= <-]. eauto. }
  pose proof (newNodeForEntry_recorded m cs (dir_path d) (dir_belowPath d) k name) as Hnew.
  destruct Hn as [Hg Hp Hb _ _].
  specialize (Hnew Hp Hb Hg Hname Hk).
  unfold mbind, go_mbind, go_bind, on_node, get_node, go_modify, go_zoom, go_lift. simpl.
  destruct (newNodeForEntry globals (dir_path d) (dir_belowPath d) (Some k) name) as [nd|e| | |];
    try done.
  - by apply served_ret.
  - destruct Hnew as [-> Hat]. apply served_err; [done|]. by split.
Qed.

(** The row of a path, as [GetFullEntry] returns it. *)
Lemma GetFullEntry_served {N} m pinned cs (E : map_t → error → N → Prop) (n : N) (w : W) :
  world_ok m pinned w → good_path cs → (∀ m' code, le m m' → E m' (ESqlite code) n) →
  served m pinned (λ m' o n' _, n' = n ∧ o = m' !! abs_path cs ∧
      ∀ cr, o = Some cr → recorded m' cs cr) E
    (metadata (GetFullEntry (abs_path cs)) (n, w)).
Proof.
  intros Hw Hcs HE.
  eapply served_weaken; [eapply served_metadata; [done|by apply GetFullEntry_grows|done]|..|done].
  intros m' o n' s Hle ([-> Hok] & -> & _). split_and!; [done..|]. intros cr Hcr.
  split; [by apply Hok|]. by exists cr.
Qed.

(** Reloading a row that is there. *)
Lemma reload_served m pinned cs d name (w : W) :
  world_ok m pinned w → dir_ok m cs d → good_name name = true →
  is_Some (m !! abs_path (cs ++ [name])) →
  served m pinned (λ m' nd d' _, dir_ok m' cs d' ∧ node_ok m' (cs ++ [name]) nd)
    (λ m' e d', dir_ok m' cs d' ∧ (e = EFuseENOENT → at_ (cs ++ [name]) = None))
    ((cachedRow ← metadata (GetFullEntry (abs_path (cs ++ [name])));
      remember globals name cachedRow) (d, w)).
Proof.
  intros Hw Hd Hname [cr Hcr]. assert (good_path (cs ++ [name])) as Hg.
  { apply good_path_snoc. split; [apply Hd|done]. }
  eapply served_bind.
  { apply GetFullEntry_served; [done|done|]. intros m' code Hle. split; [by eapply dir_ok_mono|done]. }
  intros m' o n w' Hle Hw' (-> & -> & Hrec). destruct (Hle _ _ Hcr) as (cr' & Hcr' & _).
  rewrite Hcr' in Hrec |- *. eapply remember_served; [done|by eapply dir_ok_mono|done|by apply Hrec].
Qed.

(** A put of what the tree has at the path. *)
Lemma put_served {N A} m pinned cs d (method : GoM (Conn DB) A) (w : W) :
  world_ok m pinned w → dir_ok m cs d → grows tree rr m method (λ _ m', N m') →
  served m pinned (λ m' _ d' _, d' = d ∧ dir_ok m' cs d ∧ N m')
    (λ m' e d', dir_ok m' cs d' ∧ e ≠ EFuseENOENT) (metadata method (d, w)).
Proof.
  intros Hw Hd Hg. eapply served_weaken with (E := λ m' e d', dir_ok m' cs d' ∧ e ≠ EFuseENOENT);
    [eapply served_metadata; [done|exact Hg|]|..|done].
  - intros m' code Hle. split; [by eapply dir_ok_mono|done].
  - intros m' a d' s Hle (Hq & -> & _). split_and!; [done|by eapply dir_ok_mono|done].
Qed.

Lemma mode_at cs nd : good_path cs → at_ cs = Some nd → mode_type (Mode (rnode_info nd)) = rnode_type nd.
Proof. intros Hcs Hat. apply (to_node _ _ _ Htree _ _ Hcs Hat). Qed.

(** What both ways of asking the remote for a child do with its answer. *)
Lemma ask_served m pinned cs d name (w : W) :
  world_ok m pinned w → dir_ok m cs d → good_path (cs ++ [name]) →
  served m pinned
    (λ m' r d' _, m' = m ∧ d' = d ∧
       match r with
       | inr fi => ∃ nd, at_ (cs ++ [name]) = Some nd ∧ fi = rnode_info nd
       | inl e => e ≠ EFuseENOENT ∧ (IsNotExist e = true → at_ (cs ++ [name]) = None)
       end)
    (λ m' e d', dir_ok m' cs d' ∧ (e = EFuseENOENT → at_ (cs ++ [name]) = None))
    (go_try (on_world (Lstat RemoteDomain (abs_path (rr ++ cs ++ [name])))) (d, w)).
Proof.
  intros Hw Hd Hg. eapply served_weaken;
    [eapply served_try with (E' := λ _ _ _, False)
       (E := λ m' e d', d' = d ∧ m' = m ∧ e ≠ EFuseENOENT ∧ (IsNotExist e = true → at_ (cs ++ [name]) = None));
     eapply served_Lstat; [done|done|]| |done].
  - intros e He1 He2. by repeat split.
  - intros m' [e|fi] d' s _ Hx; naive_solver.
Qed.

(** How both ways record an absence. *)
Lemma absent_served {A} m pinned cs d name (method : GoM (Conn DB) A) (w : W) :
  world_ok m pinned w → dir_ok m cs d → at_ (cs ++ [name]) = None →
  grows tree rr m method (λ _ m', is_Some (m' !! abs_path (cs ++ [name]))) →
  served m pinned (λ m' nd d' _, dir_ok m' cs d' ∧ node_ok m' (cs ++ [name]) nd)
    (λ m' e d', dir_ok m' cs d' ∧ (e = EFuseENOENT → at_ (cs ++ [name]) = None))
    ((_ ← metadata method; go_err EFuseENOENT) (d, w)).
Proof.
  intros Hw Hd Hat Hgr. eapply served_bind.
  { eapply served_weaken; [eapply put_served; [done|done|exact Hgr]|done|]. intros m' e d' _ [Hd' Hne]. by split. }
  intros m2 u d' w3 Hle2 Hw3 (-> & Hd' & _). by apply served_err.
Qed.

(** How both ways record an entry and make its node. *)
Lemma present_served {A} m pinned cs d name (method : GoM (Conn DB) A) (w : W) :
  world_ok m pinned w → dir_ok m cs d → good_name name = true →
  grows tree rr m method (λ _ m', is_Some (m' !! abs_path (cs ++ [name]))) →
  served m pinned (λ m' nd d' _, dir_ok m' cs d' ∧ node_ok m' (cs ++ [name]) nd)
    (λ m' e d', dir_ok m' cs d' ∧ (e = EFuseENOENT → at_ (cs ++ [name]) = None))
    ((_ ← metadata method; cachedRow ← metadata (GetFullEntry (abs_path (cs ++ [name])));
      remember globals name cachedRow) (d, w)).
Proof.
  intros Hw Hd Hname Hgr. eapply served_bind.
  { eapply served_weaken; [eapply put_served; [done|done|exact Hgr]|done|]. intros m' e d' _ [Hd' Hne]. by split. }
  intros m2 u d' w3 Hle2 Hw3 (-> & Hd' & Hs). by apply reload_served.
Qed.

Lemma Lookup_served m pinned cs d name (w : W) :
  world_ok m pinned w → dir_ok m cs d → good_name name = true →
  served m pinned (λ m' nd d' _, dir_ok m' cs d' ∧ node_ok m' (cs ++ [name]) nd)
    (λ m' e d', dir_ok m' cs d' ∧ (e = EFuseENOENT → at_ (cs ++ [name]) = None))
    (Lookup globals name (d, w)).
Proof.
  intros Hw Hd Hname. pose proof Hd as [[Hg Hp Hb _ _] Hrows].
  assert (good_path (cs ++ [name])) as Hg' by (by apply good_path_snoc).
  pose proof (to_rr _ _ _ Htree) as Hrr.
  unfold Lookup. apply served_get.
  destruct (if negb (dir_direct d) then rows (dir_data d) !! name else None) as [o|] eqn:Hfast.
  { destruct (negb (dir_direct d)); [|done]. destruct (Hrows _ _ Hfast) as (_ & k & -> & Hk).
    pose proof (newNodeForEntry_recorded m cs _ _ k name Hp Hb Hg Hname Hk) as Hnew. unfold go_lift.
    destruct (newNodeForEntry _ _ _ _ _); try done; [by apply served_ret|].
    destruct Hnew as [-> Hat]. by apply served_err. }
  clear Hfast. rewrite Hp, Hb, !Join_abs_path by (rewrite ?Forall_app; auto). rewrite <- app_assoc.
  eapply served_bind.
  { apply GetFullEntry_served; [done|done|]. intros m' code Hle. split; [by eapply dir_ok_mono|done]. }
  intros m1 o n w1 Hle1 Hw1 (-> & -> & Hrec). apply (dir_ok_mono _ _ _ _ Hle1) in Hd. simpl.
  destruct (dir_direct d); [|destruct (bool_decide (is_Some _)) eqn:Hc]; simpl;
    (eapply served_account; [done|in_ops|in_ops|]; intros w2 Hw2 _).
  - eapply served_bind; [by apply ask_served|].
    intros m2 [e|fi] d' w3 Hle2 Hw3 (-> & -> & Hx).
    + destruct (bool_decide (is_Some _)) eqn:Hc;
        [apply bool_decide_eq_true in Hc; by apply reload_served|]. destruct Hx as [Hne Hnx].
      destruct (IsNotExist e); [|by apply served_err].
      apply absent_served; [done..|by apply Hnx|by eapply PutNewOrUpdateNoEntry_grows; eauto].
    + destruct Hx as (nd & Hat & ->). rewrite (mode_at _ _ Hg' Hat).
      apply present_served; [done..|]. by eapply PutNewOrUpdateWithType_grows.
  - apply bool_decide_eq_true in Hc as [k Hk]. rewrite Hk in Hrec |- *.
    eapply remember_served; [done|done|done|by apply Hrec].
  - eapply served_bind; [by apply ask_served|].
    intros m2 [e|fi] d' w3 Hle2 Hw3 (-> & -> & Hx).
    + destruct Hx as [Hne Hnx]. destruct (IsNotExist e); simpl; [|by apply served_err].
      apply absent_served; [done..|by apply Hnx|by eapply PutNewNoEntry_grows; eauto].
    + destruct Hx as (nd & Hat & ->). rewrite (mode_at _ _ Hg' Hat).
      apply present_served; [done..|]. by eapply PutNewWithType_grows.
Qed.

(** ** Listings *)

(** The answer to a listing: the names of the tree's listing, each with the type of its entry
    and the inode of its row. *)
Definition listing_answer (m : map_t) (cs : list string) (des : list Dirent) : Prop :=
  ∃ info l, at_ cs = Some (RDir info l) ∧ Permutation (de_Name <$> des) (Name <$> l) ∧
    ∀ d, d ∈ des → ∃ nd cr, at_ (cs ++ [de_Name d]) = Some nd ∧
      m !! abs_path (cs ++ [de_Name d]) = Some cr ∧ de_Inode d = Inode cr ∧
      dirent_type (rnode_type nd) = Ret (de_Type d).

Lemma dirent_type_rnode nd : ∃ t, dirent_type (rnode_type nd) = Ret t.
Proof. destruct nd; eexists; reflexivity. Qed.

Lemma entries_ok_dirents m cs es :
  good_path cs → entries_ok tree rr m cs es →
  ∃ des, make_dirents (map_to_list es) = Ret des ∧ listing_answer m cs des.
Proof.
  intros Hcs (info & l & Hat & Hdom & Hes).
  destruct (to_listing _ _ _ Htree _ _ _ Hcs Hat) as [[Hnd _] _].
  destruct (make_dirents_ok (map_to_list es)) as (des & Hdes & HF).
  { apply Forall_forall. intros [n d] Hin%elem_of_map_to_list.
    destruct (Hes _ _ Hin) as (nd & cr & _ & _ & ->). split; [done|]. apply dirent_type_rnode. }
  exists des. split; [done|]. exists info, l. split_and!; [done|..].
  - assert (de_Name <$> des = (map_to_list es).*1) as ->.
    { clear -HF. induction HF as [|x d l des (Hn & _) _ IH]; [done|]. rewrite !fmap_cons. by f_equal. }
    apply NoDup_Permutation; [apply NoDup_fst_map_to_list|done|].
    intros n. rewrite <- Hdom, list_elem_of_fmap. split.
    + intros ([n' d] & -> & Hin%elem_of_map_to_list). by eexists.
    + intros [d Hd]. exists (n, d). by rewrite elem_of_map_to_list.
  - intros d Hd. apply list_elem_of_lookup in Hd as [i Hi].
    destruct (Forall2_lookup_r _ _ _ _ _ HF Hi) as ([n e] & Hx & Hn & Hino & Hty).
    apply list_elem_of_lookup_2, elem_of_map_to_list in Hx. simpl in *.
    destruct (Hes _ _ Hx) as (nd & cr & Hat' & Hcr & ->). rewrite Hn. by exists nd, cr.
Qed.

Lemma list_dirents_served m pinned h cs d es (w : W) :
  holding m pinned h w → dir_ok m cs d → dirEntries (dir_data d) = Some es →
  served_with m pinned h (λ m' des d' _, dir_ok m' cs d' ∧ listing_answer m' cs des)
    (λ m' _ d', dir_ok m' cs d') (list_dirents (d, w)).
Proof.
  intros Hw Hd Hes. unfold list_dirents. apply served_get. rewrite Hes. simpl.
  pose proof Hd as [[Hg _ _ _ [[_ _ He _ _] _]] _].
  destruct (entries_ok_dirents m cs es Hg (He _ Hes)) as (des & Hdes & Hans).
  unfold go_lift. rewrite Hdes. by apply served_ret.
Qed.

Lemma load_listing_served m pinned h cs d cr (w : W) :
  holding m pinned h w → dir_ok m cs d → m !! abs_path cs = Some cr → is_Some (DirEntries cr) →
  served_with m pinned h (λ m' des d' _, dir_ok m' cs d' ∧ listing_answer m' cs des)
    (λ m' _ d', dir_ok m' cs d') ((load_listing d;; list_dirents) (d, w)).
Proof.
  intros Hw Hd Hcr Hs. pose proof Hd as [[Hg Hp Hb Hdr [Hok (cr' & Hcr' & Hrow)]] Hr]. simplify_eq.
  pose proof (GetDirEntries_grows tree rr (DB := DB) m cs cr Hg Hcr) as Hgrow.
  rewrite (le_inode _ _ Hrow) in Hgrow.
  eapply served_bind with (P0 := λ m' _ d' _, dir_ok m' cs d' ∧ is_Some (dirEntries (dir_data d'))).
  - unfold load_listing. eapply served_bind.
    { eapply served_metadata; [done|exact Hgrow|intros; by eapply dir_ok_mono]. }
    intros m1 es' d' w1 Hle Hw1 ((cr1 & Hcr1 & Hok1 & ->) & -> & _). apply served_ret; [done|].
    split; [|by eexists].
    destruct (Hle _ _ Hcr) as (cr2 & Hcr2 & Hrow2). assert (cr2 = cr1) as -> by congruence.
    destruct (le_entries _ _ Hrow2 Hs) as [es Hes]. rewrite Hes. simpl.
    pose proof (ro_entries _ _ _ _ _ Hok1 _ Hes) as Hent.
    apply (dir_ok_mono _ _ _ _ Hle) in Hd. destruct Hd as [[? ? ? ? [[] (cr3 & Hcr3 & [])]] Hr'].
    split; [|exact Hr']. split; try done. assert (cr3 = cr1) as -> by congruence. split.
    + split; try done. simpl. intros es' [= <-]. exact Hent.
    + exists cr1. split; [done|]. split; simpl; try done. intros _. by exists es.
  - intros m1 u d' w1 Hle Hw1 [Hd' [es Hes]]. by eapply list_dirents_served.
Qed.

(** Fetching the listing with the directory open. *)
Lemma fetch_listing_served m pinned cs d f (w : W) :
  holding m pinned (JustOpened (tr_file f) cs) w → dir_ok m cs d → tr_domain f ∈ allDomains →
  served m pinned (λ m' des d' _, dir_ok m' cs d' ∧ listing_answer m' cs des)
    (λ m' _ d', dir_ok m' cs d')
    (go_defer (on_world (tr_Close f)) (store_listing d f;; load_listing d;; list_dirents) (d, w)).
Proof.
  intros Hw Hd Hdom. pose proof Hd as [[Hg Hp Hb _ [_ (cr & Hcr & Hrow)]] _].
  destruct (dir_entry _ _ _ Hd) as (info & l0 & Hat).
  apply (served_defer_close globals tree rr P pinned m
    (λ m' des d', dir_ok m' cs d' ∧ listing_answer m' cs des)); [done|].
  unfold store_listing, mbind, go_mbind. rewrite !go_bind_assoc.
  eapply served_Readdir; [exact Hw|exact Hg|done|exact Hat|by intros|].
  intros l w2 Hperm Hw2. rewrite Hp.
  eapply served_bind with (P0 := λ m' _ d' _, d' = d ∧ ∃ cr, m' !! abs_path cs = Some cr ∧
    is_Some (DirEntries cr)).
  - replace (dir_inode d) with (Inode cr) by (rewrite (le_inode _ _ Hrow); done).
    eapply served_weaken with (E := λ m' _ d', dir_ok m' cs d');
      [eapply served_metadata; [done|by eapply PutDirEntries_grows|]|..].
    + intros m3 code Hle3. by eapply dir_ok_mono.
    + intros m3 u d' s Hle3 (Hx & -> & _). by split.
    + done.
  - intros m2 u d' w3 Hle2 Hw3 (-> & cr2 & Hcr2 & Hs).
    eapply load_listing_served; [done|by eapply dir_ok_mono|done|done].
Qed.

Lemma ReadDirAll_served m pinned cs d (w : W) :
  world_ok m pinned w → dir_ok m cs d →
  served m pinned (λ m' des d' _, dir_ok m' cs d' ∧ listing_answer m' cs des)
    (λ m' _ d', dir_ok m' cs d') (ReadDirAll (d, w)).
Proof.
  intros Hw Hd. pose proof Hd as [[Hg Hp Hb _ [_ (cr & Hcr & Hrow)]] _].
  unfold ReadDirAll. apply served_get. rewrite Hb.
  destruct (dir_direct d) eqn:Hdir;
    [|destruct (bool_decide (is_Some (dirEntries (dir_data d)))) eqn:Hc; simpl].
  - eapply served_account; [done|in_ops|in_ops|]. intros w1 Hw1 _.
    eapply served_Open; [done|exact Hg|..].
    + intros f w2 Hdom Hw2. eapply fetch_listing_served; [done|done|rewrite Hdom; in_ops].
    + intros e w2 Hw2.
      destruct (bool_decide (is_Some (dirEntries (dir_data d)))) eqn:Hc; [|by apply served_err].
      apply bool_decide_eq_true in Hc as Hs.
      eapply load_listing_served; [done|done|done|by apply (le_entries _ _ Hrow)].
  - apply bool_decide_eq_true in Hc as [es Hes].
    eapply served_account; [done|in_ops|in_ops|]. intros w1 Hw1 _. by eapply list_dirents_served.
  - eapply served_account; [done|in_ops|in_ops|]. intros w1 Hw1 _.
    unfold mbind, go_mbind. rewrite try_bind. eapply served_Open; [done|exact Hg|..].
    + intros f w2 Hdom Hw2. eapply fetch_listing_served; [done|done|rewrite Hdom; in_ops].
    + intros e w2 Hw2. by apply served_err.
Qed.

(** ** The root node *)

Lemma newNode_root m cr info l :
  at_ [] = Some (RDir info l) → recorded m [] cr →
  ∃ d, newNodeForEntry globals "/" (abs_path rr) (Some cr) "/" = Ret (NodeDir d) ∧ dir_ok m [] d.
Proof.
  intros Hat Hk. pose proof (to_rr _ _ _ Htree) as Hrr.
  pose proof (recorded_entry _ _ _ Hk) as Hty. unfold type_at in Hty. rewrite Hat in Hty.
  unfold newNodeForEntry. change (Join ["/"; "/"]) with (abs_path []).
  rewrite Join_remote_root by done. simpl in Hty. rewrite Hty. simpl. eexists. split; [done|].
  split; [|intros n o; simpl; by rewrite lookup_empty].
  split; simpl; [constructor|done|by rewrite app_nil_r|done|].
  destruct Hk as [[Ht Hi He Hh Htg] (cr' & Hcr & [])].
  split; [split; simpl; try done; by rewrite Hat|]. exists cr'. split; [done|].
  split; simpl; try done; congruence || by intros [? ?].
Qed.

Lemma rootNode_served m pinned (w : W) :
  world_ok m pinned w →
  served m pinned (λ m' nd _ _, ∃ d, nd = NodeDir d ∧ dir_ok m' [] d) (λ _ _ _, True)
    (on_world (rootNode globals (abs_path rr)) ((), w)).
Proof.
  intros Hw.
  destruct (to_root _ _ _ Htree) as (info & l & Hat).
  unfold rootNode, putAndGetRow, mbind, go_mbind. rewrite on_world_bind.
  eapply served_bind with (P0 := λ m' o _ _, ∃ cr, o = Some cr ∧ recorded m' [] cr).
  2:{ intros m' o [] w' Hle Hw' (cr & -> & Hk).
      destruct (newNode_root _ _ _ _ Hat Hk) as (d & Hd & Hok).
      unfold on_world, go_lift, go_zoom. rewrite Hd. apply served_ret; [by destruct Hw'|by exists d]. }
  rewrite on_world_bind. change "/" with (abs_path []).
  eapply served_bind; [by apply (GetFullEntry_served m pinned [] (λ _ _ _, True) () w)|].
  intros m1 o n w1 Hle1 Hw1 (-> & -> & _). rewrite on_world_bind.
  eapply served_bind with (P0 := λ m' _ _ _, is_Some (m' !! abs_path [])).
  - change ModeDir with (rnode_type (RDir info l)).
    destruct (negb (cachedPathRegex globals (abs_path []))).
    + eapply served_weaken; [eapply served_metadata; [done| |]|..].
      * by apply (PutNewOrUpdateWithType_grows tree rr m1 [] (RDir info l)).
      * by instantiate (1 := λ _ _ _, True).
      * by intros m2 a n s _ (Hs & _).
      * done.
    + destruct (bool_decide (is_Some (m1 !! abs_path []))) eqn:Hc; simpl.
      * apply bool_decide_eq_true in Hc. by apply (served_ret globals tree rr P pinned m1).
      * rewrite on_world_bind. eapply served_bind.
        { eapply served_metadata; [done| |].
          - by apply (PutNewWithType_grows tree rr m1 [] (RDir info l)).
          - done. }
        intros m2 a n w2 Hle2 Hw2 (Hs & _). by apply (served_ret globals tree rr P pinned m2).
  - intros m2 u n w2 Hle2 Hw2 [cr Hcr].
    eapply served_weaken; [by apply (GetFullEntry_served m2 pinned [] (λ _ _ _, True) n w2)|..|done].
    intros m3 o n' s Hle3 (-> & -> & Hrec). destruct (Hle3 _ _ Hcr) as (cr' & Hcr' & _).
    exists cr'. auto.
Qed.
End nodes.
