(* ===== verification/Session.v ===== *)
(** The file system as a whole: the nodes and handles the kernel knows, the requests on them and
    the remounts in between, as a transition system; and the abstract file system it refines.

    bazil.org/fuse, which is not part of the repository, numbers the nodes and handles that the
    handlers return and dispatches each request to its node; [serve] does the same, one request
    after the other.  [Spec] is the abstract file system: it knows only which path a node stands
    for, what contents a handle is on, and which inode number a path has. *)
From S2P Require Import Prelude GoStrings GoPath Stats Types DirEntries Sql Sqlite Kernel.
From S2P Require Import Syscalls Metadata MetadataSpec MetadataProps WorldPost Md5 Content.
From S2P Require Import ContentProps Fs FsLogic FsProps Remote Coherence Served NodeServed.
#[local] Open Scope Z_scope.

#[local] Arguments Join : simpl never.

(** * Requests *)

Inductive Request : Type :=
  | ReqAttr (i : nat) | ReqLookup (i : nat) (name : string) | ReqReadDir (i : nat)
  | ReqOpen (i : nat) | ReqReadlink (i : nat)
  | ReqRead (h : nat) (size : nat) (offset : Z) | ReqRelease (h : nat) | ReqForget (i : nat).

Inductive Reply : Type :=
  | RepAttr (a : Attr) | RepNode (id : nat) | RepDirents (des : list Dirent) | RepHandle (h : nat)
  | RepTarget (t : string) | RepData (data : bytes) | RepDone.

(** The requests the kernel sends: names of single components and offsets that are not
    negative. *)
Definition request_ok (r : Request) : Prop :=
  match r with
  | ReqLookup _ name => good_name name = true
  | ReqRead _ _ offset => 0 ≤ offset
  | _ => True
  end.

Definition unsupported : error := ENew "request not supported by the node".

Record Session (OS DB : Type) : Type := {
  ss_world : World OS DB;
  ss_nodes : gmap nat Node;
  ss_files : gmap nat openFile;
  ss_next : nat;               (* the next identifier to hand out *)
}.
Arguments ss_world {OS DB} s.
Arguments ss_nodes {OS DB} s.
Arguments ss_files {OS DB} s.
Arguments ss_next {OS DB} s.
Arguments Build_Session {OS DB} _ _ _ _.

Section session.
Context {OS DB : Type} `{Kernel OS, SqlEngine DB, Fuel}.
Context (globals : globalState) (remotedir : string).
Abbreviation W := (World OS DB).
Abbreviation S := (Session OS DB).

Definition set_world (w : W) (s : S) : S :=
  {| ss_world := w; ss_nodes := ss_nodes s; ss_files := ss_files s; ss_next := ss_next s |}.
Definition set_nodes (ns : gmap nat Node) (s : S) : S :=
  {| ss_world := ss_world s; ss_nodes := ns; ss_files := ss_files s; ss_next := ss_next s |}.
Definition set_files (fs : gmap nat openFile) (s : S) : S :=
  {| ss_world := ss_world s; ss_nodes := ss_nodes s; ss_files := fs; ss_next := ss_next s |}.

(** A handler of the node [i].  A handler that never returns keeps the node's lock: no later
    request on the node is answered. *)
Definition on_node_at {N A} (i : nat) (select : Node → option N) (wrap : N → Node)
    (m : GoM (N * W) A) : GoM S A := λ s,
  match n ← ss_nodes s !! i; select n with
  | None => (Err unsupported, s)
  | Some n =>
      let '(o, (n', w')) := m (n, ss_world s) in
      let nodes := match o with
                   | OutOfFuel => delete i (ss_nodes s)
                   | _ => <[i := wrap n']> (ss_nodes s)
                   end in
      (o, set_nodes nodes (set_world w' s))
  end.

Definition node_dir (n : Node) : option Dir := match n with NodeDir d => Some d | _ => None end.
Definition node_file (n : Node) : option FileNode := match n with NodeFile f => Some f | _ => None end.
Definition node_link (n : Node) : option Symlink := match n with NodeSymlink l => Some l | _ => None end.

Definition on_dir {A} i (m : GoM (Dir * W) A) : GoM S A := on_node_at i node_dir NodeDir m.
Definition on_file {A} i (m : GoM (FileNode * W) A) : GoM S A := on_node_at i node_file NodeFile m.
Definition on_link {A} i (m : GoM (Symlink * W) A) : GoM S A := on_node_at i node_link NodeSymlink m.

(** A handler of the handle [h]. *)
Definition on_handle {A} (h : nat) (m : GoM (openFile * W) A) : GoM S A := λ s,
  match ss_files s !! h with
  | None => (Err unsupported, s)
  | Some f =>
      let '(o, (f', w')) := m (f, ss_world s) in
      (o, set_files (<[h := f']> (ss_files s)) (set_world w' s))
  end.

Definition add_node (n : Node) : GoM S nat := λ s,
  (Ret (ss_next s), {| ss_world := ss_world s; ss_nodes := <[ss_next s := n]> (ss_nodes s);
                       ss_files := ss_files s; ss_next := ss_next s + 1 |}).
Definition add_file (f : openFile) : GoM S nat := λ s,
  (Ret (ss_next s), {| ss_world := ss_world s; ss_nodes := ss_nodes s;
                       ss_files := <[ss_next s := f]> (ss_files s); ss_next := ss_next s + 1 |}).

Definition serve_attr (i : nat) : GoM S Attr := λ s,
  match ss_nodes s !! i with
  | Some (NodeDir _) => on_dir i Dir_Attr s
  | Some (NodeFile _) => on_file i File_Attr s
  | Some (NodeSymlink _) => on_link i Symlink_Attr s
  | None => (Err unsupported, s)
  end.

Definition serve (r : Request) : GoM S Reply :=
  match r with
  | ReqAttr i => a ← serve_attr i; mret (RepAttr a)
  | ReqLookup i name => n ← on_dir i (Lookup globals name); id ← add_node n; mret (RepNode id)
  | ReqReadDir i => des ← on_dir i ReadDirAll; mret (RepDirents des)
  | ReqOpen i => f ← on_file i (File_Open globals); h ← add_file f; mret (RepHandle h)
  | ReqReadlink i => t ← on_link i Symlink_Readlink; mret (RepTarget t)
  | ReqRead h size offset => data ← on_handle h (openFile_Read size offset); mret (RepData data)
  | ReqRelease h =>
      (* the handle is gone whatever its release returns *)
      r ← go_try (on_handle h openFile_Release);
      go_modify (λ s, set_files (delete h (ss_files s)) s);;
      match r with inl e => go_err e | inr _ => mret RepDone end
  | ReqForget i => go_modify (λ s, set_nodes (delete i (ss_nodes s)) s);; mret RepDone
  end.

(** A process that mounts the file system: new statistics, the root node, and whatever the disk
    holds.  The open descriptors of an earlier process are gone with it. *)
Definition mount (w : W) : outcome S :=
  let '(o, w') := rootNode globals remotedir (set_w_stats NewStats w) in
  root ← o;
  Ret {| ss_world := w'; ss_nodes := {[0%nat := root]}; ss_files := ∅; ss_next := 1 |}.

(** What happens to the file system: requests and remounts. *)
Inductive event : Type := EvServe (r : Request) (o : outcome Reply) | EvMount.

Inductive session_step : S → event → S → Prop :=
  | step_serve s r o s' : request_ok r → serve r s = (o, s') → session_step s (EvServe r o) s'
  | step_mount s s' : mount (ss_world s) = Ret s' → session_step s EvMount s'.

Inductive session_run : S → list event → S → Prop :=
  | run_nil s : session_run s [] s
  | run_snoc s tr s1 ev s2 :
      session_run s tr s1 → session_step s1 ev s2 → session_run s (tr ++ [ev]) s2.
End session.

(** * The abstract file system *)

Record Spec : Type := {
  sp_nodes : gmap nat (list string);   (* the path of a node *)
  sp_handles : gmap nat bytes;         (* the contents behind a handle *)
  sp_inodes : gmap string Z;           (* the inode numbers given out *)
}.

Section spec.
Context (tree : string → option rnode) (rr : list string).
Abbreviation at_ := (tree_at tree rr).

(** Numbers are given out once and for all, and never twice. *)
Definition inodes_grow (Σ Σ' : Spec) : Prop :=
  sp_inodes Σ ⊆ sp_inodes Σ' ∧
  (∀ p q i, sp_inodes Σ' !! p = Some i → sp_inodes Σ' !! q = Some i → p = q) ∧
  (∀ p i, sp_inodes Σ' !! p = Some i → 1 ≤ i ≤ MaxInt64).

(** The answers of a file system with the tree [tree]. *)
Inductive answer (Σ Σ' : Spec) : Request → outcome Reply → Prop :=
  | ans_attr i cs nd ino :
      sp_nodes Σ !! i = Some cs → at_ cs = Some nd → sp_inodes Σ' !! abs_path cs = Some ino →
      sp_nodes Σ' = sp_nodes Σ → sp_handles Σ' = sp_handles Σ →
      answer Σ Σ' (ReqAttr i) (Ret (RepAttr (attr_of ino (rnode_info nd))))
  | ans_lookup i name cs nd id :
      sp_nodes Σ !! i = Some cs → at_ (cs ++ [name]) = Some nd → sp_nodes Σ !! id = None →
      sp_nodes Σ' = <[id := cs ++ [name]]> (sp_nodes Σ) → sp_handles Σ' = sp_handles Σ →
      answer Σ Σ' (ReqLookup i name) (Ret (RepNode id))
  | ans_absent i name cs :
      sp_nodes Σ !! i = Some cs → at_ (cs ++ [name]) = None →
      sp_nodes Σ' = sp_nodes Σ → sp_handles Σ' = sp_handles Σ →
      answer Σ Σ' (ReqLookup i name) (Err EFuseENOENT)
  | ans_readdir i cs info l des :
      sp_nodes Σ !! i = Some cs → at_ cs = Some (RDir info l) →
      Permutation (de_Name <$> des) (Name <$> l) →
      (∀ d, d ∈ des → ∃ nd, at_ (cs ++ [de_Name d]) = Some nd ∧
         sp_inodes Σ' !! abs_path (cs ++ [de_Name d]) = Some (de_Inode d) ∧
         dirent_type (rnode_type nd) = Ret (de_Type d)) →
      sp_nodes Σ' = sp_nodes Σ → sp_handles Σ' = sp_handles Σ →
      answer Σ Σ' (ReqReadDir i) (Ret (RepDirents des))
  | ans_open i cs info c h :
      sp_nodes Σ !! i = Some cs → at_ cs = Some (RFile info c) → sp_handles Σ !! h = None →
      sp_nodes Σ' = sp_nodes Σ → sp_handles Σ' = <[h := c]> (sp_handles Σ) →
      answer Σ Σ' (ReqOpen i) (Ret (RepHandle h))
  | ans_readlink i cs info t :
      sp_nodes Σ !! i = Some cs → at_ cs = Some (RLink info t) →
      sp_nodes Σ' = sp_nodes Σ → sp_handles Σ' = sp_handles Σ →
      answer Σ Σ' (ReqReadlink i) (Ret (RepTarget t))
  | ans_read h size offset c :
      sp_handles Σ !! h = Some c →
      sp_nodes Σ' = sp_nodes Σ → sp_handles Σ' = sp_handles Σ →
      answer Σ Σ' (ReqRead h size offset) (Ret (RepData (take size (drop (Z.to_nat offset) c))))
  | ans_release h o :
      o = Ret RepDone ∨ (∃ e, o = Err e) →
      sp_nodes Σ' = sp_nodes Σ → sp_handles Σ' = delete h (sp_handles Σ) →
      answer Σ Σ' (ReqRelease h) o
  | ans_forget i :
      sp_nodes Σ' = delete i (sp_nodes Σ) → sp_handles Σ' = sp_handles Σ →
      answer Σ Σ' (ReqForget i) (Ret RepDone)
  (* any request can fail, with the reason "no such entry" only when there is none *)
  | ans_error r e :
      (∀ i name, r = ReqLookup i name → e ≠ EFuseENOENT) → (∀ h, r ≠ ReqRelease h) →
      sp_nodes Σ' = sp_nodes Σ → sp_handles Σ' = sp_handles Σ →
      answer Σ Σ' r (Err e)
  (* a request on a node can fail to return *)
  | ans_hang r i :
      r = ReqAttr i ∨ (∃ name, r = ReqLookup i name) ∨ r = ReqReadDir i ∨ r = ReqOpen i ∨
        r = ReqReadlink i →
      sp_nodes Σ' = delete i (sp_nodes Σ) → sp_handles Σ' = sp_handles Σ →
      answer Σ Σ' r OutOfFuel.

Inductive spec_step (Σ : Spec) : event → Spec → Prop :=
  | spec_serve r o Σ' : inodes_grow Σ Σ' → answer Σ Σ' r o → spec_step Σ (EvServe r o) Σ'
  | spec_mount Σ' :
      inodes_grow Σ Σ' → sp_nodes Σ' = {[0%nat := []]} → sp_handles Σ' = ∅ →
      spec_step Σ EvMount Σ'.

Inductive spec_run : Spec → list event → Spec → Prop :=
  | spec_nil Σ : spec_run Σ [] Σ
  | spec_snoc Σ tr Σ1 ev Σ2 :
      spec_run Σ tr Σ1 → spec_step Σ1 ev Σ2 → spec_run Σ (tr ++ [ev]) Σ2.
End spec.
