(* ===== verification/Requests.v ===== *)
(** A request, whatever else is going on: what it changes of the tables of nodes and handles, and
    that its answer is one of the abstract file system's.

    [serve_effected] is proved for any kernel and database with the protocols of HandlerLogic.v
    and Growth.v; [commit] carries a request's effect over to the tables of the session and the
    state of the abstract file system.  SessionProofs.v uses them for requests that are served
    one after the other, PoolTheorems.v for requests that are served at the same time. *)
From S2P Require Import Prelude GoStrings GoPath Stats Types DirEntries Sql Sqlite Kernel.
From S2P Require Import Syscalls Metadata MetadataSpec MetadataProps WorldPost Md5 Content.
From S2P Require Import ContentProps Fs FsLogic FsProps Remote Coherence Growth HandlerLogic.
From S2P Require Import NodeServed Session.
#[local] Open Scope Z_scope.

#[local] Arguments Join : simpl never.

Lemma map_Forall2_lookup_l {A B} (R : nat → A → B → Prop) (m1 : gmap nat A) (m2 : gmap nat B) i a :
  map_Forall2 R m1 m2 → m1 !! i = Some a → ∃ b, m2 !! i = Some b ∧ R i a b.
Proof. intros Hf Ha. pose proof (Hf i) as Hi. rewrite Ha in Hi. inversion Hi; subst. eauto. Qed.
Lemma map_Forall2_lookup_r {A B} (R : nat → A → B → Prop) (m1 : gmap nat A) (m2 : gmap nat B) i b :
  map_Forall2 R m1 m2 → m2 !! i = Some b → ∃ a, m1 !! i = Some a ∧ R i a b.
Proof. intros Hf Hb. pose proof (Hf i) as Hi. rewrite Hb in Hi. inversion Hi; subst. eauto. Qed.
Lemma map_Forall2_none {A B} (R : nat → A → B → Prop) (m1 : gmap nat A) (m2 : gmap nat B) i :
  map_Forall2 R m1 m2 → m2 !! i = None → m1 !! i = None.
Proof. intros Hf Hb. pose proof (Hf i) as Hi. rewrite Hb in Hi. by inversion Hi. Qed.
Lemma map_Forall2_update {A B} (R : nat → A → B → Prop) (m1 : gmap nat A) (m2 : gmap nat B) i a b :
  map_Forall2 R m1 m2 → m1 !! i = Some a → R i a b → map_Forall2 R m1 (<[i := b]> m2).
Proof. intros Hf Ha Hr. rewrite <- (insert_id m1 i a Ha). by apply map_Forall2_insert_2. Qed.

(** The node a request works on, and the handle it reads. *)
Definition req_node (r : Request) : option nat :=
  match r with
  | ReqAttr i | ReqLookup i _ | ReqReadDir i | ReqOpen i | ReqReadlink i | ReqForget i => Some i
  | ReqRead _ _ _ | ReqRelease _ => None
  end.
Definition req_handle (r : Request) : option nat :=
  match r with ReqRead h _ _ | ReqRelease h => Some h | _ => None end.

(** * Effects *)

(** What a request does to the tables; [next] is the identifier it may hand out. *)
Inductive Effect : Type :=
  | NoEffect
  | NodeNow (i : nat) (nd : Node)
  | NodeLost (i : nat)
  | NodeAdded (i : nat) (nd child : Node)
  | FileAdded (i : nat) (nd : Node) (f : openFile).

Definition eff_nodes (eff : Effect) (next : nat) (ns : gmap nat Node) : gmap nat Node :=
  match eff with
  | NoEffect => ns
  | NodeNow i nd | FileAdded i nd _ => <[i := nd]> ns
  | NodeLost i => delete i ns
  | NodeAdded i nd child => <[next := child]> (<[i := nd]> ns)
  end.
Definition eff_files (eff : Effect) (next : nat) (fs : gmap nat openFile) : gmap nat openFile :=
  match eff with FileAdded _ _ f => <[next := f]> fs | _ => fs end.
Definition eff_next (eff : Effect) (next : nat) : nat :=
  match eff with NodeAdded _ _ _ | FileAdded _ _ _ => next + 1 | _ => next end.

(** The inode numbers the database [m] has given out. *)
Definition inodes_of (m : gmap string CachedRow) : gmap string Z := Inode <$> m.

Section effects.
Context (globals : globalState) (tree : string → option rnode) (rr : list string).
Abbreviation map_t := (gmap string CachedRow).
Abbreviation at_ := (tree_at tree rr).
Abbreviation node_ok := (node_ok globals tree rr).

(** The outcome [o] of the request [r] and its effect are right for the abstract state [Σ], when
    the database has come to hold [m'] and [shows f c] says that [f] delivers [c]. *)
Inductive effect_ok (m' : map_t) (next : nat) (shows : File → bytes → Prop) (Σ : Spec) :
    Request → outcome Reply → Effect → Prop :=
  | ef_error r e :
      (∀ i name, r = ReqLookup i name → e ≠ EFuseENOENT) →
      effect_ok m' next shows Σ r (Err e) NoEffect
  | ef_failed r i cs nd e :
      req_node r = Some i → sp_nodes Σ !! i = Some cs → node_ok m' cs nd →
      (∀ name, r = ReqLookup i name → e = EFuseENOENT → at_ (cs ++ [name]) = None) →
      effect_ok m' next shows Σ r (Err e) (NodeNow i nd)
  | ef_reply r i cs nd rep :
      req_node r = Some i → sp_nodes Σ !! i = Some cs → node_ok m' cs nd →
      (∀ Σ1 Σ2, sp_nodes Σ1 !! i = Some cs → inodes_of m' ⊆ sp_inodes Σ2 →
         sp_nodes Σ2 = sp_nodes Σ1 → sp_handles Σ2 = sp_handles Σ1 →
         answer tree rr Σ1 Σ2 r (Ret rep)) →
      effect_ok m' next shows Σ r (Ret rep) (NodeNow i nd)
  | ef_hang r i cs :
      req_node r = Some i → r ≠ ReqForget i → sp_nodes Σ !! i = Some cs →
      effect_ok m' next shows Σ r OutOfFuel (NodeLost i)
  | ef_lookup i name cs nd child :
      sp_nodes Σ !! i = Some cs → node_ok m' cs nd → node_ok m' (cs ++ [name]) child →
      effect_ok m' next shows Σ (ReqLookup i name) (Ret (RepNode next)) (NodeAdded i nd child)
  | ef_open i cs nd info c f rd :
      sp_nodes Σ !! i = Some cs → node_ok m' cs nd → good_path cs →
      at_ cs = Some (RFile info c) → of_path f = abs_path cs → of_reader f = Some rd →
      tr_domain rd = LocalDomain → shows (tr_file rd) c →
      effect_ok m' next shows Σ (ReqOpen i) (Ret (RepHandle next)) (FileAdded i nd f)
  | ef_read h size offset c :
      sp_handles Σ !! h = Some c →
      effect_ok m' next shows Σ (ReqRead h size offset)
        (Ret (RepData (take size (drop (Z.to_nat offset) c)))) NoEffect
  | ef_stuck h size offset : effect_ok m' next shows Σ (ReqRead h size offset) OutOfFuel NoEffect
  | ef_forget i : effect_ok m' next shows Σ (ReqForget i) (Ret RepDone) (NodeLost i).

Lemma inodes_of_mono m m' : le m m' → inodes_of m ⊆ inodes_of m'.
Proof.
  intros Hle. apply map_subseteq_spec. intros p i. unfold inodes_of. rewrite !lookup_fmap.
  destruct (m !! p) as [cr|] eqn:Hp; simpl; [|done]. intros [= <-].
  destruct (Hle _ _ Hp) as (cr' & -> & Hr). simpl. by rewrite (le_inode _ _ Hr).
Qed.

Lemma effect_mono m m' next (shows shows' : File → bytes → Prop) Σ Σ' r o eff :
  le m m' → (∀ f c, shows f c → shows' f c) →
  (∀ i cs, req_node r = Some i → sp_nodes Σ !! i = Some cs → sp_nodes Σ' !! i = Some cs) →
  (∀ h c, req_handle r = Some h → sp_handles Σ !! h = Some c → sp_handles Σ' !! h = Some c) →
  effect_ok m next shows Σ r o eff → effect_ok m' next shows' Σ' r o eff.
Proof.
  intros Hle Hs Hn Hh. pose proof (inodes_of_mono _ _ Hle) as Hi.
  assert (∀ cs nd, node_ok m cs nd → node_ok m' cs nd) as Hok by (intros; by eapply node_ok_mono).
  destruct 1 as [| |r i cs nd rep Hr Hcs Hnd Hans| | | | | |].
  - by constructor.
  - eapply ef_failed; eauto.
  - eapply ef_reply; [done|by eauto|by eauto|]. intros Σ1 Σ2 ? ?. apply Hans; [done|]. by etrans.
  - eapply ef_hang; eauto.
  - eapply ef_lookup; eauto.
  - eapply ef_open; eauto.
  - apply ef_read; eauto.
  - apply ef_stuck.
  - apply ef_forget.
Qed.

Lemma node_in_tree m cs nd : node_ok m cs nd → is_Some (at_ cs).
Proof.
  destruct nd; intros Hnd; [destruct (dir_entry _ _ _ _ _ _ Hnd) as (? & ? & ->)|
    destruct (file_entry _ _ _ _ _ _ Hnd) as (? & ? & ->)|
    destruct (link_entry _ _ _ _ _ _ Hnd) as (? & ? & ->)]; by eexists.
Qed.

(** * The tables *)

(** The tables of the session and the state [Σ] of the abstract file system agree; the database
    may already have given out more inode numbers than the answers so far have shown. *)
Record tables_ok (m : map_t) (pinned : gmap Z bytes) (Σ : Spec) (ns : gmap nat Node)
    (fs : gmap nat openFile) : Prop := {
  tb_nodes : map_Forall2 (λ _ cs nd, node_ok m cs nd) (sp_nodes Σ) ns;
  tb_files : map_Forall2 (λ _ c f, handle_on f c pinned) (sp_handles Σ) fs;
  tb_paths : ∀ h f c, fs !! h = Some f → sp_handles Σ !! h = Some c →
    ∃ cs info, good_path cs ∧ of_path f = abs_path cs ∧ at_ cs = Some (RFile info c);
  tb_fds : ∀ h1 h2 f1 f2 r1 r2, fs !! h1 = Some f1 → fs !! h2 = Some f2 →
    of_reader f1 = Some r1 → of_reader f2 = Some r2 →
    f_fd (tr_file r1) = f_fd (tr_file r2) → h1 = h2;
  tb_inodes : sp_inodes Σ ⊆ inodes_of m;
}.

(** Identifiers from [next] on are free. *)
Definition fresh_from (next : nat) (ns : gmap nat Node) (fs : gmap nat openFile) : Prop :=
  ∀ i, (next ≤ i)%nat → ns !! i = None ∧ fs !! i = None.

Lemma nodes_mono m m' (ps : gmap nat (list string)) (ns : gmap nat Node) :
  le m m' → map_Forall2 (λ _ cs nd, node_ok m cs nd) ps ns →
  map_Forall2 (λ _ cs nd, node_ok m' cs nd) ps ns.
Proof. intros Hle Hf. eapply map_Forall2_impl; [done|]. intros i cs nd. by apply node_ok_mono. Qed.

Lemma inodes_of_grow m m' t Σ Σ' :
  le m m' → table_repr t m' → sp_inodes Σ ⊆ inodes_of m → sp_inodes Σ' = inodes_of m' →
  inodes_grow Σ Σ'.
Proof.
  intros Hle Ht HΣ HΣ'. unfold inodes_grow. rewrite HΣ'.
  split_and!; [by etrans; [|apply inodes_of_mono]|..].
  - intros p q i. unfold inodes_of. rewrite !lookup_fmap.
    destruct (m' !! p) as [crp|] eqn:Hp; simpl; [|done]. destruct (m' !! q) as [crq|] eqn:Hq; simpl; [|done].
    intros [= <-] [= Hi]. by eapply inode_inj.
  - intros p i. unfold inodes_of. rewrite lookup_fmap. destruct (m' !! p) as [cr|] eqn:Hp; simpl; [|done].
    intros [= <-]. by eapply table_inode_range.
Qed.

(** The database has grown. *)
Lemma tables_grown m m' pinned Σ ns fs :
  le m m' → tables_ok m pinned Σ ns fs → tables_ok m' pinned Σ ns fs.
Proof.
  intros Hle []. split; try done; [by eapply nodes_mono|]. etrans; [done|by apply inodes_of_mono].
Qed.

(** The abstract state after an effect. *)
Definition spec_after (m' : map_t) (id : nat) (r : Request) (eff : Effect) (c : bytes) (Σ : Spec) : Spec :=
  {| sp_nodes :=
       match eff, r with
       | NodeLost i, _ => delete i (sp_nodes Σ)
       | NodeAdded i _ _, ReqLookup _ name => <[id := default [] (sp_nodes Σ !! i) ++ [name]]> (sp_nodes Σ)
       | _, _ => sp_nodes Σ
       end;
     sp_handles := match eff with FileAdded _ _ _ => <[id := c]> (sp_handles Σ) | _ => sp_handles Σ end;
     sp_inodes := inodes_of m' |}.

Lemma handle_on_mono f c pinned pinned' : pinned ⊆ pinned' → handle_on f c pinned → handle_on f c pinned'.
Proof. intros Hs (rd & ? & ? & ?). exists rd. split_and!; [done..|]. by eapply lookup_weaken. Qed.

(** The abstract state after a release. *)
Definition with_inodes (m : map_t) (Σ : Spec) : Spec :=
  {| sp_nodes := sp_nodes Σ; sp_handles := sp_handles Σ; sp_inodes := inodes_of m |}.
Definition sp_del_handle (h : nat) (Σ : Spec) : Spec :=
  {| sp_nodes := sp_nodes Σ; sp_handles := delete h (sp_handles Σ); sp_inodes := sp_inodes Σ |}.

Section tables.
Context (m m' : map_t) (pinned : gmap Z bytes) (Σ : Spec) (ns : gmap nat Node)
  (fs : gmap nat openFile) (id : nat).
Context (Htab : tables_ok m pinned Σ ns fs) (Hle : le m m').

Lemma listed_node i cs : sp_nodes Σ !! i = Some cs → is_Some (ns !! i).
Proof.
  intros Hi. destruct (map_Forall2_lookup_l _ _ _ _ _ (tb_nodes _ _ _ _ _ Htab) Hi) as (nd & ? & _).
  by exists nd.
Qed.
Lemma listed_file h c : sp_handles Σ !! h = Some c → is_Some (fs !! h).
Proof.
  intros Hh. destruct (map_Forall2_lookup_l _ _ _ _ _ (tb_files _ _ _ _ _ Htab) Hh) as (f & ? & _).
  by exists f.
Qed.

Lemma tables_no_effect r :
  tables_ok m' pinned (spec_after m' id r NoEffect [] Σ) ns fs.
Proof. destruct Htab. split; simpl; try done. by eapply nodes_mono. Qed.

Lemma tables_node_now i cs nd r :
  sp_nodes Σ !! i = Some cs → node_ok m' cs nd →
  tables_ok m' pinned (spec_after m' id r (NodeNow i nd) [] Σ) (<[i := nd]> ns) fs.
Proof.
  intros Hi Hnd. destruct Htab. split; simpl; try done.
  eapply map_Forall2_update; [by eapply nodes_mono|done|done].
Qed.

Lemma tables_node_lost i r :
  tables_ok m' pinned (spec_after m' id r (NodeLost i) [] Σ) (delete i ns) fs.
Proof. destruct Htab. split; simpl; try done. apply map_Forall2_delete. by eapply nodes_mono. Qed.

Lemma tables_node_added i cs nd name child :
  sp_nodes Σ !! i = Some cs → node_ok m' cs nd → node_ok m' (cs ++ [name]) child →
  tables_ok m' pinned (spec_after m' id (ReqLookup i name) (NodeAdded i nd child) [] Σ)
    (<[id := child]> (<[i := nd]> ns)) fs.
Proof.
  intros Hi Hnd Hch. destruct (tables_node_now i cs nd (ReqForget 0) Hi Hnd). split; simpl in *; try done.
  apply map_Forall2_insert_2; [|done]. by rewrite Hi.
Qed.

(** A new handle pins its descriptor. *)
Lemma tables_file_added i cs nd f rd c info r :
  sp_nodes Σ !! i = Some cs → node_ok m' cs nd → good_path cs → at_ cs = Some (RFile info c) →
  of_path f = abs_path cs → of_reader f = Some rd → tr_domain rd = LocalDomain →
  pinned !! f_fd (tr_file rd) = None →
  tables_ok m' (<[f_fd (tr_file rd) := c]> pinned) (spec_after m' id r (FileAdded i nd f) c Σ)
    (<[i := nd]> ns) (<[id := f]> fs).
Proof.
  intros Hi Hnd Hg Hat Hpath Hrd Hdom Hun.
  destruct (tables_node_now i cs nd (ReqForget 0) Hi Hnd) as [Hn Hf Hpa Hfd _].
  split; simpl in *; try done.
  - apply map_Forall2_insert_2.
    + exists rd. split_and!; [done..|apply lookup_insert_eq].
    + eapply map_Forall2_impl; [done|]. intros h c' f'. apply handle_on_mono.
      by apply insert_subseteq.
  - intros h f' c'. rewrite !lookup_insert. case_decide; [|apply Hpa].
    intros [= <-] [= <-]. by exists cs, info.
  - assert (∀ h f' r', fs !! h = Some f' → of_reader f' = Some r' →
      f_fd (tr_file r') ≠ f_fd (tr_file rd)) as Hold.
    { intros h f' r' Hh Hr' Heq.
      destruct (map_Forall2_lookup_r _ _ _ _ _ Hf Hh) as (c' & _ & r2 & Hr2 & _ & Hp). simplify_eq.
      by rewrite Heq, Hun in Hp. }
    intros h1 h2 f1 f2 r1 r2. rewrite !lookup_insert. repeat case_decide; subst; try done.
    + intros [= <-] Hx2 Hr1 Hr2 Heq. simplify_eq. by destruct (Hold _ _ _ Hx2 Hr2).
    + intros H1' [= <-] Hr1 Hr2 Heq. simplify_eq. by destruct (Hold _ _ _ H1' Hr1).
    + by apply Hfd.
Qed.

(** A handle goes, and with it the pin on its descriptor. *)
Lemma tables_file_dropped h f rd :
  fs !! h = Some f → of_reader f = Some rd →
  tables_ok m' (delete (f_fd (tr_file rd)) pinned) (sp_del_handle h (with_inodes m' Σ)) ns (delete h fs).
Proof.
  intros Hfh Hrd. destruct Htab as [Hn Hf Hpa Hfd _]. split; simpl; [by eapply nodes_mono| | | |done].
  - intros j. destruct (decide (j = h)) as [->|Hne]; [rewrite !lookup_delete_eq; constructor|].
    rewrite !lookup_delete_ne by done. specialize (Hf j).
    destruct (fs !! j) as [g|] eqn:Hg; inversion Hf as [c' g' Hc'|]; subst; constructor.
    destruct Hc' as (r2 & Hr2 & Hd2 & Hp2). exists r2. split_and!; [done..|].
    rewrite lookup_delete_ne; [done|]. intros Heq. apply Hne. symmetry. by eapply Hfd.
  - intros h1 f1 c1 (_ & Hx1)%lookup_delete_Some (_ & Hx2)%lookup_delete_Some. by eapply Hpa.
  - intros h1 h2 f1 f2 r1 r2 (_ & Hx1)%lookup_delete_Some (_ & Hx2)%lookup_delete_Some. by apply Hfd.
Qed.

Lemma tables_no_file h :
  fs !! h = None → tables_ok m' pinned (sp_del_handle h (with_inodes m' Σ)) ns (delete h fs).
Proof.
  intros Hfh. destruct Htab as [Hn Hf Hpa Hfd _]. rewrite delete_id by done.
  assert (sp_handles Σ !! h = None) as Hh by (by eapply map_Forall2_none).
  split; simpl; [by eapply nodes_mono|by rewrite delete_id|by rewrite delete_id|done..].
Qed.

Lemma fresh_dropped next h : fresh_from next ns fs → fresh_from next ns (delete h fs).
Proof. intros Hf j Hj. rewrite lookup_delete_None. destruct (Hf j Hj). auto. Qed.
End tables.

(** The pins that a request adds are on descriptors it shows. *)
Definition pins_added (shows : File → bytes → Prop) (pinned pinned' : gmap Z bytes) : Prop :=
  pinned ⊆ pinned' ∧
  ∀ fd c, pinned' !! fd = Some c → pinned !! fd = Some c ∨ ∃ f, f_fd f = fd ∧ shows f c.

(** Other nodes and handles stand for what they stood for. *)
Definition spec_kept (id : nat) (r : Request) (Σ Σ' : Spec) : Prop :=
  (∀ i, i ≠ id → req_node r ≠ Some i → sp_nodes Σ' !! i = sp_nodes Σ !! i) ∧
  (∀ h, h ≠ id → sp_handles Σ' !! h = sp_handles Σ !! h).

Lemma spec_after_kept m' id (shows : File → bytes → Prop) r o eff c Σ :
  effect_ok m' id shows Σ r o eff → spec_kept id r Σ (spec_after m' id r eff c Σ).
Proof.
  intros Hok. split; intros j; destruct Hok; simpl in *; try done; intros;
    rewrite ?lookup_insert_ne, ?lookup_delete_ne by congruence; done.
Qed.

(** The effect of a request on the tables is the step of the abstract file system. *)
Lemma commit m m' t pinned Σ ns fs id (shows : File → bytes → Prop) r o eff :
  tables_ok m pinned Σ ns fs → ns !! id = None → fs !! id = None → le m m' → table_repr t m' →
  (∀ f c, shows f c → pinned !! f_fd f = None) → (o = OutOfFuel → is_Some (req_node r)) →
  (∀ h, r ≠ ReqRelease h) → effect_ok m' id shows Σ r o eff →
  ∃ Σ' pinned', spec_step tree rr Σ (EvServe r o) Σ' ∧ sp_inodes Σ' = inodes_of m' ∧
    tables_ok m' pinned' Σ' (eff_nodes eff id ns) (eff_files eff id fs) ∧
    pins_added shows pinned pinned' ∧ spec_kept id r Σ Σ'.
Proof.
  intros Htab Hid1 Hid2 Hle Ht Hun Hstuck Hrel Hok.
  assert (∀ eff c, inodes_grow Σ (spec_after m' id r eff c Σ)) as Hgrow.
  { intros e c. eapply inodes_of_grow; [done..|apply Htab|done]. }
  assert (pins_added shows pinned pinned) as Hsame by (split; [done|by auto]).
  pose proof (λ c, spec_after_kept m' id shows r o eff c Σ Hok) as Hkept.
  assert (sp_nodes Σ !! id = None) as Hfree1 by (eapply map_Forall2_none; [apply Htab|done]).
  assert (sp_handles Σ !! id = None) as Hfree2
    by (eapply map_Forall2_none; [apply (tb_files _ _ _ _ _ Htab)|done]).
  destruct Hok as [r e He|r i cs nd e Hr Hcs Hnd He|r i cs nd rep Hr Hcs Hnd Hans|r i cs Hr Hne Hcs|
    i name cs nd child Hcs Hnd Hch|i cs nd info c f rd Hcs Hnd Hg Hat Hpath Hrd Hdom Hsh|
    h size off c Hc|h size off|i].
  - eexists (spec_after m' id _ _ _ Σ), pinned. split_and!; [|done|by eapply tables_no_effect|done|apply (Hkept [])].
    constructor; [apply Hgrow|]. by apply ans_error.
  - eexists (spec_after m' id _ _ _ Σ), pinned. split_and!; [|done|by eapply tables_node_now|done|apply (Hkept [])].
    constructor; [apply Hgrow|].
    destruct r; try (by apply ans_error). destruct (decide (e = EFuseENOENT)) as [->|Hn];
      [|apply ans_error; [by intros|done..]]. simplify_eq/=. by eapply ans_absent; [|apply He|..].
  - eexists (spec_after m' id _ _ _ Σ), pinned. split_and!; [|done|by eapply tables_node_now|done|apply (Hkept [])].
    constructor; [apply Hgrow|]. by apply Hans.
  - eexists (spec_after m' id _ _ _ Σ), pinned. split_and!; [|done|by eapply tables_node_lost|done|apply (Hkept [])].
    constructor; [apply Hgrow|]. apply (ans_hang _ _ _ _ r i); [|done|done].
    destruct r; simplify_eq/=; eauto.
  - eexists (spec_after m' id _ _ _ Σ), pinned. split_and!; [|done|by eapply tables_node_added|done|apply (Hkept [])].
    constructor; [apply Hgrow|]. destruct (node_in_tree _ _ _ Hch) as [e He].
    eapply ans_lookup; [done|done|done| |done]. simpl. by rewrite Hcs.
  - pose proof (Hun _ _ Hsh) as Hfd. eexists (spec_after m' id _ _ _ Σ), (<[f_fd (tr_file rd) := c]> pinned).
    split_and!; [|done|by eapply tables_file_added| |apply (Hkept c)].
    + constructor; [apply Hgrow|]. by eapply ans_open.
    + split; [by apply insert_subseteq|]. intros fd c'. rewrite lookup_insert.
      case_decide; [|by left]. intros [= <-]. right. by exists (tr_file rd).
  - eexists (spec_after m' id _ _ _ Σ), pinned. split_and!; [|done|by eapply tables_no_effect|done|apply (Hkept [])].
    constructor; [apply Hgrow|]. by apply ans_read.
  - by destruct Hstuck.
  - eexists (spec_after m' id _ _ _ Σ), pinned. split_and!; [|done|by eapply tables_node_lost|done|apply (Hkept [])].
    constructor; [apply Hgrow|]. by apply ans_forget.
Qed.

(** Other nodes and handles are left alone. *)
Lemma eff_nodes_other m' id shows Σ r o eff ns i :
  effect_ok m' id shows Σ r o eff → req_node r ≠ Some i → i ≠ id →
  eff_nodes eff id ns !! i = ns !! i.
Proof.
  intros Hok Hr Hi. destruct Hok; simpl in *; rewrite ?lookup_insert_ne, ?lookup_delete_ne; congruence.
Qed.
Lemma eff_files_other eff id fs h : h ≠ id → eff_files eff id fs !! h = fs !! h.
Proof. intros Hh. destruct eff; simpl; try done. by rewrite lookup_insert_ne. Qed.

(** A node of the tables is the request's, if anything is done to it. *)
Lemma eff_fresh m' next shows Σ r o eff ns fs :
  effect_ok m' next shows Σ r o eff →
  (∀ i cs, sp_nodes Σ !! i = Some cs → is_Some (ns !! i)) →
  fresh_from next ns fs → fresh_from (eff_next eff next) (eff_nodes eff next ns) (eff_files eff next fs).
Proof.
  intros Hok Hlisted Hf j Hj.
  assert (next ≤ j)%nat as Hnj by (destruct eff; simpl in Hj; lia).
  destruct (Hf j Hnj) as [Hj1 Hj2].
  assert (∀ i cs, sp_nodes Σ !! i = Some cs → i ≠ j) as Hne.
  { intros i cs Hi ->. destruct (Hlisted _ _ Hi). congruence. }
  split.
  - destruct Hok; simpl in *; rewrite ?lookup_insert_ne by (done || lia || eauto); try done.
    + rewrite lookup_delete_ne; eauto.
    + rewrite lookup_delete_None. auto.
  - destruct eff; simpl in *; try done. rewrite lookup_insert_ne; [done|lia].
Qed.
End effects.

(** * The effect of every request *)

Section serve.
Context {OS DB : Type} `{Kernel OS, Fuel}.
Context (globals : globalState) (tree : string → option rnode) (rr : list string)
  (is_loc : string → bool) (Htree : tree_ok tree rr is_loc) (P : OsProtocol globals tree rr OS).
Context `{AffinityLaws DB, !DbHolds tree rr DB, !GrowingLaws tree rr DB}.
Abbreviation S := (Session OS DB).
Abbreviation at_ := (tree_at tree rr).
Abbreviation served m pinned := (HandlerLogic.served globals tree rr P m pinned Nothing).
Abbreviation world_ok m pinned := (HandlerLogic.world_ok globals tree rr P m pinned Nothing).
Abbreviation node_ok := (node_ok globals tree rr).

(** The run of a request in the session [t]. *)
Definition effected (m : map_t) (pinned : gmap Z bytes) (Σ : Spec) (r : Request) (t : S)
    (res : outcome Reply * S) : Prop :=
  let w' := ss_world res.2 in
  stats_wf (w_stats w') ∧ ∃ m' eff, le m m' ∧ held globals tree rr P m' pinned Nothing w' ∧
    effect_ok globals tree rr m' (ss_next t) (os_shows P pinned (w_os w')) Σ r res.1 eff ∧
    ss_nodes res.2 = eff_nodes eff (ss_next t) (ss_nodes t) ∧
    ss_files res.2 = eff_files eff (ss_next t) (ss_files t) ∧
    ss_next res.2 = eff_next eff (ss_next t).

Section run.
Context (m : map_t) (pinned : gmap Z bytes) (Σ : Spec) (t : S).
Context (Hw : world_ok m pinned (ss_world t)).

(** A request fails before it does anything. *)
Lemma effected_unsupported r : effected m pinned Σ r t (Err unsupported, t).
Proof.
  destruct Hw as [Hs Hh]. split; [done|]. exists m, NoEffect. split_and!; try done. by apply ef_error.
Qed.

(** A handler of a node. *)
Lemma on_node_run {N A} i (select : Node → option N) (wrap : N → Node) (c : GoM (N * World OS DB) A)
    nd x Q E :
  ss_nodes t !! i = Some nd → select nd = Some x → served m pinned Q E (c (x, ss_world t)) →
  let '(o, t') := on_node_at i select wrap c t in
  stats_wf (w_stats (ss_world t')) ∧ ss_files t' = ss_files t ∧ ss_next t' = ss_next t ∧
  ∃ m', le m m' ∧ held globals tree rr P m' pinned Nothing (ss_world t') ∧
    match o with
    | Ret a => ∃ n, ss_nodes t' = <[i := wrap n]> (ss_nodes t) ∧ Q m' a n (w_os (ss_world t'))
    | Err e => ∃ n, ss_nodes t' = <[i := wrap n]> (ss_nodes t) ∧ E m' e n
    | OutOfFuel => ss_nodes t' = delete i (ss_nodes t)
    | _ => False
    end.
Proof.
  intros Hnd Hx [Hwf Hc]. unfold on_node_at, mbind, option_bind. rewrite Hnd. simpl. rewrite Hx.
  destruct (c (x, ss_world t)) as [o [n w']]. simpl in *. split_and!; [done..|].
  destruct o as [a|e| | |]; try done.
  - destruct Hc as (m' & Hle & Hh & Hq). exists m'. split_and!; [done..|]. by exists n.
  - destruct Hc as (m' & Hle & Hh & He). exists m'. split_and!; [done..|]. by exists n.
  - destruct Hc as (m' & Hle & Hh). by exists m'.
Qed.

(** A request on a node whose reply is made from its handler's result. *)
Lemma on_node_effected {N A} i (select : Node → option N) (wrap : N → Node)
    (c : GoM (N * World OS DB) A) (reply : A → Reply) r cs nd x Q E :
  ss_nodes t !! i = Some nd → select nd = Some x → served m pinned Q E (c (x, ss_world t)) →
  req_node r = Some i → sp_nodes Σ !! i = Some cs →
  r ≠ ReqForget i → (∀ name, r ≠ ReqLookup i name) →
  (∀ m' e n, E m' e n → node_ok m' cs (wrap n)) →
  (∀ m' a n s, Q m' a n s → node_ok m' cs (wrap n) ∧
     ∀ Σ1 Σ2, sp_nodes Σ1 !! i = Some cs → inodes_of m' ⊆ sp_inodes Σ2 →
       sp_nodes Σ2 = sp_nodes Σ1 → sp_handles Σ2 = sp_handles Σ1 →
       answer tree rr Σ1 Σ2 r (Ret (reply a))) →
  effected m pinned Σ r t ((a ← on_node_at i select wrap c; mret (reply a)) t).
Proof.
  intros Hnd Hx Hc Hr Hcs Hfor Hloo HE HQ. pose proof (on_node_run i select wrap c nd x Q E Hnd Hx Hc) as Hrun.
  unfold mbind, go_mbind, go_bind. destruct (on_node_at i select wrap c t) as [o t'].
  destruct Hrun as (Hwf & Hfs & Hnx & m' & Hle & Hh & Ho).
  destruct o as [a|e| | |]; try done; (split; [done|]; exists m').
  - destruct Ho as (n & Hns & Hq). destruct (HQ _ _ _ _ Hq) as [Hn Ha]. exists (NodeNow i (wrap n)).
    split_and!; try done. by eapply ef_reply.
  - destruct Ho as (n & Hns & He). exists (NodeNow i (wrap n)). split_and!; try done.
    eapply ef_failed; [done..|by eapply HE|]. intros name ->. simplify_eq/=. by destruct (Hloo name).
  - exists (NodeLost i). split_and!; try done. by eapply ef_hang.
Qed.

Context (Hnodes : ∀ i nd, ss_nodes t !! i = Some nd →
  ∃ cs, sp_nodes Σ !! i = Some cs ∧ node_ok m cs nd).

Lemma inode_known m1 cs p b d k :
  node_at globals tree rr m1 cs p b d k → inodes_of m1 !! abs_path cs = Some (Inode k).
Proof.
  intros [_ _ _ _ [_ (cr & Hcr & Hr)]]. unfold inodes_of. rewrite lookup_fmap, Hcr. simpl.
  by rewrite (le_inode _ _ Hr).
Qed.

(** A handler of the file system, by the lemma on it. *)
Tactic Notation "handler" uconstr(law) := eapply law; try apply _; done.
(** A node that does not answer the request. *)
Ltac unsupported Hnd :=
  unfold on_dir, on_file, on_link, on_node_at, mbind, go_mbind, go_bind, option_bind; rewrite Hnd;
  apply effected_unsupported.

Lemma serve_attr_effected i : effected m pinned Σ (ReqAttr i) t (serve globals (ReqAttr i) t).
Proof.
  cbn [serve]. destruct (ss_nodes t !! i) as [nd|] eqn:Hnd;
    [|unfold mbind, go_mbind, go_bind, serve_attr; rewrite Hnd; apply effected_unsupported].
  destruct (Hnodes _ _ Hnd) as (cs & Hcs & Hok).
  assert (∀ m' a ino, attr_answer tree rr cs ino a → inodes_of m' !! abs_path cs = Some ino →
    ∀ Σ1 Σ2, sp_nodes Σ1 !! i = Some cs → inodes_of m' ⊆ sp_inodes Σ2 →
      sp_nodes Σ2 = sp_nodes Σ1 → sp_handles Σ2 = sp_handles Σ1 →
      answer tree rr Σ1 Σ2 (ReqAttr i) (Ret (RepAttr a))) as Hans.
  { intros m' a ino (e & Hat & ->) Hino Σ1 Σ2 Hcs1 Hsub ? ?. eapply ans_attr; try done.
    by eapply lookup_weaken. }
  unfold serve_attr, mbind, go_mbind, go_bind. rewrite Hnd. destruct nd as [d|f|l].
  - eapply (on_node_effected i node_dir NodeDir Dir_Attr RepAttr);
      [done|done|handler Dir_Attr_served|done..| |]; [by intros m' e n Hd|].
    intros m' a n s (Hd & Hi & Ha). split; [done|]. rewrite <- Hi in Ha. eapply Hans; [done|].
    destruct Hd as [Hd _]. by eapply (inode_known _ _ _ _ _ (dir_row n)).
  - eapply (on_node_effected i node_file NodeFile File_Attr RepAttr);
      [done|done|handler File_Attr_served|done..| |]; [by intros m' e n Hd|].
    intros m' a n s (Hd & Hi & Ha). split; [done|]. rewrite <- Hi in Ha. eapply Hans; [done|].
    by eapply (inode_known _ _ _ _ _ (file_row n)).
  - eapply (on_node_effected i node_link NodeSymlink Symlink_Attr RepAttr);
      [done|done|handler Symlink_Attr_served|done..| |]; [by intros m' e n Hd|].
    intros m' a n s (Hd & Hi & Ha). split; [done|]. rewrite <- Hi in Ha. eapply Hans; [done|].
    by eapply (inode_known _ _ _ _ _ (link_row n)).
Qed.

Lemma serve_readdir_effected i :
  effected m pinned Σ (ReqReadDir i) t (serve globals (ReqReadDir i) t).
Proof.
  cbn [serve]. destruct (ss_nodes t !! i) as [[d|f|l]|] eqn:Hnd; [|unsupported Hnd..].
  destruct (Hnodes _ _ Hnd) as (cs & Hcs & Hok).
  eapply (on_node_effected i node_dir NodeDir ReadDirAll RepDirents);
    [done|done|handler ReadDirAll_served|done..| |]; [by intros m' e n Hd|].
  intros m' des n s [Hd (info & l & Hat & Hperm & Hdes)]. split; [done|].
  intros Σ1 Σ2 Hcs1 Hsub ? ?. eapply ans_readdir; [done|done|done| |done|done].
  intros d' Hd'. destruct (Hdes d' Hd') as (nd & cr & Hnd' & Hcr & Hi & Ht). exists nd.
  split_and!; [done| |done]. eapply lookup_weaken; [|done]. unfold inodes_of.
  rewrite lookup_fmap, Hcr. simpl. by rewrite Hi.
Qed.

Lemma serve_readlink_effected i :
  effected m pinned Σ (ReqReadlink i) t (serve globals (ReqReadlink i) t).
Proof.
  cbn [serve]. destruct (ss_nodes t !! i) as [[d|f|l]|] eqn:Hnd; [unsupported Hnd..| |unsupported Hnd].
  destruct (Hnodes _ _ Hnd) as (cs & Hcs & Hok).
  eapply (on_node_effected i node_link NodeSymlink Symlink_Readlink RepTarget);
    [done|done|handler Symlink_Readlink_served|done..| |]; [by intros m' e n Hd|].
  intros m' tg n s [Hd (info & Hat)]. split; [done|]. intros Σ1 Σ2 Hcs1 Hsub ? ?. by eapply ans_readlink.
Qed.

Lemma serve_lookup_effected i name :
  good_name name = true →
  effected m pinned Σ (ReqLookup i name) t (serve globals (ReqLookup i name) t).
Proof.
  intros Hname. cbn [serve]. destruct (ss_nodes t !! i) as [[d|f|l]|] eqn:Hnd; [|unsupported Hnd..].
  destruct (Hnodes _ _ Hnd) as (cs & Hcs & Hok).
  pose proof (on_node_run i node_dir NodeDir (Lookup globals name) (NodeDir d) d
    (λ m' nd d' _, dir_ok globals tree rr m' cs d' ∧ node_ok m' (cs ++ [name]) nd)
    (λ m' e d', dir_ok globals tree rr m' cs d' ∧ (e = EFuseENOENT → at_ (cs ++ [name]) = None)))
    as Hrun.
  unfold mbind, go_mbind, go_bind, on_dir.
  destruct (on_node_at i node_dir NodeDir (Lookup globals name) t) as [o t'].
  destruct Hrun as (Hwf & Hfs & Hnx & m' & Hle & Hh & Ho); [done|done|handler Lookup_served|].
  destruct o as [nd|e| | |]; try done; (split; [done|]; exists m').
  - destruct Ho as (n & Hns & Hn & Hch). exists (NodeAdded i (NodeDir n) nd). simpl.
    rewrite Hns, Hnx. split_and!; try done. by eapply ef_lookup.
  - destruct Ho as (n & Hns & Hn & He). exists (NodeNow i (NodeDir n)). split_and!; try done.
    eapply ef_failed; [done..|]. by intros name' [= <-].
  - exists (NodeLost i). split_and!; try done. by eapply ef_hang.
Qed.

Lemma serve_open_effected i : effected m pinned Σ (ReqOpen i) t (serve globals (ReqOpen i) t).
Proof.
  cbn [serve]. destruct (ss_nodes t !! i) as [[d|f|l]|] eqn:Hnd; [unsupported Hnd| |unsupported Hnd..].
  destruct (Hnodes _ _ Hnd) as (cs & Hcs & Hok).
  pose proof (on_node_run i node_file NodeFile (File_Open globals) (NodeFile f) f
    (λ m' h f' s, file_ok globals tree rr m' cs f' ∧ of_path h = abs_path cs ∧
      ∃ info c, at_ cs = Some (RFile info c) ∧ handle_shows globals tree rr P h c pinned s)
    (λ m' _ f', file_ok globals tree rr m' cs f')) as Hrun.
  unfold mbind, go_mbind, go_bind, on_file.
  destruct (on_node_at i node_file NodeFile (File_Open globals) t) as [o t'].
  destruct Hrun as (Hwf & Hfs & Hnx & m' & Hle & Hh & Ho); [done|done|handler File_Open_served|].
  destruct o as [h|e| | |]; try done; (split; [done|]; exists m').
  - destruct Ho as (n & Hns & Hn & Hpath & info & c & Hat & rd & Hrd & Hdom & Hsh).
    exists (FileAdded i (NodeFile n) h). simpl. rewrite Hfs, Hnx. split_and!; try done.
    by eapply ef_open; [| |destruct Hn| | | | |].
  - destruct Ho as (n & Hns & Hn). exists (NodeNow i (NodeFile n)). split_and!; try done. by eapply ef_failed.
  - exists (NodeLost i). split_and!; try done. by eapply ef_hang.
Qed.

(** Reading does not change the handle. *)
Definition same_node {N} (s s' : N * World OS DB) : Prop := s'.1 = s.1.
#[local] Instance same_node_preorder {N} : PreOrder (same_node (N := N)).
Proof. split; [by intros s|]. unfold same_node. intros s1 s2 s3. congruence. Qed.
Lemma on_world_same {N A} (c : GoM (World OS DB) A) : framed (same_node (N := N)) (on_world c).
Proof. intros [n w]. unfold on_world, go_zoom. simpl. by destruct (c w). Qed.
#[local] Hint Resolve on_world_same : go.
Lemma openFile_Read_same size off : framed same_node (openFile_Read (OS := OS) (DB := DB) size off).
Proof. unfold openFile_Read, AccountHit, get_node, on_node. framed_solve. intros [f w]; done. Qed.

Lemma serve_read_effected h size off :
  0 ≤ off →
  (∀ f, ss_files t !! h = Some f → ∃ c, sp_handles Σ !! h = Some c ∧ handle_on f c pinned) →
  effected m pinned Σ (ReqRead h size off) t (serve globals (ReqRead h size off) t).
Proof.
  intros Hoff Hfiles. cbn [serve]. unfold on_handle, mbind, go_mbind, go_bind.
  destruct (ss_files t !! h) as [f|] eqn:Hf; [|apply effected_unsupported].
  destruct (Hfiles _ eq_refl) as (c & Hc & Hh).
  pose proof (openFile_Read_served globals tree rr P m pinned f c size off (ss_world t) Hw Hh Hoff)
    as [Hwf Hr].
  pose proof (openFile_Read_same size off (f, ss_world t)) as Hsame.
  destruct (openFile_Read size off (f, ss_world t)) as [o [f' w']]. simpl in *.
  destruct o as [data|e| | |]; simpl in *; try done; destruct Hr as (m' & Hle & Hr);
    (split; [done|]; exists m', NoEffect).
  - destruct Hr as (Hh' & -> & ->). simpl. rewrite insert_id by done. split_and!; try done. by apply ef_read.
  - destruct Hr as (Hh' & ->). simpl. rewrite insert_id by done. split_and!; try done. by apply ef_error.
  - change (f' = f) in Hsame. subst f'. simpl. rewrite insert_id by done. split_and!; try done. apply ef_stuck.
Qed.
(** Every request but the release of a handle. *)
Lemma serve_effected r :
  (∀ h f, req_handle r = Some h → ss_files t !! h = Some f →
     ∃ c, sp_handles Σ !! h = Some c ∧ handle_on f c pinned) →
  request_ok r → (∀ h, r ≠ ReqRelease h) → effected m pinned Σ r t (serve globals r t).
Proof.
  intros Hfiles Hreq Hrel. destruct r as [i|i name|i|i|i|h size off|h|i]; simpl in Hreq.
  - apply serve_attr_effected.
  - by apply serve_lookup_effected.
  - apply serve_readdir_effected.
  - apply serve_open_effected.
  - apply serve_readlink_effected.
  - apply serve_read_effected; auto.
  - by destruct (Hrel h).
  - destruct Hw as [Hs Hh]. split; [done|]. exists m, (NodeLost i). split_and!; try done. apply ef_forget.
Qed.
End run.
End serve.
