(* ===== verification/Simulation.v ===== *)
(** Two runs of the program on two systems: the same code makes the same calls for as long as the
    systems give it the same answers.

    A [Pairing] says when the states of two systems are in step ([sync]) and what is left of that
    when they no longer are ([parted]); [sim] is the simulation of a computation by itself on the
    other system.  It is closed under every combinator, so that it holds of every function of the
    program that makes calls once it holds of the calls.  A process that is killed is one use of it
    (Killed.v), a request that waits for another request another (Pool.v). *)
From S2P Require Import Prelude GoStrings GoPath Stats Types DirEntries Sql Sqlite Kernel.
From S2P Require Import Syscalls Metadata Md5 Content Fs Remote Session.
#[local] Open Scope Z_scope.

(** * Pairs of systems *)

(** [parted s t]: the left run has stopped, or goes on without an effect, and the right one has
    gone on.  [ahead s t]: what [parted] is on one system says of the other. *)
Class Pairing (X Y : Type) : Type := {
  sync : X → Y → Prop; parted : X → Y → Prop; ahead : X → Y → Prop;
  sync_ahead s t : sync s t → ahead s t;
}.

#[export, refine] Instance Conn_pairing {DB DB'} `{Pairing DB DB'} : Pairing (Conn DB) (Conn DB') :=
  {| sync c c' := sync (c_db c) (c_db c') ∧ c_rt c = c_rt c';
     parted c c' := parted (c_db c) (c_db c'); ahead c c' := ahead (c_db c) (c_db c') |}.
Proof. intros c c' [Hs _]. by apply sync_ahead. Defined.

#[export, refine] Instance World_pairing {OS OS' DB DB'} `{Pairing OS OS', Pairing DB DB'} :
    Pairing (World OS DB) (World OS' DB') :=
  {| sync w w' := w_stats w = w_stats w' ∧ sync (w_os w) (w_os w') ∧ sync (w_conn w) (w_conn w');
     parted w w' := (parted (w_os w) (w_os w') ∧ ahead (w_conn w) (w_conn w')) ∨
                    (ahead (w_os w) (w_os w') ∧ parted (w_conn w) (w_conn w'));
     ahead w w' := ahead (w_os w) (w_os w') ∧ ahead (w_conn w) (w_conn w') |}.
Proof. intros w w' (_ & Ho & Hc). split; by apply sync_ahead. Defined.

#[export, refine] Instance node_pairing {N X Y} `{Pairing X Y} : Pairing (N * X) (N * Y) :=
  {| sync s t := s.1 = t.1 ∧ sync s.2 t.2; parted s t := parted s.2 t.2;
     ahead s t := ahead s.2 t.2 |}.
Proof. intros s t [_ Hs]. by apply sync_ahead. Defined.

#[export, refine] Instance Session_pairing {OS OS' DB DB'} `{Pairing OS OS', Pairing DB DB'} :
    Pairing (Session OS DB) (Session OS' DB') :=
  {| sync s t := sync (ss_world s) (ss_world t) ∧ ss_nodes s = ss_nodes t ∧
                 ss_files s = ss_files t ∧ ss_next s = ss_next t;
     parted s t := parted (ss_world s) (ss_world t);
     ahead s t := ahead (ss_world s) (ss_world t) |}.
Proof. intros s t [Hs _]. by apply sync_ahead. Defined.

(** * The simulation *)

(** The right computation keeps [R]; so does the left one when runs do not stop where they
    part. *)
Definition closed {X Y A B} (stops : bool) (R : X → Y → Prop) (m : GoM X A) (m' : GoM Y B) : Prop :=
  (∀ s t, R s t → R s (m' t).2) ∧ (stops = false → ∀ s t, R s t → R (m s).2 t).

Record sim {X Y A} `{Pairing X Y} (stops : bool) (m : GoM X A) (m' : GoM Y A) : Prop := {
  sim_run s t : sync s t →
    ((m s).1 = (m' t).1 ∧ sync (m s).2 (m' t).2) ∨
    (parted (m s).2 (m' t).2 ∧ (stops = true → (m s).1 = OutOfFuel));
  sim_parted : closed stops parted m m';
  sim_ahead : closed stops ahead m m';
}.

Section sim.
Context {X Y : Type} `{Pairing X Y} (stops : bool).

Lemma sim_const {A} (o : outcome A) : sim stops (λ s, (o, s)) (λ s, (o, s)).
Proof. split; [by left|done..]. Qed.

(** A computation in which both sides keep [R] still does when it goes on. *)
Lemma closed_bind {A B} (R : X → Y → Prop) (f : A → GoM X B) (f' : A → GoM Y B) m m' :
  closed stops R m m' → (∀ a, closed stops R (f a) (f' a)) →
  closed stops R (go_bind f m) (go_bind f' m').
Proof.
  intros [Hr Hl] Hf. split.
  - intros s t Hs. specialize (Hr s t Hs). unfold go_bind.
    destruct (m' t) as [[a| | | |] t']; simpl in *; try done. by apply Hf.
  - intros E s t Hs. specialize (Hl E s t Hs). unfold go_bind.
    destruct (m s) as [[a| | | |] s']; simpl in *; try done. by apply (proj2 (Hf a)).
Qed.

Lemma sim_bind {A B} (f : A → GoM X B) (f' : A → GoM Y B) m m' :
  sim stops m m' → (∀ a, sim stops (f a) (f' a)) → sim stops (go_bind f m) (go_bind f' m').
Proof.
  intros Hm Hf. split; [|apply closed_bind; [by apply Hm|intros a; by apply Hf]..].
  intros s t Hs. destruct (sim_run _ _ _ Hm s t Hs) as [[Ho Ht]|[Hp Ho]].
  - unfold go_bind. destruct (m s) as [o s'], (m' t) as [o' t']. simpl in *. subst o'.
    destruct o as [a| | | |]; try by left. by apply Hf.
  - right. assert (parted (m s).2 (go_bind f' m' t).2) as Hp'.
    { unfold go_bind. destruct (m' t) as [[a| | | |] t']; simpl in *; try done.
      by apply (sim_parted _ _ _ (Hf a)). }
    unfold go_bind at 1 3. destruct (m s) as [[a| | | |] s']; simpl in *;
      try (split; [done|]; intros E; by specialize (Ho E)).
    destruct stops eqn:E; [by specialize (Ho eq_refl)|]. split; [|done].
    by apply (sim_parted _ _ _ (Hf a)).
Qed.

(** Combinators that only look at the outcome. *)
Lemma sim_outcome {A B} (g : outcome A → outcome B) (c : GoM X B) (c' : GoM Y B) m m' :
  (∀ s, c s = (g (m s).1, (m s).2)) → (∀ t, c' t = (g (m' t).1, (m' t).2)) →
  g OutOfFuel = OutOfFuel → sim stops m m' → sim stops c c'.
Proof.
  intros Hc Hc' Hg Hm. split.
  - intros s t Hs. rewrite Hc, Hc'. simpl.
    destruct (sim_run _ _ _ Hm s t Hs) as [[-> Ht]|[Hp Ho]]; [by left|right].
    split; [done|]. intros E. by rewrite (Ho E).
  - split; intros; rewrite ?Hc, ?Hc'; by apply (sim_parted _ _ _ Hm).
  - split; intros; rewrite ?Hc, ?Hc'; by apply (sim_ahead _ _ _ Hm).
Qed.

Lemma sim_try {A} (m : GoM X A) m' : sim stops m m' → sim stops (go_try m) (go_try m').
Proof.
  apply (sim_outcome (λ o, match o with
    | Ret a => Ret (inr a) | Err e => Ret (inl e) | Panic p => Panic p | Fatal p => Fatal p
    | OutOfFuel => OutOfFuel end)); [..|done]; intros; unfold go_try; by destruct (_ _) as [[] ?].
Qed.

Lemma sim_wrap {A} f (m : GoM X A) m' : sim stops m m' → sim stops (go_wrap f m) (go_wrap f m').
Proof.
  apply (sim_outcome (λ o, match o with Err e => Err (f e) | o => o end)); [..|done];
    intros; unfold go_wrap; by destruct (_ _) as [[] ?].
Qed.

Lemma sim_ignore {A} (m : GoM X A) m' : sim stops m m' → sim stops (go_ignore m) (go_ignore m').
Proof. intros Hm. apply sim_bind; [by apply sim_try|]. intros a. apply sim_const. Qed.

Lemma closed_defer {A B} (R : X → Y → Prop) (d : GoM X B) (d' : GoM Y B) (m : GoM X A)
    (m' : GoM Y A) :
  closed stops R d d' → closed stops R m m' → closed stops R (go_defer d m) (go_defer d' m').
Proof.
  intros [Hdr Hdl] [Hr Hl]. split.
  - intros s t Hs. specialize (Hr s t Hs). unfold go_defer.
    destruct (m' t) as [o t']; simpl in *. specialize (Hdr s t' Hr).
    destruct o; try done; by destruct (d' t') as [[] ?].
  - intros E s t Hs. specialize (Hl E s t Hs). unfold go_defer.
    destruct (m s) as [o s']; simpl in *. specialize (Hdl E s' t Hl).
    destruct o; try done; by destruct (d s') as [[] ?].
Qed.

Lemma sim_defer {A B} (d : GoM X B) d' (m : GoM X A) m' :
  sim stops d d' → sim stops m m' → sim stops (go_defer d m) (go_defer d' m').
Proof.
  intros Hd Hm. split; [|apply closed_defer; [by apply Hd|by apply Hm]..].
  intros s t Hs. destruct (sim_run _ _ _ Hm s t Hs) as [[Ho Ht]|[Hp Ho]].
  - unfold go_defer. destruct (m s) as [o s'], (m' t) as [o' t']. simpl in *. subst o'.
    destruct (sim_run _ _ _ Hd s' t' Ht) as [[Ho' Ht']|[Hp Ho']].
    + destruct (d s') as [o1 s2], (d' t') as [o2 t2]. simpl in *. subst o2.
      destruct o; (by left) || (destruct o1; by left).
    + destruct (d s') as [o1 s2], (d' t') as [o2 t2]. simpl in *.
      destruct o; try (by left); right;
        (split; [by destruct o1, o2|intros E; by rewrite (Ho' E)]).
  - right. assert (parted (m s).2 (go_defer d' m' t).2) as Hp'.
    { unfold go_defer. destruct (m' t) as [o t']; simpl in *.
      pose proof (proj1 (sim_parted _ _ _ Hd) _ _ Hp).
      destruct o; try done; by destruct (d' t') as [[] ?]. }
    unfold go_defer at 1 3. destruct stops eqn:E.
    + destruct (m s) as [o s']. simpl in *. by rewrite (Ho eq_refl).
    + split; [|done]. destruct (m s) as [o s']. simpl in *.
      pose proof (proj2 (sim_parted _ _ _ Hd) eq_refl _ _ Hp') as Hl.
      destruct o; try done; by destruct (d s') as [[] ?].
Qed.

(** A computation that leaves the systems alone. *)
Lemma sim_inert {A} (m : GoM X A) (m' : GoM Y A) :
  (∀ s t, sync s t → (m s).1 = (m' t).1 ∧ sync (m s).2 (m' t).2) →
  (∀ s t, (parted s (m' t).2 ↔ parted s t) ∧ (parted (m s).2 t ↔ parted s t)) →
  (∀ s t, (ahead s (m' t).2 ↔ ahead s t) ∧ (ahead (m s).2 t ↔ ahead s t)) →
  sim stops m m'.
Proof.
  intros Hs Hp Ha. split; [intros s t ?; left; by apply Hs|..].
  - split; [intros s t|intros _ s t]; apply Hp.
  - split; [intros s t|intros _ s t]; apply Ha.
Qed.

(** On a part of the state. *)
Lemma sim_zoom {V W A} `{Pairing V W} (get : X → V) (set : V → X → X) (get' : Y → W)
    (set' : W → Y → Y) (m : GoM V A) m' :
  (∀ s t, sync s t → sync (get s) (get' t)) →
  (∀ s t (v : V) (v' : W), sync s t → (sync v v' → sync (set v s) (set' v' t)) ∧
                          (parted v v' → parted (set v s) (set' v' t))) →
  (∀ s t (v' : W),
     (parted (get s) (get' t) → parted (get s) v') → (ahead (get s) (get' t) → ahead (get s) v') →
     (parted s t → parted s (set' v' t)) ∧ (ahead s t → ahead s (set' v' t))) →
  (∀ s t (v : V),
     (parted (get s) (get' t) → parted v (get' t)) → (ahead (get s) (get' t) → ahead v (get' t)) →
     (parted s t → parted (set v s) t) ∧ (ahead s t → ahead (set v s) t)) →
  sim stops m m' → sim stops (go_zoom get set m) (go_zoom get' set' m').
Proof.
  intros Hget Hset Hright Hleft Hm.
  assert (∀ s t, (parted s t → parted s (go_zoom get' set' m' t).2) ∧
                 (ahead s t → ahead s (go_zoom get' set' m' t).2)) as Hr.
  { intros s t. pose proof (proj1 (sim_parted _ _ _ Hm) (get s) (get' t)).
    pose proof (proj1 (sim_ahead _ _ _ Hm) (get s) (get' t)).
    unfold go_zoom. destruct (m' (get' t)) as [o v']. by eapply Hright. }
  assert (∀ s t, stops = false → (parted s t → parted (go_zoom get set m s).2 t) ∧
                 (ahead s t → ahead (go_zoom get set m s).2 t)) as Hl.
  { intros s t E. pose proof (proj2 (sim_parted _ _ _ Hm) E (get s) (get' t)).
    pose proof (proj2 (sim_ahead _ _ _ Hm) E (get s) (get' t)).
    unfold go_zoom. destruct (m (get s)) as [o v]. by eapply Hleft. }
  split; [|split; [intros; by apply Hr|intros; by apply Hl]..].
  intros s t Hs. pose proof (sim_run _ _ _ Hm _ _ (Hget s t Hs)) as Hrun. unfold go_zoom.
  destruct (m (get s)) as [o v], (m' (get' t)) as [o' v']. simpl in *.
  destruct (Hset s t v v' Hs) as [H1 H2].
  destruct Hrun as [[-> Hv]|[Hv Ho]]; [left|right]; auto.
Qed.
End sim.

(** The step of the proofs: both sides are the same code. *)
Create HintDb sim.

Ltac sim_step :=
  lazymatch goal with
  | |- sim _ (go_ret _) _ => apply sim_const
  | |- sim _ (mret _) _ => apply sim_const
  | |- sim _ (go_err _) _ => apply sim_const
  | |- sim _ (go_panic _) _ => apply sim_const
  | |- sim _ (go_fatal _) _ => apply sim_const
  | |- sim _ go_diverge _ => apply sim_const
  | |- sim _ (go_lift _) _ => apply sim_const
  | |- sim _ (mbind _ _) _ => apply sim_bind; [|intros ?]
  | |- sim _ (go_bind _ _) _ => apply sim_bind; [|intros ?]
  | |- sim _ (go_try _) _ => apply sim_try
  | |- sim _ (go_wrap _ _) _ => apply sim_wrap
  | |- sim _ (go_defer _ _) _ => apply sim_defer
  | |- sim _ (go_ignore _) _ => apply sim_ignore
  | |- sim _ (match ?x with _ => _ end) _ => destruct x
  | |- sim _ _ _ => first [solve [eauto with sim nocore] | progress autounfold with sim]
  end.
Ltac sim_solve := repeat sim_step.

(** * Every function of the program, given the calls *)

Class EngineSim (stops : bool) (DB DB' : Type) `{SqlEngine DB, SqlEngine DB', Pairing DB DB'}
    : Prop := {
  sim_exec st : sim stops (db_exec (DB := DB) st) (db_exec (DB := DB') st);
  sim_query q : sim stops (db_query (DB := DB) q) (db_query (DB := DB') q);
}.

Class KernelSim (stops : bool) (OS OS' : Type) `{Kernel OS, Kernel OS', Pairing OS OS'}
    : Prop := {
  sim_os_Lstat p : sim stops (os_Lstat (OS := OS) p) (os_Lstat (OS := OS') p);
  sim_os_Mkdir p mode : sim stops (os_Mkdir (OS := OS) p mode) (os_Mkdir (OS := OS') p mode);
  sim_os_Open p : sim stops (os_Open (OS := OS) p) (os_Open (OS := OS') p);
  sim_os_Readlink p : sim stops (os_Readlink (OS := OS) p) (os_Readlink (OS := OS') p);
  sim_os_Remove p : sim stops (os_Remove (OS := OS) p) (os_Remove (OS := OS') p);
  sim_os_Rename p q : sim stops (os_Rename (OS := OS) p q) (os_Rename (OS := OS') p q);
  sim_os_TempFile dir prefix :
    sim stops (os_TempFile (OS := OS) dir prefix) (os_TempFile (OS := OS') dir prefix);
  sim_file_Read f n : sim stops (file_Read (OS := OS) f n) (file_Read (OS := OS') f n);
  sim_file_ReadAt f n off : sim stops (file_ReadAt (OS := OS) f n off) (file_ReadAt (OS := OS') f n off);
  sim_file_Write f data : sim stops (file_Write (OS := OS) f data) (file_Write (OS := OS') f data);
  sim_file_Readdir f : sim stops (file_Readdir (OS := OS) f) (file_Readdir (OS := OS') f);
  sim_file_Close f : sim stops (file_Close (OS := OS) f) (file_Close (OS := OS') f);
}.
#[local] Hint Resolve sim_os_Lstat sim_os_Mkdir sim_os_Open sim_os_Readlink sim_os_Remove
  sim_os_Rename sim_os_TempFile sim_file_Read sim_file_ReadAt sim_file_Write sim_file_Readdir
  sim_file_Close : sim.

Section database.
Context (stops : bool) {DB DB' : Type} `{EngineSim stops DB DB', Fuel}.
#[local] Hint Unfold waitOrErr Exec Query RetryExec RetryQueryRow row_Scan Scan : sim.
#[local] Hint Unfold GetDirEntries GetFullEntry resultToInode putNew putNewOrUpdate
  PutNewWithType PutNewNoEntry PutNewOrUpdateWithType PutNewOrUpdateNoEntry
  checkUpdateAffectedOneRow PutFileInfo PutContentHash PutSymlinkTarget putOneDirEntry
  PutDirEntries : sim.

Lemma sim_on_db {A} (m : GoM DB A) (m' : GoM DB' A) :
  sim stops m m' → sim stops (on_db m) (on_db m').
Proof.
  apply (sim_zoom (X := Conn DB) (Y := Conn DB') stops (V := DB) (W := DB')); simpl; try done.
  - by intros s t [? ?].
  - intros s t v v' [? ?]. by split.
Qed.
Lemma sim_exec_conn st : sim stops (on_db (db_exec (DB := DB) st)) (on_db (db_exec (DB := DB') st)).
Proof. apply sim_on_db, sim_exec. Qed.
Lemma sim_query_conn q : sim stops (on_db (db_query (DB := DB) q)) (on_db (db_query (DB := DB') q)).
Proof. apply sim_on_db, sim_query. Qed.
Lemma sim_Int63n n : sim stops (Int63n (DB := DB) n) (Int63n (DB := DB') n).
Proof. apply sim_inert; simpl; [|done..]. intros s t [? Hrt]. unfold Int63n. by rewrite Hrt. Qed.
Lemma sim_Sleep d : sim stops (Sleep (DB := DB) d) (Sleep (DB := DB') d).
Proof. apply sim_inert; simpl; [|done..]. intros s t [? Hrt]. unfold Sleep. by rewrite Hrt. Qed.
#[local] Hint Resolve sim_exec_conn sim_query_conn sim_Int63n sim_Sleep : sim.

Lemma sim_retry_loop {A} fuel (m : GoM (Conn DB) A) (m' : GoM (Conn DB') A) delay :
  sim stops m m' → sim stops (retry_loop fuel m delay) (retry_loop fuel m' delay).
Proof. intros Hm. revert delay. induction fuel as [|fuel IH]; intros delay; simpl; sim_solve. Qed.

Ltac database_solve := repeat first [sim_step | apply sim_retry_loop].

Lemma sim_GetDirEntries inode m :
  sim stops (GetDirEntries (DB := DB) inode m) (GetDirEntries (DB := DB') inode m).
Proof. database_solve. Qed.
Lemma sim_GetFullEntry path :
  sim stops (GetFullEntry (DB := DB) path) (GetFullEntry (DB := DB') path).
Proof. database_solve. Qed.
Lemma sim_PutNewWithType path mode :
  sim stops (PutNewWithType (DB := DB) path mode) (PutNewWithType (DB := DB') path mode).
Proof. database_solve. Qed.
Lemma sim_PutNewNoEntry path :
  sim stops (PutNewNoEntry (DB := DB) path) (PutNewNoEntry (DB := DB') path).
Proof. database_solve. Qed.
Lemma sim_PutNewOrUpdateWithType path mode :
  sim stops (PutNewOrUpdateWithType (DB := DB) path mode)
    (PutNewOrUpdateWithType (DB := DB') path mode).
Proof. database_solve. Qed.
Lemma sim_PutNewOrUpdateNoEntry path :
  sim stops (PutNewOrUpdateNoEntry (DB := DB) path) (PutNewOrUpdateNoEntry (DB := DB') path).
Proof. database_solve. Qed.
Lemma sim_PutFileInfo inode fi :
  sim stops (PutFileInfo (DB := DB) inode fi) (PutFileInfo (DB := DB') inode fi).
Proof. database_solve. Qed.
Lemma sim_PutContentHash inode h :
  sim stops (PutContentHash (DB := DB) inode h) (PutContentHash (DB := DB') inode h).
Proof. database_solve. Qed.
Lemma sim_PutSymlinkTarget inode t :
  sim stops (PutSymlinkTarget (DB := DB) inode t) (PutSymlinkTarget (DB := DB') inode t).
Proof. database_solve. Qed.

Lemma sim_putDirEntries_loop path entries :
  sim stops (putDirEntries_loop (DB := DB) path entries)
    (putDirEntries_loop (DB := DB') path entries).
Proof. induction entries as [|e entries IH]; simpl; database_solve. Qed.
#[local] Hint Resolve sim_putDirEntries_loop : sim.

Lemma sim_PutDirEntries inode path entries :
  sim stops (PutDirEntries (DB := DB) inode path entries)
    (PutDirEntries (DB := DB') inode path entries).
Proof. database_solve. Qed.
End database.

#[local] Hint Resolve sim_GetDirEntries sim_GetFullEntry sim_PutNewWithType sim_PutNewNoEntry
  sim_PutNewOrUpdateWithType sim_PutNewOrUpdateNoEntry sim_PutFileInfo sim_PutContentHash
  sim_PutSymlinkTarget sim_PutDirEntries : sim.

Section world.
Context (stops : bool) {OS OS' DB DB' : Type} `{KernelSim stops OS OS', EngineSim stops DB DB', Fuel}.
Abbreviation W := (World OS DB).
Abbreviation W' := (World OS' DB').

Lemma sim_on_stats {A} (m : GoM Stats A) :
  sim stops (on_stats (OS := OS) (DB := DB) m) (on_stats (OS := OS') (DB := DB') m).
Proof.
  apply (sim_inert (X := W) (Y := W')); simpl.
  - intros s t (Hs & ? & ?). unfold on_stats, go_zoom. rewrite Hs.
    by destruct (m (w_stats t)).
  - intros s t. unfold on_stats, go_zoom.
    by destruct (m (w_stats s)), (m (w_stats t)).
  - intros s t. unfold on_stats, go_zoom.
    by destruct (m (w_stats s)), (m (w_stats t)).
Qed.

Lemma sim_on_os {A} (m : GoM OS A) m' :
  sim stops m m' → sim stops (on_os (DB := DB) m) (on_os (DB := DB') m').
Proof.
  apply (sim_zoom (X := W) (Y := W') stops (V := OS) (W := OS')); simpl.
  - by intros s t (_ & ? & _).
  - intros s t v v' (? & ? & Hc). split; [done|]. intros ?. left. split; [done|]. apply sync_ahead, Hc.
  - naive_solver.
  - naive_solver.
Qed.

Lemma sim_on_conn {A} (m : GoM (Conn DB) A) m' :
  sim stops m m' → sim stops (on_conn (OS := OS) m) (on_conn (OS := OS') m').
Proof.
  apply (sim_zoom (X := W) (Y := W') stops (V := Conn DB) (W := Conn DB')); simpl.
  - by intros s t (_ & _ & ?).
  - intros s t v v' (? & ? & ?). split; [done|]. intros ?. right. split; [|done]. by apply sync_ahead.
  - naive_solver.
  - naive_solver.
Qed.

Lemma sim_on_world {N A} (m : GoM W A) (m' : GoM W' A) :
  sim stops m m' → sim stops (on_world (N := N) m) (on_world m').
Proof.
  apply (sim_zoom (X := N * W) (Y := N * W') stops (V := W) (W := W')); [by intros s t []| |done|done].
  intros s t v v' []. split; [by split|done].
Qed.

Lemma sim_on_node {N A} (m : GoM N A) :
  sim stops (on_node (OS := OS) (DB := DB) m) (on_node (OS := OS') (DB := DB') m).
Proof.
  apply (sim_inert (X := N * W) (Y := N * W')); unfold on_node, go_zoom.
  - intros s t [Hs Hw]. rewrite Hs. by destruct (m t.1).
  - intros s t. by destruct (m s.1), (m t.1).
  - intros s t. by destruct (m s.1), (m t.1).
Qed.
End world.

#[local] Hint Resolve sim_on_stats sim_on_node : sim.
#[local] Hint Unfold metadata get_node set_node AccountHit AccountMiss AccountDir : sim.
#[local] Hint Unfold tr_Close account_read tr_Read tr_ReadAt tr_Readdir Lstat Mkdir Open Readlink
  Rename Remove : sim.

Ltac world_step :=
  lazymatch goal with
  | |- sim _ (on_world _) _ => apply sim_on_world
  | |- sim _ (on_conn _) _ => apply sim_on_conn
  | |- sim _ (on_os _) _ => apply sim_on_os
  | _ => sim_step
  end.
Ltac world_solve := repeat world_step.

Section content.
Context (stops : bool) {OS OS' DB DB' : Type} `{KernelSim stops OS OS', EngineSim stops DB DB', Fuel}.
#[local] Hint Unfold HasKey GetFileForContents copy2 store_temp fetch PutContents : sim.

Lemma sim_copy2_loop fuel dst1 src h written :
  sim stops (copy2_loop (OS := OS) (DB := DB) fuel dst1 src h written)
    (copy2_loop (OS := OS') (DB := DB') fuel dst1 src h written).
Proof.
  revert h written. induction fuel as [|fuel IH]; intros h written; simpl; world_solve; auto.
Qed.
#[local] Hint Resolve sim_copy2_loop : sim.

Lemma sim_PutContents cache path :
  sim stops (PutContents (OS := OS) (DB := DB) cache path)
    (PutContents (OS := OS') (DB := DB') cache path).
Proof. world_solve. Qed.

Lemma sim_GetFileForContents cache key :
  sim stops (GetFileForContents (OS := OS) (DB := DB) cache key)
    (GetFileForContents (OS := OS') (DB := DB') cache key).
Proof. world_solve. Qed.
End content.

#[local] Hint Resolve sim_PutContents sim_GetFileForContents : sim.

Section handlers.
Context (stops : bool) {OS OS' DB DB' : Type} `{KernelSim stops OS OS', EngineSim stops DB DB', Fuel}.
Abbreviation W := (World OS DB).
Abbreviation W' := (World OS' DB').
Context (globals : globalState).
#[local] Hint Unfold remember store_listing load_listing list_dirents store_hash store_target : sim.

Lemma sim_putAndGetRow path mode :
  sim stops (putAndGetRow (OS := OS) (DB := DB) globals path mode)
    (putAndGetRow (OS := OS') (DB := DB') globals path mode).
Proof. unfold putAndGetRow. world_solve. Qed.
#[local] Hint Resolve sim_putAndGetRow : sim.

Lemma sim_rootNode remotedir :
  sim stops (rootNode (OS := OS) (DB := DB) globals remotedir)
    (rootNode (OS := OS') (DB := DB') globals remotedir).
Proof. unfold rootNode. world_solve. Qed.

Lemma sim_commonAttr inode direct belowPath :
  sim stops (commonAttr (OS := OS) (DB := DB) inode direct belowPath)
    (commonAttr (OS := OS') (DB := DB') inode direct belowPath).
Proof. unfold commonAttr. world_solve. Qed.
#[local] Hint Resolve sim_commonAttr : sim.

(** The attributes of a node, which are a part of its data. *)
Lemma sim_attr {N A} (get : N → option FileInfo) (set : option FileInfo → N → N)
    (m : GoM (option FileInfo * W) A) (m' : GoM (option FileInfo * W') A) :
  sim stops m m' →
  sim stops (go_zoom (λ s, (get s.1, s.2)) (λ '(fi, w) s, (set fi s.1, w)) m : GoM (N * W) A)
    (go_zoom (λ s, (get s.1, s.2)) (λ '(fi, w) s, (set fi s.1, w)) m' : GoM (N * W') A).
Proof.
  apply (sim_zoom (X := N * W) (Y := N * W') stops (V := option FileInfo * W)
    (W := option FileInfo * W')).
  - intros [n w] [n' w'] [Hn Hw]. simpl in Hn. subst n'. by split.
  - intros [n w] [n' w'] [fi v] [fi' v'] [Hn Hw]. simpl in Hn. subst n'. split; [|done].
    intros [Hfi Hv]. simpl in Hfi. subst fi'. by split.
  - by intros [n w] [n' w'] [fi' v'].
  - by intros [n w] [n' w'] [fi v].
Qed.

Lemma sim_Dir_Attr :
  sim stops (Dir_Attr (OS := OS) (DB := DB)) (Dir_Attr (OS := OS') (DB := DB')).
Proof.
  unfold Dir_Attr. sim_solve. apply (sim_attr (λ d, dd_fileInfo (dir_data d))
    (λ fi d, set_dir_data (set_dd_fileInfo fi (dir_data d)) d)). sim_solve.
Qed.
Lemma sim_File_Attr :
  sim stops (File_Attr (OS := OS) (DB := DB)) (File_Attr (OS := OS') (DB := DB')).
Proof.
  unfold File_Attr. sim_solve. apply (sim_attr (λ f, fd_fileInfo (file_data f))
    (λ fi f, set_file_data (set_fd_fileInfo fi (file_data f)) f)). sim_solve.
Qed.
Lemma sim_Symlink_Attr :
  sim stops (Symlink_Attr (OS := OS) (DB := DB)) (Symlink_Attr (OS := OS') (DB := DB')).
Proof.
  unfold Symlink_Attr. sim_solve. apply (sim_attr (λ l, ld_fileInfo (link_data l))
    (λ fi l, set_link_data (set_ld_fileInfo fi (link_data l)) l)). sim_solve.
Qed.
Lemma sim_Lookup name :
  sim stops (Lookup (OS := OS) (DB := DB) globals name) (Lookup (OS := OS') (DB := DB') globals name).
Proof. unfold Lookup. cbv zeta. world_solve. Qed.
Lemma sim_ReadDirAll :
  sim stops (ReadDirAll (OS := OS) (DB := DB)) (ReadDirAll (OS := OS') (DB := DB')).
Proof. unfold ReadDirAll. cbv zeta. world_solve. Qed.
Lemma sim_File_Open :
  sim stops (File_Open (OS := OS) (DB := DB) globals) (File_Open (OS := OS') (DB := DB') globals).
Proof. unfold File_Open. cbv zeta. world_solve. Qed.
Lemma sim_openFile_Read size offset :
  sim stops (openFile_Read (OS := OS) (DB := DB) size offset)
    (openFile_Read (OS := OS') (DB := DB') size offset).
Proof. unfold openFile_Read. cbv zeta. world_solve. Qed.
Lemma sim_openFile_Release :
  sim stops (openFile_Release (OS := OS) (DB := DB)) (openFile_Release (OS := OS') (DB := DB')).
Proof. unfold openFile_Release. cbv zeta. world_solve. Qed.
Lemma sim_Symlink_Readlink :
  sim stops (Symlink_Readlink (OS := OS) (DB := DB)) (Symlink_Readlink (OS := OS') (DB := DB')).
Proof. unfold Symlink_Readlink. cbv zeta. world_solve. Qed.
End handlers.

#[local] Hint Resolve sim_Dir_Attr sim_File_Attr sim_Symlink_Attr sim_Lookup
  sim_ReadDirAll sim_File_Open sim_openFile_Read sim_openFile_Release sim_Symlink_Readlink : sim.
#[local] Hint Unfold on_dir on_file on_link : sim.

Section session.
Context (stops : bool) {OS OS' DB DB' : Type} `{KernelSim stops OS OS', EngineSim stops DB DB', Fuel}.
Abbreviation S := (Session OS DB).
Abbreviation S' := (Session OS' DB').
Context (globals : globalState).

(** A handler of a node or a handle, which works on the world of the session. *)
Lemma sim_of_world {N A} (c : GoM S A) (c' : GoM S' A) (m : GoM (N * World OS DB) A) m' :
  sim stops m m' →
  (∀ s t, sync s t → ((c s).1 = (c' t).1 ∧ sync (c s).2 (c' t).2) ∨
     ∃ n, (sync (m (n, ss_world s)).2 (m' (n, ss_world t)).2 → (m (n, ss_world s)).1 = (m' (n, ss_world t)).1 →
           (c s).1 = (c' t).1 ∧ sync (c s).2 (c' t).2) ∧
          ss_world (c s).2 = (m (n, ss_world s)).2.2 ∧ ss_world (c' t).2 = (m' (n, ss_world t)).2.2 ∧
          (c s).1 = (m (n, ss_world s)).1) →
  (∀ s, ss_world (c s).2 = ss_world s ∨ ∃ n, ss_world (c s).2 = (m (n, ss_world s)).2.2) →
  (∀ t, ss_world (c' t).2 = ss_world t ∨ ∃ n, ss_world (c' t).2 = (m' (n, ss_world t)).2.2) →
  sim stops c c'.
Proof.
  intros Hm Hrun Hc Hc'.
  assert (∀ s t, (parted s t → parted s (c' t).2) ∧ (ahead s t → ahead s (c' t).2)) as Hr.
  { intros s t. destruct (Hc' t) as [E|[n E]]; simpl; rewrite E; [done|]. split.
    - apply (proj1 (sim_parted _ _ _ Hm) (n, ss_world s) (n, ss_world t)).
    - apply (proj1 (sim_ahead _ _ _ Hm) (n, ss_world s) (n, ss_world t)). }
  assert (∀ s t, stops = false → (parted s t → parted (c s).2 t) ∧ (ahead s t → ahead (c s).2 t)) as Hl.
  { intros s t Hst. destruct (Hc s) as [E|[n E]]; simpl; rewrite E; [done|]. split.
    - apply (proj2 (sim_parted _ _ _ Hm) Hst (n, ss_world s) (n, ss_world t)).
    - apply (proj2 (sim_ahead _ _ _ Hm) Hst (n, ss_world s) (n, ss_world t)). }
  split; [|split; [intros s t; apply Hr|intros Hst s t; by apply Hl]..].
  intros s t Hs. destruct (Hrun s t Hs) as [?|(n & Hsync & Ew & Ew' & Eo)]; [by left|].
  destruct (sim_run _ _ _ Hm (n, ss_world s) (n, ss_world t)) as [[Ho Ht]|[Hp Ho]].
  - split; [done|]. apply Hs.
  - left. by apply Hsync.
  - right. rewrite Eo. split; [|done]. unfold parted. simpl. by rewrite Ew, Ew'.
Qed.

Lemma sim_on_node_at {N A} i (select : Node → option N) wrap (m : GoM (N * World OS DB) A) m' :
  sim stops m m' →
  sim stops (on_node_at i select wrap m : GoM S A) (on_node_at i select wrap m' : GoM S' A).
Proof.
  intros Hm. apply (sim_of_world _ _ _ _ Hm).
  - intros s t (Hw & Hn & Hf & Hx). unfold on_node_at. rewrite Hn.
    destruct (n ← ss_nodes t !! i; select n) as [n|]; [right; exists n|by left].
    destruct (m (n, ss_world s)) as [o [n1 w1]], (m' (n, ss_world t)) as [o' [n2 w2]]. simpl.
    split_and!; [|done..]. intros [Hn' Hw'] ->. simpl in Hn'. subst n2. by split.
  - intros s. unfold on_node_at. destruct (n ← ss_nodes s !! i; select n) as [n|]; [right|by left].
    exists n. by destruct (m (n, ss_world s)) as [o [n1 w1]].
  - intros t. unfold on_node_at. destruct (n ← ss_nodes t !! i; select n) as [n|]; [right|by left].
    exists n. by destruct (m' (n, ss_world t)) as [o [n1 w1]].
Qed.

Lemma sim_on_handle {A} h (m : GoM (openFile * World OS DB) A) m' :
  sim stops m m' → sim stops (on_handle h m : GoM S A) (on_handle h m' : GoM S' A).
Proof.
  intros Hm. apply (sim_of_world _ _ _ _ Hm).
  - intros s t (Hw & Hn & Hf & Hx). unfold on_handle. rewrite Hf.
    destruct (ss_files t !! h) as [f|]; [right; exists f|by left].
    destruct (m (f, ss_world s)) as [o [n1 w1]], (m' (f, ss_world t)) as [o' [n2 w2]]. simpl.
    split_and!; [|done..]. intros [Hn' Hw'] ->. simpl in Hn'. subst n2. by split.
  - intros s. unfold on_handle. destruct (ss_files s !! h) as [f|]; [right|by left].
    exists f. by destruct (m (f, ss_world s)) as [o [n1 w1]].
  - intros t. unfold on_handle. destruct (ss_files t !! h) as [f|]; [right|by left].
    exists f. by destruct (m' (f, ss_world t)) as [o [n1 w1]].
Qed.

(** A change of the session that leaves the world alone. *)
Lemma sim_session {A} (c : GoM S A) (c' : GoM S' A) :
  (∀ s t, sync s t → (c s).1 = (c' t).1 ∧ sync (c s).2 (c' t).2) →
  (∀ s, ss_world (c s).2 = ss_world s) → (∀ t, ss_world (c' t).2 = ss_world t) →
  sim stops c c'.
Proof.
  intros Hs Hc Hc'. apply sim_inert; [done|intros s t; simpl; by rewrite Hc, Hc'..].
Qed.

Ltac session_solve :=
  apply sim_session; [|done|done];
  intros s t (Hw & Hn & Hf & Hx); split; [simpl; by rewrite ?Hx|];
  simpl; rewrite ?Hn, ?Hf, ?Hx; by split.

Lemma sim_add_node n : sim stops (add_node n : GoM S nat) (add_node n : GoM S' nat).
Proof. session_solve. Qed.
Lemma sim_add_file f : sim stops (add_file f : GoM S nat) (add_file f : GoM S' nat).
Proof. session_solve. Qed.
Lemma sim_forget i :
  sim stops (go_modify (λ s : S, set_nodes (delete i (ss_nodes s)) s))
    (go_modify (λ s : S', set_nodes (delete i (ss_nodes s)) s)).
Proof. session_solve. Qed.
Lemma sim_close h :
  sim stops (go_modify (λ s : S, set_files (delete h (ss_files s)) s))
    (go_modify (λ s : S', set_files (delete h (ss_files s)) s)).
Proof. session_solve. Qed.

(** The handler depends on the kind of the node, which is the same on both sides. *)
Lemma sim_serve_attr i :
  sim stops (serve_attr i : GoM S Attr) (serve_attr i : GoM S' Attr).
Proof.
  assert (sim stops (on_dir i Dir_Attr : GoM S Attr) (on_dir i Dir_Attr : GoM S' Attr)) as Hd
    by (apply sim_on_node_at, sim_Dir_Attr; apply _).
  assert (sim stops (on_file i File_Attr : GoM S Attr) (on_file i File_Attr : GoM S' Attr)) as Hf
    by (apply sim_on_node_at, sim_File_Attr; apply _).
  assert (sim stops (on_link i Symlink_Attr : GoM S Attr) (on_link i Symlink_Attr : GoM S' Attr))
    as Hl by (apply sim_on_node_at, sim_Symlink_Attr; apply _).
  split; [|split; [intros s t|intros Hst s t]..]; unfold serve_attr.
  - intros s t Hs. destruct (Hs) as (_ & -> & _).
    destruct (ss_nodes t !! i) as [[]|]; [by apply Hd|by apply Hf|by apply Hl|by left].
  - destruct (ss_nodes t !! i) as [[]|]; [apply Hd|apply Hf|apply Hl|done].
  - destruct (ss_nodes s !! i) as [[]|]; [by apply Hd|by apply Hf|by apply Hl|done].
  - destruct (ss_nodes t !! i) as [[]|]; [apply Hd|apply Hf|apply Hl|done].
  - destruct (ss_nodes s !! i) as [[]|]; [by apply Hd|by apply Hf|by apply Hl|done].
Qed.
#[local] Hint Resolve sim_serve_attr sim_add_node sim_add_file sim_forget sim_close : sim.

Ltac session_step :=
  lazymatch goal with
  | |- sim _ (on_node_at _ _ _ _) _ => apply sim_on_node_at
  | |- sim _ (on_handle _ _) _ => apply sim_on_handle
  | _ => sim_step
  end.

(** Every request makes the same calls on both systems until their answers differ. *)
Lemma sim_serve r : sim stops (serve globals r : GoM S Reply) (serve globals r : GoM S' Reply).
Proof. unfold serve. repeat session_step. Qed.
End session.

(** * What the calls keep, the program keeps *)

(** What the prepared statements keep, the program keeps: its run on a database is the run on one
    of which that is asserted. *)
Section kept.
Context {OS DB : Type} `{Kernel OS, SqlEngine DB, !Fuel} (I : DB → Prop).
Context (exec_keeps : ∀ st d, I d → I (db_exec st d).2) (query_keeps : ∀ q d, I d → I (db_query q d).2).
Abbreviation the_db w := (c_db (w_conn w)).

#[local, refine] Instance same_os : Pairing OS OS :=
  {| sync s t := s = t; parted _ _ := False; ahead _ _ := True |}.
Proof. done. Defined.
#[local, refine] Instance kept_db : Pairing DB DB :=
  {| sync d d' := d = d' ∧ I d; parted _ _ := False; ahead _ _ := True |}.
Proof. done. Defined.

#[local] Instance same_kernel : KernelSim true OS OS.
Proof. split; intros; (split; [intros s t ->; by left|by split..]). Qed.
#[local] Instance kept_engine : EngineSim true DB DB.
Proof.
  split; intros; (split; [|by split..]); intros d d' [-> Hd]; left; (split; [done|]);
    (split; [done|]); [by apply exec_keeps|by apply query_keeps].
Qed.

Lemma rootNode_keeps globals remotedir (w : World OS DB) :
  I (the_db w) → I (the_db (rootNode globals remotedir w).2).
Proof.
  intros Hw. pose proof (sim_rootNode true (OS := OS) (OS' := OS) (DB := DB) (DB' := DB) globals remotedir)
    as Hm.
  destruct (sim_run _ _ _ Hm w w) as [[_ (_ & _ & [[_ Hv] _])]|[[[[] _]|[_ []]] _]];
    [by repeat split|done].
Qed.

Lemma serve_keeps globals r (s : Session OS DB) :
  I (the_db (ss_world s)) → I (the_db (ss_world (serve globals r s).2)).
Proof.
  intros Hw. pose proof (sim_serve true (OS := OS) (OS' := OS) (DB := DB) (DB' := DB) globals r) as Hm.
  destruct (sim_run _ _ _ Hm s s) as [[_ [(_ & _ & [[_ Hv] _]) _]]|[[[[] _]|[_ []]] _]];
    [by repeat split|done].
Qed.
End kept.
