(* ===== verification/SessionProofs.v ===== *)
(** The file system refines the abstract one: the relation between their states, and that every
    request and every remount preserves it. *)
From S2P Require Import Prelude GoStrings GoPath Stats Types DirEntries Sql Sqlite Kernel.
From S2P Require Import Syscalls Metadata MetadataSpec MetadataProps WorldPost Md5 Content.
From S2P Require Import ContentProps Fs FsLogic FsProps FsTermination Remote Coherence Growth.
From S2P Require Import HandlerLogic Served NodeServed Session Requests.
#[local] Open Scope Z_scope.

#[local] Arguments Join : simpl never.

Section proofs.
Context {OS DB : Type} `{KernelLaws OS, !RemoteView OS, !RemoteLaws OS, SqlLaws DB, !Fuel}.
Context (globals : globalState) (rs : list string) (tree : string → option rnode)
  (rr : list string) (known : bytes → Prop).
Context (Hsetup : setup_ok (OS := OS) globals rs tree rr known).
Abbreviation W := (World OS DB).
Abbreviation S := (Session OS DB).
Abbreviation at_ := (tree_at tree rr).
Abbreviation map_t := (gmap string CachedRow).
Abbreviation served := (Served.served rs tree rr known).
Abbreviation world_ok := (Served.world_ok rs tree rr known).
Abbreviation node_ok := (node_ok globals tree rr).
Abbreviation protocol := (sequential_protocol globals rs tree rr known Hsetup).

(** A handler that runs alone, by the lemma on it. *)
Tactic Notation "alone" uconstr(law) :=
  apply (served_alone globals rs tree rr known Hsetup);
  eapply law; try apply _; [by apply (su_tree _ _ _ _ _ Hsetup)|by apply world_ok_alone|done..].

(** Releasing a handle: its descriptor is no longer pinned. *)
Lemma openFile_Release_served m pinned h c (w : W) :
  world_ok m pinned w → handle_on h c pinned →
  ∃ rd, of_reader h = Some rd ∧
    served m (delete (f_fd (tr_file rd)) pinned) (λ _ _ h' _, of_reader h' = None) (λ _ _ h', h' = h)
      (openFile_Release (h, w)).
Proof.
  intros [Hs [[Ht Hp] Hc] Hd] (rd & Hrd & Hdom & Hfd). exists rd. split; [done|].
  set (fd := f_fd (tr_file rd)). apply (served_alone globals rs tree rr known Hsetup).
  unfold openFile_Release. apply served_get. rewrite Hrd.
  eapply served_bind; [apply served_Close with (E := λ _ _ h', h' = h)|].
  - split; [done|]. split; [|done]. split; [|by apply lookup_delete_eq].
    split; [|done]. split; [done|]. etrans; [apply delete_subseteq|done].
  - rewrite Hdom. by left.
  - done.
  - intros m' u h' w2 Hle Hw2 [-> ->]. by apply served_ret.
Qed.

Record session_ok (m : map_t) (pinned : gmap Z bytes) (Σ : Spec) (s : S) : Prop := {
  so_world : world_ok m pinned (ss_world s);
  so_tables : tables_ok globals tree rr m pinned Σ (ss_nodes s) (ss_files s);
  so_next : fresh_from (ss_next s) (ss_nodes s) (ss_files s);
  so_inodes : sp_inodes Σ = inodes_of m;
}.

(** The file system in state [s] is the abstract one in state [Σ]. *)
Definition refines (s : S) (Σ : Spec) : Prop := ∃ m pinned, session_ok m pinned Σ s.

(** A request was answered as the abstract file system answers it. *)
Definition step_ok (Σ : Spec) (r : Request) (res : outcome Reply * S) : Prop :=
  ∃ Σ', spec_step tree rr Σ (EvServe r res.1) Σ' ∧ refines res.2 Σ'.

Lemma session_node m pinned Σ s i nd :
  session_ok m pinned Σ s → ss_nodes s !! i = Some nd →
  ∃ cs, sp_nodes Σ !! i = Some cs ∧ node_ok m cs nd.
Proof.
  intros [_ Ht _ _] Hnd. destruct (map_Forall2_lookup_r _ _ _ _ _ (tb_nodes _ _ _ _ _ _ _ _ Ht) Hnd)
    as (cs & ? & ?). by exists cs.
Qed.

Lemma session_file m pinned Σ s h f :
  session_ok m pinned Σ s → ss_files s !! h = Some f →
  ∃ c, sp_handles Σ !! h = Some c ∧ handle_on f c pinned.
Proof.
  intros [_ Ht _ _] Hf. destruct (map_Forall2_lookup_r _ _ _ _ _ (tb_files _ _ _ _ _ _ _ _ Ht) Hf)
    as (c & ? & ?). by exists c.
Qed.

(** What is pinned for a handle shown by the kernel. *)
Lemma os_ok_pins pinned pinned' (s : OS) :
  os_ok rs tree known pinned s → pins_added (seq_shows pinned s) pinned pinned' →
  os_ok rs tree known pinned' s.
Proof.
  intros [[Ht Hp] Hc] [_ Hadd]. split; [|done]. split; [done|]. apply map_subseteq_spec. intros fd c Hfd.
  destruct (Hadd _ _ Hfd) as [Hold|(f & <- & Hshow & _)]; [by eapply lookup_weaken|done].
Qed.

Lemma handles_return size off h (w : W) :
  (openFile_Read size off (h, w)).1 ≠ OutOfFuel ∧ (openFile_Release (h, w)).1 ≠ OutOfFuel.
Proof.
  destruct (handle_halts (λ _ : OS, False) (λ _ : DB, True) (λ _, False) kernel_answers size off) as [Hr Hl].
  split; intros Ho; [destruct (Hr (h, w) I) as [Hs _]|destruct (Hl (h, w) I) as [Hs _]];
    by destruct (Hs Ho).
Qed.

Lemma serve_hangs r s :
  (∀ h, r ≠ ReqRelease h) → (serve globals r s).1 = OutOfFuel → is_Some (req_node r).
Proof.
  intros Hrel Ho. destruct r as [i|i name|i|i|i|h size off|h|i]; try by eexists.
  - cbn [serve] in Ho. unfold on_handle, mbind, go_mbind, go_bind in Ho.
    destruct (ss_files s !! h) as [f|]; [|done].
    pose proof (proj1 (handles_return size off f (ss_world s))) as Hret.
    by destruct (openFile_Read size off (f, ss_world s)) as [[] []].
  - by destruct (Hrel h).
Qed.

(** Every request but the release of a handle: the commit of its effect. *)
Lemma serve_step m pinned Σ s r :
  session_ok m pinned Σ s → request_ok r → (∀ h, r ≠ ReqRelease h) →
  step_ok Σ r (serve globals r s).
Proof.
  intros Hs Hr Hrel. pose proof Hs as [Hw Htab Hnext Hino]. destruct (Hnext (ss_next s)) as [Hid1 Hid2]; [done|].
  destruct (serve_effected globals tree rr is_local (su_tree _ _ _ _ _ Hsetup) protocol m pinned Σ s
    (proj1 (world_ok_alone globals rs tree rr known Hsetup _ _ _) Hw)
    (λ i nd, session_node m pinned Σ s i nd Hs) r) as [Hwf Heff].
  { intros h f _. by apply session_file with (1 := Hs). }
  { done. }
  { done. }
  pose proof (serve_hangs r s Hrel) as Hhang. unfold step_ok.
  destruct (serve globals r s) as [o s']. simpl in *.
  destruct Heff as (m' & eff & Hle & [[Hos _] Hdb] & Hok & Hns & Hfs & Hnx).
  destruct (commit globals tree rr m m' _ pinned Σ _ _ (ss_next s)
    (seq_shows pinned (w_os (ss_world s'))) r o eff Htab Hid1 Hid2 Hle (proj1 Hdb))
    as (Σ' & pinned' & Hstep & Hino' & Htab' & Hpins & _); [by intros f c [_ ?]|done|done|done|].
  exists Σ'. split; [done|]. exists m', pinned'. split; [split; [done|by eapply os_ok_pins|done]|by rewrite Hns, Hfs| |done].
  rewrite Hns, Hfs, Hnx. eapply eff_fresh; [done| |done]. intros i cs. by eapply listed_node.
Qed.

(** ** Releasing a handle *)

Lemma grow_to m m' pinned Σ Σ' s :
  session_ok m pinned Σ s → le m m' → (∃ t, table_repr t m') → sp_inodes Σ' = inodes_of m' →
  inodes_grow Σ Σ'.
Proof. intros Hs Hle [t Ht]. eapply inodes_of_grow; [done..|apply Hs]. Qed.

Lemma serve_release_ok m pinned Σ s h :
  session_ok m pinned Σ s → step_ok Σ (ReqRelease h) (serve globals (ReqRelease h) s).
Proof.
  intros Hs. pose proof Hs as [Hw Htab Hnx Hino]. cbn [serve]. unfold on_handle, mbind, go_mbind, go_bind, go_try.
  destruct (ss_files s !! h) as [f|] eqn:Hf.
  2:{ simpl. exists (sp_del_handle h (with_inodes m Σ)). split.
      - constructor; [|by apply ans_release; eauto]. eapply grow_to; [done..|eexists; apply (ok_db _ _ _ _ _ _ _ Hw)|done].
      - exists m, pinned. split; [done|by eapply tables_no_file|by apply fresh_dropped|done]. }
  destruct (session_file _ _ _ _ _ _ Hs Hf) as (c & Hc & Hh).
  destruct (openFile_Release_served m pinned f c (ss_world s) Hw Hh) as (rd & Hrd & [Hwf Hr]).
  pose proof (proj2 (handles_return 0 0 f (ss_world s))) as Hret.
  destruct (openFile_Release (f, ss_world s)) as [[u|e| | |] [f' w']]; simpl in *; try done;
    destruct Hr as (m' & Hle & Hos & Hdb & _);
    (exists (sp_del_handle h (with_inodes m' Σ)); split;
      [constructor; [|by apply ans_release; eauto]; eapply grow_to; [done..|eexists; apply Hdb|done]|]);
    exists m', (delete (f_fd (tr_file rd)) pinned);
    (split; simpl; rewrite ?delete_insert_eq;
      [by split|by eapply tables_file_dropped|by apply fresh_dropped|done]).
Qed.

Lemma serve_refines s Σ r :
  refines s Σ → request_ok r → step_ok Σ r (serve globals r s).
Proof.
  intros (m & pinned & Hs) Hr.
  destruct r as [i|i name|i|i|i|h size off|h|i]; try (by apply (serve_step m pinned)).
  by apply (serve_release_ok m pinned).
Qed.

(** ** Mounting *)

(** A disk on which the program may be started: the remote tree is there, the content cache is
    content addressed and the database agrees with the tree. *)
Definition disk_ok (m : map_t) (w : W) : Prop :=
  os_ok rs tree known ∅ (w_os w) ∧ db_ok tree rr m (db_view w).

Lemma rootNode_alone m pinned (w : W) :
  world_ok m pinned w →
  served m pinned (λ m' nd _ _, ∃ d, nd = NodeDir d ∧ dir_ok globals tree rr m' [] d) (λ _ _ _, True)
    (on_world (rootNode globals (abs_path rr)) ((), w)).
Proof. intros Hw. alone rootNode_served. Qed.

Lemma mount_ok m w s :
  disk_ok m w → mount globals (abs_path rr) w = Ret s →
  ∃ Σ', inodes_grow {| sp_nodes := ∅; sp_handles := ∅; sp_inodes := inodes_of m |} Σ' ∧
    sp_nodes Σ' = {[0%nat := []]} ∧ sp_handles Σ' = ∅ ∧ refines s Σ'.
Proof.
  intros [Hos Hdb]. set (w0 := set_w_stats NewStats w).
  assert (world_ok m ∅ w0) as Hw0 by (split; [apply NewStats_wf|done|done]).
  pose proof (rootNode_alone m ∅ w0 Hw0) as [Hwf Hr].
  unfold mount, on_world, go_zoom in *. fold w0. simpl in *.
  destruct (rootNode globals (abs_path rr) w0) as [[nd|e| | |] w'] eqn:E0; simpl in *; try done.
  destruct Hr as (m' & Hle & Hos' & Hdb' & d & -> & Hd). intros [= <-].
  exists {| sp_nodes := {[0%nat := []]}; sp_handles := ∅; sp_inodes := inodes_of m' |}.
  split_and!; [|done|done|].
  - eapply inodes_of_grow; [done|apply Hdb'|done|done].
  - exists m', ∅. split; [by split| | |done].
    2:{ intros i Hi. simpl in *. by rewrite lookup_singleton_ne by lia. }
    split; simpl; [by apply map_Forall2_singleton|apply map_Forall2_empty|done..].
Qed.

Lemma mount_fails_cleanly m w :
  disk_ok m w →
  match mount globals (abs_path rr) w with Panic _ | Fatal _ => False | _ => True end.
Proof.
  intros [Hos Hdb]. set (w0 := set_w_stats NewStats w).
  assert (world_ok m ∅ w0) as Hw0 by (split; [apply NewStats_wf|done|done]).
  pose proof (rootNode_alone m ∅ w0 Hw0) as [Hwf Hr].
  unfold mount, on_world, go_zoom in *. fold w0. simpl in *.
  by destruct (rootNode globals (abs_path rr) w0) as [[nd|e| | |] w'].
Qed.

Lemma disk_of_session s Σ : refines s Σ → ∃ m, disk_ok m (ss_world s) ∧ sp_inodes Σ = inodes_of m.
Proof.
  intros (m & pinned & [[Hs [[Ht Hp] Hc] Hd] _ _ Hino]). exists m. split; [|done].
  split; [|done]. split; [|done]. split; [done|]. apply map_empty_subseteq.
Qed.

(** ** Runs *)

Lemma step_refines s ev s' Σ :
  session_step globals (abs_path rr) s ev s' → refines s Σ →
  ∃ Σ', spec_step tree rr Σ ev Σ' ∧ refines s' Σ'.
Proof.
  intros Hstep Hr. destruct Hstep as [s r o s' Hreq Hserve|s s' Hmount].
  - destruct (serve_refines s Σ r Hr Hreq) as (Σ' & Hspec & Href). rewrite Hserve in *. by exists Σ'.
  - destruct (disk_of_session _ _ Hr) as (m & Hd & Hino).
    destruct (mount_ok _ _ _ Hd Hmount) as (Σ' & Hg & Hn & Hh & Href). exists Σ'. split; [|done].
    constructor; [|done|done]. unfold inodes_grow in *. simpl in Hg. by rewrite Hino.
Qed.

Lemma run_refines s tr s' Σ :
  session_run globals (abs_path rr) s tr s' → refines s Σ →
  ∃ Σ', spec_run tree rr Σ tr Σ' ∧ refines s' Σ'.
Proof.
  induction 1 as [s|s tr s1 ev s2 Hrun IH Hstep]; intros Hr; [exists Σ; by split; [constructor|]|].
  destruct (IH Hr) as (Σ1 & Hspec1 & Hr1).
  destruct (step_refines _ _ _ _ Hstep Hr1) as (Σ2 & Hspec2 & Hr2).
  exists Σ2. split; [by econstructor|done].
Qed.
End proofs.

(** ** Facts of the abstract file system *)

Lemma inodes_grow_trans Σ1 Σ2 Σ3 : inodes_grow Σ1 Σ2 → inodes_grow Σ2 Σ3 → inodes_grow Σ1 Σ3.
Proof. intros (H12 & _ & _) (H23 & Hi & Hr). split_and!; [by etrans|done|done]. Qed.

Lemma spec_run_inodes tree rr Σ tr Σ' : spec_run tree rr Σ tr Σ' → sp_inodes Σ ⊆ sp_inodes Σ'.
Proof.
  induction 1 as [|Σ tr Σ1 ev Σ2 Hrun IH Hstep]; [done|]. etrans; [exact IH|].
  by destruct Hstep as [r o Σ' [Hg _] _|Σ' [Hg _] _ _].
Qed.
