(* ===== verification/Scenario.v ===== *)
(** A concrete installation: a remote directory with a file, a link and a subdirectory, an empty
    cache, and the sessions that start on it.  The instances of the session theorems run here. *)
From S2P Require Import Prelude GoStrings GoPath Stats Types DirEntries Sql Sqlite Kernel.
From S2P Require Import Syscalls Metadata MetadataSpec MetadataProps WorldPost Md5 Content.
From S2P Require Import ContentProps Fs FsLogic FsProps FsTheorems Remote Coherence Served.
From S2P Require Import NodeServed Session SessionProofs.
#[local] Open Scope Z_scope.

#[export] Instance scenario_fuel : Fuel := {| retry_fuel := 2; copy_fuel := 8 |}.

Definition world_text : bytes := String.list_ascii_of_string "world".
Definition sub_info : FileInfo := {| Name := "d"; Size := 0; Mode := ModeDir + 493; ModTime := 8 |}.
Definition sub_file_info : FileInfo := {| Name := "b"; Size := 5; Mode := 420; ModTime := 9 |}.

Definition scenario_os : MemOs :=
  {| mo_local := ∅;
     mo_remote := <["/r" := RDir root_info [sample_info; link_info; sub_info]]>
                    (<["/r/a" := RFile sample_info hello]>
                       (<["/r/l" := RLink link_info "a"]>
                          (<["/r/d" := RDir sub_info [sub_file_info]]>
                             (<["/r/d/b" := RFile sub_file_info world_text]> ∅))));
     mo_handles := ∅; mo_next := 3; mo_drawn := ∅; mo_faults := [] |}.

Definition scenario_world : World MemOs MemDb :=
  {| w_stats := NewStats; w_os := scenario_os;
     w_conn := {| c_db := {| mem_rows := []; mem_faults := [] |}; c_rt := sample_runtime |} |}.

(** Every path is cached, or none is. *)
Definition cached_globals : globalState :=
  {| g_content := NewContentCache (abs_path ["cache"]); cachedPathRegex := λ _, true |}.
Definition direct_globals : globalState :=
  {| g_content := NewContentCache (abs_path ["cache"]); cachedPathRegex := λ _, false |}.

Definition scenario_tree : string → option rnode := remote_tree scenario_os.
Definition scenario_known (c : bytes) : Prop := c = hello ∨ c = world_text.

Lemma scenario_entries p nd :
  scenario_tree p = Some nd →
  (p = abs_path ["r"] ∧ nd = RDir root_info [sample_info; link_info; sub_info]) ∨
  (p = abs_path ["r"; "a"] ∧ nd = RFile sample_info hello) ∨
  (p = abs_path ["r"; "l"] ∧ nd = RLink link_info "a") ∨
  (p = abs_path ["r"; "d"] ∧ nd = RDir sub_info [sub_file_info]) ∨
  (p = abs_path ["r"; "d"; "b"] ∧ nd = RFile sub_file_info world_text).
Proof.
  unfold scenario_tree. simpl. rewrite !lookup_insert_Some, lookup_empty.
  intros [[<- <-]|[_ [[<- <-]|[_ [[<- <-]|[_ [[<- <-]|[_ [[<- <-]|[_ [=]]]]]]]]]]]; auto 10.
Qed.

Lemma scenario_at cs nd :
  good_path cs → tree_at scenario_tree ["r"] cs = Some nd →
  (cs = [] ∧ nd = RDir root_info [sample_info; link_info; sub_info]) ∨
  (cs = ["a"] ∧ nd = RFile sample_info hello) ∨
  (cs = ["l"] ∧ nd = RLink link_info "a") ∨
  (cs = ["d"] ∧ nd = RDir sub_info [sub_file_info]) ∨
  (cs = ["d"; "b"] ∧ nd = RFile sub_file_info world_text).
Proof.
  intros Hcs Hat%scenario_entries.
  assert (∀ cs', good_path cs' → abs_path ("r" :: cs) = abs_path ("r" :: cs') → cs = cs') as Hinj.
  { intros cs' Hcs' Heq%abs_path_inj; [by simplify_eq|by constructor..]. }
  destruct Hat as [[Hp ->]|[[Hp ->]|[[Hp ->]|[[Hp ->]|[Hp ->]]]]];
    apply Hinj in Hp; auto 10; by repeat constructor.
Qed.

Lemma scenario_tree_ok : tree_ok scenario_tree ["r"] (is_local (OS := MemOs)).
Proof.
  split.
  - by constructor.
  - by exists root_info, [sample_info; link_info; sub_info].
  - intros cs _. unfold abs_path. by destruct cs.
  - intros cs nd Hcs Hat. apply scenario_at in Hat as Hat; [|done].
    destruct Hat as [[_ ->]|[[_ ->]|[[_ ->]|[[_ ->]|[_ ->]]]]]; (split; [by split|done|done|]); done.
  - intros cs info l Hcs Hat. apply scenario_at in Hat as Hat; [|done].
    destruct Hat as [[-> [= -> ->]]|[[_ [=]]|[[_ [=]]|[[-> [= -> ->]]|[_ [=]]]]]].
    + split.
      * split; [simpl; repeat constructor; set_solver|].
        repeat constructor; try done; by eexists.
      * intros fi. rewrite !elem_of_cons, elem_of_nil. intros [->|[->|[->|[]]]]; by eexists.
    + split.
      * split; [simpl; repeat constructor; set_solver|].
        repeat constructor; try done; by eexists.
      * intros fi. rewrite !elem_of_cons, elem_of_nil. intros [->|[]]; by eexists.
Qed.

Lemma scenario_setup globals :
  g_content globals = NewContentCache (abs_path ["cache"]) →
  setup_ok (OS := MemOs) globals ["cache"] scenario_tree ["r"] scenario_known.
Proof.
  intros Hg. split; [apply owns_sample_root|done|apply scenario_tree_ok|..].
  - intros cs info c Hcs Hat. apply scenario_at in Hat as Hat; [|done].
    destruct Hat as [[_ [=]]|[[_ [= -> ->]]|[[_ [=]]|[[_ [=]]|[_ [= -> ->]]]]]]; unfold scenario_known; auto.
  - assert (digest hello ≠ digest world_text) as Hne by (by vm_compute).
    unfold scenario_known. intros c c' [->| ->] [->| ->] Heq;
      [reflexivity|destruct (Hne Heq)|destruct (Hne (eq_sym Heq))|reflexivity].
Qed.

Lemma scenario_disk : disk_ok ["cache"] scenario_tree ["r"] scenario_known ∅ scenario_world.
Proof.
  assert (∀ k, (∅ : gmap string node) !! k = None) as Hno by (intros k; apply lookup_empty).
  split; split.
  - by split; [|apply map_empty_subseteq].
  - by split; intros k x _; simpl; rewrite Hno.
  - split; [constructor|constructor|intros r Hr; by apply elem_of_nil in Hr|intros p cr; by rewrite lookup_empty].
  - intros cs cr _. by rewrite lookup_empty.
Qed.

(** The session after a mount and some requests. *)
Definition start (globals : globalState) : Session MemOs MemDb :=
  match mount globals "/r" scenario_world with
  | Ret s => s
  | _ => {| ss_world := scenario_world; ss_nodes := ∅; ss_files := ∅; ss_next := 0 |}
  end.
Definition after (globals : globalState) (rs : list Request) (s : Session MemOs MemDb) :
    Session MemOs MemDb := foldl (λ s r, (serve globals r s).2) s rs.
Fixpoint trace (globals : globalState) (rs : list Request) (s : Session MemOs MemDb) : list event :=
  match rs with
  | [] => []
  | r :: rs => EvServe r (serve globals r s).1 :: trace globals rs (serve globals r s).2
  end.

Lemma run_cons globals (s s1 s2 : Session MemOs MemDb) ev tr :
  session_step globals "/r" s ev s1 → session_run globals "/r" s1 tr s2 →
  session_run globals "/r" s (ev :: tr) s2.
Proof.
  intros Hs Hrun. induction Hrun as [s1|s1 tr s2 ev' s3 Hrun IH Hstep].
  - apply (run_snoc _ _ s [] s ev s1); [constructor|done].
  - rewrite app_comm_cons. eapply run_snoc; [by apply IH|done].
Qed.

Lemma run_after globals rs (s : Session MemOs MemDb) :
  Forall request_ok rs → session_run globals "/r" s (trace globals rs s) (after globals rs s).
Proof.
  intros Hrs. revert s. induction Hrs as [|r rs Hr Hrs IH]; intros s; simpl; [constructor|].
  eapply run_cons; [|apply IH]. constructor; [done|]. by destruct (serve globals r s).
Qed.

Lemma cached_mounts : mount cached_globals "/r" scenario_world = Ret (start cached_globals).
Proof. vm_compute. reflexivity. Qed.
Lemma direct_mounts : mount direct_globals "/r" scenario_world = Ret (start direct_globals).
Proof. vm_compute. reflexivity. Qed.

(** Lookups of every entry, and one of an absent name. *)
Definition tour : list Request :=
  [ReqReadDir 0; ReqLookup 0 "a"; ReqLookup 0 "l"; ReqLookup 0 "d"; ReqLookup 0 "x"; ReqAttr 1;
   ReqOpen 1; ReqReadlink 2; ReqLookup 3 "b"; ReqRead 4 3 1].

Lemma tour_ok : Forall request_ok tour.
Proof. repeat constructor; simpl; lia. Qed.

Definition file_attr : Attr :=
  {| a_Inode := 2; a_Mode := 420; a_Size := 12; a_Mtime := 1500000000123456789 |}.

(** The tour on an empty cache: what each request is answered. *)
Example cached_tour :
  trace cached_globals tour (start cached_globals) =
  [EvServe (ReqReadDir 0) (Ret (RepDirents
     [{| de_Inode := 2; de_Name := "a"; de_Type := DT_File |};
      {| de_Inode := 3; de_Name := "l"; de_Type := DT_Link |};
      {| de_Inode := 4; de_Name := "d"; de_Type := DT_Dir |}]));
   EvServe (ReqLookup 0 "a") (Ret (RepNode 1)); EvServe (ReqLookup 0 "l") (Ret (RepNode 2));
   EvServe (ReqLookup 0 "d") (Ret (RepNode 3)); EvServe (ReqLookup 0 "x") (Err EFuseENOENT);
   EvServe (ReqAttr 1) (Ret (RepAttr file_attr)); EvServe (ReqOpen 1) (Ret (RepHandle 4));
   EvServe (ReqReadlink 2) (Ret (RepTarget "a")); EvServe (ReqLookup 3 "b") (Ret (RepNode 5));
   EvServe (ReqRead 4 3 1) (Ret (RepData (String.list_ascii_of_string "ell")))].
Proof. vm_compute. reflexivity. Qed.

(** The sessions after the tour. *)
Definition toured (globals : globalState) : Session MemOs MemDb :=
  after globals tour (start globals).
Definition remounted (globals : globalState) (s : Session MemOs MemDb) : Session MemOs MemDb :=
  match mount globals "/r" (ss_world s) with Ret s' => s' | _ => s end.
