(* ===== verification/SessionTheorems.v ===== *)
(** What a user of the file system gets, for every run of it: any requests, in any order, with any
    failures of the kernel and the database, and any number of remounts. *)
From S2P Require Import Prelude GoStrings GoPath Stats Types DirEntries Sql Sqlite Kernel.
From S2P Require Import Syscalls Metadata MetadataSpec MetadataProps WorldPost Md5 Content.
From S2P Require Import ContentProps Fs FsLogic FsProps FsTheorems Remote Coherence Served.
From S2P Require Import NodeServed Session Requests SessionProofs Scenario.
#[local] Open Scope Z_scope.

#[local] Arguments Join : simpl never.

(** The path a node was made for. *)
Definition node_path (n : Node) : string :=
  match n with NodeDir d => dir_path d | NodeFile f => file_path f | NodeSymlink l => link_path l end.

(** The kind of reply a request gets. *)
Definition reply_for (r : Request) (rep : Reply) : bool :=
  match r, rep with
  | ReqAttr _, RepAttr _ | ReqLookup _ _, RepNode _ | ReqReadDir _, RepDirents _
  | ReqOpen _, RepHandle _ | ReqReadlink _, RepTarget _ | ReqRead _ _ _, RepData _
  | ReqRelease _, RepDone | ReqForget _, RepDone => true
  | _, _ => false
  end.

(** The kind of a node and of an entry of the tree. *)
Definition node_is (n : Node) (e : rnode) : bool :=
  match n, e with
  | NodeDir _, RDir _ _ | NodeFile _, RFile _ _ | NodeSymlink _, RLink _ _ => true
  | _, _ => false
  end.

(** The numbers in a reply are in the ranges of their Go types, inode numbers are positive
    signed integers, and no more data is delivered than was asked for. *)
Definition reply_in_range (r : Request) (rep : Reply) : Prop :=
  match rep with
  | RepAttr a => 1 ≤ a_Inode a ≤ MaxInt64 ∧ is_uint32 (a_Mode a) ∧ is_uint64 (a_Size a) ∧
                 is_int64 (a_Mtime a)
  | RepDirents des => ∀ d, d ∈ des → 1 ≤ de_Inode d ≤ MaxInt64
  | RepData data => match r with ReqRead _ size _ => (length data ≤ size)%nat | _ => True end
  | _ => True
  end.

(** Replies that say the same about the tree; inode numbers, identifiers and the order of a
    listing are the program's own choice. *)
Definition same_reply (r1 r2 : Reply) : Prop :=
  match r1, r2 with
  | RepAttr a, RepAttr b => a_Mode a = a_Mode b ∧ a_Size a = a_Size b ∧ a_Mtime a = a_Mtime b
  | RepDirents l1, RepDirents l2 =>
      Permutation ((λ d, (de_Name d, de_Type d)) <$> l1) ((λ d, (de_Name d, de_Type d)) <$> l2)
  | RepTarget t1, RepTarget t2 => t1 = t2
  | RepData d1, RepData d2 => d1 = d2
  | RepNode _, RepNode _ | RepHandle _, RepHandle _ | RepDone, RepDone => True
  | _, _ => False
  end.

Section theorems.
Context {OS DB : Type} `{KernelLaws OS, !RemoteView OS, !RemoteLaws OS, SqlLaws DB, !Fuel}.
Context (globals : globalState) (rs : list string) (tree : string → option rnode)
  (rr : list string) (known : bytes → Prop).
Context (Hsetup : setup_ok (OS := OS) globals rs tree rr known).
Abbreviation W := (World OS DB).
Abbreviation S := (Session OS DB).
Abbreviation at_ := (tree_at tree rr).
Abbreviation refines := (refines globals rs tree rr known).
Abbreviation run := (session_run globals (abs_path rr)).

(** A session that was started on a good disk and has run for a while. *)
Definition reachable (m : gmap string CachedRow) (w : W) (s : S) : Prop :=
  disk_ok rs tree rr known m w ∧
  ∃ s0 tr, mount globals (abs_path rr) w = Ret s0 ∧ run s0 tr s.

Lemma reachable_refines m w s :
  reachable m w s → ∃ Σ, refines s Σ ∧ inodes_of m ⊆ sp_inodes Σ.
Proof.
  intros (Hd & s0 & tr & Hm & Hrun).
  destruct (mount_ok globals rs tree rr known Hsetup m w s0 Hd Hm) as (Σ0 & [Hg _] & _ & _ & Hr).
  destruct (run_refines globals rs tree rr known Hsetup _ _ _ _ Hrun Hr) as (Σ & Hspec & Href).
  exists Σ. split; [done|]. etrans; [exact Hg|]. by eapply spec_run_inodes.
Qed.

(** Whatever has happened, the statistics are well formed. *)
Lemma reachable_stats m w s : reachable m w s → stats_wf (w_stats (ss_world s)).
Proof.
  intros Hs. destruct (reachable_refines m w s Hs) as (Σ & (m' & pinned & Hok) & _).
  apply (ok_stats _ _ _ _ _ _ _ (so_world _ _ _ _ _ _ _ _ _ Hok)).
Qed.

(** C1 (refinement).  The file system refines the abstract one: after a mount on a good disk,
    every run of requests, failures and remounts is, event by event and reply by reply, a run of
    the abstract file system that serves the remote tree, where nodes are paths, handles are
    contents and inode numbers are given out once and for all; and the state reached is one of
    the abstract state reached. *)
Theorem session_refines_tree (m : gmap string CachedRow) (w : W) (s0 s : S) (tr : list event) :
  disk_ok rs tree rr known m w → mount globals (abs_path rr) w = Ret s0 → run s0 tr s →
  ∃ Σ0 Σ, sp_nodes Σ0 = {[0%nat := []]} ∧ sp_handles Σ0 = ∅ ∧ inodes_of m ⊆ sp_inodes Σ0 ∧
    spec_run tree rr Σ0 tr Σ ∧ refines s Σ.
Proof.
  intros Hd Hm Hrun.
  destruct (mount_ok globals rs tree rr known Hsetup m w s0 Hd Hm) as (Σ0 & [Hg _] & Hn & Hh & Hr).
  destruct (run_refines globals rs tree rr known Hsetup _ _ _ _ Hrun Hr) as (Σ & Hspec & Href).
  by exists Σ0, Σ.
Qed.

(** C4 (safety).  No request on a mounted file system ever panics or exits the process, and
    neither does another mount on the disk it leaves: every panic and fatal exit of the handlers
    and of the metadata cache is unreachable on a tree of files, directories and symlinks. *)
Theorem no_request_panics (m : gmap string CachedRow) (w : W) (s : S) (r : Request) :
  reachable m w s → request_ok r →
  match (serve globals r s).1 with Panic _ | Fatal _ => False | _ => True end ∧
  match mount globals (abs_path rr) (ss_world s) with Panic _ | Fatal _ => False | _ => True end.
Proof.
  intros Hs Hr. destruct (reachable_refines _ _ _ Hs) as (Σ & Href & _). split.
  - destruct (serve_refines globals rs tree rr known Hsetup s Σ r Href Hr) as (Σ' & Hspec & _).
    inversion Hspec as [r' o Σ'' _ Hans Heq|]; subst. destruct Hans as [| | | | | | |h o [->|[e ->]]| | |]; done.
  - destruct (disk_of_session globals rs tree rr known s Σ Href) as (m' & Hd & _).
    by apply (mount_fails_cleanly globals rs tree rr known Hsetup m').
Qed.

(** C3 (invariant).  In every session ever reached, the database still has everything it had
    before, under the same inode numbers, and each of its rows says what the remote tree says:
    its type, its file information, its directory entries with the inode numbers of their rows,
    its digest and its link target; and every file of the content cache has contents with the
    digest it is named by. *)
Theorem caches_agree_with_tree (m : gmap string CachedRow) (w : W) (s : S) :
  reachable m w s →
  ∃ m', table_repr (db_view (ss_world s)) m' ∧ inodes_of m ⊆ inodes_of m' ∧
    (∀ cs cr, good_path cs → m' !! abs_path cs = Some cr → row_ok tree rr m' cs cr) ∧
    content_inv rs (os_local (w_os (ss_world s))).
Proof.
  intros Hs. destruct (reachable_refines _ _ _ Hs) as (Σ & Href & Hino).
  destruct (disk_of_session globals rs tree rr known s Σ Href) as (m' & [Hos [Ht Hc]] & Heq).
  exists m'. split_and!; [done|by rewrite <- Heq|exact Hc|]. apply (ok_content _ _ _ _ _ Hos).
Qed.

(** What the abstract file system says of one answered request. *)
Lemma serve_answer s Σ r o s' :
  refines s Σ → request_ok r → serve globals r s = (o, s') →
  ∃ Σ', inodes_grow Σ Σ' ∧ answer tree rr Σ Σ' r o ∧ refines s' Σ'.
Proof.
  intros Hr Hreq E. destruct (serve_refines globals rs tree rr known Hsetup s Σ r Hr Hreq) as (Σ' & Hspec & Href).
  rewrite E in Hspec, Href. exists Σ'. by inversion Hspec.
Qed.

Lemma node_entry m cs nd : node_ok globals tree rr m cs nd → ∃ e, at_ cs = Some e ∧ node_is nd e = true.
Proof.
  destruct nd; simpl; intros Hn.
  - destruct (dir_entry _ _ _ _ _ _ Hn) as (? & ? & ->). eauto.
  - destruct (file_entry _ _ _ _ _ _ Hn) as (? & ? & ->). eauto.
  - destruct (link_entry _ _ _ _ _ _ Hn) as (? & ? & ->). eauto.
Qed.

Lemma node_ok_path m cs nd : node_ok globals tree rr m cs nd → good_path cs ∧ node_path nd = abs_path cs.
Proof. destruct nd; [intros [[] _]|intros []|intros []]; done. Qed.

Lemma refines_node s Σ i nd :
  refines s Σ → ss_nodes s !! i = Some nd →
  ∃ cs, sp_nodes Σ !! i = Some cs ∧ good_path cs ∧ node_path nd = abs_path cs ∧
    ∃ e, at_ cs = Some e ∧ node_is nd e = true.
Proof.
  intros (m & pinned & Hs) Hn. destruct (session_node _ _ _ _ _ _ _ _ _ _ _ Hs Hn) as (cs & Hcs & Hok).
  exists cs. destruct (node_ok_path _ _ _ Hok). split_and!; [done..|]. by eapply node_entry.
Qed.

(** C12 (type).  Replies are well typed: a request is answered with the kind of reply it asks for;
    attributes are only answered for nodes in the table, listings for directories, targets for
    symlinks and handles for files; the node a lookup makes is of the kind of the tree's entry at
    its path; and the identifiers handed out were not in use. *)
Theorem replies_typed (m : gmap string CachedRow) (w : W) (s s' : S) (r : Request) (rep : Reply) :
  reachable m w s → request_ok r → serve globals r s = (Ret rep, s') →
  reply_for r rep = true ∧
  (∀ i nd, ss_nodes s' !! i = Some nd →
     ∃ cs e, node_path nd = abs_path cs ∧ at_ cs = Some e ∧ node_is nd e = true) ∧
  match rep with
  | RepNode id => ss_nodes s !! id = None ∧ is_Some (ss_nodes s' !! id)
  | RepHandle h => ss_files s !! h = None ∧ is_Some (ss_files s' !! h)
  | _ => True
  end.
Proof.
  intros Hs Hr E. destruct (reachable_refines _ _ _ Hs) as (Σ & Href & _).
  destruct (serve_answer _ _ _ _ _ Href Hr E) as (Σ' & _ & Hans & Href').
  split; [inversion Hans; subst; try done;
    match goal with Ho : _ ∨ _ |- _ => by destruct Ho as [[= ->]|[? ?]] end|]. split.
  - intros i nd Hnd. destruct (refines_node _ _ _ _ Href' Hnd) as (cs & _ & _ & Hp & e & ? & ?). eauto.
  - destruct Href as (m1 & p1 & Hs1), Href' as (m2 & p2 & Hs2).
    inversion Hans as [|i name cs nd id Hn Hat Hnone Hns Hhs| | |i cs info c h Hn Hat Hnone Hns Hhs| | |h o Ho| | |];
      subst; try done; try (by destruct Ho as [[= ->]|[? ?]]).
    + split.
      * destruct (ss_nodes s !! id) as [nd'|] eqn:Hid; [|done].
        destruct (session_node _ _ _ _ _ _ _ _ _ _ _ Hs1 Hid) as (? & ? & _). congruence.
      * assert (sp_nodes Σ' !! id = Some (cs ++ [name])) as Hid by (rewrite Hns; apply lookup_insert_eq).
        destruct (map_Forall2_lookup_l _ _ _ _ _ (tb_nodes _ _ _ _ _ _ _ _ (so_tables _ _ _ _ _ _ _ _ _ Hs2)) Hid) as (nd' & -> & _).
        by eexists.
    + split.
      * destruct (ss_files s !! h) as [f|] eqn:Hid; [|done].
        destruct (session_file _ _ _ _ _ _ _ _ _ _ _ Hs1 Hid) as (? & ? & _). congruence.
      * assert (sp_handles Σ' !! h = Some c) as Hid by (rewrite Hhs; apply lookup_insert_eq).
        destruct (map_Forall2_lookup_l _ _ _ _ _ (tb_files _ _ _ _ _ _ _ _ (so_tables _ _ _ _ _ _ _ _ _ Hs2)) Hid) as (f & -> & _).
        by eexists.
Qed.

(** C13 (bounds).  Every number in a reply is in the range of its Go type and inode numbers are
    between 1 and the largest signed 64-bit integer, for attributes as for listings; a read
    delivers at most as many bytes as were asked for. *)
Theorem replies_bounded (m : gmap string CachedRow) (w : W) (s s' : S) (r : Request) (rep : Reply) :
  reachable m w s → request_ok r → serve globals r s = (Ret rep, s') → reply_in_range r rep.
Proof.
  intros Hs Hr E. destruct (reachable_refines _ _ _ Hs) as (Σ & Href & _).
  destruct (serve_answer _ _ _ _ _ Href Hr E) as (Σ' & (_ & _ & Hrange) & Hans & _).
  inversion Hans as [i cs nd ino Hn Hat Hino| | |i cs info l des Hn Hat Hperm Hdes| | |h size off c Hc|h o Ho| | |];
    subst; simpl; try done; try (by destruct Ho as [[= ->]|[? ?]]).
  - assert (good_path cs) as Hcs.
    { destruct Href as (m1 & p1 & Hs1).
      destruct (map_Forall2_lookup_l _ _ _ _ _ (tb_nodes _ _ _ _ _ _ _ _ (so_tables _ _ _ _ _ _ _ _ _ Hs1)) Hn) as (x & _ & Hx).
      by destruct (node_ok_path _ _ _ Hx). }
    destruct (to_node _ _ _ (su_tree _ _ _ _ _ Hsetup) _ _ Hcs Hat) as [[Hsz Hmd] Hmt _ _].
    split_and!; [by eapply Hrange..|done|apply uint64_range|done].
  - intros d Hd. destruct (Hdes d Hd) as (nd & _ & Hi & _). by eapply Hrange.
  - rewrite length_take. lia.
Qed.

(** C9 (invariant).  Inode numbers are for life: when a node answers a request for its attributes
    and, any number of requests, failures and remounts later, some node answers one again, the two
    inode numbers are the same exactly when the two nodes stand for the same path. *)
Theorem inodes_for_life (m : gmap string CachedRow) (w : W) (s1 s1' s2 s2' : S) (tr : list event)
    (i j : nat) (ni nj : Node) (a b : Attr) :
  reachable m w s1 → ss_nodes s1 !! i = Some ni →
  serve globals (ReqAttr i) s1 = (Ret (RepAttr a), s1') → run s1' tr s2 →
  ss_nodes s2 !! j = Some nj → serve globals (ReqAttr j) s2 = (Ret (RepAttr b), s2') →
  a_Inode a = a_Inode b ↔ node_path ni = node_path nj.
Proof.
  intros Hs Hni E1 Hrun Hnj E2. destruct (reachable_refines _ _ _ Hs) as (Σ1 & Hr1 & _).
  destruct (serve_answer _ _ (ReqAttr i) _ _ Hr1 I E1) as (Σ1' & Hg1 & Ha1 & Hr1').
  destruct (run_refines globals rs tree rr known Hsetup _ _ _ _ Hrun Hr1') as (Σ2 & Hspec & Hr2).
  destruct (serve_answer _ _ (ReqAttr j) _ _ Hr2 I E2) as (Σ2' & Hg2 & Ha2 & _).
  destruct (refines_node _ _ _ _ Hr1 Hni) as (cs1 & Hc1 & Hg3 & Hp1 & _).
  destruct (refines_node _ _ _ _ Hr2 Hnj) as (cs2 & Hc2 & Hg4 & Hp2 & _).
  rewrite Hp1, Hp2.
  inversion Ha1 as [? cs nd ino Hn1 Hat1 Hi1| | | | | | | | | |]; subst.
  inversion Ha2 as [? cs' nd' ino' Hn2 Hat2 Hi2| | | | | | | | | |]; subst. simplify_eq. simpl.
  assert (sp_inodes Σ2' !! abs_path cs1 = Some ino) as Hi1'.
  { eapply lookup_weaken; [done|]. etrans; [by eapply spec_run_inodes|apply Hg2]. }
  split; [intros ->|intros Heq; rewrite Heq in Hi1'; congruence].
  destruct Hg2 as (_ & Hinj & _). by eapply Hinj.
Qed.
End theorems.

(** * Two file systems on one tree *)

(** The requests [r1] and [r2] ask the two sessions the same question. *)
Definition same_request {OS DB OS' DB'} (s1 : Session OS DB) (s2 : Session OS' DB')
    (r1 r2 : Request) : Prop :=
  let same_node i j := ∃ n1 n2, ss_nodes s1 !! i = Some n1 ∧ ss_nodes s2 !! j = Some n2 ∧
                                node_path n1 = node_path n2 in
  match r1, r2 with
  | ReqAttr i, ReqAttr j | ReqReadDir i, ReqReadDir j | ReqOpen i, ReqOpen j
  | ReqReadlink i, ReqReadlink j => same_node i j
  | ReqLookup i name1, ReqLookup j name2 => name1 = name2 ∧ same_node i j
  | ReqRead h1 size1 off1, ReqRead h2 size2 off2 => size1 = size2 ∧ off1 = off2 ∧
      ∃ f1 f2, ss_files s1 !! h1 = Some f1 ∧ ss_files s2 !! h2 = Some f2 ∧ of_path f1 = of_path f2
  | ReqRelease _, ReqRelease _ | ReqForget _, ReqForget _ => True
  | _, _ => False
  end.

(** The type a listing gives to an entry of the tree. *)
Definition rnode_dirent_type (e : option rnode) : DirentType :=
  match e with Some (RDir _ _) => DT_Dir | Some (RLink _ _) => DT_Link | _ => DT_File end.

(** A listing is determined by the tree, up to its order and the inode numbers. *)
Lemma dirents_of_tree tree rr Σ' cs l des :
  Permutation (de_Name <$> des) (Name <$> l) →
  (∀ d, d ∈ des → ∃ nd, tree_at tree rr (cs ++ [de_Name d]) = Some nd ∧
     sp_inodes Σ' !! abs_path (cs ++ [de_Name d]) = Some (de_Inode d) ∧
     dirent_type (rnode_type nd) = Ret (de_Type d)) →
  Permutation ((λ d, (de_Name d, de_Type d)) <$> des)
    ((λ n, (n, rnode_dirent_type (tree_at tree rr (cs ++ [n])))) <$> (Name <$> l)).
Proof.
  intros Hperm Hdes. rewrite <- Hperm, <- list_fmap_compose.
  assert ((λ d, (de_Name d, de_Type d)) <$> des =
    (λ d, (de_Name d, rnode_dirent_type (tree_at tree rr (cs ++ [de_Name d])))) <$> des) as ->; [|done].
  apply list_fmap_ext. intros i d Hd%list_elem_of_lookup_2.
  destruct (Hdes d Hd) as (nd & -> & _ & Ht). by destruct nd; simpl in Ht; injection Ht as <-.
Qed.

Section modes.
Context {OSA DBA OSB DBB : Type}.
Context `{LA : KernelLaws OSA, !RemoteView OSA, !RemoteLaws OSA, SqlLaws DBA}.
Context `{LB : KernelLaws OSB, !RemoteView OSB, !RemoteLaws OSB, SqlLaws DBB, !Fuel}.
Context (tree : string → option rnode) (rr : list string).
Context (gA gB : globalState) (rsA rsB : list string) (knownA knownB : bytes → Prop).
Context (HA : setup_ok (OS := OSA) gA rsA tree rr knownA).
Context (HB : setup_ok (OS := OSB) gB rsB tree rr knownB).
Abbreviation refA := (refines gA rsA tree rr knownA).
Abbreviation refB := (refines gB rsB tree rr knownB).

(** Nodes of one path, seen from the two abstract states. *)
Lemma same_node_path (sA : Session OSA DBA) (sB : Session OSB DBB) ΣA ΣB i j csA csB :
  refA sA ΣA → refB sB ΣB →
  (∃ n1 n2, ss_nodes sA !! i = Some n1 ∧ ss_nodes sB !! j = Some n2 ∧ node_path n1 = node_path n2) →
  sp_nodes ΣA !! i = Some csA → sp_nodes ΣB !! j = Some csB → csA = csB.
Proof.
  intros HrA HrB (n1 & n2 & Hn1 & Hn2 & Hp) HcA HcB.
  destruct (refines_node gA rsA tree rr knownA _ _ _ _ HrA Hn1) as (cs1 & Hx1 & Hg1 & Hp1 & _).
  destruct (refines_node gB rsB tree rr knownB _ _ _ _ HrB Hn2) as (cs2 & Hx2 & Hg2 & Hp2 & _).
  simplify_eq. rewrite Hp1, Hp2 in Hp. by apply abs_path_inj.
Qed.

(** Handles on one path, seen from the two abstract states. *)
Lemma same_handle_contents (sA : Session OSA DBA) (sB : Session OSB DBB) ΣA ΣB h1 h2 c1 c2 :
  refA sA ΣA → refB sB ΣB →
  (∃ f1 f2, ss_files sA !! h1 = Some f1 ∧ ss_files sB !! h2 = Some f2 ∧ of_path f1 = of_path f2) →
  sp_handles ΣA !! h1 = Some c1 → sp_handles ΣB !! h2 = Some c2 → c1 = c2.
Proof.
  intros (mA & pA & HsA) (mB & pB & HsB) (f1 & f2 & Hf1 & Hf2 & Hp) Hc1 Hc2.
  destruct (tb_paths _ _ _ _ _ _ _ _ (so_tables _ _ _ _ _ _ _ _ _ HsA) _ _ _ Hf1 Hc1) as (cs1 & i1 & Hg1 & Hp1 & Ha1).
  destruct (tb_paths _ _ _ _ _ _ _ _ (so_tables _ _ _ _ _ _ _ _ _ HsB) _ _ _ Hf2 Hc2) as (cs2 & i2 & Hg2 & Hp2 & Ha2).
  assert (cs1 = cs2) as -> by (apply abs_path_inj; [done..|congruence]). congruence.
Qed.

(** C7 (equivalence).  The caching and the direct mode, and any two configurations of the program
    on the same remote tree, are equivalent for a user: whatever requests either has served
    before, when they are asked the same question and both answer, the answers are the same:
    attributes, listings with their types, link targets and data. *)
Theorem modes_agree (mA mB : gmap string CachedRow) (wA : World OSA DBA) (wB : World OSB DBB)
    (sA sA' : Session OSA DBA) (sB sB' : Session OSB DBB) (rA rB : Request) (repA repB : Reply) :
  reachable gA rsA tree rr knownA mA wA sA → reachable gB rsB tree rr knownB mB wB sB →
  request_ok rA → request_ok rB → same_request sA sB rA rB →
  serve gA rA sA = (Ret repA, sA') → serve gB rB sB = (Ret repB, sB') → same_reply repA repB.
Proof.
  intros HsA HsB HokA HokB Hsame EA EB.
  destruct (reachable_refines gA rsA tree rr knownA HA _ _ _ HsA) as (ΣA & HrA & _).
  destruct (reachable_refines gB rsB tree rr knownB HB _ _ _ HsB) as (ΣB & HrB & _).
  destruct (serve_answer gA rsA tree rr knownA HA _ _ _ _ _ HrA HokA EA) as (ΣA' & _ & AA & _).
  destruct (serve_answer gB rsB tree rr knownB HB _ _ _ _ _ HrB HokB EB) as (ΣB' & _ & AB & _).
  destruct rA, rB; simpl in Hsame; try done; inversion AA; inversion AB; subst; simpl;
    try done; repeat match goal with Ho : _ ∨ _ |- _ => destruct Ho as [[= ->]|[? [=]]] end; try done.
  - assert (cs = cs0) as -> by (by eapply (same_node_path sA sB)). by simplify_eq.
  - assert (cs = cs0) as -> by (by eapply (same_node_path sA sB)). simplify_eq.
    by etrans; [eapply dirents_of_tree|symmetry; eapply dirents_of_tree].
  - assert (cs = cs0) as -> by (by eapply (same_node_path sA sB)). by simplify_eq.
  - destruct Hsame as (-> & -> & Hsame). do 3 f_equal. by eapply (same_handle_contents sA sB).
Qed.
End modes.

(** * Instances on the scenario *)

#[local] Abbreviation reached globals := (reachable (OS := MemOs) (DB := MemDb) globals ["cache"]
  scenario_tree ["r"] scenario_known ∅ scenario_world).

Lemma cached_reached : reached cached_globals (toured cached_globals).
Proof.
  split; [apply scenario_disk|]. exists (start cached_globals), (trace cached_globals tour (start cached_globals)).
  split; [apply cached_mounts|apply run_after, tour_ok].
Qed.
Lemma direct_reached : reached direct_globals (toured direct_globals).
Proof.
  split; [apply scenario_disk|]. exists (start direct_globals), (trace direct_globals tour (start direct_globals)).
  split; [apply direct_mounts|apply run_after, tour_ok].
Qed.

Lemma session_refines_tree_witness :
  ∃ Σ0 Σ, sp_nodes Σ0 = {[0%nat := []]} ∧ sp_handles Σ0 = ∅ ∧ inodes_of ∅ ⊆ sp_inodes Σ0 ∧
    spec_run scenario_tree ["r"] Σ0 (trace cached_globals tour (start cached_globals)) Σ ∧
    SessionProofs.refines (OS := MemOs) (DB := MemDb) cached_globals ["cache"] scenario_tree ["r"]
      scenario_known (toured cached_globals) Σ.
Proof.
  apply (session_refines_tree (OS := MemOs) (DB := MemDb) cached_globals ["cache"] scenario_tree ["r"]
    scenario_known (scenario_setup cached_globals eq_refl) ∅ scenario_world (start cached_globals)).
  - apply scenario_disk.
  - apply cached_mounts.
  - apply run_after, tour_ok.
Defined.

Lemma no_request_panics_witness :
  match (serve cached_globals (ReqReadDir 3) (toured cached_globals)).1 with
  | Panic _ | Fatal _ => False | _ => True end ∧
  match mount cached_globals "/r" (ss_world (toured cached_globals)) with
  | Panic _ | Fatal _ => False | _ => True end.
Proof.
  apply (no_request_panics (OS := MemOs) (DB := MemDb) cached_globals ["cache"] scenario_tree ["r"]
    scenario_known (scenario_setup cached_globals eq_refl) ∅ scenario_world); [apply cached_reached|exact I].
Defined.

Lemma caches_agree_with_tree_witness :
  ∃ m', table_repr (db_view (ss_world (toured cached_globals))) m' ∧ inodes_of ∅ ⊆ inodes_of m' ∧
    (∀ cs cr, good_path cs → m' !! abs_path cs = Some cr → row_ok scenario_tree ["r"] m' cs cr) ∧
    content_inv ["cache"] (os_local (w_os (ss_world (toured cached_globals)))).
Proof.
  apply (caches_agree_with_tree (OS := MemOs) (DB := MemDb) cached_globals ["cache"] scenario_tree ["r"]
    scenario_known (scenario_setup cached_globals eq_refl) ∅ scenario_world). apply cached_reached.
Defined.

Lemma replies_typed_witness :
  reply_for (ReqLookup 0 "a") (RepNode 6) = true ∧
  (∀ i nd, ss_nodes (after cached_globals [ReqLookup 0 "a"] (toured cached_globals)) !! i = Some nd →
     ∃ cs e, node_path nd = abs_path cs ∧ tree_at scenario_tree ["r"] cs = Some e ∧ node_is nd e = true) ∧
  ss_nodes (toured cached_globals) !! 6%nat = None ∧
  is_Some (ss_nodes (after cached_globals [ReqLookup 0 "a"] (toured cached_globals)) !! 6%nat).
Proof.
  apply (replies_typed (OS := MemOs) (DB := MemDb) cached_globals ["cache"] scenario_tree ["r"]
    scenario_known (scenario_setup cached_globals eq_refl) ∅ scenario_world
    (toured cached_globals) _ (ReqLookup 0 "a") (RepNode 6)).
  - apply cached_reached.
  - done.
  - vm_compute. reflexivity.
Defined.

Lemma replies_bounded_witness : reply_in_range (ReqAttr 1) (RepAttr file_attr).
Proof.
  apply (replies_bounded (OS := MemOs) (DB := MemDb) cached_globals ["cache"] scenario_tree ["r"]
    scenario_known (scenario_setup cached_globals eq_refl) ∅ scenario_world
    (toured cached_globals) (after cached_globals [ReqAttr 1] (toured cached_globals))).
  - apply cached_reached.
  - exact I.
  - vm_compute. reflexivity.
Defined.

(** The file's inode number, and its number when it is looked up again after a remount. *)
Definition file_asked : Session MemOs MemDb := after cached_globals [ReqAttr 1] (toured cached_globals).
Definition file_again : Session MemOs MemDb :=
  after cached_globals [ReqLookup 0 "a"] (remounted cached_globals file_asked).

Lemma file_again_run :
  session_run cached_globals "/r" file_asked
    [EvMount; EvServe (ReqLookup 0 "a") (Ret (RepNode 1))] file_again.
Proof.
  eapply run_cons; [apply step_mount; vm_compute; reflexivity|].
  eapply run_cons; [apply step_serve; [done|vm_compute; reflexivity]|constructor].
Qed.

Lemma inodes_for_life_witness :
  a_Inode file_attr = a_Inode file_attr ↔ "/a" = "/a".
Proof.
  destruct (ss_nodes (toured cached_globals) !! 1%nat) as [ni|] eqn:Hi; [|vm_compute in Hi; discriminate Hi].
  destruct (ss_nodes file_again !! 1%nat) as [nj|] eqn:Hj; [|vm_compute in Hj; discriminate Hj].
  assert (node_path ni = "/a") as Hpi by (vm_compute in Hi; injection Hi as <-; reflexivity).
  assert (node_path nj = "/a") as Hpj by (vm_compute in Hj; injection Hj as <-; reflexivity).
  rewrite <- Hpi at 1. rewrite <- Hpj at 1.
  apply (inodes_for_life (OS := MemOs) (DB := MemDb) cached_globals ["cache"] scenario_tree ["r"]
    scenario_known (scenario_setup cached_globals eq_refl) ∅ scenario_world (toured cached_globals)
    file_asked file_again (after cached_globals [ReqAttr 1] file_again)
    [EvMount; EvServe (ReqLookup 0 "a") (Ret (RepNode 1))] 1 1 ni nj file_attr file_attr).
  - apply cached_reached.
  - exact Hi.
  - vm_compute. reflexivity.
  - apply file_again_run.
  - exact Hj.
  - vm_compute. reflexivity.
Defined.

(** The file's attributes, from the cache and from the remote. *)
Lemma modes_agree_witness : same_reply (RepAttr file_attr) (RepAttr file_attr).
Proof.
  apply (modes_agree (OSA := MemOs) (DBA := MemDb) (OSB := MemOs) (DBB := MemDb) scenario_tree ["r"]
    cached_globals direct_globals ["cache"] ["cache"] scenario_known scenario_known
    (scenario_setup cached_globals eq_refl) (scenario_setup direct_globals eq_refl)
    ∅ ∅ scenario_world scenario_world (toured cached_globals)
    (after cached_globals [ReqAttr 1] (toured cached_globals)) (toured direct_globals)
    (after direct_globals [ReqAttr 1] (toured direct_globals)) (ReqAttr 1) (ReqAttr 1)).
  - apply cached_reached.
  - apply direct_reached.
  - exact I.
  - exact I.
  - destruct (ss_nodes (toured cached_globals) !! 1%nat) as [ni|] eqn:Hi; [|vm_compute in Hi; discriminate Hi].
    destruct (ss_nodes (toured direct_globals) !! 1%nat) as [nj|] eqn:Hj; [|vm_compute in Hj; discriminate Hj].
    exists ni, nj. vm_compute in Hi, Hj. injection Hi as <-. injection Hj as <-. by split_and!.
  - vm_compute. reflexivity.
  - vm_compute. reflexivity.
Defined.
