(* ===== verification/Offline.v ===== *)
(** What a node of a cached path has answered once it answers for ever: later requests of any kind
    and outcome, and any change to the remote, the cache directory and the database, leave what it
    remembers alone, and the answer needs nothing else. *)
From S2P Require Import Prelude GoStrings GoPath Stats Types DirEntries Sql Sqlite Kernel.
From S2P Require Import Syscalls Metadata MetadataSpec MetadataProps WorldPost Md5 Content.
From S2P Require Import ContentProps Fs FsLogic FsProps FsTheorems Remote Session.
From S2P Require Import Scenario SessionTheorems.
#[local] Open Scope Z_scope.
#[local] Arguments newNodeForEntry : simpl never.
#[local] Arguments Join : simpl never.
#[local] Arguments make_dirents : simpl never.

(** * What a node keeps *)

(** What is known stays known. *)
Definition opt_kept {A} (o o' : option A) : Prop := ∀ a, o = Some a → o' = Some a.

#[export] Instance opt_kept_preorder {A} : PreOrder (opt_kept (A := A)).
Proof. unfold opt_kept. split; [by intros ?|by intros ? ? ? Hab Hbc a Ha; auto]. Qed.

Definition dir_kept (d d' : Dir) : Prop :=
  dir_path d' = dir_path d ∧ dir_belowPath d' = dir_belowPath d ∧ dir_inode d' = dir_inode d ∧
  dir_direct d' = dir_direct d ∧
  (dir_direct d = false →
     opt_kept (dd_fileInfo (dir_data d)) (dd_fileInfo (dir_data d')) ∧
     opt_kept (dirEntries (dir_data d)) (dirEntries (dir_data d')) ∧
     rows (dir_data d) ⊆ rows (dir_data d')).

Definition file_kept (f f' : FileNode) : Prop :=
  file_path f' = file_path f ∧ file_belowPath f' = file_belowPath f ∧
  file_inode f' = file_inode f ∧ file_direct f' = file_direct f ∧
  (file_direct f = false → opt_kept (fd_fileInfo (file_data f)) (fd_fileInfo (file_data f'))).

Definition link_kept (l l' : Symlink) : Prop :=
  link_path l' = link_path l ∧ link_belowPath l' = link_belowPath l ∧
  link_inode l' = link_inode l ∧ link_direct l' = link_direct l ∧
  (link_direct l = false →
     opt_kept (ld_fileInfo (link_data l)) (ld_fileInfo (link_data l')) ∧
     opt_kept (target (link_data l)) (target (link_data l'))).

Definition node_kept (n n' : Node) : Prop :=
  match n, n' with
  | NodeDir d, NodeDir d' => dir_kept d d'
  | NodeFile f, NodeFile f' => file_kept f f'
  | NodeSymlink l, NodeSymlink l' => link_kept l l'
  | _, _ => False
  end.

#[export] Instance dir_kept_preorder : PreOrder dir_kept.
Proof.
  split; [by intros d|]. intros d1 d2 d3 (P1 & B1 & I1 & D1 & K1) (P2 & B2 & I2 & D2 & K2).
  split_and!; [congruence..|]. intros Hd. destruct K1 as (? & ? & ?); [done|].
  destruct K2 as (? & ? & ?); [congruence|]. split_and!; by etrans.
Qed.
#[export] Instance file_kept_preorder : PreOrder file_kept.
Proof.
  split; [by intros f|]. intros f1 f2 f3 (P1 & B1 & I1 & D1 & K1) (P2 & B2 & I2 & D2 & K2).
  split_and!; [congruence..|]. intros Hd. etrans; [by apply K1|apply K2; congruence].
Qed.
#[export] Instance link_kept_preorder : PreOrder link_kept.
Proof.
  split; [by intros l|]. intros l1 l2 l3 (P1 & B1 & I1 & D1 & K1) (P2 & B2 & I2 & D2 & K2).
  split_and!; [congruence..|]. intros Hd. destruct K1; [done|]. destruct K2; [congruence|].
  split; by etrans.
Qed.
#[export] Instance node_kept_preorder : PreOrder node_kept.
Proof.
  split; [intros []; simpl; reflexivity|].
  intros [] [] []; simpl; try done; apply transitivity.
Qed.

Section offline.
Context {OS DB : Type} `{KernelLaws OS, SqlLaws DB, !Fuel}.
Context (globals : globalState).
Abbreviation W := (World OS DB).
Abbreviation S := (Session OS DB).

(** * Frames

    Every handler keeps the statistics well-formed, whatever it does; [node_frame R] adds a
    relation on the node. *)

Definition stats_kept (w w' : W) : Prop := stats_wf (w_stats w) → stats_wf (w_stats w').
Definition node_frame {N} (R : relation N) : relation (N * W) :=
  λ s s', stats_kept s.2 s'.2 ∧ R s.1 s'.1.

#[export] Instance stats_kept_preorder : PreOrder stats_kept.
Proof. unfold stats_kept. split; [by intros ?|]. intros ? ? ? ? ? ?. auto. Qed.
#[export] Instance node_frame_preorder {N} (R : relation N) `{!PreOrder R} : PreOrder (node_frame R).
Proof.
  unfold node_frame. split; [intros ?; by split|].
  intros s1 s2 s3 [? ?] [? ?]. split; by etrans.
Qed.

Lemma account_kept ev : framed (λ s s', stats_wf s → stats_wf s') (account ev).
Proof.
  intros s Hwf. destruct (decide (valid_counter (ev_counter ev))) as [Hv|Hv].
  - destruct (account_bumped ev s Hwf Hv) as (s' & -> & Hb). by eapply bumped_wf.
  - by destruct (account_unregistered ev s Hwf Hv) as [msg ->].
Qed.

Lemma on_stats_kept ev : framed stats_kept (on_stats (OS := OS) (DB := DB) (account ev)).
Proof.
  intros w Hwf. pose proof (account_kept ev (w_stats w) Hwf). unfold on_stats, go_zoom.
  by destruct (account _ _).
Qed.
Lemma AccountOsOp_kept d op : framed stats_kept (on_stats (OS := OS) (DB := DB) (AccountOsOp d op)).
Proof. apply (on_stats_kept {| ev_counter := COs d op; ev_amount := 0 |}). Qed.
Lemma AccountReadBytes_kept d n : framed stats_kept (on_stats (OS := OS) (DB := DB) (AccountReadBytes d n)).
Proof. apply (on_stats_kept {| ev_counter := CRead d; ev_amount := n |}). Qed.
Lemma on_os_kept {A} (m : GoM OS A) : framed stats_kept (on_os (DB := DB) m).
Proof. intros w Hwf. unfold on_os, go_zoom. by destruct (m _). Qed.
Lemma on_conn_kept {A} (m : GoM (Conn DB) A) : framed stats_kept (on_conn (OS := OS) m).
Proof. intros w Hwf. unfold on_conn, go_zoom. by destruct (m _). Qed.
#[local] Hint Resolve AccountOsOp_kept AccountReadBytes_kept on_os_kept on_conn_kept : go.

Lemma Lstat_kept d p : framed stats_kept (Lstat (OS := OS) (DB := DB) d p).
Proof. unfold Lstat. framed_solve. Qed.
Lemma Readlink_kept d p : framed stats_kept (Readlink (OS := OS) (DB := DB) d p).
Proof. unfold Readlink. framed_solve. Qed.
Lemma Open_kept d p : framed stats_kept (Open (OS := OS) (DB := DB) d p).
Proof. unfold Open. framed_solve. Qed.
Lemma tr_Close_kept tr : framed stats_kept (tr_Close (OS := OS) (DB := DB) tr).
Proof. unfold tr_Close. framed_solve. Qed.
Lemma tr_Readdir_kept tr : framed stats_kept (tr_Readdir (OS := OS) (DB := DB) tr).
Proof. unfold tr_Readdir. framed_solve. Qed.
Lemma tr_ReadAt_kept tr n off : framed stats_kept (tr_ReadAt (OS := OS) (DB := DB) tr n off).
Proof. unfold tr_ReadAt, account_read. framed_solve. Qed.
#[local] Hint Resolve Lstat_kept Readlink_kept Open_kept tr_Close_kept tr_Readdir_kept tr_ReadAt_kept : go.

Lemma copy2_kept fuel dst1 src h n : framed stats_kept (copy2_loop (OS := OS) (DB := DB) fuel dst1 src h n).
Proof.
  revert h n. induction fuel as [|fuel IH]; intros h n; cbn [copy2_loop];
    unfold tr_Read, account_read; framed_solve.
Qed.
Lemma HasKey_kept cache k : framed stats_kept (HasKey (OS := OS) (DB := DB) cache k).
Proof. unfold HasKey. framed_solve. Qed.
Lemma PutContents_kept cache path : framed stats_kept (PutContents (OS := OS) (DB := DB) cache path).
Proof.
  pose proof copy2_kept as Hcopy. pose proof HasKey_kept as Hkey.
  unfold PutContents, fetch, copy2, store_temp, Mkdir, Rename, Remove. framed_solve.
Qed.
Lemma GetFileForContents_kept cache k :
  framed stats_kept (GetFileForContents (OS := OS) (DB := DB) cache k).
Proof. pose proof HasKey_kept as Hkey. unfold GetFileForContents. framed_solve. Qed.
#[local] Hint Resolve PutContents_kept GetFileForContents_kept : go.

Section frame.
Context {N : Type} (R : relation N) `{!PreOrder R}.

Lemma frame_world {A} (m : GoM W A) : framed stats_kept m → framed (node_frame R) (on_world m).
Proof.
  intros Hm [n w]. specialize (Hm w). unfold on_world, go_zoom. simpl.
  destruct (m w) as [o w']. split; [exact Hm|reflexivity].
Qed.
Lemma frame_get : framed (node_frame R) (get_node (OS := OS) (DB := DB)).
Proof. intros [n w]. reflexivity. Qed.
Lemma frame_set n : (∀ n', R n' n) → framed (node_frame R) (set_node (OS := OS) (DB := DB) n).
Proof. intros Hr [n' w]. split; [by intros ?|apply Hr]. Qed.
Lemma frame_modify f : (∀ n, R n (f n)) → framed (node_frame R) (on_node (OS := OS) (DB := DB) (go_modify f)).
Proof. intros Hr [n w]. split; [by intros ?|apply Hr]. Qed.
Lemma frame_account op :
  framed (node_frame R) (AccountHit (OS := OS) (DB := DB) op) ∧
  framed (node_frame R) (AccountMiss (OS := OS) (DB := DB) op) ∧
  framed (node_frame R) (AccountDir (OS := OS) (DB := DB) op).
Proof.
  split_and!; apply frame_world.
  - apply (on_stats_kept {| ev_counter := CHit op; ev_amount := 0 |}).
  - apply (on_stats_kept {| ev_counter := CMiss op; ev_amount := 0 |}).
  - apply (on_stats_kept {| ev_counter := CDirect op; ev_amount := 0 |}).
Qed.
Lemma frame_metadata {A} (m : GoM (Conn DB) A) : framed (node_frame R) (metadata (OS := OS) m).
Proof. apply frame_world, on_conn_kept. Qed.
End frame.
#[local] Hint Extern 0 (PreOrder _) => apply _ : go.
#[local] Hint Resolve frame_world frame_get frame_set frame_modify frame_metadata : go.
#[local] Hint Extern 1 (framed (node_frame _) (AccountHit _)) => apply frame_account : go.
#[local] Hint Extern 1 (framed (node_frame _) (AccountMiss _)) => apply frame_account : go.
#[local] Hint Extern 1 (framed (node_frame _) (AccountDir _)) => apply frame_account : go.

(** * The handlers keep what a node knows *)

(** A handler that answered from memory left everything in its place. *)
Lemma served_frame {N A} (R : relation N) `{!PreOrder R} op (m : GoM (N * W) A) n a w :
  served_from_memory op m n a → stats_wf (w_stats w) → node_frame R (n, w) (m (n, w)).2.
Proof.
  intros Hm Hwf. destruct (Hm w Hwf) as (st & -> & Hb). split; simpl; [|reflexivity].
  intros _. by eapply bumped_wf.
Qed.

Definition any_change {N} : relation N := λ _ _, True.
#[local] Instance any_change_preorder {N} : PreOrder (any_change (N := N)).
Proof. done. Qed.

Lemma commonAttr_kept inode direct belowPath fi (w : W) :
  stats_wf (w_stats w) →
  node_frame (λ o o', direct = false → opt_kept o o') (fi, w)
    (commonAttr inode direct belowPath (fi, w)).2.
Proof.
  intros Hwf. destruct (decide (direct = false ∧ is_Some fi)) as [[-> [i ->]]|Hno].
  - destruct (served_frame eq _ _ _ _ w (hit_attr inode belowPath i) Hwf) as [Hw Heq].
    split; [exact Hw|]. intros _. rewrite <- Heq. done.
  - pose proof (λ fi, frame_set (N := option FileInfo) any_change fi (λ _, I)) as Hset.
    assert (framed (node_frame any_change) (commonAttr (OS := OS) (DB := DB) inode direct belowPath)) as Hf
      by (unfold commonAttr; framed_solve).
    destruct (Hf (fi, w)) as [Hw _]. split; [exact Hw|]. simpl. intros -> a ->. destruct Hno. by split.
Qed.

Lemma Dir_Attr_kept d (w : W) : stats_wf (w_stats w) → node_frame dir_kept (d, w) (Dir_Attr (d, w)).2.
Proof.
  intros Hwf. pose proof (commonAttr_kept (dir_inode d) (dir_direct d) (dir_belowPath d)
    (dd_fileInfo (dir_data d)) w Hwf) as [Hw Hk].
  unfold Dir_Attr, mbind, go_mbind, go_bind, get_node, on_node, go_get, go_zoom. simpl.
  destruct (commonAttr _ _ _ _) as [o [fi' w']]. simpl in *. split; [exact Hw|]. simpl.
  split_and!; try done. intros Hd. split_and!; [by apply Hk|reflexivity|reflexivity].
Qed.

Lemma File_Attr_kept f (w : W) : stats_wf (w_stats w) → node_frame file_kept (f, w) (File_Attr (f, w)).2.
Proof.
  intros Hwf. pose proof (commonAttr_kept (file_inode f) (file_direct f) (file_belowPath f)
    (fd_fileInfo (file_data f)) w Hwf) as [Hw Hk].
  unfold File_Attr, mbind, go_mbind, go_bind, get_node, on_node, go_get, go_zoom. simpl.
  destruct (commonAttr _ _ _ _) as [o [fi' w']]. simpl in *. split; [exact Hw|]. by split_and!.
Qed.

Lemma Symlink_Attr_kept l (w : W) : stats_wf (w_stats w) → node_frame link_kept (l, w) (Symlink_Attr (l, w)).2.
Proof.
  intros Hwf. pose proof (commonAttr_kept (link_inode l) (link_direct l) (link_belowPath l)
    (ld_fileInfo (link_data l)) w Hwf) as [Hw Hk].
  unfold Symlink_Attr, mbind, go_mbind, go_bind, get_node, on_node, go_get, go_zoom. simpl.
  destruct (commonAttr _ _ _ _) as [o [fi' w']]. simpl in *. split; [exact Hw|].
  split_and!; try done. intros Hd. split; [by apply Hk|reflexivity].
Qed.

(** The relations a lookup, a listing, an open and a readlink that do work respect: they change
    one part of the node's data. *)
Definition dir_but_row (name : string) : relation Dir := λ d d',
  dir_path d' = dir_path d ∧ dir_belowPath d' = dir_belowPath d ∧ dir_inode d' = dir_inode d ∧
  dir_direct d' = dir_direct d ∧ dd_fileInfo (dir_data d') = dd_fileInfo (dir_data d) ∧
  dirEntries (dir_data d') = dirEntries (dir_data d) ∧
  ∀ k, k ≠ name → rows (dir_data d') !! k = rows (dir_data d) !! k.
Definition dir_but_listing : relation Dir := λ d d',
  dir_path d' = dir_path d ∧ dir_belowPath d' = dir_belowPath d ∧ dir_inode d' = dir_inode d ∧
  dir_direct d' = dir_direct d ∧ dd_fileInfo (dir_data d') = dd_fileInfo (dir_data d) ∧
  rows (dir_data d') = rows (dir_data d).
Definition file_but_hash : relation FileNode := λ f f',
  file_path f' = file_path f ∧ file_belowPath f' = file_belowPath f ∧
  file_inode f' = file_inode f ∧ file_direct f' = file_direct f ∧
  fd_fileInfo (file_data f') = fd_fileInfo (file_data f).
Definition link_but_target : relation Symlink := λ l l',
  link_path l' = link_path l ∧ link_belowPath l' = link_belowPath l ∧
  link_inode l' = link_inode l ∧ link_direct l' = link_direct l ∧
  ld_fileInfo (link_data l') = ld_fileInfo (link_data l).

#[local] Ltac preorder_eqs := split; [by repeat split|
  intros ? ? ?; unfold dir_but_listing, file_but_hash, link_but_target; intuition congruence].
#[local] Instance dir_but_row_preorder name : PreOrder (dir_but_row name).
Proof.
  split; [by repeat split|]. intros d1 d2 d3 (? & ? & ? & ? & ? & ? & R1) (? & ? & ? & ? & ? & ? & R2).
  split_and!; [congruence..|]. intros k Hk. by rewrite R2, R1.
Qed.
#[local] Instance dir_but_listing_preorder : PreOrder dir_but_listing.
Proof. preorder_eqs. Qed.
#[local] Instance file_but_hash_preorder : PreOrder file_but_hash.
Proof. preorder_eqs. Qed.
#[local] Instance link_but_target_preorder : PreOrder link_but_target.
Proof. preorder_eqs. Qed.

Lemma Lookup_frame name : framed (node_frame (dir_but_row name)) (Lookup (OS := OS) (DB := DB) globals name).
Proof.
  assert (∀ row, framed (node_frame (dir_but_row name)) (remember (OS := OS) (DB := DB) globals name row)) as Hr.
  { intros row. unfold remember. framed_step; [|framed_solve]. apply frame_modify. intros d.
    split_and!; try done. intros k Hk. simpl. by rewrite lookup_insert_ne. }
  unfold Lookup. framed_solve.
Qed.
Lemma ReadDirAll_frame : framed (node_frame dir_but_listing) (ReadDirAll (OS := OS) (DB := DB)).
Proof.
  assert (∀ d, framed (node_frame dir_but_listing) (load_listing (OS := OS) (DB := DB) d)) as Hr.
  { intros d. unfold load_listing. framed_step; [framed_solve|]. by apply frame_modify. }
  unfold ReadDirAll, store_listing, list_dirents. framed_solve.
Qed.
Lemma File_Open_frame : framed (node_frame file_but_hash) (File_Open (OS := OS) (DB := DB) globals).
Proof.
  assert (∀ f k, framed (node_frame file_but_hash) (store_hash (OS := OS) (DB := DB) f k)) as Hr.
  { intros f k. unfold store_hash. framed_step; [framed_solve|]. by apply frame_modify. }
  unfold File_Open. framed_solve.
Qed.
Lemma Readlink_frame : framed (node_frame link_but_target) (Symlink_Readlink (OS := OS) (DB := DB)).
Proof.
  assert (∀ l t, framed (node_frame link_but_target) (store_target (OS := OS) (DB := DB) l t)) as Hr.
  { intros l t. unfold store_target. framed_step; [framed_solve|]. by apply frame_modify. }
  unfold Symlink_Readlink. framed_solve.
Qed.

Lemma Lookup_kept name d (w : W) :
  stats_wf (w_stats w) → node_frame dir_kept (d, w) (Lookup globals name (d, w)).2.
Proof.
  intros Hwf. destruct (Lookup_frame name (d, w)) as [Hw (P & B & I & D & Hi & He & Hr)].
  split; [exact Hw|]. split_and!; [done..|]. intros Hd. simpl in *. split_and!.
  - by rewrite Hi.
  - by rewrite He.
  - apply map_subseteq_spec. intros k row Hk. destruct (decide (k = name)) as [->|Hne].
    + by rewrite (hit_lookup globals d name row w).
    + by rewrite Hr.
Qed.

Lemma ReadDirAll_kept d (w : W) : stats_wf (w_stats w) → node_frame dir_kept (d, w) (ReadDirAll (d, w)).2.
Proof.
  intros Hwf. destruct (ReadDirAll_frame (d, w)) as [Hw (P & B & I & D & Hi & Hr)].
  split; [exact Hw|]. split_and!; [done..|]. intros Hd. simpl in *. split_and!.
  - by rewrite Hi.
  - intros es Hes. destruct (hit_listing d es w Hd Hes Hwf) as (st & -> & _). done.
  - by rewrite Hr.
Qed.

Lemma File_Open_kept f (w : W) : node_frame file_kept (f, w) (File_Open globals (f, w)).2.
Proof.
  destruct (File_Open_frame (f, w)) as [Hw (P & B & I & D & Hi)].
  split; [exact Hw|]. split_and!; [done..|]. intros _. simpl in *. by rewrite Hi.
Qed.

Lemma Readlink_kept_node l (w : W) :
  stats_wf (w_stats w) → node_frame link_kept (l, w) (Symlink_Readlink (l, w)).2.
Proof.
  intros Hwf. destruct (Readlink_frame (l, w)) as [Hw (P & B & I & D & Hi)].
  split; [exact Hw|]. split_and!; [done..|]. intros Hd. simpl in *. split; [by rewrite Hi|].
  intros t Ht. destruct (hit_readlink l t Hd Ht w Hwf) as (st & -> & _). done.
Qed.
(** * What an answer leaves behind *)

(** Every result of [m] satisfies [Q], with the state it comes with. *)
Definition returns {T A} (Q : A → T → Prop) (m : GoM T A) : Prop :=
  ∀ s a s', m s = (Ret a, s') → Q a s'.

Lemma returns_bind {T A B} (Q : B → T → Prop) (f : A → GoM T B) (m : GoM T A) :
  (∀ a, returns Q (f a)) → returns Q (go_bind f m).
Proof. intros Hf s b s' E. unfold go_bind in E. destruct (m s) as [[] ?]; try done. by eapply Hf. Qed.
Lemma returns_err {T A} (Q : A → T → Prop) e : returns Q (go_err e).
Proof. by intros s a s' [=]. Qed.
Lemma returns_get {N A} (Q : A → N * W → Prop) (f : N → GoM (N * W) A) :
  (∀ n w a s', f n (n, w) = (Ret a, s') → Q a s') → returns Q (go_bind f get_node).
Proof. intros Hf [n w] a s' E. exact (Hf n w a s' E). Qed.
Lemma returns_defer {N A B} (Q : A → N → Prop) (d : GoM W B) (m : GoM (N * W) A) :
  returns (λ a s, Q a s.1) m → returns (λ a s, Q a s.1) (go_defer (on_world d) m).
Proof.
  intros Hm s a s' E. unfold go_defer in E. specialize (Hm s).
  destruct (m s) as [o [n w]]. unfold on_world, go_zoom in E. simpl in E.
  destruct o as [b|?|?|?|], (d w) as [[] w']; simplify_eq/=; exact (Hm _ _ eq_refl).
Qed.

Lemma commonAttr_returns inode direct belowPath :
  returns (λ a (s : option FileInfo * W), ∃ fi, s.1 = Some fi ∧ a = attr_of inode fi)
    (commonAttr inode direct belowPath).
Proof.
  apply returns_bind; intros fi. apply returns_bind; intros _. apply returns_get.
  intros [x|] w a s' E; [|done]. injection E as <- <-. exists x. by split.
Qed.

Lemma Dir_Attr_returns :
  returns (λ a (s : Dir * W), ∃ fi, dd_fileInfo (dir_data s.1) = Some fi ∧ a = attr_of (dir_inode s.1) fi)
    Dir_Attr.
Proof.
  intros [n w] a s' E. pose proof (commonAttr_returns (dir_inode n) (dir_direct n) (dir_belowPath n)
    (dd_fileInfo (dir_data n), w)) as Hc.
  unfold Dir_Attr, mbind, go_mbind, go_bind, get_node, on_node, go_get, go_zoom in E. simpl in E.
  destruct (commonAttr _ _ _ _) as [o [fi w']]. injection E as -> <-. exact (Hc _ _ eq_refl).
Qed.
Lemma File_Attr_returns :
  returns (λ a (s : FileNode * W), ∃ fi, fd_fileInfo (file_data s.1) = Some fi ∧ a = attr_of (file_inode s.1) fi)
    File_Attr.
Proof.
  intros [n w] a s' E. pose proof (commonAttr_returns (file_inode n) (file_direct n) (file_belowPath n)
    (fd_fileInfo (file_data n), w)) as Hc.
  unfold File_Attr, mbind, go_mbind, go_bind, get_node, on_node, go_get, go_zoom in E. simpl in E.
  destruct (commonAttr _ _ _ _) as [o [fi w']]. injection E as -> <-. exact (Hc _ _ eq_refl).
Qed.
Lemma Symlink_Attr_returns :
  returns (λ a (s : Symlink * W), ∃ fi, ld_fileInfo (link_data s.1) = Some fi ∧ a = attr_of (link_inode s.1) fi)
    Symlink_Attr.
Proof.
  intros [n w] a s' E. pose proof (commonAttr_returns (link_inode n) (link_direct n) (link_belowPath n)
    (ld_fileInfo (link_data n), w)) as Hc.
  unfold Symlink_Attr, mbind, go_mbind, go_bind, get_node, on_node, go_get, go_zoom in E. simpl in E.
  destruct (commonAttr _ _ _ _) as [o [fi w']]. injection E as -> <-. exact (Hc _ _ eq_refl).
Qed.

Lemma Lookup_returns name :
  returns (λ nd (s : Dir * W), ∃ row, rows (dir_data s.1) !! name = Some row ∧
      newNodeForEntry globals (dir_path s.1) (dir_belowPath s.1) row name = Ret nd)
    (Lookup globals name).
Proof.
  assert (∀ row, returns (λ nd (s : Dir * W), ∃ row, rows (dir_data s.1) !! name = Some row ∧
      newNodeForEntry globals (dir_path s.1) (dir_belowPath s.1) row name = Ret nd)
    (remember globals name row)) as Hr.
  { intros row [d w] nd s' E. unfold remember, mbind, go_mbind, go_bind, on_node, go_modify, get_node,
      on_node, go_get, go_lift, go_zoom in E. simpl in E. injection E as E <-.
    exists row. simpl. by rewrite lookup_insert_eq. }
  unfold Lookup. apply returns_get. intros d w nd s' E.
  destruct (if negb (dir_direct d) then _ else _) as [row|] eqn:Hrow.
  - destruct (dir_direct d); [done|]. unfold go_lift in E. injection E as E <-. by exists row.
  - revert nd s' E. generalize (d, w) as s. clear Hrow.
    apply returns_bind; intros row. case_match.
    + apply returns_bind; intros _. apply returns_bind; intros [e|fi].
      * case_match; [apply returns_bind; intros row'; apply Hr|].
        case_match; [apply returns_bind; intros _|]; apply returns_err.
      * apply returns_bind; intros _. apply returns_bind; intros row'. apply Hr.
    + case_match; [|apply returns_bind; intros _; apply Hr].
      apply returns_bind; intros _. apply returns_bind; intros [e|fi].
      * case_match; [apply returns_err|]. apply returns_bind; intros _. apply returns_err.
      * apply returns_bind; intros _. apply returns_bind; intros row'. apply Hr.
Qed.
Lemma list_dirents_returns (d : Dir) :
  returns (λ des (s : Dir * W), ∃ es, dirEntries (dir_data s.1) = Some es ∧
      make_dirents (map_to_list es) = Ret des)
    (load_listing d;; list_dirents).
Proof.
  intros [n w] des s' E. unfold load_listing, list_dirents, mbind, go_mbind, go_bind, on_node, go_modify,
    get_node, on_node, go_get, go_lift, go_zoom in E.
  destruct (metadata _ (n, w)) as [[es| | | |] [n' w']]; simpl in E; try done.
  injection E as E <-. by exists es.
Qed.

Lemma ReadDirAll_returns :
  returns (λ des (s : Dir * W), ∃ es, dirEntries (dir_data s.1) = Some es ∧
      make_dirents (map_to_list es) = Ret des)
    ReadDirAll.
Proof.
  pose proof list_dirents_returns as Hl.
  assert (∀ d f, returns (λ des (s : Dir * W), ∃ es, dirEntries (dir_data s.1) = Some es ∧
      make_dirents (map_to_list es) = Ret des)
    (go_defer (on_world (tr_Close f)) (store_listing d f;; load_listing d;; list_dirents))) as Hd.
  { intros d f. apply (returns_defer (λ des n, ∃ es, dirEntries (dir_data n) = Some es ∧
      make_dirents (map_to_list es) = Ret des)). apply returns_bind; intros _. apply Hl. }
  unfold ReadDirAll. apply returns_get. intros d w des s' E.
  destruct (dir_direct d).
  - revert des s' E. generalize (d, w) as s. apply returns_bind; intros _.
    apply returns_bind; intros [e|f]; [|apply Hd]. case_match; [apply Hl|apply returns_err].
  - destruct (dirEntries (dir_data d)) as [es|] eqn:Hes; simpl in E.
    + unfold list_dirents, mbind, go_mbind, go_bind, AccountHit, on_world, on_stats, on_node, get_node,
        on_node, go_get, go_lift, go_zoom in E.
      destruct (AccountCacheHit _ _) as [[] st]; simpl in E; try done.
      injection E as E <-. exists es. simpl. rewrite Hes in E. by split.
    + revert des s' E. generalize (d, w) as s. apply returns_bind; intros _.
      apply returns_bind; intros f. apply Hd.
Qed.

Lemma Readlink_returns :
  returns (λ t (s : Symlink * W), target (link_data s.1) = Some t) Symlink_Readlink.
Proof.
  unfold Symlink_Readlink. apply returns_bind; intros l. apply returns_bind; intros _.
  apply returns_get. intros l' w t s' E. destruct (target (link_data l')) eqn:Ht; [|done].
  by injection E as <- <-.
Qed.

(** * Sessions *)

Definition node_direct (n : Node) : bool :=
  match n with NodeDir d => dir_direct d | NodeFile f => file_direct f | NodeSymlink l => link_direct l end.
Definition node_inode (n : Node) : Z :=
  match n with NodeDir d => dir_inode d | NodeFile f => file_inode f | NodeSymlink l => link_inode l end.
Definition node_info (n : Node) : option FileInfo :=
  match n with
  | NodeDir d => dd_fileInfo (dir_data d)
  | NodeFile f => fd_fileInfo (file_data f)
  | NodeSymlink l => ld_fileInfo (link_data l)
  end.

(** The node a request is for. *)
Definition req_node (r : Request) : option nat :=
  match r with
  | ReqAttr i | ReqLookup i _ | ReqReadDir i | ReqOpen i | ReqReadlink i | ReqForget i => Some i
  | ReqRead _ _ _ | ReqRelease _ => None
  end.

(** What the node itself knows about the answer to a request: a reply, or the child. *)
Definition memo (n : Node) (r : Request) : option (Reply + Node) :=
  match r, n with
  | ReqAttr _, _ => fi ← node_info n; Some (inl (RepAttr (attr_of (node_inode n) fi)))
  | ReqLookup _ name, NodeDir d =>
      row ← rows (dir_data d) !! name;
      match newNodeForEntry globals (dir_path d) (dir_belowPath d) row name with
      | Ret child => Some (inr child) | _ => None end
  | ReqReadDir _, NodeDir d =>
      es ← dirEntries (dir_data d);
      match make_dirents (map_to_list es) with Ret des => Some (inl (RepDirents des)) | _ => None end
  | ReqReadlink _, NodeSymlink l => t ← target (link_data l); Some (inl (RepTarget t))
  | _, _ => None
  end.

Lemma node_kept_direct n n' : node_kept n n' → node_direct n' = node_direct n.
Proof. destruct n, n'; simpl; try done; intros (_ & _ & _ & -> & _); done. Qed.

Lemma memo_kept n n' r x :
  node_kept n n' → node_direct n = false → memo n r = Some x → memo n' r = Some x.
Proof.
  destruct n as [d|f|l], n' as [d'|f'|l']; simpl; try done.
  - intros (P & B & I & D & K) Hd. destruct (K Hd) as (Ki & Ke & Kr).
    destruct r as [|i name| | | | | |]; simpl; try done.
    + unfold node_info, node_inode. rewrite I. destruct (dd_fileInfo (dir_data d)) eqn:E; [|done].
      by rewrite (Ki _ eq_refl).
    + rewrite P, B. destruct (rows (dir_data d) !! name) as [row|] eqn:E; [|done]. simpl.
      by rewrite (lookup_weaken _ _ _ _ E Kr).
    + destruct (dirEntries (dir_data d)) eqn:E; [|done]. by rewrite (Ke _ eq_refl).
  - intros (P & B & I & D & K) Hd. destruct r; simpl; try done. unfold node_info, node_inode. rewrite I.
    destruct (fd_fileInfo (file_data f)) eqn:E; [|done]. by rewrite (K Hd _ eq_refl).
  - intros (P & B & I & D & K) Hd. destruct (K Hd) as (Ki & Kt). destruct r; simpl; try done.
    + unfold node_info, node_inode. rewrite I. destruct (ld_fileInfo (link_data l)) eqn:E; [|done].
      by rewrite (Ki _ eq_refl).
    + destruct (target (link_data l)) eqn:E; [|done]. by rewrite (Kt _ eq_refl).
Qed.

(** The node [i], which is [nd] or knows more by now, is in the table and free. *)
Definition live (i : nat) (nd : Node) (s : S) : Prop :=
  stats_wf (w_stats (ss_world s)) ∧ (i < ss_next s)%nat ∧
  ∃ nd', ss_nodes s !! i = Some nd' ∧ node_kept nd nd'.

Lemma live_start i n (s : S) :
  stats_wf (w_stats (ss_world s)) → (i < ss_next s)%nat → ss_nodes s !! i = Some n → live i n s.
Proof. intros Hwf Hlt Hn. split_and!; [done..|]. by exists n. Qed.

(** A computation for the node [j] that leaves the node [i] alive, unless it never returns and
    [j] is [i]. *)
Definition spares (i : nat) (nd : Node) (j : option nat) {A} (m : GoM S A) : Prop :=
  ∀ s, live i nd s → ((m s).1 = OutOfFuel → j ≠ Some i) → live i nd (m s).2.

Lemma spares_bind i nd j {A B} (f : A → GoM S B) (m : GoM S A) :
  spares i nd j m → (∀ a s, live i nd s → live i nd (f a s).2) → spares i nd j (go_bind f m).
Proof.
  intros Hm Hf s Hl. unfold go_bind. specialize (Hm s Hl).
  destruct (m s) as [[a|?|?|?|] s']; simpl in *; auto.
Qed.

Lemma on_node_at_spares i nd j {N A} (select : Node → option N) (wrap : N → Node) (R : relation N)
    (m : GoM (N * W) A) :
  (∀ n x, select n = Some x → n = wrap x) → (∀ x y, R x y → node_kept (wrap x) (wrap y)) →
  (∀ x w, stats_wf (w_stats w) → node_frame R (x, w) (m (x, w)).2) →
  spares i nd (Some j) (on_node_at j select wrap m).
Proof.
  intros Hsel HR Hm s (Hwf & Hlt & nd' & Hi & Hk) Ho. unfold on_node_at in *.
  destruct (ss_nodes s !! j) as [n|] eqn:Hj; simpl in *; [|by split_and!; eauto].
  destruct (select n) as [x|] eqn:Hx; simpl in *; [|by split_and!; eauto].
  specialize (Hm x (ss_world s) Hwf). destruct (m (x, ss_world s)) as [o [x' w']]. simpl in *.
  destruct Hm as [Hw Hr]. split_and!; [by apply Hw|done|].
  destruct (decide (j = i)) as [->|Hne].
  - apply Hsel in Hx as ->. rewrite Hi in Hj. injection Hj as ->.
    exists (wrap x'). split; [|etrans; [exact Hk|by apply HR]].
    destruct o; [..|by destruct Ho]; apply lookup_insert_eq.
  - exists nd'. split; [|done].
    destruct o; cbn [set_nodes ss_nodes]; rewrite ?lookup_insert_ne, ?lookup_delete_ne by done; done.
Qed.

Lemma on_dir_spares i nd j {A} (m : GoM (Dir * W) A) :
  (∀ d w, stats_wf (w_stats w) → node_frame dir_kept (d, w) (m (d, w)).2) →
  spares i nd (Some j) (on_dir j m).
Proof. apply on_node_at_spares; [by intros [] ? [= ->]|done]. Qed.
Lemma on_file_spares i nd j {A} (m : GoM (FileNode * W) A) :
  (∀ d w, stats_wf (w_stats w) → node_frame file_kept (d, w) (m (d, w)).2) →
  spares i nd (Some j) (on_file j m).
Proof. apply on_node_at_spares; [by intros [] ? [= ->]|done]. Qed.
Lemma on_link_spares i nd j {A} (m : GoM (Symlink * W) A) :
  (∀ d w, stats_wf (w_stats w) → node_frame link_kept (d, w) (m (d, w)).2) →
  spares i nd (Some j) (on_link j m).
Proof. apply on_node_at_spares; [by intros [] ? [= ->]|done]. Qed.

Lemma on_handle_spares i nd h j {A} (m : GoM (openFile * W) A) :
  framed (node_frame any_change) m → spares i nd j (on_handle h m).
Proof.
  intros Hm s (Hwf & Hl & Hn) _. unfold on_handle. destruct (ss_files s !! h) as [f|]; [|by split_and!].
  specialize (Hm (f, ss_world s)). destruct (m _) as [o [f' w']]. destruct Hm as [Hw _].
  split_and!; [by apply Hw|done..].
Qed.

Lemma openFile_frame size off :
  framed (node_frame any_change) (openFile_Read (OS := OS) (DB := DB) size off) ∧
  framed (node_frame any_change) (openFile_Release (OS := OS) (DB := DB)).
Proof.
  pose proof (λ f, frame_set (N := openFile) any_change f (λ _, I)) as Hset.
  split; [unfold openFile_Read|unfold openFile_Release]; framed_solve.
Qed.

Lemma add_live i nd n f (s : S) :
  live i nd s → live i nd (add_node n s).2 ∧ live i nd (add_file f s).2.
Proof.
  intros (Hwf & Hl & nd' & Hi & Hk). split; (split_and!; [done|simpl; lia|exists nd'; split; [|done]]); simpl.
  - rewrite lookup_insert_ne; [done|lia].
  - done.
Qed.

Lemma serve_spares i nd r : r ≠ ReqForget i → spares i nd (req_node r) (serve globals r).
Proof.
  intros Hr. destruct r as [j|j name|j|j|j|h size off|h|j]; cbn [serve req_node].
  - apply spares_bind; [|done]. intros s Hl. unfold serve_attr.
    destruct (ss_nodes s !! j) as [[d|f|l]|]; [..|done]; revert s Hl.
    + apply on_dir_spares, Dir_Attr_kept.
    + apply on_file_spares, File_Attr_kept.
    + apply on_link_spares, Symlink_Attr_kept.
  - apply spares_bind; [by apply on_dir_spares, Lookup_kept|]. intros n s Hl.
    by apply (add_live i nd n {| of_path := ""; of_reader := None |}).
  - apply spares_bind; [by apply on_dir_spares, ReadDirAll_kept|done].
  - apply spares_bind; [apply on_file_spares; intros; apply File_Open_kept|].
    intros f s Hl. by apply (add_live i nd nd f).
  - apply spares_bind; [by apply on_link_spares, Readlink_kept_node|done].
  - apply spares_bind; [|done]. apply on_handle_spares, openFile_frame.
  - intros s Hl _. pose proof (on_handle_spares i nd h None _ (proj2 (openFile_frame 0 0)) s Hl) as Hs.
    unfold mbind, go_mbind, go_bind, go_try.
    destruct (on_handle h openFile_Release s) as [[] s']; simpl in *; by apply Hs.
  - intros s (Hwf & Hl & nd' & Hi & Hk) _. split_and!; [done..|]. exists nd'. split; [|done]. simpl.
    rewrite lookup_delete_ne; [done|]. intros ->. by destruct Hr.
Qed.

(** ** Answering from memory *)

(** A handler that answers from memory, run for the node [i]. *)
Lemma on_node_at_memory i (s : S) {N A} (select : Node → option N) (wrap : N → Node)
    (m : GoM (N * W) A) n x a st :
  ss_nodes s !! i = Some n → select n = Some x → n = wrap x →
  m (x, ss_world s) = (Ret a, (x, set_w_stats st (ss_world s))) →
  on_node_at i select wrap m s = (Ret a, set_world (set_w_stats st (ss_world s)) s).
Proof.
  intros Hi Hx -> Hm. unfold on_node_at. rewrite Hi. simpl. rewrite Hx, Hm. f_equal.
  unfold set_nodes, set_world. simpl. f_equal. by apply insert_id.
Qed.

Lemma set_same_stats (w : W) : set_w_stats (w_stats w) w = w.
Proof. by destruct w. Qed.

(** The session after an answer from memory. *)
Definition after_hit (st : Stats) (x : Reply + Node) (s : S) : outcome Reply * S :=
  let s' := set_world (set_w_stats st (ss_world s)) s in
  match x with inl rep => (Ret rep, s') | inr c => (Ret (RepNode (ss_next s)), (add_node c s').2) end.

Lemma serve_memo i n r x (s : S) :
  stats_wf (w_stats (ss_world s)) → ss_nodes s !! i = Some n → req_node r = Some i →
  node_direct n = false → memo n r = Some x →
  ∃ st, serve globals r s = after_hit st x s.
Proof.
  intros Hwf Hi Hr Hd Hx.
  destruct r as [j|j name|j|j|j|h size off|h|j]; try done; injection Hr as ->; cbn [serve];
    unfold mbind at 1, go_mbind, go_bind.
  - cbn [memo] in Hx. destruct (node_info n) as [fi|] eqn:Hfi; [|done]. injection Hx as <-.
    pose proof (hit_attr (OS := OS) (DB := DB) (node_inode n)) as Hit.
    unfold serve_attr, on_dir, on_file, on_link. rewrite Hi.
    destruct n as [d|f|l]; cbn [node_direct node_info node_inode] in *.
    + destruct (Hit (dir_belowPath d) fi (ss_world s) Hwf) as (st & Hst & _). exists st.
      erewrite on_node_at_memory; [done|done|done|done|].
      unfold Dir_Attr, mbind, go_mbind, go_bind, get_node, on_node, go_get, go_zoom. simpl.
      rewrite Hd, Hfi, Hst. destruct d as [? ? ? ? []]. simpl in *. by subst.
    + destruct (Hit (file_belowPath f) fi (ss_world s) Hwf) as (st & Hst & _). exists st.
      erewrite on_node_at_memory; [done|done|done|done|].
      unfold File_Attr, mbind, go_mbind, go_bind, get_node, on_node, go_get, go_zoom. simpl.
      rewrite Hd, Hfi, Hst. destruct f as [? ? ? ? []]. simpl in *. by subst.
    + destruct (Hit (link_belowPath l) fi (ss_world s) Hwf) as (st & Hst & _). exists st.
      erewrite on_node_at_memory; [done|done|done|done|].
      unfold Symlink_Attr, mbind, go_mbind, go_bind, get_node, on_node, go_get, go_zoom. simpl.
      rewrite Hd, Hfi, Hst. destruct l as [? ? ? ? []]. simpl in *. by subst.
  - destruct n as [d|f|l]; try done. cbn [memo] in Hx.
    destruct (rows (dir_data d) !! name) as [row|] eqn:Hrow; [|done]. simpl in Hx.
    destruct (newNodeForEntry _ _ _ _ _) as [c| | | |] eqn:Hc; try done. injection Hx as <-.
    exists (w_stats (ss_world s)). unfold on_dir. erewrite on_node_at_memory; [|done|done|done|]; [done|].
    rewrite (hit_lookup globals d name row), Hc, set_same_stats; done.
  - destruct n as [d|f|l]; try done. cbn [memo] in Hx.
    destruct (dirEntries (dir_data d)) as [es|] eqn:Hes; [|done]. simpl in Hx.
    destruct (make_dirents _) as [des| | | |] eqn:Hdes; try done. injection Hx as <-.
    destruct (hit_readdir d es des Hd Hes Hdes (ss_world s) Hwf) as (st & Hst & _). exists st.
    unfold on_dir. by erewrite on_node_at_memory.
  - destruct n as [d|f|l]; try done. cbn [memo] in Hx.
    destruct (target (link_data l)) as [t|] eqn:Ht; [|done]. injection Hx as <-.
    destruct (hit_readlink l t Hd Ht (ss_world s) Hwf) as (st & Hst & _). exists st.
    unfold on_link. by erewrite on_node_at_memory.
Qed.

(** ** Remembering an answer *)

(** The requests whose answers a node remembers: all but the one to open it. *)
Definition remembered_request (r : Request) : bool :=
  match r with ReqAttr _ | ReqLookup _ _ | ReqReadDir _ | ReqReadlink _ => true | _ => false end.

Lemma on_node_at_returns i (s s' : S) {N A} (select : Node → option N) (wrap : N → Node)
    (Q : A → N * W → Prop) (m : GoM (N * W) A) a :
  returns Q m → on_node_at i select wrap m s = (Ret a, s') →
  ∃ x, ss_nodes s' !! i = Some (wrap x) ∧ ss_next s' = ss_next s ∧ Q a (x, ss_world s').
Proof.
  intros Hm. unfold on_node_at. destruct (n ← ss_nodes s !! i; select n) as [x|]; [|done].
  specialize (Hm (x, ss_world s)). destruct (m (x, ss_world s)) as [o [x' w']].
  intros [= -> <-]. exists x'. split_and!; [apply lookup_insert_eq|done|by apply Hm].
Qed.

(** What the node remembers is the reply that was given, or the child. *)
Definition memo_is (s : S) (n : Node) (r : Request) (rep : Reply) : Prop :=
  match rep with
  | RepNode id => ∃ c, memo n r = Some (inr c) ∧ ss_nodes s !! id = Some c
  | _ => memo n r = Some (inl rep)
  end.

Lemma answer_memo i r rep (s s' : S) :
  remembered_request r = true → req_node r = Some i → (i < ss_next s)%nat →
  serve globals r s = (Ret rep, s') → ∃ n, ss_nodes s' !! i = Some n ∧ memo_is s' n r rep.
Proof.
  intros Hr Hi Hlt E.
  destruct r as [j|j name|j|j|j|h size off|h|j]; try done; injection Hi as ->; cbn [serve] in E;
    unfold mbind at 1, go_mbind, go_bind, mret, go_mret, go_ret in E.
  - destruct (serve_attr i s) as [[a| | | |] s1] eqn:Ea; try done. injection E as <- <-.
    unfold serve_attr, on_dir, on_file, on_link in Ea.
    destruct (ss_nodes s !! i) as [[d|f|l]|] eqn:Hn; try done.
    + destruct (on_node_at_returns _ _ _ _ _ _ _ _ Dir_Attr_returns Ea) as (x & Hx & _ & fi & Hfi & ->).
      exists (NodeDir x). split; [done|]. simpl in *. unfold node_info. by rewrite Hfi.
    + destruct (on_node_at_returns _ _ _ _ _ _ _ _ File_Attr_returns Ea) as (x & Hx & _ & fi & Hfi & ->).
      exists (NodeFile x). split; [done|]. simpl in *. unfold node_info. by rewrite Hfi.
    + destruct (on_node_at_returns _ _ _ _ _ _ _ _ Symlink_Attr_returns Ea) as (x & Hx & _ & fi & Hfi & ->).
      exists (NodeSymlink x). split; [done|]. simpl in *. unfold node_info. by rewrite Hfi.
  - destruct (on_dir i (Lookup globals name) s) as [[c| | | |] s1] eqn:Ea; try done.
    destruct (on_node_at_returns _ _ _ _ _ _ _ _ (Lookup_returns name) Ea)
      as (x & Hx & Hnx & row & Hrow & Hc).
    injection E as <- <-. exists (NodeDir x). simpl in *. rewrite Hnx. split.
    + rewrite lookup_insert_ne; [done|lia].
    + exists c. rewrite Hrow. simpl. rewrite Hc. split; [done|apply lookup_insert_eq].
  - destruct (on_dir i ReadDirAll s) as [[des| | | |] s1] eqn:Ea; try done. injection E as <- <-.
    destruct (on_node_at_returns _ _ _ _ _ _ _ _ ReadDirAll_returns Ea) as (x & Hx & _ & es & Hes & Hd).
    exists (NodeDir x). split; [done|]. simpl in *. rewrite Hes. simpl. by rewrite Hd.
  - destruct (on_link i Symlink_Readlink s) as [[t| | | |] s1] eqn:Ea; try done. injection E as <- <-.
    destruct (on_node_at_returns _ _ _ _ _ _ _ _ Readlink_returns Ea) as (x & Hx & _ & Ht).
    exists (NodeSymlink x). split; [done|]. simpl in *. by rewrite Ht.
Qed.

(** * For ever *)

(** What can happen to a mounted file system on which the node [i] stays in use: requests of any
    kind and with any outcome, except that the node is not forgotten and that no handler of it
    hangs with its lock held; and the world around it can change in any way, for instance with
    the remote gone and the database emptied. *)
Inductive outlives (i : nat) : S → S → Prop :=
  | outlives_refl s : outlives i s s
  | outlives_serve s1 s2 r o s3 :
      outlives i s1 s2 → serve globals r s2 = (o, s3) → r ≠ ReqForget i →
      (o = OutOfFuel → req_node r ≠ Some i) → outlives i s1 s3
  | outlives_change s1 s2 os conn :
      outlives i s1 s2 →
      outlives i s1 (set_world {| w_stats := w_stats (ss_world s2); w_os := os; w_conn := conn |} s2).

Lemma outlives_live i nd s1 s2 : outlives i s1 s2 → live i nd s1 → live i nd s2.
Proof.
  induction 1 as [s|s1 s2 r o s3 Hrun IH Hserve Hf Ho|s1 s2 os conn Hrun IH]; intros Hl; [done| |by apply IH].
  pose proof (serve_spares i nd r Hf s2 (IH Hl)) as Hs. rewrite Hserve in Hs. by apply Hs.
Qed.
End offline.

(** C8 (liveness).  A node of a cached path that has once told its attributes, its listing, its
    target or a child tells it ever after (opening a file is not among these requests, since its
    contents are read from the cache directory), as long as the kernel does not forget the node and
    no handler of this node hangs, for instance on a busy database, and keeps the node's lock.
    Whatever other requests follow, with whatever outcome, and whatever becomes of the remote, the
    cache directory and the database in between, the same request is answered, with the same reply
    (a lookup: with a node for the same child), and only the statistics of the process change. *)
Theorem answered_for_ever {OS DB} `{KernelLaws OS, SqlLaws DB, !Fuel} (globals : globalState)
    (s1 s1' s2 : Session OS DB) (i : nat) (n : Node) (r : Request) (rep : Reply) :
  stats_wf (w_stats (ss_world s1)) → (i < ss_next s1)%nat →
  ss_nodes s1 !! i = Some n → node_direct n = false →
  remembered_request r = true → req_node r = Some i →
  serve globals r s1 = (Ret rep, s1') → outlives globals i s1' s2 →
  ∃ rep' s3 st, serve globals r s2 = (Ret rep', s3) ∧ ss_world s3 = set_w_stats st (ss_world s2) ∧
    match rep, rep' with
    | RepNode a, RepNode b => ∃ c, ss_nodes s1' !! a = Some c ∧ ss_nodes s3 !! b = Some c
    | _, _ => rep' = rep
    end.
Proof.
  intros Hwf Hlt Hn Hd Hr Hi E Hrun.
  destruct (answer_memo globals i r rep s1 s1' Hr Hi Hlt E) as (n' & Hn' & Hm).
  assert (r ≠ ReqForget i) as Hf by (by destruct r).
  pose proof (serve_spares globals i n r Hf s1) as Hsp. rewrite E in Hsp.
  destruct Hsp as (Hwf' & Hlt' & n2 & Hn2 & Hk); [by apply live_start|done|]. simplify_eq/=.
  assert (node_direct n' = false) as Hd' by (by rewrite (node_kept_direct _ _ Hk)).
  destruct (outlives_live globals i n' s1' s2 Hrun) as (Hwf2 & _ & n2 & Hn2 & Hk2); [by apply live_start|].
  assert (node_direct n2 = false) as Hd2 by (by rewrite (node_kept_direct _ _ Hk2)).
  assert (∀ x, memo globals n' r = Some x → ∃ st, serve globals r s2 = after_hit st x s2) as Hans.
  { intros x Hx. eapply serve_memo; [done..|]. by eapply memo_kept. }
  destruct rep; simpl in Hm; try (destruct (Hans _ Hm) as (st & ->); unfold after_hit; eauto 10).
  destruct Hm as (c & Hm & Hc). destruct (Hans _ Hm) as (st & ->). do 3 eexists. split_and!; [done..|].
  exists c. split; [done|]. simpl. apply lookup_insert_eq.
Qed.

(** The listing of the root, with the remote and the database gone. *)
Definition unplugged (s : Session MemOs MemDb) : Session MemOs MemDb :=
  set_world {| w_stats := w_stats (ss_world s);
    w_os := {| mo_local := ∅; mo_remote := ∅; mo_handles := ∅; mo_next := 0; mo_drawn := ∅; mo_faults := [] |};
    w_conn := {| c_db := {| mem_rows := []; mem_faults := [] |}; c_rt := sample_runtime |} |} s.

Lemma toured_wf : stats_wf (w_stats (ss_world (toured cached_globals))).
Proof.
  apply (reachable_stats (OS := MemOs) (DB := MemDb) cached_globals ["cache"] scenario_tree ["r"] scenario_known
    (scenario_setup cached_globals eq_refl) ∅ scenario_world), cached_reached.
Qed.

Lemma outlives_after i rs (s s' : Session MemOs MemDb) :
  Forall (λ r, req_node r ≠ Some i) rs → outlives cached_globals i s s' →
  outlives cached_globals i s (after cached_globals rs s').
Proof.
  intros Hrs. revert s'. induction Hrs as [|r rs Hr Hrs IH]; intros s' Hs; [done|].
  cbn [after foldl]. apply IH. eapply outlives_serve; [done|apply surjective_pairing|by intros ->|done].
Qed.

Definition root_listed : Session MemOs MemDb :=
  after cached_globals [ReqReadDir 0] (toured cached_globals).

Lemma answered_for_ever_witness :
  ∃ rep' s3 st,
    serve cached_globals (ReqReadDir 0) (unplugged (after cached_globals [ReqForget 1; ReqOpen 3] root_listed))
    = (Ret rep', s3) ∧
    ss_world s3 = set_w_stats st (ss_world (unplugged (after cached_globals [ReqForget 1; ReqOpen 3] root_listed))) ∧
    rep' = RepDirents
      [{| de_Inode := 2; de_Name := "a"; de_Type := DT_File |};
       {| de_Inode := 3; de_Name := "l"; de_Type := DT_Link |};
       {| de_Inode := 4; de_Name := "d"; de_Type := DT_Dir |}].
Proof.
  destruct (ss_nodes (toured cached_globals) !! 0%nat) as [n|] eqn:Hn; [|vm_compute in Hn; discriminate Hn].
  apply (answered_for_ever (OS := MemOs) (DB := MemDb) cached_globals (toured cached_globals) root_listed
    (unplugged (after cached_globals [ReqForget 1; ReqOpen 3] root_listed)) 0 n (ReqReadDir 0)
    (RepDirents
      [{| de_Inode := 2; de_Name := "a"; de_Type := DT_File |};
       {| de_Inode := 3; de_Name := "l"; de_Type := DT_Link |};
       {| de_Inode := 4; de_Name := "d"; de_Type := DT_Dir |}])).
  - apply toured_wf.
  - apply Nat.ltb_lt. vm_compute. reflexivity.
  - exact Hn.
  - vm_compute in Hn. injection Hn as <-. reflexivity.
  - reflexivity.
  - reflexivity.
  - vm_compute. reflexivity.
  - unfold unplugged. apply outlives_change, outlives_after; [by repeat constructor|apply outlives_refl].
Defined.
