(* ===== verification/Loop.v ===== *)
(** Mounting, serving and signals: Loop, unmountOnSignal and FS of internal/fs/root.go.

    The process is two goroutines over shared channels: [Loop] on the main one, and
    [unmountOnSignal], which [Loop] starts.  Both are state machines with a program counter
    ([MainPc], [HandlerPc]) whose steps are the calls that other goroutines or the outside can
    see; a run is any interleaving of their steps with requests and signals.  What
    bazil.org/fuse and the kernel answer is part of the action: whether Mount, Serve and Unmount
    fail.  How bazil.org/fuse serves the requests in between is a [Server]: [sequential] serves
    one after the other, and Concurrent.v has the one that serves any number at the same time.
    Of bazil.org/fuse it is used that Serve waits for the requests in flight before it returns,
    and returns without an error only when the file system has been unmounted. *)
From S2P Require Import Prelude GoStrings GoPath Stats Types DirEntries Sql Sqlite Kernel.
From S2P Require Import Syscalls Content Fs Session.
#[local] Open Scope Z_scope.
#[local] Arguments rootNode : simpl never.
#[local] Arguments serve : simpl never.

Inductive Signal : Type := SIGHUP | SIGINT | SIGTERM | OtherSignal (n : Z).
#[export] Instance Signal_eq_dec : EqDecision Signal.
Proof. solve_decision. Defined.

(** The signals of the call of [signal.Notify]; os.Interrupt is SIGINT. *)
Definition notified (σ : Signal) : bool :=
  match σ with SIGHUP | SIGINT | SIGTERM => true | OtherSignal _ => false end.

(** Where [Loop] is: before the named call, or inside it where it blocks. *)
Inductive MainPc : Type :=
  | AtMount                        (* fuse.Mount *)
  | AtGo                           (* go unmountOnSignal *)
  | AtRoot                         (* putAndGetRow and newNodeForEntry *)
  | AtServe                        (* in fs.Serve *)
  | AtReady                        (* <-connection.Ready *)
  | AtSelect                       (* the select *)
  | AtRedeliver (σ : Signal)       (* proc.Signal *)
  | AtSleep                        (* in the loop that sleeps *)
  | Hung                           (* in a database call that never returns *)
  | Returned (o : outcome ()).     (* returned, or panicked *)

(** Where [unmountOnSignal] is, with the signal it has received. *)
Inductive HandlerPc : Type :=
  | NotStarted
  | AtNotify                       (* signal.Notify *)
  | AtReceive                      (* <-wait *)
  | AtSend (σ : Signal)            (* caught <- *)
  | AtReset (σ : Signal)           (* signal.Reset *)
  | AtUnmount (σ : Signal)         (* fuse.Unmount *)
  | Finished (σ : Signal).

(** How the process can end other than by a return of [Loop]. *)
Inductive Death : Type := Killed (σ : Signal) | FatalExit (msg : string).

(** [pr_wait] and [pr_caught] are the channels, both with room for one signal; [pr_notify] tells
    whether the signals go to [pr_wait] or have their default effect, to end the process;
    [pr_mounted] and [pr_connected] are the file system and the connection to it; [pr_session] is
    the state of what serves the requests, and [pr_hanging] is set by a turn that has not returned
    within the fuel of the model (a scan of a busy row, for which no fuel is enough, or merely more
    retries or a longer file than the fuel): its request is taken as one that is not answered. *)
Record Process (S : Type) : Type := {
  pr_main : MainPc;
  pr_handler : HandlerPc;
  pr_wait : option Signal;
  pr_caught : option Signal;
  pr_notify : bool;
  pr_mounted : bool;
  pr_connected : bool;
  pr_session : S;
  pr_hanging : bool;
  pr_death : option Death;
}.
Arguments pr_main {S} p.
Arguments pr_handler {S} p.
Arguments pr_wait {S} p.
Arguments pr_caught {S} p.
Arguments pr_notify {S} p.
Arguments pr_mounted {S} p.
Arguments pr_connected {S} p.
Arguments pr_session {S} p.
Arguments pr_hanging {S} p.
Arguments pr_death {S} p.
Arguments Build_Process {S} _ _ _ _ _ _ _ _ _ _.

Inductive Action (T : Type) : Type :=
  (* the main goroutine, with the answers of the libraries *)
  | DoMount (err : option error) | DoGo | DoRoot | DoTurn (t : T)
  | DoServeEnds (err : option error) | DoReady (mountError : option error) | DoSelect | DoRedeliver
  (* unmountOnSignal *)
  | DoNotify | DoReceive | DoSend | DoReset | DoUnmount (err : option error)
  (* from the outside *)
  | GetSignal (σ : Signal) | UserUnmounts.
Arguments DoMount {T} err.
Arguments DoGo {T}.
Arguments DoRoot {T}.
Arguments DoTurn {T} t.
Arguments DoServeEnds {T} err.
Arguments DoReady {T} mountError.
Arguments DoSelect {T}.
Arguments DoRedeliver {T}.
Arguments DoNotify {T}.
Arguments DoReceive {T}.
Arguments DoSend {T}.
Arguments DoReset {T}.
Arguments DoUnmount {T} err.
Arguments GetSignal {T} σ.
Arguments UserUnmounts {T}.

(** * Serving *)

(** What [fs.Serve] does with the file system, in turns [T] on a state [S].  [sv_attach] is the
    state when it has the root node, [sv_turn] one turn, if there can be such a one, and what has
    become of the goroutine that took it; [sv_ok] says which turns the kernel brings about;
    [sv_settled], that no request is in flight; [sv_world] is what the goroutines share. *)
Class Server (OS DB S T : Type) : Type := {
  sv_idle : World OS DB → S;
  sv_attach : Node → World OS DB → S;
  sv_turn : globalState → T → S → option (outcome () * S);
  sv_ok : T → Prop;
  sv_settled : S → bool;
  sv_world : S → World OS DB;
}.

(** With nothing mounted, or with nothing but the root, no request is in flight. *)
Class ServerLaws (OS DB S T : Type) `{Server OS DB S T} : Prop := {
  world_idle w : sv_world (sv_idle w) = w;
  world_attach root w : sv_world (sv_attach root w) = w;
  settled_attach root w : sv_settled (sv_attach root w) = true;
}.

(** How a goroutine has ended, whatever it has answered. *)
Definition ended_as {A} (o : outcome A) : outcome () :=
  match o with
  | Ret _ => Ret ()
  | Err e => Err e
  | Panic msg => Panic msg
  | Fatal msg => Fatal msg
  | OutOfFuel => OutOfFuel
  end.

(** The node table with the root; [FS.Root] hands it to the library. *)
Definition Root {OS DB} (root : Node) (w : World OS DB) : Session OS DB :=
  {| ss_world := w; ss_nodes := {[0%nat := root]}; ss_files := ∅; ss_next := 1 |}.

(** One request after the other, each on the spot. *)
#[export] Instance sequential {OS DB} `{Kernel OS, SqlEngine DB, Fuel} :
    Server OS DB (Session OS DB) Request := {|
  sv_idle w := {| ss_world := w; ss_nodes := ∅; ss_files := ∅; ss_next := 0 |};
  sv_attach := Root;
  sv_turn globals r s := let '(o, s') := serve globals r s in Some (ended_as o, s');
  sv_ok := request_ok;
  sv_settled _ := true;
  sv_world := ss_world;
|}.
#[export] Instance sequential_laws {OS DB} `{Kernel OS, SqlEngine DB, Fuel} :
  ServerLaws OS DB (Session OS DB) Request.
Proof. done. Qed.

(** * The process *)

Section loop.
Context {OS DB S T : Type} `{Kernel OS, SqlEngine DB, Fuel, Server OS DB S T}.
Context (globals : globalState) (remotedir : string).
Abbreviation P := (Process S).

Definition set_main (m : MainPc) (p : P) : P :=
  {| pr_main := m; pr_handler := pr_handler p; pr_wait := pr_wait p; pr_caught := pr_caught p;
     pr_notify := pr_notify p; pr_mounted := pr_mounted p; pr_connected := pr_connected p;
     pr_session := pr_session p; pr_hanging := pr_hanging p; pr_death := pr_death p |}.
Definition set_handler (h : HandlerPc) (p : P) : P :=
  {| pr_main := pr_main p; pr_handler := h; pr_wait := pr_wait p; pr_caught := pr_caught p;
     pr_notify := pr_notify p; pr_mounted := pr_mounted p; pr_connected := pr_connected p;
     pr_session := pr_session p; pr_hanging := pr_hanging p; pr_death := pr_death p |}.
Definition set_channels (wait caught : option Signal) (p : P) : P :=
  {| pr_main := pr_main p; pr_handler := pr_handler p; pr_wait := wait; pr_caught := caught;
     pr_notify := pr_notify p; pr_mounted := pr_mounted p; pr_connected := pr_connected p;
     pr_session := pr_session p; pr_hanging := pr_hanging p; pr_death := pr_death p |}.
Definition set_notify (b : bool) (p : P) : P :=
  {| pr_main := pr_main p; pr_handler := pr_handler p; pr_wait := pr_wait p; pr_caught := pr_caught p;
     pr_notify := b; pr_mounted := pr_mounted p; pr_connected := pr_connected p;
     pr_session := pr_session p; pr_hanging := pr_hanging p; pr_death := pr_death p |}.
Definition set_mounted (mounted connected : bool) (p : P) : P :=
  {| pr_main := pr_main p; pr_handler := pr_handler p; pr_wait := pr_wait p; pr_caught := pr_caught p;
     pr_notify := pr_notify p; pr_mounted := mounted; pr_connected := connected;
     pr_session := pr_session p; pr_hanging := pr_hanging p; pr_death := pr_death p |}.
Definition set_session (s : S) (p : P) : P :=
  {| pr_main := pr_main p; pr_handler := pr_handler p; pr_wait := pr_wait p; pr_caught := pr_caught p;
     pr_notify := pr_notify p; pr_mounted := pr_mounted p; pr_connected := pr_connected p;
     pr_session := s; pr_hanging := pr_hanging p; pr_death := pr_death p |}.
Definition set_hanging (p : P) : P :=
  {| pr_main := pr_main p; pr_handler := pr_handler p; pr_wait := pr_wait p; pr_caught := pr_caught p;
     pr_notify := pr_notify p; pr_mounted := pr_mounted p; pr_connected := pr_connected p;
     pr_session := pr_session p; pr_hanging := true; pr_death := pr_death p |}.
Definition set_death (d : Death) (p : P) : P :=
  {| pr_main := pr_main p; pr_handler := pr_handler p; pr_wait := pr_wait p; pr_caught := pr_caught p;
     pr_notify := pr_notify p; pr_mounted := pr_mounted p; pr_connected := pr_connected p;
     pr_session := pr_session p; pr_hanging := pr_hanging p; pr_death := Some d |}.

(** Returning runs the deferred [connection.Close()]. *)
Definition return_with (o : outcome ()) (p : P) : P :=
  set_main (Returned o) (set_mounted (pr_mounted p) false p).

(** A signal is put into the channel if there is room, or dropped; without [signal.Notify] it
    ends the process. *)
Definition deliver (σ : Signal) (p : P) : P :=
  if pr_notify p && notified σ then
    match pr_wait p with
    | None => set_channels (Some σ) (pr_caught p) p
    | Some _ => p
    end
  else set_death (Killed σ) p.

(** [glog.Fatal] in a goroutine that serves a request ends the process; [fs.Serve] recovers
    from a panic. *)
Definition after_turn (o : outcome ()) (s : S) (p : P) : P :=
  match o with
  | Fatal msg => set_death (FatalExit msg) (set_session s p)
  | OutOfFuel => set_hanging (set_session s p)
  | _ => set_session s p
  end.

Definition loop_root (p : P) : P :=
  let '(o, w) := rootNode globals remotedir (sv_world (pr_session p)) in
  let p' := set_session (sv_idle w) p in
  match o with
  | Ret root => set_main AtServe (set_session (sv_attach root w) p)
  | Err e => return_with (Err e) p'
  | Panic msg => return_with (Panic msg) p'
  | Fatal msg => set_death (FatalExit msg) p'
  | OutOfFuel => set_main Hung p'
  end.

(** [fs.Serve] returns when every request in flight has been answered, so not after one that did
    not return within the fuel. *)
Definition can_return (p : P) : bool := sv_settled (pr_session p) && negb (pr_hanging p).

Definition Loop (a : Action T) (p : P) : option P :=
  match pr_main p, a with
  | AtMount, DoMount (Some e) => Some (set_main (Returned (Err e)) p)
  | AtMount, DoMount None => Some (set_main AtGo (set_mounted true true p))
  | AtGo, DoGo => Some (set_main AtRoot (set_handler AtNotify p))
  | AtRoot, DoRoot => Some (loop_root p)
  | AtServe, DoTurn t =>
      '(o, s) ← sv_turn globals t (pr_session p); Some (after_turn o s p)
  | AtServe, DoServeEnds (Some e) => if can_return p then Some (return_with (Err e) p) else None
  | AtServe, DoServeEnds None =>
      if can_return p && negb (pr_mounted p) then Some (set_main AtReady p) else None
  | AtReady, DoReady (Some e) => Some (return_with (Err e) p)
  | AtReady, DoReady None => Some (set_main AtSelect p)
  | AtSelect, DoSelect =>
      match pr_caught p with
      | Some σ => Some (set_main (AtRedeliver σ) (set_channels (pr_wait p) None p))
      | None => Some (return_with (Ret tt) p)
      end
  | AtRedeliver σ, DoRedeliver => Some (set_main AtSleep (deliver σ p))
  | _, _ => None
  end.

(** A failed [fuse.Unmount] is only logged. *)
Definition unmountOnSignal (a : Action T) (p : P) : option P :=
  match pr_handler p, a with
  | AtNotify, DoNotify => Some (set_handler AtReceive (set_notify true p))
  | AtReceive, DoReceive =>
      σ ← pr_wait p; Some (set_handler (AtSend σ) (set_channels None (pr_caught p) p))
  | AtSend σ, DoSend =>
      match pr_caught p with
      | None => Some (set_handler (AtReset σ) (set_channels (pr_wait p) (Some σ) p))
      | Some _ => None
      end
  | AtReset σ, DoReset => Some (set_handler (AtUnmount σ) (set_notify false p))
  | AtUnmount σ, DoUnmount err =>
      let mounted := match err with None => false | Some _ => pr_mounted p end in
      Some (set_handler (Finished σ) (set_mounted mounted (pr_connected p) p))
  | _, _ => None
  end.

Definition outside (a : Action T) (p : P) : option P :=
  match a with
  | GetSignal σ => Some (deliver σ p)
  | UserUnmounts => Some (set_mounted false (pr_connected p) p)
  | _ => None
  end.

Definition running (p : P) : bool :=
  match pr_death p, pr_main p with None, Returned _ => false | None, _ => true | Some _, _ => false end.

(** One step of the process. *)
Definition process_step (a : Action T) (p : P) : option P :=
  if running p then
    match a with
    | DoNotify | DoReceive | DoSend | DoReset | DoUnmount _ => unmountOnSignal a p
    | GetSignal _ | UserUnmounts => outside a p
    | _ => Loop a p
    end
  else None.

Definition process_run (acts : list (Action T)) (p : P) : option P :=
  foldl (λ r a, r ≫= process_step a) (Some p) acts.

(** A process that is about to mount: its statistics are new. *)
Definition process_start (w : World OS DB) : P :=
  {| pr_main := AtMount; pr_handler := NotStarted; pr_wait := None; pr_caught := None;
     pr_notify := false; pr_mounted := false; pr_connected := false;
     pr_session := sv_idle (set_w_stats NewStats w); pr_hanging := false; pr_death := None |}.

(** The states a process started on [w] can reach; the turns are such as the kernel makes. *)
Inductive process_reaches (w : World OS DB) : P → Prop :=
  | reaches_start : process_reaches w (process_start w)
  | reaches_step p a p' :
      process_reaches w p → (∀ t, a = DoTurn t → sv_ok t) → process_step a p = Some p' →
      process_reaches w p'.

Lemma process_run_cons a acts (p p' : P) :
  process_run (a :: acts) p = Some p' →
  ∃ p1, process_step a p = Some p1 ∧ process_run acts p1 = Some p'.
Proof.
  unfold process_run. simpl. destruct (process_step a p) as [p1|]; [by exists p1|].
  intros E. exfalso. induction acts as [|a' acts IH]; [done|]. by apply IH.
Qed.

(** What every step keeps, a run does. *)
Lemma process_run_inv (Q : P → Prop) acts (p p' : P) :
  (∀ a p p', a ∈ acts → Q p → process_step a p = Some p' → Q p') →
  Q p → process_run acts p = Some p' → Q p'.
Proof.
  revert p. induction acts as [|a acts IH]; intros p Hstep Hp E; [by injection E as <-|].
  apply process_run_cons in E as (p1 & E1 & E). apply (IH p1); [|by eapply Hstep, E1; [left|]|done].
  intros a' q q' Ha. apply Hstep. by right.
Qed.
End loop.
