(* ===== verification/LoopTheorems.v ===== *)
(** The life of the process: what a clean end, a signal and a restart leave behind. *)
From S2P Require Import Prelude GoStrings GoPath Stats Types DirEntries Sql Sqlite Kernel.
From S2P Require Import Syscalls Metadata MetadataSpec MetadataProps WorldPost Md5 Content.
From S2P Require Import ContentProps Fs FsLogic FsProps Remote Coherence Served NodeServed.
From S2P Require Import Session Requests SessionProofs Scenario Loop.
#[local] Open Scope Z_scope.
#[local] Arguments rootNode : simpl never.
#[local] Arguments serve : simpl never.

(** The signal the handler has passed on to the main goroutine. *)
Definition sent (h : HandlerPc) : option Signal :=
  match h with AtReset σ | AtUnmount σ | Finished σ => Some σ | _ => None end.
(** The signal the handler has received. *)
Definition received (h : HandlerPc) : option Signal :=
  match h with AtSend σ | AtReset σ | AtUnmount σ | Finished σ => Some σ | _ => None end.
(** The handler has been registered and not yet reset. *)
Definition listening (h : HandlerPc) : bool :=
  match h with AtReceive | AtSend _ | AtReset _ => true | _ => false end.
Definition was_reset (h : HandlerPc) : bool :=
  match h with AtUnmount _ | Finished _ => true | _ => false end.

Section signals.
Context {OS DB S T : Type} `{Kernel OS, SqlEngine DB, !Fuel, !Server OS DB S T}.
Context (globals : globalState) (remotedir : string).
Abbreviation P := (Process S).

(** The channels and the dispositions are what the program counters say. *)
Record signals_ok (p : P) : Prop := {
  sg_notify : pr_notify p = listening (pr_handler p);
  sg_start : match pr_main p with AtMount | AtGo => pr_handler p = NotStarted | _ => True end;
  sg_caught : match pr_main p with
              | AtRedeliver σ => sent (pr_handler p) = Some σ ∧ pr_caught p = None
              | AtSleep => is_Some (sent (pr_handler p)) ∧ pr_caught p = None
              | _ => pr_caught p = sent (pr_handler p)
              end;
  sg_after : match pr_main p with
             | AtReady | AtSelect | AtRedeliver _ | AtSleep => pr_mounted p = false
             | Returned (Ret _) => pr_mounted p = false ∧ sent (pr_handler p) = None
             | _ => True
             end;
  sg_closed : match pr_main p with AtMount | Returned _ => pr_connected p = false | _ => True end;
  sg_hanging : pr_hanging p = true → pr_main p = AtServe;
  sg_kinds : (∀ σ, pr_wait p = Some σ → notified σ = true) ∧
             (∀ σ, received (pr_handler p) = Some σ → notified σ = true);
  sg_death : ∀ σ, pr_death p = Some (Killed σ) → notified σ = false ∨ listening (pr_handler p) = false;
}.

Lemma signals_ok_start w : signals_ok (process_start w).
Proof. by split. Qed.

(** The session plays no part in it. *)
Lemma signals_ok_session (s : S) p : signals_ok p → signals_ok (set_session s p).
Proof. by intros []. Qed.

Lemma signals_ok_fatal msg (p : P) : signals_ok p → signals_ok (set_death (FatalExit msg) p).
Proof. intros [Sn Ss Sc Sa Sl Sh Sk Sd]. by split. Qed.

Lemma signals_ok_unmounted (p : P) : signals_ok p → signals_ok (set_mounted false (pr_connected p) p).
Proof.
  intros [Sn Ss Sc Sa Sl Sh Sk Sd]. split; try done. simpl.
  destruct (pr_main p) as [| | | | | | | | |[]]; naive_solver.
Qed.

Lemma deliver_main σ (p : P) : pr_main (deliver σ p) = pr_main p.
Proof. unfold deliver. destruct (pr_notify p && notified σ); [destruct (pr_wait p)|]; done. Qed.

Lemma signals_ok_deliver σ (p : P) : signals_ok p → signals_ok (deliver σ p).
Proof.
  intros Hp. unfold deliver. destruct (pr_notify p && notified σ) eqn:E;
    [destruct (pr_wait p); [exact Hp|]|]; destruct Hp as [Sn Ss Sc Sa Sl Sh Sk Sd].
  - apply andb_true_iff in E as [_ E]. split; try done.
    split; [by intros ? [= <-]|apply Sk].
  - split; try done. intros ? [= <-]. simpl. rewrite <- Sn. apply andb_false_iff in E as [E|E]; auto.
Qed.

Lemma signals_ok_handler (a : Action T) (p p' : P) :
  pr_death p = None → (∀ o, pr_main p ≠ Returned o) → signals_ok p →
  unmountOnSignal a p = Some p' → signals_ok p'.
Proof.
  intros Hd Hr [Sn Ss Sc Sa Sl Sh [Sw Sr] Sd] E. unfold unmountOnSignal in E.
  destruct (pr_handler p) eqn:Hh, a; try done; simpl in *.
  - injection E as <-. split; simpl; rewrite ?Hd; try done; destruct (pr_main p); naive_solver.
  - destruct (pr_wait p) as [σ|]; [|done]. injection E as <-.
    split; simpl; rewrite ?Hd; try done; destruct (pr_main p); naive_solver.
  - destruct (pr_caught p) eqn:Hc; [done|]. injection E as <-.
    split; simpl; rewrite ?Hd; try done; destruct (pr_main p); naive_solver.
  - injection E as <-. split; simpl; rewrite ?Hd; try done; destruct (pr_main p); naive_solver.
  - injection E as <-. split; simpl; rewrite ?Hd; try done; destruct (pr_main p), err; naive_solver.
Qed.

Lemma signals_ok_root (p : P) :
  pr_main p = AtRoot → signals_ok p → signals_ok (loop_root globals remotedir p).
Proof.
  intros Hm Hp. unfold loop_root. destruct (rootNode _ _ _) as [o w].
  destruct o as [root|e|msg|msg|]; [| | |by apply signals_ok_fatal, signals_ok_session|];
    destruct Hp as [Sn Ss Sc Sa Sl Sh Sk Sd]; rewrite Hm in *; split; simpl; try done;
    by intros ?%Sh.
Qed.

Lemma signals_ok_turn o (s : S) p :
  pr_main p = AtServe → signals_ok p → signals_ok (after_turn o s p).
Proof.
  intros Hm Hp. apply (signals_ok_session s) in Hp. destruct o; simpl; auto using signals_ok_fatal.
  destruct Hp as [Sn Ss Sc Sa Sl Sh Sk Sd]. by split.
Qed.

(** [fs.Serve] returns. *)
Lemma serve_ends err (p p' : P) :
  pr_main p = AtServe → Loop globals remotedir (DoServeEnds err) p = Some p' →
  sv_settled (pr_session p) = true ∧ pr_hanging p = false ∧
  match err with
  | Some e => p' = return_with (Err e) p
  | None => pr_mounted p = false ∧ p' = set_main AtReady p
  end.
Proof.
  unfold Loop, can_return. intros ->.
  destruct (sv_settled (pr_session p)), (pr_hanging p); simpl; try (by destruct err).
  destruct err; [by intros [= <-]|]. destruct (pr_mounted p); [done|]. by intros [= <-].
Qed.

Lemma signals_ok_loop a (p p' : P) :
  signals_ok p → Loop globals remotedir a p = Some p' → signals_ok p'.
Proof.
  intros Hp E. unfold Loop in E. destruct (pr_main p) eqn:Hm, a; try done.
  - destruct Hp as [Sn Ss Sc Sa Sl Sh Sk Sd]. rewrite Hm in *. destruct err; injection E as <-;
      split; simpl; try done; by intros ?%Sh.
  - destruct Hp as [Sn Ss Sc Sa Sl Sh Sk Sd]. rewrite Hm in *. injection E as <-. rewrite Ss in *.
    split; simpl; auto; by intros ?%Sh.
  - injection E as <-. by apply signals_ok_root.
  - destruct (sv_turn _ _ _) as [[o s]|]; [|done]. injection E as <-. by apply signals_ok_turn.
  - destruct Hp as [Sn Ss Sc Sa Sl Sh Sk Sd].
    assert (Loop globals remotedir (DoServeEnds err) p = Some p') as E' by (by unfold Loop; rewrite Hm).
    apply serve_ends in E' as (_ & Hh & E'); [|done]. rewrite Hm in *.
    destruct err; [subst p'|destruct E' as [? ->]]; split; simpl; try done; congruence.
  - destruct Hp as [Sn Ss Sc Sa Sl Sh Sk Sd]. rewrite Hm in *. destruct mountError; injection E as <-;
      split; simpl; try done; by intros ?%Sh.
  - destruct Hp as [Sn Ss Sc Sa Sl Sh Sk Sd]. rewrite Hm in *.
    destruct (pr_caught p) eqn:Hc; injection E as <-; split; simpl; rewrite ?Hc; auto;
      by intros ?%Sh.
  - injection E as <-. pose proof (signals_ok_deliver σ p Hp) as [Sn Ss Sc Sa Sl Sh Sk Sd].
    rewrite deliver_main, Hm in *. split; simpl; try done; [destruct Sc as [-> ->]; by split|].
    by intros ?%Sh.
Qed.

Lemma signals_ok_step a (p p' : P) :
  signals_ok p → process_step globals remotedir a p = Some p' → signals_ok p'.
Proof.
  intros Hp E. unfold process_step, running in E. destruct (pr_death p) eqn:Hd; [done|].
  destruct (match pr_main p with Returned _ => false | _ => true end) eqn:Hr; [|done].
  assert (∀ o, pr_main p ≠ Returned o) as Hm by (by intros o Ho; rewrite Ho in Hr).
  destruct a; try (by eapply signals_ok_loop); try (by eapply signals_ok_handler);
    injection E as <-; [by apply signals_ok_deliver|by apply signals_ok_unmounted].
Qed.

Lemma reaches_signals_ok w p : process_reaches globals remotedir w p → signals_ok p.
Proof. induction 1; [apply signals_ok_start|by eapply signals_ok_step]. Qed.
End signals.

(** Runs, for the ones that are given by their actions. *)
Lemma process_run_reaches {OS DB S T} `{Kernel OS, SqlEngine DB, !Fuel, !Server OS DB S T} globals remotedir
    (w : World OS DB) acts (p p' : Process S) :
  (∀ t, DoTurn t ∈ acts → sv_ok t) → process_reaches globals remotedir w p →
  process_run globals remotedir acts p = Some p' → process_reaches globals remotedir w p'.
Proof.
  intros Hok. apply process_run_inv. intros a q q' Ha Hq E. eapply reaches_step; [done| |done].
  intros t ->. by apply Hok.
Qed.

(** * Ends of the process *)

(** C14 (safety).  [Loop] returns without an error only when the file system is unmounted, the
    connection to it is closed and no signal has been passed on: the exit status of the program
    is the one of a signal whenever its handler unmounted the file system. *)
Theorem clean_return {OS DB S T} `{Kernel OS, SqlEngine DB, !Fuel, !Server OS DB S T}
    (globals : globalState) (remotedir : string)
    (w : World OS DB) (p : Process S) :
  process_reaches globals remotedir w p → pr_main p = Returned (Ret tt) →
  pr_mounted p = false ∧ pr_connected p = false ∧ sent (pr_handler p) = None.
Proof.
  intros Hp Hm. apply reaches_signals_ok in Hp as [Sn Ss Sc Sa Sl Sh Sk Sd]. rewrite Hm in *.
  by destruct Sa.
Qed.

(** C15 (safety).  A signal ends the process only if it is none of the three that [Loop] handles,
    or before the handler is registered, or when the handler has already been reset for an
    earlier signal: the first of these signals that comes after the registration never ends the
    process before the handler gets to unmount the file system. *)
Theorem killed_by_signal {OS DB S T} `{Kernel OS, SqlEngine DB, !Fuel, !Server OS DB S T}
    (globals : globalState) (remotedir : string)
    (w : World OS DB) (p : Process S) (σ : Signal) :
  process_reaches globals remotedir w p → pr_death p = Some (Killed σ) →
  notified σ = false ∨ pr_handler p = NotStarted ∨ pr_handler p = AtNotify ∨
  was_reset (pr_handler p) = true.
Proof.
  intros Hp Hd. apply reaches_signals_ok in Hp as [Sn Ss Sc Sa Sl Sh Sk Sd].
  destruct (Sd σ Hd) as [?|Hl]; [by left|]. right. destruct (pr_handler p); simpl in *; auto; done.
Qed.

(** The signal that [Loop] delivers to itself is the one that the handler has
    received, and it ends the process exactly when the handler has been reset before; otherwise
    it goes to the channel nobody reads any more, and [Loop] sleeps. *)
Theorem redelivery {OS DB S T} `{Kernel OS, SqlEngine DB, !Fuel, !Server OS DB S T}
    (globals : globalState) (remotedir : string)
    (w : World OS DB) (p p' : Process S) (σ : Signal) :
  process_reaches globals remotedir w p → pr_main p = AtRedeliver σ →
  process_step globals remotedir DoRedeliver p = Some p' →
  received (pr_handler p) = Some σ ∧ pr_main p' = AtSleep ∧ pr_mounted p' = false ∧
  (pr_death p' = Some (Killed σ) ↔ was_reset (pr_handler p) = true) ∧
  (was_reset (pr_handler p) = false → pr_death p' = None).
Proof.
  intros Hp Hm E. apply reaches_signals_ok in Hp as [Sn Ss Sc Sa Sl Sh [Sw Sr] Sd]. rewrite Hm in *.
  destruct Sc as [Hsent _]. unfold process_step, running in E. rewrite Hm in E.
  destruct (pr_death p) eqn:Hd; [done|]. unfold Loop in E. rewrite Hm in E. injection E as <-.
  assert (received (pr_handler p) = Some σ) as Hrec by (by destruct (pr_handler p)).
  assert (notified σ = true) as Hn by (by apply Sr).
  split_and!; [done|done| |..]; unfold deliver; rewrite Sn, Hn;
    destruct (pr_handler p); simpl in *; try done; destruct (pr_wait p); simpl; rewrite ?Hd; done.
Qed.

(** C18 (liveness).  Neither goroutine ever blocks but where it means to wait: [unmountOnSignal]
    only for a signal, and [Loop] only in [fs.Serve] while the file system is mounted or a request
    has not been answered, in the loop that sleeps at its end, or in a database call that never
    returns. *)
Theorem goroutines_progress {OS DB S T} `{Kernel OS, SqlEngine DB, !Fuel, !Server OS DB S T}
    (globals : globalState) (remotedir : string)
    (w : World OS DB) (p : Process S) :
  process_reaches globals remotedir w p → running p = true →
  (pr_main p = AtSleep ∨ pr_main p = Hung ∨
   (pr_main p = AtServe ∧ (pr_mounted p = true ∨ can_return p = false)) ∨
     ∃ a p', process_step globals remotedir a p = Some p' ∧ Loop globals remotedir a p = Some p') ∧
  (pr_handler p = NotStarted ∨ (pr_handler p = AtReceive ∧ pr_wait p = None) ∨
     (∃ σ, pr_handler p = Finished σ) ∨
     ∃ a p', process_step globals remotedir a p = Some p' ∧ unmountOnSignal a p = Some p').
Proof.
  intros Hp Hr. apply reaches_signals_ok in Hp as [Sn Ss Sc Sa Sl Sh Sk Sd]. split.
  - unfold process_step. rewrite Hr. unfold Loop, running in *. destruct (pr_death p); [done|].
    destruct (pr_main p) eqn:Hm; auto; try done.
    + right; right; right. exists (DoMount None). eauto.
    + right; right; right. exists DoGo. eauto.
    + right; right; right. exists DoRoot. eauto.
    + destruct (pr_mounted p), (can_return p); auto 10. right; right; right. exists (DoServeEnds None). eauto.
    + right; right; right. exists (DoReady None). eauto.
    + right; right; right. exists DoSelect. destruct (pr_caught p); eauto.
    + right; right; right. exists DoRedeliver. eauto.
  - unfold process_step. rewrite Hr. unfold unmountOnSignal.
    destruct (pr_handler p) as [| | |σ|σ|σ|σ] eqn:Hh; auto; simpl in *.
    + right; right; right. exists DoNotify. eauto.
    + destruct (pr_wait p); [|auto]. right; right; right. exists DoReceive. eauto.
    + right; right; right. exists DoSend.
      assert (pr_caught p = None) as ->; [|eauto].
      destruct (pr_main p); try done; naive_solver.
    + right; right; right. exists DoReset. eauto.
    + right; right; right. exists (DoUnmount None). eauto.
    + eauto.
Qed.

Lemma run_step {OS DB S T} `{Kernel OS, SqlEngine DB, !Fuel, !Server OS DB S T}
    globals remotedir (p p1 : Process S)
    a acts (Q : Process S → Prop) :
  process_step globals remotedir a p = Some p1 →
  (∃ p', process_run globals remotedir acts p1 = Some p' ∧ Q p') →
  ∃ p', process_run globals remotedir (a :: acts) p = Some p' ∧ Q p'.
Proof. intros E Hr. unfold process_run. simpl. by rewrite E. Qed.

(** A signal comes, the user unmounts, and [Loop] is faster than the handler. *)
Definition lost_race {T} (σ : Signal) : list (Action T) :=
  [DoMount None; DoGo; DoNotify; DoRoot; GetSignal σ; DoReceive; DoSend; UserUnmounts;
   DoServeEnds None; DoReady None; DoSelect; DoRedeliver; DoReset; DoUnmount (Some EEOF)].

Lemma lost_run {OS DB S T} `{Kernel OS, SqlEngine DB, !Fuel, !Server OS DB S T, !ServerLaws OS DB S T}
    globals remotedir (w : World OS DB) root w' σ :
  rootNode globals remotedir (set_w_stats NewStats w) = (Ret root, w') → notified σ = true →
  ∃ p : Process S, process_run globals remotedir (lost_race σ) (process_start w) = Some p ∧
    pr_main p = AtSleep ∧ pr_death p = None ∧ pr_handler p = Finished σ ∧ pr_mounted p = false.
Proof.
  intros Er Hn. unfold lost_race.
  set (s0 := sv_idle (set_w_stats NewStats w)).
  set (at_ m h wa ca n mt s := Build_Process (S := S) m h wa ca n mt true s false None).
  set (s1 := sv_attach root w').
  eapply (run_step _ _ _ (at_ AtGo NotStarted None None false true s0)); [done|].
  eapply (run_step _ _ _ (at_ AtRoot AtNotify None None false true s0)); [done|].
  eapply (run_step _ _ _ (at_ AtRoot AtReceive None None true true s0)); [done|].
  eapply (run_step _ _ _ (at_ AtServe AtReceive None None true true s1)).
  { unfold process_step, Loop, loop_root. simpl. unfold s0. by rewrite world_idle, Er. }
  eapply (run_step _ _ _ (at_ AtServe AtReceive (Some σ) None true true s1)).
  { unfold process_step, outside, deliver. simpl. by rewrite Hn. }
  eapply (run_step _ _ _ (at_ AtServe (AtSend σ) None None true true s1)); [done|].
  eapply (run_step _ _ _ (at_ AtServe (AtReset σ) None (Some σ) true true s1)); [done|].
  eapply (run_step _ _ _ (at_ AtServe (AtReset σ) None (Some σ) true false s1)); [done|].
  eapply (run_step _ _ _ (at_ AtReady (AtReset σ) None (Some σ) true false s1)).
  { unfold process_step, Loop, can_return. simpl. unfold s1. by rewrite settled_attach. }
  eapply (run_step _ _ _ (at_ AtSelect (AtReset σ) None (Some σ) true false s1)); [done|].
  eapply (run_step _ _ _ (at_ (AtRedeliver σ) (AtReset σ) None None true false s1)); [done|].
  eapply (run_step _ _ _ (at_ AtSleep (AtReset σ) (Some σ) None true false s1)).
  { unfold process_step, Loop, deliver. simpl. by rewrite Hn. }
  eapply (run_step _ _ _ (at_ AtSleep (AtUnmount σ) (Some σ) None false false s1)); [done|].
  eapply (run_step _ _ _ (at_ AtSleep (Finished σ) (Some σ) None false false s1)); [done|].
  by eexists.
Qed.

Lemma asleep_stuck {OS DB S T} `{Kernel OS, SqlEngine DB, !Fuel, !Server OS DB S T}
    globals remotedir (p : Process S) σ a p' :
  pr_main p = AtSleep → pr_handler p = Finished σ → process_step globals remotedir a p = Some p' →
  (∃ σ', a = GetSignal σ') ∨ a = UserUnmounts.
Proof.
  intros Hm Hh. unfold process_step, Loop, unmountOnSignal. rewrite Hm, Hh.
  destruct (running p); [|done]. destruct a; try done; eauto.
Qed.

(** C16 (error).  The redelivered signal can be lost: when the file system is unmounted by
    somebody else just after a signal has come, [Loop] can deliver the signal to itself before
    the handler is reset; the process then neither ends nor does anything any more, until
    another signal comes. *)
Theorem redelivered_signal_can_be_lost {OS DB S T} `{Kernel OS, SqlEngine DB, !Fuel, !Server OS DB S T,
    !ServerLaws OS DB S T}
    (globals : globalState) (remotedir : string) (w : World OS DB) (s : Session OS DB) (σ : Signal) :
  mount globals remotedir w = Ret s → notified σ = true →
  ∃ p : Process S, process_reaches globals remotedir w p ∧ pr_main p = AtSleep ∧ pr_death p = None ∧
    pr_handler p = Finished σ ∧ pr_mounted p = false ∧
    ∀ a p', process_step globals remotedir a p = Some p' → (∃ σ', a = GetSignal σ') ∨ a = UserUnmounts.
Proof.
  intros Hm Hn. unfold mount in Hm.
  destruct (rootNode globals remotedir (set_w_stats NewStats w)) as [[root|e| | |] w'] eqn:Er; try done.
  destruct (lost_run globals remotedir w root w' σ Er Hn) as (p & E & Hma & Hd & Hh & Hmt).
  exists p. split_and!; [|done..|].
  - eapply process_run_reaches; [|apply reaches_start|exact E].
    intros r Hr. repeat (apply elem_of_cons in Hr as [[=]|Hr]). by apply elem_of_nil in Hr.
  - intros a p' Ha. by eapply asleep_stuck.
Qed.

(** * The disk *)

Section disk.
Context {OS DB : Type} `{KernelLaws OS, !RemoteView OS, !RemoteLaws OS, SqlLaws DB, !Fuel}.
Context (globals : globalState) (rs : list string) (tree : string → option rnode)
  (rr : list string) (known : bytes → Prop).
Context (Hsetup : setup_ok (OS := OS) globals rs tree rr known).
Abbreviation refines := (refines globals rs tree rr known).
Abbreviation disk_ok := (disk_ok rs tree rr known).

(** A disk with everything that was on the disk [m]. *)
Definition disk_from (m : gmap string CachedRow) (w : World OS DB) : Prop :=
  ∃ m', disk_ok m' w ∧ inodes_of m ⊆ inodes_of m'.

(** A session that serves the tree, with everything that was on the disk [m]. *)
Definition session_from (m : gmap string CachedRow) (s : Session OS DB) : Prop :=
  ∃ Σ, refines s Σ ∧ inodes_of m ⊆ sp_inodes Σ.

Lemma refines_disk m s Σ : refines s Σ → inodes_of m ⊆ sp_inodes Σ → disk_from m (ss_world s).
Proof.
  intros Hr Hi. destruct (disk_of_session globals rs tree rr known s Σ Hr) as (m' & Hd & Heq).
  exists m'. by rewrite <- Heq.
Qed.

(** The root node: whatever comes of it, the disk is good, and the process does not exit. *)
Lemma rootNode_disk m w : disk_ok m w →
  let '(o, w') := rootNode globals (abs_path rr) (set_w_stats NewStats w) in
  (∀ msg, o ≠ Fatal msg ∧ o ≠ Panic msg) ∧ disk_from m w' ∧
  (∀ root, o = Ret root → session_from m (Root root w')).
Proof.
  intros Hd. set (w0 := set_w_stats NewStats w).
  assert (world_ok rs tree rr known m ∅ w0) as Hw0 by (split; [apply NewStats_wf|apply Hd|apply Hd]).
  pose proof (rootNode_alone globals rs tree rr known Hsetup m ∅ w0 Hw0) as [Hwf Hr].
  pose proof (mount_ok globals rs tree rr known Hsetup m w) as Hmount.
  unfold mount, on_world, go_zoom in *. fold w0 in Hmount. simpl in *.
  destruct (rootNode globals (abs_path rr) w0) as [o w'] eqn:E. split_and!.
  - intros msg. by split; intros ->.
  - assert (∃ m', le m m' ∧ os_ok rs tree known ∅ (w_os w') ∧ db_ok tree rr m' (db_view w'))
      as (m' & Hle & Hos & Hdb).
    { destruct o as [nd|e| | |]; try done; destruct Hr as (m' & Hle & Hos & Hdb & _); by exists m'. }
    exists m'. split; [by split|].
    apply (inodes_of_grow m m' (db_view w') {| sp_nodes := ∅; sp_handles := ∅; sp_inodes := inodes_of m |}
      {| sp_nodes := ∅; sp_handles := ∅; sp_inodes := inodes_of m' |}); try done. apply Hdb.
  - intros root ->. destruct (Hmount _ Hd eq_refl) as (Σ & [Hg _] & _ & _ & Href). by exists Σ.
Qed.

End disk.

(** What a way of serving promises: in the states [Good m] it serves the tree [tree], with
    everything that was on the disk [m].  It is in such a state when it gets its root node, no turn
    leads out of them or makes the process exit, and the disk is good at any time. *)
Class ServesTree {OS DB S T} `{KernelLaws OS, !RemoteView OS, SqlLaws DB, !Server OS DB S T}
    (globals : globalState) (rs : list string) (tree : string → option rnode) (rr : list string)
    (known : bytes → Prop) (Good : gmap string CachedRow → S → Prop) : Prop := {
  good_attach m root w :
    session_from globals rs tree rr known m (Root root w) → Good m (sv_attach root w);
  good_turn m t s o s' :
    Good m s → sv_ok t → sv_turn globals t s = Some (o, s') →
    Good m s' ∧ ∀ msg, o ≠ Fatal msg ∧ o ≠ Panic msg;
  good_disk m s : Good m s → disk_from rs tree rr known m (sv_world s);
}.

Section process_disk.
Context {OS DB S T : Type} `{KernelLaws OS, !RemoteView OS, !RemoteLaws OS, SqlLaws DB, !Fuel,
  !Server OS DB S T, !ServerLaws OS DB S T}.
Context (globals : globalState) (rs : list string) (tree : string → option rnode)
  (rr : list string) (known : bytes → Prop) (Good : gmap string CachedRow → S → Prop).
Context (Hsetup : setup_ok (OS := OS) globals rs tree rr known)
  `{!ServesTree globals rs tree rr known Good}.
Abbreviation P := (Process S).
Abbreviation disk_ok := (disk_ok rs tree rr known).
Abbreviation disk_from := (disk_from rs tree rr known).

(** What holds of a process that was started on the disk [m] of [w]. *)
Definition on_disk (m : gmap string CachedRow) (w : World OS DB) (p : P) : Prop :=
  match pr_main p with
  | AtMount | AtGo | AtRoot => pr_session p = sv_idle (set_w_stats NewStats w)
  | AtServe => Good m (pr_session p)
  | _ => disk_from m (sv_world (pr_session p))
  end.

Lemma on_disk_same m w (p p' : P) :
  pr_main p' = pr_main p → pr_session p' = pr_session p → on_disk m w p → on_disk m w p'.
Proof. unfold on_disk. by intros -> ->. Qed.

Lemma on_disk_world m w p : disk_ok m w → on_disk m w p → disk_from m (sv_world (pr_session p)).
Proof.
  intros Hd. unfold on_disk.
  destruct (pr_main p); try done; try (intros ->; rewrite world_idle; by exists m).
  by apply good_disk.
Qed.

Lemma deliver_session σ (p : P) : pr_session (deliver σ p) = pr_session p.
Proof. unfold deliver. destruct (pr_notify p && notified σ); [destruct (pr_wait p)|]; done. Qed.

Lemma on_disk_handler (a : Action T) m w (p p' : P) :
  unmountOnSignal a p = Some p' → on_disk m w p → on_disk m w p'.
Proof.
  intros E. assert (pr_main p' = pr_main p ∧ pr_session p' = pr_session p) as [Hm Hs].
  { unfold unmountOnSignal in E.
    destruct (pr_handler p), a; try done; [by injection E as <-| |destruct (pr_caught p)|..];
      [destruct (pr_wait p)|..]; try done; by injection E as <-. }
  by apply on_disk_same.
Qed.

Lemma on_disk_outside (a : Action T) m w (p p' : P) : outside a p = Some p' → on_disk m w p → on_disk m w p'.
Proof.
  intros E. apply on_disk_same; destruct a; try done; injection E as <-;
    [apply deliver_main|done|apply deliver_session|done].
Qed.

Lemma on_disk_root m w (p : P) :
  disk_ok m w → pr_main p = AtRoot → on_disk m w p → on_disk m w (loop_root globals (abs_path rr) p).
Proof.
  intros Hd Hm Hp. unfold on_disk in Hp. rewrite Hm in Hp. pose proof (rootNode_disk globals rs tree rr known Hsetup m w Hd) as Hr.
  unfold loop_root. rewrite Hp, world_idle.
  destruct (rootNode globals (abs_path rr) (set_w_stats NewStats w)) as [[root|e|msg|msg|] w'];
    destruct Hr as (Hf & Hdisk & Hroot); unfold on_disk; simpl; rewrite ?world_idle; try done.
  - by apply good_attach, Hroot.
  - by destruct (Hf msg) as [[] _].
Qed.

Lemma on_disk_loop a m w (p p' : P) :
  disk_ok m w → (∀ t, a = DoTurn t → sv_ok t) → on_disk m w p →
  Loop globals (abs_path rr) a p = Some p' → on_disk m w p'.
Proof.
  intros Hd Hturn Hp E. pose proof (on_disk_world m w p Hd Hp) as Hw.
  unfold Loop in E. destruct (pr_main p) eqn:Hm, a; try done.
  - unfold on_disk in Hp. rewrite Hm in Hp. destruct err; injection E as <-; done.
  - unfold on_disk in Hp. rewrite Hm in Hp. by injection E as <-.
  - injection E as <-. by apply on_disk_root.
  - destruct (sv_turn globals t (pr_session p)) as [[o s]|] eqn:Es; [|done]. injection E as <-.
    unfold on_disk in Hp. rewrite Hm in Hp.
    destruct (good_turn _ _ _ _ _ Hp (Hturn t eq_refl) Es) as [Hs Ho].
    unfold on_disk, after_turn. destruct o; simpl; rewrite Hm; done.
  - assert (Loop globals (abs_path rr) (DoServeEnds err) p = Some p') as E' by (by unfold Loop; rewrite Hm).
    apply serve_ends in E' as (_ & _ & E'); [|done]. unfold on_disk.
    by destruct err; [subst p'|destruct E' as [_ ->]].
  - unfold on_disk. destruct mountError; by injection E as <-.
  - unfold on_disk. destruct (pr_caught p); by injection E as <-.
  - injection E as <-. unfold on_disk. simpl. unfold deliver. by repeat case_match.
Qed.

Lemma reaches_on_disk m w p :
  disk_ok m w → process_reaches globals (abs_path rr) w p → on_disk m w p.
Proof.
  intros Hd. induction 1 as [|p a p' Hp IH Hreq E]; [done|].
  unfold process_step in E. destruct (running p); [|done].
  destruct a; try (by eapply on_disk_loop); try (by eapply on_disk_handler);
    by eapply on_disk_outside.
Qed.
End process_disk.

(** However far a process has come and however it ends, by a return, an error, a signal at any
    point between two turns or a hanging database, the disk is one on which the program can be
    started again, with every inode number that was given out before; and while [Loop] serves,
    whatever the signal handler is doing, it serves the remote tree. *)
Theorem disk_survives {OS DB S T} `{KernelLaws OS, !RemoteView OS, !RemoteLaws OS, SqlLaws DB, !Fuel,
    !Server OS DB S T, !ServerLaws OS DB S T}
    (globals : globalState) (rs : list string) (tree : string → option rnode) (rr : list string)
    (known : bytes → Prop) (Good : gmap string CachedRow → S → Prop)
    (m : gmap string CachedRow) (w : World OS DB) (p : Process S) :
  setup_ok (OS := OS) globals rs tree rr known → ServesTree globals rs tree rr known Good →
  disk_ok rs tree rr known m w → process_reaches globals (abs_path rr) w p →
  disk_from rs tree rr known m (sv_world (pr_session p)) ∧
  (pr_main p = AtServe → Good m (pr_session p)).
Proof.
  intros Hsetup Hgood Hd Hp.
  pose proof (reaches_on_disk globals rs tree rr known Good Hsetup m w p Hd Hp) as Ho.
  split; [by apply (on_disk_world globals rs tree rr known Good m w p Hd)|].
  intros Hm. unfold on_disk in Ho. by rewrite Hm in Ho.
Qed.

(** One request after the other. *)
Lemma sequential_serves {OS DB} `{KernelLaws OS, !RemoteView OS, !RemoteLaws OS, SqlLaws DB, !Fuel}
    globals rs tree rr known :
  setup_ok (OS := OS) globals rs tree rr known →
  ServesTree (DB := DB) (S := Session OS DB) globals rs tree rr known
    (session_from globals rs tree rr known).
Proof.
  intros Hsetup. split; [done| |].
  - intros m r s o s' (Σ & Hr & Hi) Hok. unfold sv_turn. simpl.
    destruct (serve globals r s) as [o0 s1] eqn:Es. intros [= <- <-].
    destruct (serve_refines globals rs tree rr known Hsetup s Σ r Hr Hok) as (Σ' & Hspec & Hr').
    rewrite Es in Hspec, Hr'. simpl in Hspec, Hr'.
    inversion Hspec as [? ? ? [Hg _] Ha|]; subst. split; [exists Σ'; split; [done|by etrans]|].
    intros msg. destruct o0; try done; inversion Ha; subst; naive_solver.
  - intros m s (Σ & Hr & Hi). by eapply refines_disk.
Qed.

(** * Instances on the scenario *)

Definition ran (acts : list (Action Request)) : Process (Session MemOs MemDb) :=
  default (process_start scenario_world)
    (process_run cached_globals "/r" acts (process_start scenario_world)).

(** Its turns are such as the kernel makes. *)
Definition turns_ok {T} (ok : T → Prop) (acts : list (Action T)) : Prop :=
  Forall (λ a, match a with DoTurn t => ok t | _ => True end) acts.
Lemma turns_are_ok {T} (ok : T → Prop) acts : turns_ok ok acts → ∀ t, DoTurn t ∈ acts → ok t.
Proof. intros Hok t Ht. exact (proj1 (Forall_forall _ _) Hok (DoTurn t) Ht). Qed.

Lemma ran_reaches acts :
  turns_ok request_ok acts → process_reaches cached_globals "/r" scenario_world (ran acts).
Proof.
  intros Hok. unfold ran.
  destruct (process_run cached_globals "/r" acts (process_start scenario_world)) as [p|] eqn:E;
    [|apply reaches_start].
  eapply process_run_reaches; [by apply (turns_are_ok request_ok)|apply reaches_start|exact E].
Qed.

Definition to_serving : list (Action Request) :=
  [DoMount None; DoGo; DoNotify; DoRoot; DoTurn (ReqReadDir 0); DoTurn (ReqLookup 0 "a")].
(** The user unmounts. *)
Definition clean_run : list (Action Request) :=
  to_serving ++ [UserUnmounts; DoServeEnds None; DoReady None; DoSelect].
(** A signal comes while the file system is serving, up to its redelivery. *)
Definition signal_run : list (Action Request) :=
  to_serving ++ [GetSignal SIGTERM; DoReceive; DoSend; DoReset; DoUnmount None; DoServeEnds None;
                 DoReady None; DoSelect].

Lemma clean_return_witness :
  pr_mounted (ran clean_run) = false ∧ pr_connected (ran clean_run) = false ∧
  sent (pr_handler (ran clean_run)) = None.
Proof.
  apply (clean_return cached_globals "/r" scenario_world).
  - apply ran_reaches. repeat constructor.
  - vm_compute. reflexivity.
Defined.

(** A signal between the mount and the start of the handler. *)
Lemma killed_by_signal_witness :
  notified SIGTERM = false ∨ pr_handler (ran [DoMount None; GetSignal SIGTERM]) = NotStarted ∨
  pr_handler (ran [DoMount None; GetSignal SIGTERM]) = AtNotify ∨
  was_reset (pr_handler (ran [DoMount None; GetSignal SIGTERM])) = true.
Proof.
  apply (killed_by_signal cached_globals "/r" scenario_world).
  - apply ran_reaches. repeat constructor.
  - vm_compute. reflexivity.
Defined.

Lemma redelivery_witness :
  received (pr_handler (ran signal_run)) = Some SIGTERM ∧
  pr_main (ran (signal_run ++ [DoRedeliver])) = AtSleep ∧
  pr_mounted (ran (signal_run ++ [DoRedeliver])) = false ∧
  (pr_death (ran (signal_run ++ [DoRedeliver])) = Some (Killed SIGTERM) ↔
   was_reset (pr_handler (ran signal_run)) = true) ∧
  (was_reset (pr_handler (ran signal_run)) = false → pr_death (ran (signal_run ++ [DoRedeliver])) = None).
Proof.
  apply (redelivery cached_globals "/r" scenario_world).
  - apply ran_reaches. repeat constructor.
  - vm_compute. reflexivity.
  - vm_compute. reflexivity.
Defined.

Lemma goroutines_progress_witness :
  let p := ran signal_run in
  (pr_main p = AtSleep ∨ pr_main p = Hung ∨
   (pr_main p = AtServe ∧ (pr_mounted p = true ∨ can_return p = false)) ∨
     ∃ a p', process_step cached_globals "/r" a p = Some p' ∧ Loop cached_globals "/r" a p = Some p') ∧
  (pr_handler p = NotStarted ∨ (pr_handler p = AtReceive ∧ pr_wait p = None) ∨
     (∃ σ, pr_handler p = Finished σ) ∨
     ∃ a p', process_step cached_globals "/r" a p = Some p' ∧ unmountOnSignal a p = Some p').
Proof.
  apply (goroutines_progress cached_globals "/r" scenario_world).
  - apply ran_reaches. repeat constructor.
  - vm_compute. reflexivity.
Defined.

Lemma redelivered_signal_can_be_lost_witness :
  ∃ p : Process (Session MemOs MemDb),
    process_reaches cached_globals "/r" scenario_world p ∧ pr_main p = AtSleep ∧
    pr_death p = None ∧ pr_handler p = Finished SIGINT ∧ pr_mounted p = false ∧
    ∀ a p', process_step cached_globals "/r" a p = Some p' → (∃ σ', a = GetSignal σ') ∨ a = UserUnmounts.
Proof.
  apply (redelivered_signal_can_be_lost cached_globals "/r" scenario_world (start cached_globals)).
  - apply cached_mounts.
  - reflexivity.
Defined.

(** Killed while serving. *)
Definition killed_run : Process (Session MemOs MemDb) := ran (to_serving ++ [GetSignal (OtherSignal 9)]).

Lemma disk_survives_witness :
  disk_from ["cache"] scenario_tree ["r"] scenario_known ∅ (sv_world (pr_session killed_run)) ∧
  (pr_main killed_run = AtServe →
   session_from cached_globals ["cache"] scenario_tree ["r"] scenario_known ∅ (pr_session killed_run)).
Proof.
  pose proof (scenario_setup cached_globals eq_refl) as Hsetup.
  assert (process_reaches cached_globals (abs_path ["r"]) scenario_world killed_run) as Hreach
    by (apply ran_reaches; repeat constructor).
  exact (disk_survives cached_globals ["cache"] scenario_tree ["r"] scenario_known _ ∅ scenario_world
    killed_run Hsetup (sequential_serves cached_globals _ _ _ _ Hsetup) scenario_disk Hreach).
Defined.
