(* ===== verification/WholeProgram.v ===== *)
(** The whole program, from its command line to its exit: [main] (CommandLine.v) with the process
    of [fs.Loop] (Loop.v) in place of its parameter, on a database that is at the same time the
    one of database/sql that is opened and closed (Opening.v) and the one with rows (Sql.v). *)
From S2P Require Import Template StatusPage.
From S2P Require Import Prelude GoStrings GoPath Stats Types DirEntries Sql Sqlite Kernel.
From S2P Require Import Syscalls Metadata MetadataSpec MetadataProps WorldPost Md5 Content.
From S2P Require Import ContentProps Fs FsLogic Opening CommandLine Remote Coherence Served.
From S2P Require Import Session Requests Simulation SessionProofs Scenario Loop LoopTheorems.
#[local] Open Scope Z_scope.
#[local] Arguments rootNode : simpl never.
#[local] Arguments serve : simpl never.

(** * The database, opened and with rows *)

(** A call does not change what [f] sees of the state. *)
Definition same {S A} (f : S → A) : relation S := λ s s', f s' = f s.
#[export] Instance same_preorder {S A} (f : S → A) : PreOrder (same f).
Proof. split; [done|]. unfold same. intros ? ? ?. congruence. Qed.

(** What the two sides of a database have to do with each other: opening, closing and preparing
    leave the rows alone, and so do the statements of the schema, which change settings and create
    the table if there is none; and what prepared statements do opens and closes nothing. *)
Class StoreLaws (DB : Type) `{SqlDriver DB, SqlDriverView DB, SqlEngine DB} : Prop := {
  rows_Open path : framed (same db_rows) (sql_Open path);
  rows_Ping h : framed (same db_rows) (db_Ping h);
  rows_ddl h q : q ∈ schemaDDL → framed (same db_rows) (db_Exec h q);
  rows_Prepare h q : framed (same db_rows) (db_Prepare h q);
  rows_Close h : framed (same db_rows) (db_Close h);
  rows_stmt_Close i : framed (same db_rows) (stmt_Close i);
  view_exec st : framed (same drv_view) (db_exec st);
  view_query q : framed (same drv_view) (db_query q);
}.

Section store.
Context {DB : Type} `{StoreLaws DB}.
#[local] Hint Resolve rows_Open rows_Ping rows_Prepare rows_Close rows_stmt_Close : go.

Lemma framed_ddl h ddl : ddl ⊆ schemaDDL → framed (same db_rows) (initDatabase h ddl).
Proof.
  unfold initDatabase. induction ddl as [|q ddl IH]; intros Hs; cbn [go_for];
    [apply framed_const, _|].
  apply framed_bind; [apply _| |intros _; apply IH; set_solver]. apply rows_ddl. set_solver.
Qed.
#[local] Hint Resolve framed_ddl : go.

Lemma framed_prepareStmts fs c e : framed (same db_rows) (prepareStmts fs c e).
Proof.
  revert c e. induction fs as [|f fs IH]; intros c e; cbn [prepareStmts]; [framed_solve|].
  apply framed_bind; [apply _| |by intros [? ?]]. unfold prepareStmt. framed_solve.
Qed.
#[local] Hint Resolve framed_prepareStmts : go.

Lemma framed_NewMetadataCache path : framed (same db_rows) (NewMetadataCache path).
Proof. unfold NewMetadataCache, newSqliteDb. framed_solve. Qed.

Lemma framed_closeStmts fs c e : framed (same db_rows) (closeStmts_from fs c e).
Proof.
  revert c e. induction fs as [|f fs IH]; intros c e; cbn [closeStmts_from]; [framed_solve|].
  apply framed_bind; [apply _| |by intros [? ?]]. unfold closeStmt. framed_solve.
Qed.
#[local] Hint Resolve framed_closeStmts : go.

Lemma framed_Cache_Close c : framed (same db_rows) (Cache_Close c).
Proof. unfold Cache_Close, MetadataCache_Close, closeStmts. framed_solve. Qed.
End store.

(** * What the file system leaves alone *)

(** Only the mounting and the turns work on the session. *)
Lemma step_session {OS DB S T} `{Kernel OS, SqlEngine DB, !Fuel, !Server OS DB S T} globals remotedir a
    (p p' : Process S) :
  process_step globals remotedir a p = Some p' →
  pr_session p' = pr_session p ∨ p' = loop_root globals remotedir p ∨
  ∃ t o s, a = DoTurn t ∧ pr_main p = AtServe ∧ sv_turn globals t (pr_session p) = Some (o, s) ∧
    p' = after_turn o s p.
Proof.
  unfold process_step. destruct (running p); [|done].
  destruct a as [err| | |t|err|err| | | | | | |err|σ|]; unfold Loop, unmountOnSignal, outside;
    try (destruct (pr_main p) eqn:Hm); try done; intros E.
  all: try (left; injection E as <-; by rewrite <- (deliver_session σ p)).
  all: try (left; repeat (case_match; try done); by simplify_eq/=).
  all: try (left; destruct (pr_handler p), (pr_wait p); try done; by simplify_eq/=).
  - right; left. by injection E.
  - right; right. destruct (sv_turn globals t (pr_session p)) as [[o s]|] eqn:Et; [|done].
    exists t, o, s. injection E as <-. by split_and!.
Qed.

Abbreviation watch f w := (f (c_db (w_conn w))).

(** What else a way of serving promises: whatever [f] of the database the prepared statements leave
    alone, its turns leave alone.  [Watched] is the states in which it is [v]. *)
Class LeavesAlone {OS DB S T A} `{Server OS DB S T} (globals : globalState) (f : DB → A) (v : A)
    (Watched : S → Prop) : Prop := {
  watched_idle w : watch f w = v → Watched (sv_idle w);
  watched_attach root w : watch f w = v → Watched (sv_attach root w);
  watched_turn t s o s' : Watched s → sv_turn globals t s = Some (o, s') → Watched s';
  watched_world s : Watched s → watch f (sv_world s) = v;
}.

Section watched.
Context {OS DB A : Type} `{Kernel OS, SqlEngine DB, !Fuel} (f : DB → A) (v : A).
Context (f_exec : ∀ st, framed (same f) (db_exec st)) (f_query : ∀ q, framed (same f) (db_query q)).

Lemma exec_watched st d : f d = v → f (db_exec st d).2 = v.
Proof. intros <-. apply f_exec. Qed.
Lemma query_watched q d : f d = v → f (db_query q d).2 = v.
Proof. intros <-. apply f_query. Qed.

(** Serving one request after the other. *)
#[export] Instance sequential_leaves_alone globals :
  LeavesAlone (S := Session OS DB) globals f v (λ s, watch f (ss_world s) = v).
Proof.
  split; [done..| |done]. intros r s o s' Hw. simpl.
  pose proof (serve_keeps (λ d, f d = v) exec_watched query_watched globals r s Hw) as Hs.
  destruct (serve globals r s). by intros [= _ <-].
Qed.

Context {S T : Type} `{!Server OS DB S T, !ServerLaws OS DB S T} (globals : globalState).
Context (Watched : S → Prop) `{!LeavesAlone globals f v Watched}.

Lemma root_watched remotedir (p : Process S) :
  Watched (pr_session p) → Watched (pr_session (loop_root globals remotedir p)).
Proof.
  intros Hw%(watched_world (globals := globals)).
  apply (rootNode_keeps (λ d, f d = v) exec_watched query_watched globals remotedir) in Hw.
  unfold loop_root. destruct (rootNode globals remotedir (sv_world (pr_session p))) as [[root| | | |] w];
    first [by apply (watched_attach (globals := globals) root w)|by apply (watched_idle (globals := globals))].
Qed.

Lemma run_watched remotedir acts (p p' : Process S) :
  process_run globals remotedir acts p = Some p' → Watched (pr_session p) → Watched (pr_session p').
Proof.
  intros E Hw. revert Hw E. apply (process_run_inv globals remotedir (λ p, Watched (pr_session p))).
  intros a q q' _ Hq E.
  destruct (step_session globals remotedir a q q' E) as [->|[->|(t & o & s & _ & _ & Ht & ->)]]; [done| |].
  - by apply root_watched.
  - apply (watched_turn t _ _ _ Hq) in Ht. by destruct o.
Qed.
End watched.

(** * How the process ends *)

Section ends.
Context {OS DB S T : Type} `{KernelLaws OS, !RemoteView OS, !RemoteLaws OS, SqlLaws DB, !Fuel,
  !Server OS DB S T, !ServerLaws OS DB S T}.
Context (globals : globalState) (rs : list string) (tree : string → option rnode)
  (rr : list string) (known : bytes → Prop) (Good : gmap string CachedRow → S → Prop).
Context (Hsetup : setup_ok (OS := OS) globals rs tree rr known)
  `{!ServesTree globals rs tree rr known Good}.
Abbreviation P := (Process S).
Abbreviation on_disk := (on_disk rs tree rr known Good).
Abbreviation disk_ok := (disk_ok rs tree rr known).

(** It has not panicked, and not exited by itself. *)
Definition ends_well (p : P) : Prop :=
  (∀ o, pr_main p = Returned o → o = Ret tt ∨ ∃ e, o = Err e) ∧
  ∀ msg, pr_death p ≠ Some (FatalExit msg).

Lemma ends_well_return o (p : P) :
  o = Ret tt ∨ (∃ e, o = Err e) → ends_well p → ends_well (return_with o p).
Proof. intros Ho [Hm Hd]. split; [by intros ? [= <-]|done]. Qed.

Lemma ends_well_root m w (p : P) :
  disk_ok m w → pr_session p = sv_idle (set_w_stats NewStats w) → ends_well p →
  ends_well (loop_root globals (abs_path rr) p).
Proof.
  intros Hd Hp Hw. pose proof (rootNode_disk globals rs tree rr known Hsetup m w Hd) as Hr.
  unfold loop_root. rewrite Hp, world_idle.
  destruct (rootNode globals (abs_path rr) (set_w_stats NewStats w)) as [[root|e|msg|msg|] w'];
    destruct Hr as (Hf & _); try (destruct (Hf msg); done).
  - by split; [|apply Hw].
  - apply ends_well_return; [eauto|apply Hw].
  - by split; [|apply Hw].
Qed.

Lemma ends_well_turn m w t o s (p : P) :
  pr_main p = AtServe → on_disk m w p → sv_ok t → sv_turn globals t (pr_session p) = Some (o, s) →
  ends_well p → ends_well (after_turn o s p).
Proof.
  intros Hm Hp Ht E Hw. unfold LoopTheorems.on_disk in Hp. rewrite Hm in Hp.
  destruct (good_turn _ _ _ _ _ Hp Ht E) as [_ Ho].
  destruct o as [| | |msg|]; [..|by destruct (Ho msg)|];
    (split; [intros o'; simpl; by rewrite Hm|apply Hw]).
Qed.

Lemma ends_well_deliver σ (p : P) : ends_well p → ends_well (deliver σ p).
Proof.
  intros [Hm Hd]. unfold deliver.
  destruct (pr_notify p && notified σ); [destruct (pr_wait p)|]; by split.
Qed.

Lemma ends_well_handler (a : Action T) (p p' : P) : unmountOnSignal a p = Some p' → ends_well p → ends_well p'.
Proof.
  intros E [Hm Hd]. unfold unmountOnSignal in E.
  destruct (pr_handler p), a; try done; [|destruct (pr_wait p)|destruct (pr_caught p)|..];
    simplify_eq/=; by split.
Qed.

Lemma ends_well_outside (a : Action T) (p p' : P) : outside a p = Some p' → ends_well p → ends_well p'.
Proof.
  intros E Hw. destruct a; try done; injection E as <-; [by apply ends_well_deliver|].
  destruct Hw. by split.
Qed.

Lemma ends_well_step m w a (p p' : P) :
  disk_ok m w → (∀ t, a = DoTurn t → sv_ok t) → on_disk m w p → ends_well p →
  process_step globals (abs_path rr) a p = Some p' → ends_well p'.
Proof.
  intros Hd Hturn Hp Hw E. unfold process_step in E. destruct (running p); [|done].
  destruct a as [err| | |t|err|err| | | | | | |err|σ|]; try (by eapply ends_well_handler);
    try (by eapply ends_well_outside); unfold Loop in E; destruct (pr_main p) eqn:Hm; try done.
  - destruct err as [e|]; injection E as <-; (split; [|apply Hw]); [|done].
    intros ? [= <-]. right. by exists e.
  - injection E as <-. by split; [|apply Hw].
  - injection E as <-. unfold LoopTheorems.on_disk in Hp. rewrite Hm in Hp.
    by eapply ends_well_root.
  - destruct (sv_turn globals t (pr_session p)) as [[o s]|] eqn:Et; [|done]. injection E as <-.
    by eapply ends_well_turn; [..|apply Hturn| |].
  - assert (Loop globals (abs_path rr) (DoServeEnds err) p = Some p') as E' by (by unfold Loop; rewrite Hm).
    apply serve_ends in E' as (_ & _ & E'); [|done].
    destruct err as [e|]; [subst p'; by apply ends_well_return; eauto|].
    destruct E' as [_ ->]. by split; [|apply Hw].
  - destruct err as [e|]; injection E as <-;
      [by apply ends_well_return; eauto|by split; [|apply Hw]].
  - destruct (pr_caught p); injection E as <-;
      [by split; [|apply Hw]|by apply ends_well_return; eauto].
  - injection E as <-. split; [done|]. by apply (ends_well_deliver σ p Hw).
Qed.

Lemma ends_well_reaches m w p :
  disk_ok m w → process_reaches globals (abs_path rr) w p → ends_well p.
Proof.
  intros Hd. induction 1 as [|p a p' Hp IH Hreq E]; [done|].
  eapply ends_well_step; [exact Hd|exact Hreq|by eapply reaches_on_disk|exact IH|exact E].
Qed.
End ends.

(** * The program *)

(** What [main] sees of [fs.Loop] when the process goes through the actions [acts], and [server] is
    what has become of the goroutine of the HTTP server then.  A process that is killed by a signal
    or by a panic of another goroutine runs no deferred call any more, as if by [Fatal]; one that
    has not come to an end has not returned. *)
Definition loop_outcome {S} (server : outcome ()) (q : Process S) : outcome () :=
  match pr_death q, pr_main q with
  | Some (FatalExit msg), _ => Fatal msg
  | Some (Killed _), _ => Fatal "killed"
  | None, Returned o => o
  | None, _ => match server with Panic msg | Fatal msg => Fatal msg | _ => OutOfFuel end
  end.

(** The server, of which [listen] is what [http.ListenAndServe] has come to. *)
Definition server_outcome (build : BuildInfo) (fl : Flags) (listen : outcome ()) : outcome () :=
  if (0 <? String.length (fl_listen_address fl))%nat
  then (runHTTPServer build listen ∅).1 else OutOfFuel.

Definition run_Loop {OS DB} S {T} `{Kernel OS, SqlEngine DB, Fuel, Server OS DB S T}
    (acts : list (Action T)) (server : outcome ()) (targetDir : string) (globals : globalState)
    (mountPoint : string) : GoM (World OS DB) () := λ w,
  match process_run globals targetDir acts (process_start (S := S) w) with
  | Some q => (loop_outcome server q, sv_world (pr_session q))
  | None => (OutOfFuel, w)
  end.

Section program.
Context {OS DB : Type} `{KernelLaws OS, !RemoteView OS, !RemoteLaws OS, SqlDriverLaws DB, SqlLaws DB,
  !StoreLaws DB, !Fuel}.
Abbreviation W := (World OS DB).

(** Opening the cache keeps what is on the disk. *)
Lemma NewCache_keeps root (w w1 : W) cache :
  NewCache root w = (Ret cache, w1) →
  Cache_Content cache = NewContentCache root ∧ w_os w1 = w_os w ∧ db_view w1 = db_view w.
Proof.
  unfold NewCache, go_try, on_conn, on_db, go_zoom, mbind, go_mbind, go_bind at 1. simpl.
  pose proof (framed_NewMetadataCache (Join [root; "metadata.db"]) (c_db (w_conn w))) as Hrows.
  destruct (NewMetadataCache _ (c_db (w_conn w))) as [[c|e| | |] d]; try done.
  - by intros [= <- <-].
  - unfold go_bind. destruct (go_ignore (Remove (OS := OS) (DB := DB) _ _) _) as [[[]|?|?|?|] w2];
      try done. by destruct (go_ignore (Remove (OS := OS) (DB := DB) _ _) w2) as [[[]|?|?|?|] w3].
Qed.

(** So does closing it. *)
Lemma cache_closed_keeps cache (w w2 w3 : W) :
  cache_closed cache w w2 w3 → w_os w3 = w_os w2 ∧ db_view w3 = db_view w2.
Proof.
  intros (c' & err & Hos & Hclose & _). split; [done|].
  pose proof (framed_Cache_Close cache (c_db (w_conn w2))) as Hrows. by rewrite Hclose in Hrows.
Qed.

(** A process that was started by [main]. *)
Lemma started_process {S T} `{!Server OS DB S T, !ServerLaws OS DB S T} globals rs tree rr known Good
    Watched m (w1 : W) acts (q : Process S) :
  setup_ok (OS := OS) globals rs tree rr known → ServesTree globals rs tree rr known Good →
  (∀ v, LeavesAlone globals drv_view v (Watched v)) → disk_ok rs tree rr known m w1 →
  (∀ t, DoTurn t ∈ acts → sv_ok t) →
  process_run globals (abs_path rr) acts (process_start w1) = Some q →
  signals_ok q ∧ ends_well q ∧ disk_from rs tree rr known m (sv_world (pr_session q)) ∧
  world_view (sv_world (pr_session q)) = world_view w1.
Proof.
  intros Hsetup Hgood Hleaves Hd Hturns Hrun.
  assert (process_reaches globals (abs_path rr) w1 q) as Hq.
  { by eapply process_run_reaches; [|apply reaches_start|]. }
  split_and!.
  - by eapply reaches_signals_ok.
  - by eapply ends_well_reaches.
  - eapply on_disk_world; [done|done|by eapply reaches_on_disk].
  - apply (watched_world (LeavesAlone := Hleaves (world_view w1))).
    apply (run_watched drv_view (world_view w1) view_exec view_query globals _ _ _ _ _ Hrun).
    by apply (watched_idle (globals := globals)).
Qed.

(** C19 (safety).  From the command line to the exit: on a good disk, whatever happens while the
    file system is mounted, [main] returns only after [fs.Loop] has found the file system
    unmounted without a signal of its own to pass on, and it has closed the cache then; an error
    of [fs.Loop], a signal or a failure of the HTTP server ends the process with the database
    still open; it never panics or exits otherwise; and the disk it leaves is good again and has kept every inode number. *)
Theorem main_ends {S T} `{!Server OS DB S T, !ServerLaws OS DB S T}
    (others : string → option OtherFlag) (help_code : Z) (regexp_Compile : string → error + (string → bool))
    (argv0 : string) (args : list string) (p : Program OS DB) (fl : Flags)
    (cacheDir mountPoint : string) (isCached : string → bool)
    (rs : list string) (tree : string → option rnode) (rr : list string) (known : bytes → Prop)
    (m : gmap string CachedRow) (cache : Cache) (w1 : W) (acts : list (Action T)) (q : Process S)
    (Good : gmap string CachedRow → S → Prop) (Watched : sql_view → S → Prop)
    (build : BuildInfo) (listen : outcome ()) :
  let globals := {| g_content := NewContentCache cacheDir; cachedPathRegex := isCached |} in
  Parse others args default_flags = Parsed fl [abs_path rr; cacheDir; mountPoint] →
  fl_help fl = false → regexp_Compile (fl_cached_path_regex fl) = inr isCached →
  setup_ok (OS := OS) globals rs tree rr known → ServesTree globals rs tree rr known Good →
  (∀ v, LeavesAlone globals drv_view v (Watched v)) → disk_ok rs tree rr known m (pg_world p) →
  view_wf (world_view (pg_world p)) →
  NewCache cacheDir (set_w_stats NewStats (pg_world p)) = (Ret cache, w1) →
  (∀ t, DoTurn t ∈ acts → sv_ok t) →
  process_run globals (abs_path rr) acts (process_start w1) = Some q →
  let server := server_outcome build fl listen in
  let '(o, p') := main others help_code regexp_Compile (run_Loop S acts server) argv0 args p in
  let still_open := v_handles (world_view (pg_world p'))
    = {[mc_db (Cache_Metadata cache)]} ∪ v_handles (world_view (pg_world p)) in
  disk_from rs tree rr known m (pg_world p') ∧
  match o with
  | Ret status =>
      status = MainReturned ∧ pr_death q = None ∧ pr_main q = Returned (Ret tt) ∧
      pr_mounted q = false ∧ pr_connected q = false ∧ pr_hanging q = false ∧
      sent (pr_handler q) = None ∧ cache_closed cache (pg_world p) (sv_world (pr_session q)) (pg_world p')
  | Fatal _ =>
      ((∃ σ, pr_death q = Some (Killed σ)) ∨ (∃ e, pr_main q = Returned (Err e)) ∨
       (running q = true ∧ ∃ msg, server = Panic msg ∨ server = Fatal msg)) ∧ still_open
  | OutOfFuel => running q = true ∧ still_open
  | Err _ | Panic _ => False
  end.
Proof.
  intros globals Hargs Hhelp Hregex Hsetup Hgood Hleaves Hd Hv Hnew Hturns Hrun server.
  destruct (NewCache_keeps _ _ _ _ Hnew) as (Hcontent & Hos & Hrows).
  destruct (NewCache_opened _ _ _ _ (Hv : view_wf (world_view (set_w_stats NewStats (pg_world p)))) Hnew)
    as [_ Hopen].
  assert (disk_ok rs tree rr known m w1) as Hd1.
  { destruct Hd as [Hd_os Hd_db]. split; [by rewrite Hos|by rewrite Hrows]. }
  destruct (started_process globals rs tree rr known Good Watched m w1 acts q Hsetup Hgood Hleaves Hd1
    Hturns Hrun)
    as (Hsig & [Hend Hexit] & Hdisk & Hview).
  pose proof (main_serve_ran regexp_Compile (run_Loop S acts server) p fl (abs_path rr) cacheDir mountPoint
    isCached cache w1 (sv_world (pr_session q)) (loop_outcome server q) Hregex Hv Hnew) as Hmain.
  unfold run_Loop in Hmain at 1. rewrite Hcontent in Hmain. fold globals in Hmain. rewrite Hrun in Hmain.
  specialize (Hmain eq_refl Hview). rewrite <- Hview in Hopen.
  unfold main. rewrite Hargs, Hhelp.
  destruct (main_serve _ _ _ _ _ _ _) as [o p'].
  unfold loop_outcome, running in *.
  destruct (pr_death q) as [[σ|msg]|]; [|by destruct (Hexit msg)|].
  { destruct Hmain as [-> ->]. eauto. }
  destruct (pr_main q) eqn:Hm;
    try (destruct server eqn:Hserver; destruct Hmain as [-> ->]; by eauto 10).
  destruct (Hend _ eq_refl) as [->|[e ->]].
  - destruct Hmain as [-> Hclosed]. destruct (cache_closed_keeps _ _ _ _ Hclosed) as [Hos' Hrows'].
    split.
    + destruct Hdisk as (m' & [Ho' Hdb'] & Hi). exists m'. split; [|done].
      split; [by rewrite Hos'|by rewrite Hrows'].
    + destruct Hsig as [_ _ _ Ha Hc Hh _ _]. rewrite Hm in *. destruct Ha. split_and!; try done.
      destruct (pr_hanging q); [by discriminate Hh|done].
  - destruct Hmain as [-> ->]. eauto 6.
Qed.
End program.

(** * A database in memory *)

(** The driver of Opening.v and the engine of Sql.v, side by side. *)
Record MemStore : Type := { st_sql : MemSql; st_rows : MemDb }.
Definition on_sql {A} (m : GoM MemSql A) : GoM MemStore A :=
  go_zoom st_sql (λ s d, {| st_sql := s; st_rows := st_rows d |}) m.
Definition on_rows {A} (m : GoM MemDb A) : GoM MemStore A :=
  go_zoom st_rows (λ s d, {| st_sql := st_sql d; st_rows := s |}) m.

#[export] Instance MemStore_driver : SqlDriver MemStore := {|
  sql_Open path := on_sql (sql_Open path);
  db_Ping h := on_sql (db_Ping h);
  db_Exec h q := on_sql (db_Exec h q);
  db_Prepare h q := on_sql (db_Prepare h q);
  db_Close h := on_sql (db_Close h);
  stmt_Close i := on_sql (stmt_Close i);
|}.
#[export] Instance MemStore_view : SqlDriverView MemStore := {| drv_view d := drv_view (st_sql d) |}.
#[export] Instance MemStore_engine : SqlEngine MemStore := {|
  db_rows d := db_rows (st_rows d);
  db_affinity := db_affinity (DB := MemDb);
  db_exec st := on_rows (db_exec st);
  db_query q := on_rows (db_query q);
|}.

Lemma on_sql_post {A} (Q : A → MemSql → Prop) E F (c : GoM MemSql A) d :
  post Q E F (c (st_sql d)) →
  post (λ a d', Q a (st_sql d')) (λ e d', E e (st_sql d')) (λ d', F (st_sql d')) (on_sql c d).
Proof. unfold on_sql, go_zoom. by destruct (c (st_sql d)) as [[] ?]. Qed.

#[export] Instance MemStore_driver_laws : SqlDriverLaws MemStore.
Proof.
  split.
  - intros path d. exact (on_sql_post _ _ _ _ d (sql_Open_spec path (st_sql d))).
  - intros h d. exact (on_sql_post _ _ _ _ d (db_Ping_spec h (st_sql d))).
  - intros h q d. exact (on_sql_post _ _ _ _ d (db_Exec_spec h q (st_sql d))).
  - intros h q d. exact (on_sql_post _ _ _ _ d (db_Prepare_spec h q (st_sql d))).
  - intros h d. exact (on_sql_post _ _ _ _ d (db_Close_spec h (st_sql d))).
  - intros i d. exact (on_sql_post _ _ _ _ d (stmt_Close_spec i (st_sql d))).
Qed.

#[export] Instance MemStore_engine_laws : SqlLaws MemStore.
Proof.
  split.
  - split; apply MemDb_affinity.
  - intros st d. pose proof (exec_spec st (st_rows d)) as Hs.
    change (db_exec (DB := MemStore) st d) with (on_rows (db_exec st) d). unfold on_rows, go_zoom.
    by destruct (db_exec st (st_rows d)) as [[] ?].
  - intros q d. pose proof (query_spec q (st_rows d)) as Hs.
    change (db_query (DB := MemStore) q d) with (on_rows (db_query q) d). unfold on_rows, go_zoom.
    by destruct (db_query q (st_rows d)) as [[] ?].
Qed.

Lemma on_sql_rows {A} (c : GoM MemSql A) : framed (same db_rows) (on_sql c).
Proof. intros d. unfold on_sql, go_zoom. by destruct (c (st_sql d)). Qed.
Lemma on_rows_view {A} (c : GoM MemDb A) : framed (same drv_view) (on_rows c).
Proof. intros d. unfold on_rows, go_zoom. by destruct (c (st_rows d)). Qed.

#[export] Instance MemStore_laws : StoreLaws MemStore.
Proof. split; intros; (apply on_sql_rows || apply on_rows_view). Qed.

(** * A life of the program *)

(** The scenario of Scenario.v, with its database not opened yet. *)
Definition closed_world : World MemOs MemStore :=
  {| w_stats := NewStats; w_os := scenario_os;
     w_conn := {| c_db := {| st_sql := {| ms_view := {| v_handles := ∅; v_stmts := ∅; v_ran := [] |};
                                          ms_faults := [] |};
                             st_rows := {| mem_rows := []; mem_faults := [] |} |};
                  c_rt := sample_runtime |} |}.
Definition launched : Program MemOs MemStore :=
  {| pg_stderr := []; pg_http := None; pg_world := closed_world |}.
Definition launch_args : list string := ["-listen_address=:80"; "/r"; "/cache"; "/mnt"].
Definition launch_flags : Flags :=
  {| fl_help := false; fl_listen_address := ":80"; fl_cached_path_regex := ".*" |}.

Definition launch_build : BuildInfo :=
  {| buildTimestamp := "t"; buildWhere := "w"; gitRevision := "r" |}.

Lemma launch_parsed :
  Parse (λ _, None) launch_args default_flags = Parsed launch_flags ["/r"; "/cache"; "/mnt"].
Proof. vm_compute. reflexivity. Qed.

Definition opened : outcome Cache * World MemOs MemStore :=
  NewCache "/cache" (set_w_stats NewStats closed_world).
Definition opened_cache : Cache :=
  match opened.1 with
  | Ret c => c
  | _ => {| Cache_Metadata := {| mc_db := 0; mc_stmt := λ _, None |};
            Cache_Content := NewContentCache "" |}
  end.
Lemma opened_ret : NewCache "/cache" (set_w_stats NewStats closed_world) = (Ret opened_cache, opened.2).
Proof. vm_compute. reflexivity. Qed.

(** The process up to where the user unmounts and [fs.Loop] returns. *)
Definition ended : Process (Session MemOs MemStore) :=
  default (process_start opened.2) (process_run cached_globals "/r" clean_run (process_start opened.2)).
Lemma ended_run : process_run cached_globals "/r" clean_run (process_start opened.2) = Some ended.
Proof. vm_compute. reflexivity. Qed.

Lemma closed_disk : disk_ok ["cache"] scenario_tree ["r"] scenario_known ∅ closed_world.
Proof. exact scenario_disk. Qed.

Lemma main_ends_witness :
  ∃ p', main (λ _, None) 0 (λ _, inr (λ _, true))
          (run_Loop (Session MemOs MemStore) clean_run (server_outcome launch_build launch_flags OutOfFuel))
          "bin/sourcachefs" launch_args launched = (Ret MainReturned, p') ∧
    disk_from ["cache"] scenario_tree ["r"] scenario_known ∅ (pg_world p') ∧
    cache_closed opened_cache closed_world (sv_world (pr_session ended)) (pg_world p').
Proof.
  pose proof (scenario_setup cached_globals eq_refl) as Hsetup.
  pose proof (main_ends (λ _, None) 0 (λ _, inr (λ _, true)) "bin/sourcachefs" launch_args launched
    launch_flags "/cache" "/mnt" (λ _, true) ["cache"] scenario_tree ["r"] scenario_known ∅ opened_cache
    opened.2 clean_run ended _ _ launch_build OutOfFuel launch_parsed eq_refl eq_refl Hsetup
    (sequential_serves cached_globals _ _ _ _ Hsetup)
    (λ v, sequential_leaves_alone drv_view v view_exec view_query cached_globals)
    closed_disk (map_Forall_empty _) opened_ret (turns_are_ok request_ok clean_run ltac:(by repeat constructor))
    ended_run) as Hm.
  cbv zeta in Hm. destruct (main _ _ _ _ _ _ _) as [[status|?|?|?|] p'] eqn:E.
  - destruct Hm as (Hd & -> & _ & _ & _ & _ & _ & _ & Hc). exists p'. split; [done|by split].
  - destruct Hm as [_ []].
  - destruct Hm as [_ []].
  - exfalso. destruct Hm as [_ [[[σ Hm]|[[e Hm]|[Hm _]]] _]]; vm_compute in Hm; discriminate Hm.
  - exfalso. destruct Hm as [_ [Hm _]]; vm_compute in Hm; discriminate Hm.
Defined.

(** A server that cannot listen, because its address is in use, ends the process while the file
    system is mounted: it stays mounted, and the database open. *)
Lemma failed_server_leaves_mount :
  let listen := Err (ENew "listen tcp :80: bind: address already in use") in
  let '(o, p') := main (λ _, None) 0 (λ _, inr (λ _, true))
    (run_Loop (Session MemOs MemStore) to_serving (server_outcome launch_build launch_flags listen))
    "bin/sourcachefs" launch_args launched in
  pr_mounted <$> process_run cached_globals "/r" to_serving
      (process_start (S := Session MemOs MemStore) opened.2) = Some true ∧
  o = Fatal "cannot start HTTP server: listen tcp :80: bind: address already in use" ∧
  size (v_handles (world_view (pg_world p'))) = 1%nat.
Proof. vm_compute. by repeat split. Qed.
