(* ===== verification/Mortal.v ===== *)
(** A process that can be killed at any moment, also in the middle of a request.

    A [Mortal] operating system or database has a number of calls left.  A call that finds some
    left is the real call; after the last one nothing happens any more: every call fails and
    changes nothing, which is all that the disk can tell about a process that has been killed.
    What the program still does inside of itself after that point is of no consequence.

    Mortal systems satisfy the laws of the systems under them, so that every theorem that is
    about any system, with calls that may fail at any time, is about killed processes too.  And
    while there are calls left, a process on mortal systems is the process on the real ones: an
    instance of the simulations of Simulation.v, which hold of every function that makes calls. *)
From S2P Require Import Prelude GoStrings GoPath Stats Types DirEntries Sql Sqlite Kernel.
From S2P Require Import Syscalls Metadata Md5 Content Fs Remote Session Loop.
#[local] Open Scope Z_scope.

Record Mortal (X : Type) : Type := { mt_state : X; mt_left : nat }.
Arguments mt_state {X} m.
Arguments mt_left {X} m.
Arguments Build_Mortal {X} _ _.

(** One call, and what it delivers when there is none left. *)
Definition while_alive {X A} (dead : outcome A) (call : GoM X A) : GoM (Mortal X) A := λ s,
  match mt_left s with
  | O => (dead, s)
  | S n => let '(o, s') := call (mt_state s) in (o, {| mt_state := s'; mt_left := n |})
  end.

Lemma while_alive_cases {X A} (dead : outcome A) (call : GoM X A) s :
  while_alive dead call s = (dead, s) ∨
  ∃ n, while_alive dead call s =
         ((call (mt_state s)).1, {| mt_state := (call (mt_state s)).2; mt_left := n |}).
Proof.
  unfold while_alive. destruct (mt_left s) as [|n]; [by left|right].
  exists n. by destruct (call (mt_state s)).
Qed.

Lemma mortal_call_state {X A} (dead : outcome A) (call : GoM X A) s :
  (while_alive dead call s).2 = s ∨
  ∃ left, (while_alive dead call s).2 = {| mt_state := (call (mt_state s)).2; mt_left := left |}.
Proof. destruct (while_alive_cases dead call s) as [->|[n ->]]; eauto. Qed.

(** * Mortal operating systems *)

Definition dead_call {A} (op path : string) : outcome A := Err (EPath op path EIO).

#[export] Instance Mortal_kernel {OS} `{Kernel OS} : Kernel (Mortal OS) := {|
  os_Lstat p := while_alive (dead_call "lstat" p) (os_Lstat p);
  os_Mkdir p mode := while_alive (dead_call "mkdir" p) (os_Mkdir p mode);
  os_Open p := while_alive (dead_call "open" p) (os_Open p);
  os_Readlink p := while_alive (dead_call "readlink" p) (os_Readlink p);
  os_Remove p := while_alive (dead_call "remove" p) (os_Remove p);
  os_Rename p q := while_alive (dead_call "rename" p) (os_Rename p q);
  os_TempFile dir prefix := while_alive (dead_call "open" dir) (os_TempFile dir prefix);
  file_Read f n :=
    while_alive (Ret ([], Some (EPath "read" (f_name f) EIO))) (file_Read f n);
  file_ReadAt f n off :=
    while_alive (Ret ([], Some (EPath "read" (f_name f) EIO))) (file_ReadAt f n off);
  file_Write f data :=
    while_alive (Ret (0%nat, Some (EPath "write" (f_name f) EIO))) (file_Write f data);
  file_Readdir f := while_alive (dead_call "readdir" (f_name f)) (file_Readdir f);
  file_Close f := while_alive (dead_call "close" (f_name f)) (file_Close f);
|}.

#[export] Instance Mortal_view {OS} `{KernelView OS} : KernelView (Mortal OS) := {|
  is_local := is_local;
  os_local s := os_local (mt_state s);
  os_stream s := os_stream (mt_state s);
  os_image s := os_image (mt_state s);
  os_writable s := os_writable (mt_state s);
|}.

Ltac mortal_call law :=
  cbn [os_Lstat os_Mkdir os_Open os_Readlink os_Remove os_Rename os_TempFile file_Read
               file_ReadAt file_Write file_Readdir file_Close Mortal_kernel];
  match goal with
  | |- context [while_alive ?dead ?call ?s] =>
      destruct (while_alive_cases dead call s) as [->|[left ->]];
        [|pose proof law as Hlaw; by destruct (call (mt_state s))]
  end; simpl.

#[export] Instance Mortal_laws {OS} `{KernelLaws OS} : KernelLaws (Mortal OS).
Proof.
  split.
  - intros p s. mortal_call (Lstat_spec p (mt_state s)). done.
  - intros p m s. mortal_call (Mkdir_spec p m (mt_state s)). done.
  - intros p s. mortal_call (Open_spec p (mt_state s)). done.
  - intros p s. mortal_call (Readlink_spec p (mt_state s)). done.
  - intros p s. mortal_call (Remove_spec p (mt_state s)). done.
  - intros p q s. mortal_call (Rename_spec p q (mt_state s)). done.
  - intros dir prefix s. mortal_call (TempFile_spec dir prefix (mt_state s)). by auto.
  - intros f n s. mortal_call (Read_spec f n (mt_state s)). split_and!; [done..|].
    do 2 eexists. split_and!; [done|simpl; lia|done|].
    intros c Hc. exists c. split_and!; [done|by rewrite insert_id|done].
  - intros f n off s. mortal_call (ReadAt_spec f n off (mt_state s)). split; [done|].
    do 2 eexists. split_and!; [done|simpl; lia|]. by intros c _ _ [|].
  - intros f data s. mortal_call (Write_spec f data (mt_state s)). split_and!; [done..|].
    do 2 eexists. split_and!; [done|lia|done|].
    intros p c _ Hp. by rewrite app_nil_r, insert_id.
  - intros f s. mortal_call (Readdir_spec f (mt_state s)). done.
  - intros f s. mortal_call (Close_spec f (mt_state s)). done.
Qed.

#[export] Instance Mortal_remote {OS} `{RemoteView OS} : RemoteView (Mortal OS) :=
  {| remote_tree s := remote_tree (mt_state s) |}.

(** Whatever call it is, a mortal system does it or does nothing. *)
Lemma mortal_kernel_call {OS} `{Kernel OS} c (s : Mortal OS) :
  (kernel_call c s).2 = s ∨
  ∃ left, (kernel_call c s).2 = {| mt_state := (kernel_call c (mt_state s)).2; mt_left := left |}.
Proof.
  destruct c; cbn [kernel_call]; rewrite ?dropped_state; apply mortal_call_state.
Qed.

Lemma while_alive_ret {X A} (dead : outcome A) (call : GoM X A) s a s' :
  (∀ a, dead ≠ Ret a) → while_alive dead call s = (Ret a, s') →
  call (mt_state s) = (Ret a, mt_state s').
Proof.
  intros Hd E. destruct (while_alive_cases dead call s) as [E'|[left E']]; rewrite E' in E.
  - injection E as E _. by destruct (Hd a).
  - injection E as <- <-. by destruct (call (mt_state s)).
Qed.

Lemma dead_call_ret {A} op path (a : A) : dead_call op path ≠ Ret a.
Proof. done. Qed.

#[export] Instance Mortal_remote_laws {OS} `{KernelLaws OS, !RemoteView OS, !RemoteLaws OS} :
  RemoteLaws (Mortal OS).
Proof.
  split.
  - intros c s. destruct (mortal_kernel_call c s) as [->|[left ->]]; [done|].
    exact (tree_kept (OS := OS) c (mt_state s)).
  - intros c s fd x Hc Hx. destruct (mortal_kernel_call c s) as [->|[left ->]]; [done|].
    exact (image_kept (OS := OS) c (mt_state s) fd x Hc Hx).
  - intros p s f s' E. apply while_alive_ret in E; [|apply dead_call_ret]. exact (Open_fresh (OS := OS) _ _ _ _ E).
  - intros dir prefix s f s' E. apply while_alive_ret in E; [|apply dead_call_ret].
    exact (TempFile_fresh (OS := OS) _ _ _ _ _ E).
  - intros p s Hp. cbn [os_Lstat Mortal_kernel].
    destruct (while_alive_cases (dead_call "lstat" p) (os_Lstat p) s) as [->|[left ->]]; [done|].
    exact (remote_Lstat (OS := OS) p (mt_state s) Hp).
  - intros p s t s' Hp E. apply while_alive_ret in E; [|apply dead_call_ret].
    exact (remote_Readlink (OS := OS) _ _ _ _ Hp E).
  - intros p s f s' info c Hp E Ht. apply while_alive_ret in E; [|apply dead_call_ret].
    exact (remote_Open (OS := OS) _ _ _ _ _ _ Hp E Ht).
  - intros p s f s' l s'' info l' Hp E1 E2 Ht.
    apply while_alive_ret in E1; [|apply dead_call_ret].
    apply while_alive_ret in E2; [|apply dead_call_ret].
    exact (remote_Readdir (OS := OS) _ _ _ _ _ _ _ _ Hp E1 E2 Ht).
Qed.

(** * Mortal databases *)

(** SQLITE_INTERRUPT. *)
Definition dead_statement {A} : outcome A := Err (ESqlite 9).

#[export] Instance Mortal_engine {DB} `{SqlEngine DB} : SqlEngine (Mortal DB) := {|
  db_rows d := db_rows (mt_state d);
  db_affinity := db_affinity;
  db_exec st := while_alive dead_statement (db_exec st);
  db_query q := while_alive dead_statement (db_query q);
|}.

#[export] Instance Mortal_affinity {DB} `{AffinityLaws DB} : AffinityLaws (Mortal DB).
Proof.
  split.
  - exact (affinity_text (DB := DB)).
  - exact (affinity_int (DB := DB)).
  - exact (affinity_real (DB := DB)).
  - exact (affinity_not_null (DB := DB)).
Qed.

#[export] Instance Mortal_sql_laws {DB} `{SqlLaws DB} : SqlLaws (Mortal DB).
Proof.
  split.
  - apply _.
  - intros st d. cbn [db_exec Mortal_engine].
    destruct (while_alive_cases dead_statement (db_exec st) d) as [->|[left ->]]; [done|].
    pose proof (exec_spec st (mt_state d)) as Hs. by destruct (db_exec st (mt_state d)).
  - intros q d. cbn [db_query Mortal_engine].
    destruct (while_alive_cases dead_statement (db_query q) d) as [->|[left ->]]; [done|].
    pose proof (query_spec q (mt_state d)) as Hs. by destruct (db_query q (mt_state d)).
Qed.
