(* ===== verification/Killed.v ===== *)
(** Killed at any moment: the simulation of the real process by a mortal one (Mortal.v), and what
    a process that has been killed in the middle of a request leaves on the disk. *)
From S2P Require Import Prelude GoStrings GoPath Stats Types DirEntries Sql Sqlite Kernel.
From S2P Require Import Syscalls Metadata MetadataSpec MetadataProps WorldPost Md5 Content.
From S2P Require Import ContentProps Fs FsLogic FsProps Remote Coherence Served NodeServed.
From S2P Require Import Session Simulation Requests SessionProofs Scenario SessionTheorems Loop LoopTheorems.
From S2P Require Import Mortal.
#[local] Open Scope Z_scope.

(** * A mortal state and the real one *)

(** The real state under a mortal one, and whether there are calls left. *)
Class Stripped (X Y : Type) : Type := { strip : X → Y; alive : X → Prop }.

#[export] Instance Mortal_stripped {X} : Stripped (Mortal X) X :=
  {| strip := mt_state; alive s := mt_left s ≠ 0%nat |}.

#[export] Instance Conn_stripped {DB} : Stripped (Conn (Mortal DB)) (Conn DB) :=
  {| strip c := {| c_db := strip (c_db c); c_rt := c_rt c |}; alive c := alive (c_db c) |}.

#[export] Instance World_stripped {OS DB} : Stripped (World (Mortal OS) (Mortal DB)) (World OS DB) :=
  {| strip w := {| w_stats := w_stats w; w_os := strip (w_os w); w_conn := strip (w_conn w) |};
     alive w := alive (w_os w) ∧ alive (w_conn w) |}.

#[export] Instance Session_stripped {OS DB} :
    Stripped (Session (Mortal OS) (Mortal DB)) (Session OS DB) :=
  {| strip s := {| ss_world := strip (ss_world s); ss_nodes := ss_nodes s;
                   ss_files := ss_files s; ss_next := ss_next s |};
     alive s := alive (ss_world s) |}.

(** The two are in step as long as there are calls left. *)
#[export, refine] Instance Mortal_pairing {X} : Pairing (Mortal X) X :=
  {| sync s t := alive s ∧ t = strip s; parted s t := ¬ alive s; ahead s t := True |}.
Proof. done. Defined.

(** The same of everything that is built of them. *)
Class Strips (X Y : Type) `{Stripped X Y, Pairing X Y} : Prop := {
  strips_sync s t : sync s t ↔ alive s ∧ t = strip s;
  strips_parted s t : parted s t ↔ ¬ alive s;
  alive_or s : alive s ∨ ¬ alive s;
}.

#[export] Instance World_strips {OS DB} :
  Strips (World (Mortal OS) (Mortal DB)) (World OS DB).
Proof.
  assert (∀ s : World (Mortal OS) (Mortal DB), alive s ∨ ¬ alive s) as Hdec.
  { intros [st [o n] [[d k] rt]]. simpl. destruct (decide (n = 0%nat)), (decide (k = 0%nat)); tauto. }
  split; [|intros [st [o n] [[d k] rt]] t; simpl;
    destruct (decide (n = 0%nat)), (decide (k = 0%nat)); tauto|done].
  intros [st o [d rt]] [st' o' [d' rt']]. simpl. split.
  - intros (-> & [? ->] & [? ->] & ->). done.
  - by intros [[? ?] [= -> -> -> ->]].
Qed.

#[export] Instance Session_strips {OS DB} :
  Strips (Session (Mortal OS) (Mortal DB)) (Session OS DB).
Proof.
  split; [|intros s t; apply (strips_parted (X := World _ _) (Y := World OS DB))|intros s;
    exact (alive_or (X := World _ _) (Y := World OS DB) (ss_world s))].
  intros [w ns fs x] [w' ns' fs' x']. split.
  - intros (Hw & Hn & Hf & Hx). apply (strips_sync (X := World _ _) (Y := World OS DB)) in Hw as [? Hw].
    simpl in *. by subst.
  - intros [? [= -> -> -> ->]]. split; [|done]. by apply (strips_sync (X := World _ _) (Y := World OS DB)).
Qed.

(** A computation that ends with calls left began with some, and did what the real one does. *)
Lemma sim_tracks {X Y A} `{Strips X Y} (m : GoM X A) (m' : GoM Y A) s :
  sim false m m' → alive (m s).2 → alive s ∧ m' (strip s) = ((m s).1, strip (m s).2).
Proof.
  intros Hm Hs. destruct (alive_or s) as [Ha|Ha].
  - split; [done|]. destruct (sim_run _ _ _ Hm s (strip s)) as [[Ho Ht]|[Hp _]].
    + by apply strips_sync.
    + apply strips_sync in Ht as [_ Ht]. rewrite Ho, <- Ht. apply surjective_pairing.
    + by apply strips_parted in Hp.
  - apply (strips_parted s (strip s)) in Ha.
    apply (proj2 (sim_parted _ _ _ Hm) eq_refl) in Ha. by apply strips_parted in Ha.
Qed.

Lemma sim_call {X A} (dead : outcome A) (call : GoM X A) : sim false (while_alive dead call) call.
Proof.
  split; [|split; [done|]|split; done].
  - intros [s [|n]] t; [by intros [[] _]|]. intros [_ ->]. unfold while_alive. simpl.
    destruct (call s) as [o s']. simpl. destruct n; [right; split; [by intros []|done]|by left].
  - intros _ [s [|n]] t Hs; [done|]. by destruct Hs.
Qed.

#[export] Instance Mortal_kernel_sim {OS} `{Kernel OS} : KernelSim false (Mortal OS) OS.
Proof. split; intros; apply sim_call. Qed.
#[export] Instance Mortal_engine_sim {DB} `{SqlEngine DB} : EngineSim false (Mortal DB) DB.
Proof. split; intros; apply sim_call. Qed.

(** * The process *)

Section process.
Context {OS DB : Type} `{Kernel OS, SqlEngine DB, Fuel}.
Context (globals : globalState) (remotedir : string).
Abbreviation P := (Process (Session OS DB)).
Abbreviation MP := (Process (Session (Mortal OS) (Mortal DB))).

Definition real (p : MP) : P :=
  {| pr_main := pr_main p; pr_handler := pr_handler p; pr_wait := pr_wait p;
     pr_caught := pr_caught p; pr_notify := pr_notify p; pr_mounted := pr_mounted p;
     pr_connected := pr_connected p; pr_session := strip (pr_session p);
     pr_hanging := pr_hanging p; pr_death := pr_death p |}.

Definition calls_left (p : MP) : Prop := alive (pr_session p).

Lemma real_root (p : MP) :
  calls_left (loop_root globals remotedir p) →
  calls_left p ∧ loop_root globals remotedir (real p) = real (loop_root globals remotedir p).
Proof.
  intros Hs. pose proof (sim_tracks _ _ (ss_world (pr_session p))
    (sim_rootNode false (OS := Mortal OS) (OS' := OS) (DB := Mortal DB) (DB' := DB) globals remotedir))
    as Ht.
  unfold loop_root, calls_left in *. cbn [real pr_session].
  change (sv_world (strip (pr_session p))) with (strip (ss_world (pr_session p))).
  change (sv_world (pr_session p)) with (ss_world (pr_session p)) in *.
  destruct (rootNode globals remotedir (ss_world (pr_session p))) as [o w'].
  assert (alive w') as Hw by (by destruct o).
  destruct (Ht Hw) as [Ha ->]. split; [done|]. by destruct o.
Qed.

Lemma real_request r (p : MP) o s :
  serve globals r (pr_session p) = (o, s) → calls_left (after_turn (ended_as o) s p) →
  calls_left p ∧
  serve globals r (pr_session (real p)) = (o, strip s) ∧
  after_turn (ended_as o) (strip s) (real p) = real (after_turn (ended_as o) s p).
Proof.
  intros E Hs. pose proof (sim_tracks _ _ (pr_session p)
    (sim_serve false (OS := Mortal OS) (OS' := OS) (DB := Mortal DB) (DB' := DB) globals r)) as Ht.
  rewrite E in Ht. assert (alive s) as Ha by (by destruct o).
  destruct (Ht Ha) as [Hp Et]. split_and!; [done|done|]. by destruct o.
Qed.

Lemma real_deliver σ (p : MP) : deliver σ (real p) = real (deliver σ p).
Proof. unfold deliver. cbn [real pr_notify pr_wait]. by repeat case_match. Qed.

Lemma calls_left_deliver σ (p : MP) : calls_left (deliver σ p) ↔ calls_left p.
Proof. unfold deliver. by repeat case_match. Qed.

Lemma real_loop a (p p' : MP) :
  Loop globals remotedir a p = Some p' → calls_left p' →
  calls_left p ∧ Loop globals remotedir a (real p) = Some (real p').
Proof.
  intros E Hp. unfold Loop in *. change (pr_main (real p)) with (pr_main p).
  change (pr_mounted (real p)) with (pr_mounted p). change (pr_caught (real p)) with (pr_caught p).
  change (can_return (real p)) with (can_return p).
  destruct (pr_main p), a; try done;
    try (repeat case_match; simplify_eq; by split).
  - injection E as <-. destruct (real_root p Hp) as [? Er]. split; [done|]. f_equal. exact Er.
  - unfold sv_turn, sequential in *. destruct (serve globals t (pr_session p)) as [o s] eqn:Es.
    injection E as <-. destruct (real_request t p o s Es Hp) as (? & Er & Ea). split; [done|].
    change (pr_session (real p)) with (strip (pr_session p)) in Er |- *.
    rewrite Er. exact (f_equal Some Ea).
  - injection E as <-. rewrite real_deliver. split; [by apply (calls_left_deliver σ)|done].
Qed.

Lemma real_handler (a : Action Request) (p p' : MP) :
  unmountOnSignal a p = Some p' → calls_left p' →
  calls_left p ∧ unmountOnSignal a (real p) = Some (real p').
Proof.
  unfold unmountOnSignal. change (pr_handler (real p)) with (pr_handler p).
  change (pr_wait (real p)) with (pr_wait p). change (pr_caught (real p)) with (pr_caught p).
  destruct (pr_handler p), a; try done; try (destruct (pr_wait p); [|done]);
    try (destruct (pr_caught p); [done|]); by intros [= <-].
Qed.

Lemma real_outside (a : Action Request) (p p' : MP) :
  outside a p = Some p' → calls_left p' → calls_left p ∧ outside a (real p) = Some (real p').
Proof.
  unfold outside. destruct a; try done; intros [= <-] Hp; [|done].
  rewrite real_deliver. split; [by apply (calls_left_deliver σ)|done].
Qed.

Lemma real_step a (p p' : MP) :
  process_step globals remotedir a p = Some p' → calls_left p' →
  calls_left p ∧ process_step globals remotedir a (real p) = Some (real p').
Proof.
  unfold process_step. replace (running (real p)) with (running p) by done.
  destruct (running p); [|done].
  destruct a; first [apply real_loop|apply real_handler|apply real_outside].
Qed.

(** While there are calls left, a process on mortal systems is the process on the real ones. *)
Lemma real_reaches w (p : MP) :
  process_reaches globals remotedir w p → calls_left p →
  process_reaches globals remotedir (strip w) (real p).
Proof.
  induction 1 as [|p a p' Hp IH Hreq E]; intros Ha.
  { exact (reaches_start globals remotedir (strip w)). }
  destruct (real_step _ _ _ E Ha) as [Ha' E']. eapply reaches_step; [by apply IH|done|exact E'].
Qed.
End process.

(** * Properties *)

(** A process that can make so many calls of the kernel and of the database. *)
Definition with_calls {OS DB} (kernel_calls db_calls : nat) (w : World OS DB)
    : World (Mortal OS) (Mortal DB) :=
  {| w_stats := w_stats w;
     w_os := {| mt_state := w_os w; mt_left := kernel_calls |};
     w_conn := {| c_db := {| mt_state := c_db (w_conn w); mt_left := db_calls |};
                  c_rt := c_rt (w_conn w) |} |}.

Lemma strip_with_calls {OS DB} k1 k2 (w : World OS DB) : strip (with_calls k1 k2 w) = w.
Proof. by destruct w as [? ? [? ?]]. Qed.

Section mortal_disk.
Context {OS DB : Type} `{KernelLaws OS, !RemoteView OS, SqlLaws DB}.
Context (rs : list string) (tree : string → option rnode) (rr : list string)
  (known : bytes → Prop).

Lemma mortal_setup globals :
  setup_ok (OS := OS) globals rs tree rr known → setup_ok (OS := Mortal OS) globals rs tree rr known.
Proof. intros [[? ?] ? ? ? ?]. by split. Qed.

(** What a disk is good for does not depend on the calls that are left. *)
Lemma mortal_disk m (w : World (Mortal OS) (Mortal DB)) :
  disk_ok rs tree rr known m w ↔ disk_ok rs tree rr known m (strip w).
Proof. split; intros [[[? ?] ?] ?]; by split. Qed.
End mortal_disk.

(** C10 (invariant).  A process can be killed between any two calls of the kernel or the database,
    also in the middle of a request, of the start or of the storing of a file's contents: the
    disk it leaves is one on which the program can be started again, with every inode number
    that was given out before, and what is mounted then refines the abstract file system of the
    remote tree.  As long as it is not killed, it is the process of [Loop]. *)
Theorem killed_anywhere {OS DB} `{KernelLaws OS, !RemoteView OS, !RemoteLaws OS, SqlLaws DB, !Fuel}
    (globals : globalState) (rs : list string) (tree : string → option rnode) (rr : list string)
    (known : bytes → Prop) (m : gmap string CachedRow) (w : World OS DB)
    (kernel_calls db_calls : nat) (p : Process (Session (Mortal OS) (Mortal DB))) :
  setup_ok (OS := OS) globals rs tree rr known → disk_ok rs tree rr known m w →
  process_reaches globals (abs_path rr) (with_calls kernel_calls db_calls w) p →
  let left := strip (ss_world (pr_session p)) in
  (∃ m', disk_ok rs tree rr known m' left ∧ inodes_of m ⊆ inodes_of m') ∧
  (∀ s0 tr s, mount globals (abs_path rr) left = Ret s0 → session_run globals (abs_path rr) s0 tr s →
     ∃ Σ0 Σ, inodes_of m ⊆ sp_inodes Σ0 ∧ spec_run tree rr Σ0 tr Σ ∧
             SessionProofs.refines globals rs tree rr known s Σ) ∧
  (calls_left p → process_reaches globals (abs_path rr) w (real p)).
Proof.
  intros Hsetup Hd Hp left.
  rewrite <- (strip_with_calls kernel_calls db_calls w) in Hd. apply mortal_disk in Hd.
  pose proof (mortal_setup rs tree rr known globals Hsetup) as Hsetup'.
  destruct (disk_survives globals rs tree rr known _ m _ p Hsetup'
    (sequential_serves globals rs tree rr known Hsetup') Hd Hp) as [(m' & Hm' & Hi) _].
  apply mortal_disk in Hm'. fold left in Hm'.
  split_and!.
  - by exists m'.
  - intros s0 tr s Hm Hrun.
    destruct (mount_ok globals rs tree rr known Hsetup m' left s0 Hm' Hm)
      as (Σ0 & [Hg _] & _ & _ & Hr).
    destruct (run_refines globals rs tree rr known Hsetup _ _ _ _ Hrun Hr) as (Σ & Hspec & Href).
    exists Σ0, Σ. split_and!; [by etrans|done|done].
  - intros Ha. rewrite <- (strip_with_calls kernel_calls db_calls w).
    by apply real_reaches.
Qed.

(** * Instances on the scenario *)

(** The process that opens the file "a" for the first time. *)
Definition opening : list (Action Request) := to_serving ++ [DoTurn (ReqOpen 1)].

Definition mortal_start (kernel_calls db_calls : nat) : Process (Session (Mortal MemOs) (Mortal MemDb)) :=
  process_start (with_calls kernel_calls db_calls scenario_world).
Definition killed_opening (kernel_calls db_calls : nat) : Process (Session (Mortal MemOs) (Mortal MemDb)) :=
  default (mortal_start kernel_calls db_calls)
    (process_run cached_globals "/r" opening (mortal_start kernel_calls db_calls)).
Definition left_by (p : Process (Session (Mortal MemOs) (Mortal MemDb))) : World MemOs MemDb :=
  strip (ss_world (pr_session p)).

Definition file_left (kernel_calls : nat) (p : string) : option node :=
  mo_local (w_os (left_by (killed_opening kernel_calls 100))) !! p.

(** Before the rename and after it: the file is not stored or it is, and what is not removed any
    more is the temporary file. *)
Example killed_before_rename : file_left 12 "/cache/partial5" = Some (Regular hello).
Proof. vm_compute. reflexivity. Qed.
Example killed_after_rename :
  file_left 14 "/cache/5d/5d41402abc4b2a76b9719d911017c592" = Some (Regular hello).
Proof. vm_compute. reflexivity. Qed.

Lemma killed_opening_reaches kernel_calls db_calls :
  process_reaches cached_globals "/r" (with_calls kernel_calls db_calls scenario_world)
    (killed_opening kernel_calls db_calls).
Proof.
  unfold killed_opening.
  destruct (process_run cached_globals "/r" opening (mortal_start kernel_calls db_calls)) as [p|] eqn:E;
    [|apply reaches_start].
  eapply process_run_reaches; [|apply reaches_start|exact E].
  exact (turns_are_ok request_ok opening ltac:(by repeat constructor)).
Qed.

Lemma killed_anywhere_witness :
  (∃ m', disk_ok ["cache"] scenario_tree ["r"] scenario_known m' (left_by (killed_opening 12 100)) ∧
         inodes_of ∅ ⊆ inodes_of m') ∧
  (∀ s0 tr s, mount cached_globals "/r" (left_by (killed_opening 12 100)) = Ret s0 →
     session_run cached_globals "/r" s0 tr s →
     ∃ Σ0 Σ, inodes_of ∅ ⊆ sp_inodes Σ0 ∧ spec_run scenario_tree ["r"] Σ0 tr Σ ∧
             SessionProofs.refines cached_globals ["cache"] scenario_tree ["r"] scenario_known s Σ) ∧
  (calls_left (killed_opening 12 100) →
   process_reaches cached_globals "/r" scenario_world (real (killed_opening 12 100))).
Proof.
  apply (killed_anywhere cached_globals ["cache"] scenario_tree ["r"] scenario_known ∅ scenario_world
           12 100).
  - by apply scenario_setup.
  - apply scenario_disk.
  - apply killed_opening_reaches.
Defined.
