(* ===== verification/Shared.v ===== *)
(** A system that several requests share.

    bazil.org/fuse runs every request in a goroutine of its own, so that between any two calls
    that one request makes of the kernel or the database, others may make theirs.  A [Shared]
    system is the system as one request sees it: before each of its calls the state moves on, by
    what the others have done since its last call.  The moves it is going to see are given in
    advance ([sh_coming]); a call for which no move is known yet makes the request wait.  The calls
    it has made are recorded with the states before and after each ([sh_log]).

    The scheduler of Pool.v runs requests by telling the waiting ones, one after the other, what
    the others have done. *)
From S2P Require Import Prelude GoStrings GoPath Types DirEntries Sql Sqlite Kernel.
From S2P Require Import Metadata MetadataSpec Remote Coherence Growth Session Simulation.
#[local] Open Scope Z_scope.

Record Shared (X : Type) : Type := {
  sh_id : nat;                   (* which request it is *)
  sh_now : X;                    (* the state after its last call *)
  sh_coming : list (X * X);      (* what happens before its next calls *)
  sh_log : list (X * X);         (* its calls *)
  sh_waiting : bool;
}.
Arguments sh_id {X} s.
Arguments sh_now {X} s.
Arguments sh_coming {X} s.
Arguments sh_log {X} s.
Arguments sh_waiting {X} s.
Arguments Build_Shared {X} _ _ _ _ _.

(** The state moves from [gap.1] to [gap.2]. *)
Definition move {X} `{EqDecision X} (gap : X * X) (now : X) : X :=
  if decide (now = gap.1) then gap.2 else now.

Definition sh_call {X A} `{EqDecision X} (call : nat → GoM X A) : GoM (Shared X) A := λ s,
  match sh_coming s with
  | [] => (OutOfFuel, {| sh_id := sh_id s; sh_now := sh_now s; sh_coming := [];
                         sh_log := sh_log s; sh_waiting := true |})
  | gap :: coming =>
      let before := move gap (sh_now s) in
      let '(o, after) := call (sh_id s) before in
      (o, {| sh_id := sh_id s; sh_now := after; sh_coming := coming;
             sh_log := sh_log s ++ [(before, after)]; sh_waiting := sh_waiting s |})
  end.

(** A request begins in the state [x]. *)
Definition sh_start {X} (id : nat) (x : X) (coming : list (X * X)) : Shared X :=
  {| sh_id := id; sh_now := x; sh_coming := coming; sh_log := []; sh_waiting := false |}.

(** One more move becomes known. *)
Definition extend {X} (gap : X * X) (s : Shared X) : Shared X :=
  {| sh_id := sh_id s; sh_now := sh_now s; sh_coming := sh_coming s ++ [gap];
     sh_log := sh_log s; sh_waiting := sh_waiting s |}.

(** * What a call does *)

Section calls.
Context {X : Type} `{EqDecision X}.

Lemma move_good (R : relation X) `{!PreOrder R} gap now : R gap.1 gap.2 → R now (move gap now).
Proof. unfold move. by destruct (decide (now = gap.1)) as [->|]. Qed.

(** [Good rely guar] says that the moves to come are such as the others make, and the calls such
    as the others may rely on. *)
Record good (rely guar : nat → relation X) (s : Shared X) : Prop := {
  good_coming : Forall (λ gap, rely (sh_id s) gap.1 gap.2) (sh_coming s);
  good_log : Forall (λ call, guar (sh_id s) call.1 call.2) (sh_log s);
}.

(** The rule of a call: it waits, or it is made in a state the others can have led to. *)
Lemma sh_call_good (rely guar : nat → relation X) `{!∀ i, PreOrder (rely i)} {A}
    (call : nat → GoM X A) (I : X → Prop) (Q : outcome A → X → Prop) s :
  good rely guar s →
  (∀ x, rely (sh_id s) (sh_now s) x →
     guar (sh_id s) x (call (sh_id s) x).2 ∧ Q (call (sh_id s) x).1 (call (sh_id s) x).2) →
  let '(o, s') := sh_call call s in
  good rely guar s' ∧ sh_id s' = sh_id s ∧
  ((o = OutOfFuel ∧ sh_now s' = sh_now s ∧ sh_waiting s' = true) ∨ Q o (sh_now s')).
Proof.
  intros [Hc Hl] Hcall. unfold sh_call. destruct (sh_coming s) as [|gap coming] eqn:E.
  - split; [by split|]. split; [done|]. by left.
  - inversion Hc as [|? ? Hgap Hcoming]; subst. set (x := move gap (sh_now s)).
    destruct (Hcall x) as [Hg Hq]; [by apply move_good|].
    destruct (call (sh_id s) x) as [o x'] eqn:Ex. simpl in *.
    split; [split; [done|]|split; [done|by right]].
    simpl. apply Forall_app. split; [done|]. by repeat constructor.
Qed.
End calls.

(** * Two runs, one of which knows of one more move *)

Section extended.
Context {X : Type} `{EqDecision X}.

(** The system that is told of the move [gap]: the run that waits for it, and the one that has
    made its next call. *)
Program Definition extended (gap : X * X) : Pairing (Shared X) (Shared X) := {|
  sync s t := t = extend gap s ∧ sh_waiting s = false;
  parted s t := sh_waiting s = true ∧ sh_coming s = [] ∧ sh_coming t = [] ∧ sh_id t = sh_id s ∧
    sh_log t = sh_log s ++ [(move gap (sh_now s), sh_now t)];
  ahead s t := True;
|}.
Next Obligation. done. Qed.

(** The other system: when all its moves have been used up, it is still the same. *)
Program Definition untouched : Pairing (Shared X) (Shared X) := {|
  sync s t := s = t;
  parted s t := False;
  ahead s t := sh_coming s = [] → sh_coming t = [] ∧ sh_id t = sh_id s ∧ sh_now t = sh_now s ∧
                                  sh_log t = sh_log s;
|}.
Next Obligation. by intros s t ->. Qed.

Lemma extended_sim {A} gap (call : nat → GoM X A) :
  @sim _ _ _ (extended gap) true (sh_call call) (sh_call call).
Proof.
  split; [|split; [|done]|split; done].
  - intros s t [-> Hw]. unfold sh_call, extend. simpl.
    destruct (sh_coming s) as [|g coming] eqn:E; simpl.
    + right. destruct (call (sh_id s) (move gap (sh_now s))) as [o x]. by simpl.
    + left. by destruct (call (sh_id s) (move g (sh_now s))) as [o x].
  - intros s t (Hw & Hs & Ht & Hid & Hl). unfold sh_call. rewrite Ht. by simpl.
Qed.

Lemma untouched_sim {A} (call : nat → GoM X A) :
  @sim _ _ _ untouched true (sh_call call) (sh_call call).
Proof.
  split; [|split; done|split; [|done]].
  - intros s t ->. by left.
  - intros s t Ha Hs. destruct (Ha Hs) as (Ht & ? & ? & ?). unfold sh_call. rewrite Ht. by simpl.
Qed.
End extended.

(** * The shared database *)

#[export] Instance Shared_engine {DB} `{SqlEngine DB, EqDecision DB} : SqlEngine (Shared DB) := {|
  db_rows s := db_rows (sh_now s);
  db_affinity := db_affinity (DB := DB);
  db_exec st := sh_call (λ _, db_exec st);
  db_query q := sh_call (λ _, db_query q);
|}.

#[export] Instance Shared_affinity {DB} `{AffinityLaws DB, EqDecision DB} : AffinityLaws (Shared DB).
Proof.
  split.
  - exact (affinity_text (DB := DB)).
  - exact (affinity_int (DB := DB)).
  - exact (affinity_real (DB := DB)).
  - exact (affinity_not_null (DB := DB)).
Qed.

(** The table determines the map it holds. *)
Lemma row_repr_inj p r cr cr' : row_repr p r cr → row_repr p r cr' → cr = cr'.
Proof.
  intros [Hi _ Ht _ Hf Hr He Hh Htg] [Hi' _ Ht' _ Hf' Hr' He' Hh' Htg'].
  destruct cr as [i ty fi rd es h tg], cr' as [i' ty' fi' rd' es' h' tg']. simpl in *.
  assert (fi = fi') as ->.
  { destruct fi, fi'; [|by destruct Hf as (? & ? & ? & _), Hf' as [? _]; congruence|
      by destruct Hf' as (? & ? & ? & _), Hf as [? _]; congruence|done].
    destruct Hf as (m & ns & H1 & H2 & H3 & Hfi), Hf' as (m' & ns' & H1' & H2' & H3' & Hfi').
    rewrite H1 in H1'. rewrite H2 in H2'. rewrite H3 in H3'. simplify_eq. congruence. }
  assert (es = es') as ->.
  { destruct es, es'; [|by destruct He as (? & ? & _); congruence|
      by destruct He' as (? & ? & _); congruence|done].
    destruct He as (txt & E & Hp), He' as (txt' & E' & Hp'). rewrite E in E'. simplify_eq.
    congruence. }
  congruence.
Qed.

Lemma table_repr_inj t m m' : table_repr t m → table_repr t m' → m = m'.
Proof.
  assert (∀ m m' p cr, table_repr t m → table_repr t m' → m !! p = Some cr → m' !! p = Some cr)
    as Hsub.
  { intros m1 m2 p cr H1 H2 Hp. destruct (tr_map _ _ H1 _ _ Hp) as (_ & r & Hr & Hrp).
    destruct (tr_rows _ _ H1 _ Hr) as (p1 & cr1 & Hp1 & Hm1 & Hr1).
    destruct (tr_rows _ _ H2 _ Hr) as (p2 & cr2 & Hp2 & Hm2 & Hr2).
    rewrite Hrp in Hp1, Hp2. simplify_eq. rewrite Hm2. f_equal. by eapply row_repr_inj. }
  intros H1 H2. apply map_eq. intros p. destruct (m !! p) as [cr|] eqn:E.
  - symmetry. exact (Hsub _ _ _ _ H1 H2 E).
  - destruct (m' !! p) as [cr|] eqn:E'; [|done]. rewrite <- E. exact (Hsub _ _ _ _ H2 H1 E').
Qed.

Section database.
Context (tree : string → option rnode) (rr : list string).
Context {DB : Type} `{SqlLaws DB, EqDecision DB}.

(** What the requests may do to the database: let it grow. *)
Definition db_grows (d d' : DB) : Prop :=
  ∀ m, db_ok tree rr m (db_rows d) → ∃ m', le m m' ∧ db_ok tree rr m' (db_rows d').

#[export] Instance db_grows_preorder : PreOrder db_grows.
Proof.
  split; [intros d m Hm; by exists m|]. intros d1 d2 d3 H12 H23 m Hm.
  destruct (H12 m Hm) as (m2 & ? & Hm2). destruct (H23 m2 Hm2) as (m3 & ? & ?).
  exists m3. split; [by etrans|done].
Qed.

#[export] Instance shared_holds : DbHolds tree rr (Shared DB) := λ m s,
  db_ok tree rr m (db_rows (sh_now s)) ∧ good (λ _, db_grows) (λ _, db_grows) s.

Lemma shared_grew {A} m s (call : nat → GoM DB A) (P : A → map_t → Prop) :
  db_holds m s →
  (∀ m1 d, le m m1 → db_ok tree rr m1 (db_rows d) →
     let '(o, d') := call (sh_id s) d in
     match o with
     | Ret a => ∃ m2, le m1 m2 ∧ db_ok tree rr m2 (db_rows d') ∧ P a m2
     | Err (ESqlite _) | OutOfFuel => db_rows d' = db_rows d
     | _ => False
     end) →
  engine_grew db_holds m P (sh_call call s).
Proof.
  intros [Hm Hg] Hcall.
  pose proof (sh_call_good (λ _, db_grows) (λ _, db_grows) call (λ _, True) (λ o d',
    match o with
    | Ret a => ∃ m2, le m m2 ∧ db_ok tree rr m2 (db_rows d') ∧ P a m2
    | Err (ESqlite _) | OutOfFuel => ∃ m2, le m m2 ∧ db_ok tree rr m2 (db_rows d')
    | _ => False
    end) s Hg) as Hs.
  unfold engine_grew. destruct (sh_call call s) as [o s']. destruct Hs as (Hg' & _ & Hs).
  { intros d Hd. destruct (Hd m Hm) as (m1 & Hle & Hm1). specialize (Hcall m1 d Hle Hm1).
    destruct (call (sh_id s) d) as [o1 d']. simpl. split.
    - intros m0 Hm0. assert (m0 = m1) as -> by (eapply table_repr_inj; [apply Hm0|apply Hm1]).
      destruct o1 as [a|[]| | |]; try done; [by destruct Hcall as (m2 & ? & ? & _); exists m2|..];
        exists m1; by rewrite Hcall.
    - destruct o1 as [a|[]| | |]; try done.
      + destruct Hcall as (m2 & ? & ? & ?). exists m2. split_and!; [by etrans|done..].
      + exists m1. by rewrite Hcall.
      + exists m1. by rewrite Hcall. }
  destruct Hs as [(-> & Hnow & _)|Hs].
  - exists m. split; [done|]. split; [by rewrite Hnow|done].
  - destruct o as [a|[]| | |]; try done.
    + destruct Hs as (m2 & ? & ? & ?). by exists m2.
    + destruct Hs as (m2 & ? & ?). by exists m2.
    + destruct Hs as (m2 & ? & ?). by exists m2.
Qed.

#[export] Instance shared_growing : GrowingLaws tree rr (Shared DB).
Proof.
  split.
  - intros m s [[Ht _] _] p cr. by eapply table_inode_range.
  - intros m s st P Hs HP. apply shared_grew; [done|]. intros m1 d Hle Hm1.
    pose proof (exec_spec st d) as Hspec.
    destruct (db_exec st d) as [[res|[]| | |] d']; try done. by eapply HP.
  - intros m s q P Hs HP. apply shared_grew; [done|]. intros m1 d Hle Hm1.
    pose proof (query_spec q d) as Hspec.
    destruct (db_query q d) as [[rs|[]| | |] d']; try done. destruct Hspec as [-> Hr].
    exists m1. rewrite Hr. split_and!; [done..|]. by eapply HP.
Qed.
End database.

(** * What all calls keep *)

Section keeps.
Context {X : Type} `{EqDecision X} (I : X → Prop).

(** The states that a request sees have [I]. *)
Definition only_sees (s : Shared X) : Prop := I (sh_now s) ∧ Forall (λ gap, I gap.2) (sh_coming s).

Lemma sh_call_keeps {A} (call : nat → GoM X A) s :
  (∀ i x, I x → I (call i x).2) → only_sees s → only_sees (sh_call call s).2.
Proof.
  intros Hcall [Hn Hc]. unfold sh_call. destruct (sh_coming s) as [|gap coming]; [by split|].
  inversion Hc as [|? ? Hg Hc']; subst.
  assert (I (move gap (sh_now s))) as Hm by (unfold move; by destruct (decide _)).
  specialize (Hcall (sh_id s) _ Hm). by destruct (call (sh_id s) _) as [o x].
Qed.
End keeps.
