(* ===== verification/Descriptors.v ===== *)
(** Descriptors and temporary files of a kernel that several requests use at once.

    [DescriptorLaws] adds to the laws of Kernel.v and Remote.v what matters when the calls of
    several users interleave: a new descriptor is one that no [*os.File] ever had, a call
    leaves the other descriptors alone, and the name of a temporary file is never given out
    twice.  (The number of a closed descriptor is reused by a real kernel; the [f_fd] of a [File]
    stands for the [*os.File], whose [Close] makes every later use of it fail.) *)
From S2P Require Import Prelude GoStrings GoPath Types Kernel Remote.
#[local] Open Scope Z_scope.

#[local] Arguments Join : simpl never.

Class DescriptorView (OS : Type) : Type := {
  os_used : OS → Z → Prop;                    (* the descriptors given out so far *)
  os_listing : OS → gmap Z (list FileInfo);   (* what a descriptor's [Readdir] delivers *)
  os_drawn : OS → string → Prop;              (* the temporary names given out so far *)
}.

(** The descriptor a call is about. *)
Definition concerns (c : KernelCall) : option Z :=
  match c with
  | KRead f _ | KReadAt f _ _ | KWrite f _ | KReaddir f | KClose f => Some (f_fd f)
  | _ => None
  end.

(** Everything that can be seen of a descriptor is the same. *)
Record same_handle `{KernelView OS, DescriptorView OS} (fd : Z) (s s' : OS) : Prop := {
  sm_stream : os_stream s' !! fd = os_stream s !! fd;
  sm_image : os_image s' !! fd = os_image s !! fd;
  sm_writable : os_writable s' !! fd = os_writable s !! fd;
  sm_listing : os_listing s' !! fd = os_listing s !! fd;
}.

#[export] Instance same_handle_preorder `{KernelView OS, DescriptorView OS} fd :
  PreOrder (same_handle (OS := OS) fd).
Proof. split; [by split|]. intros s1 s2 s3 [] []. split; congruence. Qed.

Class DescriptorLaws (OS : Type) `{Kernel OS, KernelView OS, RemoteView OS, DescriptorView OS}
    : Prop := {
  image_used s fd c : os_image s !! fd = Some c → os_used s fd;
  used_kept c s fd : os_used s fd → os_used (kernel_call c s).2 fd;
  drawn_kept c s p : os_drawn s p → os_drawn (kernel_call c s).2 p;
  handle_kept c s fd :
    os_used s fd → concerns c ≠ Some fd → same_handle fd s (kernel_call c s).2;
  Open_new p s f s' :
    os_Open p s = (Ret f, s') →
    ¬ os_used s (f_fd f) ∧ os_used s' (f_fd f) ∧
    (is_local p = false → ∀ info l, remote_tree s p = Some (RDir info l) →
       ∃ l', os_listing s' !! f_fd f = Some l' ∧ Permutation l' l);
  TempFile_new dir prefix s f s' :
    os_TempFile dir prefix s = (Ret f, s') →
    ¬ os_used s (f_fd f) ∧ os_used s' (f_fd f) ∧ ¬ os_drawn s (f_name f) ∧ os_drawn s' (f_name f);
  Readdir_listing f s l s' l' :
    file_Readdir f s = (Ret l, s') → os_listing s !! f_fd f = Some l' → Permutation l l';
}.

(** * The kernel in memory *)

#[export] Instance MemOs_descriptors : DescriptorView MemOs := {|
  os_used s fd := is_Some (mo_handles s !! fd);
  os_listing s := h_entries <$> mo_handles s;
  os_drawn s p := p ∈ mo_drawn s;
|}.

(** What a call does to the handles it is not about and to the names. *)
Definition mem_apart (fd : Z) (s s' : MemOs) : Prop :=
  (is_Some (mo_handles s !! fd) → mo_handles s' !! fd = mo_handles s !! fd) ∧
  mo_drawn s ⊆ mo_drawn s'.

Lemma mem_apart_same fd s s' :
  mo_handles s' = mo_handles s → mo_drawn s' = mo_drawn s → mem_apart fd s s'.
Proof. intros Hh Hd. split; [by rewrite Hh|by rewrite Hd]. Qed.

Lemma new_handle_apart fd p h s : mem_apart fd s (new_handle p h s).2.
Proof.
  destruct (new_handle_cases p h s) as [[e ->]|[Hn ->]]; [by apply mem_apart_same|].
  split; [|done]. simpl. intros [x Hx]. rewrite lookup_insert. case_decide; [|done].
  subst. congruence.
Qed.

Lemma mem_call_apart c (s : MemOs) fd :
  concerns c ≠ Some fd → mem_apart fd s (kernel_call c s).2.
Proof.
  intros Hc. destruct c; simpl in *; rewrite ?dropped_state; simpl.
  - unfold no_false_enoent, mem_Lstat. mem_cases; repeat case_match; simplify_eq/=;
      by apply mem_apart_same.
  - unfold mem_Mkdir. mem_cases; repeat case_match; simplify_eq/=; by apply mem_apart_same.
  - unfold mem_Open. mem_cases; [by apply mem_apart_same|].
    repeat case_match; simplify_eq/=; try (by apply mem_apart_same);
      match goal with Hn : new_handle ?p ?h ?t = _ |- _ =>
        pose proof (new_handle_apart fd p h t) as Hq; by rewrite Hn in Hq end.
  - unfold mem_Readlink. mem_cases; repeat case_match; simplify_eq/=; by apply mem_apart_same.
  - unfold mem_Remove. mem_cases; repeat case_match; simplify_eq/=; by apply mem_apart_same.
  - unfold mem_Rename. mem_cases; repeat case_match; simplify_eq/=; by apply mem_apart_same.
  - unfold mem_TempFile. mem_cases; [by apply mem_apart_same|].
    repeat case_match; simplify_eq/=; try (by apply mem_apart_same);
      match goal with Hn : new_handle ?p ?h ?t = _ |- _ =>
        pose proof (new_handle_apart fd p h t) as [Hq1 Hq2]; rewrite Hn in Hq1, Hq2 end;
      (split; [done|]); simpl in *; set_solver.
  - unfold mem_Read. mem_cases; [by apply mem_apart_same|].
    destruct (mo_handles s !! f_fd f) as [h|] eqn:Hh; [|by apply mem_apart_same].
    destruct (_ =? 0)%nat; [by apply mem_apart_same|].
    destruct (h_stream h); [by apply mem_apart_same|]. split; [|done]. simpl.
    intros _. rewrite lookup_insert_ne; [done|congruence].
  - unfold mem_ReadAt. mem_cases; [by apply mem_apart_same|].
    repeat case_match; simplify_eq/=; by apply mem_apart_same.
  - unfold mem_Write. mem_cases; [by apply mem_apart_same|].
    repeat case_match; simplify_eq/=; by apply mem_apart_same.
  - unfold mem_Readdir. mem_cases; repeat case_match; simplify_eq/=; by apply mem_apart_same.
  - unfold mem_Close. mem_cases; repeat case_match; simplify_eq/=; by apply mem_apart_same.
Qed.

(** Also the call that is about it keeps the descriptor in use. *)
Lemma mem_call_used c (s : MemOs) fd :
  is_Some (mo_handles s !! fd) → is_Some (mo_handles (kernel_call c s).2 !! fd) ∧
  mo_drawn s ⊆ mo_drawn (kernel_call c s).2.
Proof.
  intros Hs. split.
  - destruct Hs as [h Hh]. destruct (mem_call_quiet c s) as [_ Hq].
    specialize (Hq fd (h_image h)). rewrite !lookup_fmap, Hh in Hq. specialize (Hq eq_refl).
    by destruct (mo_handles (kernel_call c s).2 !! fd).
  - destruct (decide (concerns c = Some fd)) as [Hc|Hc]; [|by apply (mem_call_apart c s fd)].
    (* another descriptor will do *)
    apply (mem_call_apart c s (fd + 1)). rewrite Hc. intros [= E]. lia.
Qed.

#[export] Instance MemOs_descriptor_laws : DescriptorLaws MemOs.
Proof.
  split.
  - intros s fd c. simpl. rewrite lookup_fmap. by destruct (mo_handles s !! fd).
  - intros c s fd Hs. by apply mem_call_used.
  - intros c s p Hp. simpl in *.
    destruct (decide (concerns c = Some 0)) as [Hc|Hc].
    + apply (mem_call_apart c s 1); [rewrite Hc; congruence|done].
    + by apply (mem_call_apart c s 0).
  - intros c s fd Hs Hc. destruct (mem_call_apart c s fd Hc) as [Hh _]. specialize (Hh Hs).
    split; simpl; by rewrite ?lookup_fmap, ?lookup_omap, Hh.
  - intros p s f s' Ho. pose proof (Open_spec p s) as Hspec. rewrite Ho in Hspec.
    destruct Hspec as (_ & _ & _ & [c Hc] & _). apply mem_Open_inv in Ho as [Hn Ho].
    split_and!; [simpl; rewrite Hn; by intros []| |].
    + pose proof (lookup_insert_eq (os_stream s) (f_fd f) c) as Hs. rewrite <- Hc in Hs. simpl in Hs.
      rewrite lookup_fmap in Hs. simpl. by destruct (mo_handles s' !! f_fd f).
    + intros Hp info l Hr. destruct (Ho Hp) as (h & Hh & Hl). simpl in Hr. rewrite Hr in Hl.
      exists l. simpl. by rewrite lookup_fmap, Hh, <- Hl.
  - intros dir prefix s f s'. simpl. unfold mem_TempFile. mem_cases; [done|].
    destruct (bool_decide _) eqn:Hb; simpl; [done|]. apply bool_decide_eq_false in Hb.
    match goal with |- context [new_handle ?p ?h ?t] =>
      destruct (new_handle_cases p h t) as [[e ->]|[Hn ->]] end; [done|]. intros [= <- <-].
    simpl in *. rewrite lookup_insert_eq, Hn. split_and!; [by intros []|done| |set_solver].
    intros Hd. by apply Hb; right.
  - intros f s l s' l'. simpl. unfold mem_Readdir. mem_cases; [done|]. rewrite lookup_fmap.
    destruct (mo_handles s !! f_fd f) as [h|]; [|done]. by intros [= <- <-] [= <-].
Qed.
