(* ===== verification/SharedOs.v ===== *)
(** The kernel that several requests share: what each may rely on, and that the handlers' protocol
    holds for it.

    [Tagged] remembers which request a descriptor or a temporary file belongs to; nothing the
    program does depends on it.  [os_rel] is the change of the kernel's state while the
    belongings of certain requests stay as they are: a request relies on its own staying as they
    are ([rely]) and leaves those of all others alone ([guar]). *)
From S2P Require Import Prelude GoStrings GoPath Stats Types DirEntries Sql Sqlite Kernel.
From S2P Require Import Syscalls Metadata MetadataSpec MetadataProps WorldPost Md5 Content.
From S2P Require Import ContentProps Fs FsLogic FsProps Remote Coherence Growth HandlerLogic.
From S2P Require Import Served Session Simulation Shared Descriptors FsTermination.
#[local] Open Scope Z_scope.

#[local] Arguments Join : simpl never.

(** * Descriptors and temporary files with their owners *)

Record Tagged (OS : Type) : Type := {
  tg_os : OS;
  tg_fds : gmap Z nat;           (* who opened a descriptor *)
  tg_temps : gmap string nat;    (* who made a temporary file *)
}.
Arguments tg_os {OS} t.
Arguments tg_fds {OS} t.
Arguments tg_temps {OS} t.
Arguments Build_Tagged {OS} _ _ _.

#[export] Instance Tagged_eq_dec `{EqDecision OS} : EqDecision (Tagged OS).
Proof. solve_decision. Defined.

Definition set_tg_os {OS} (s : OS) (x : Tagged OS) : Tagged OS :=
  {| tg_os := s; tg_fds := tg_fds x; tg_temps := tg_temps x |}.

Definition tag_call {OS A} (call : GoM OS A) : GoM (Tagged OS) A := go_zoom tg_os set_tg_os call.

Definition tag_open {OS} (i : nat) (call : GoM OS File) : GoM (Tagged OS) File := λ x,
  let '(o, s) := call (tg_os x) in
  (o, match o with
      | Ret f => {| tg_os := s; tg_fds := <[f_fd f := i]> (tg_fds x); tg_temps := tg_temps x |}
      | _ => set_tg_os s x
      end).

Definition tag_temp {OS} (i : nat) (call : GoM OS File) : GoM (Tagged OS) File := λ x,
  let '(o, s) := call (tg_os x) in
  (o, match o with
      | Ret f => {| tg_os := s; tg_fds := <[f_fd f := i]> (tg_fds x);
                    tg_temps := <[f_name f := i]> (tg_temps x) |}
      | _ => set_tg_os s x
      end).

(** The calls of the kernel, made by the request that asks for them, in whatever way a call is
    made on [X]. *)
Definition tagged_kernel {OS X} `{Kernel OS} (made : ∀ A, (nat → GoM (Tagged OS) A) → GoM X A) :
    Kernel X := {|
  os_Lstat p := made _ (λ _, tag_call (os_Lstat p));
  os_Mkdir p mode := made _ (λ _, tag_call (os_Mkdir p mode));
  os_Open p := made _ (λ i, tag_open i (os_Open p));
  os_Readlink p := made _ (λ _, tag_call (os_Readlink p));
  os_Remove p := made _ (λ _, tag_call (os_Remove p));
  os_Rename p q := made _ (λ _, tag_call (os_Rename p q));
  os_TempFile dir prefix := made _ (λ i, tag_temp i (os_TempFile dir prefix));
  file_Read f n := made _ (λ _, tag_call (file_Read f n));
  file_ReadAt f n off := made _ (λ _, tag_call (file_ReadAt f n off));
  file_Write f data := made _ (λ _, tag_call (file_Write f data));
  file_Readdir f := made _ (λ _, tag_call (file_Readdir f));
  file_Close f := made _ (λ _, tag_call (file_Close f));
|}.

#[export] Instance Shared_kernel {OS} `{Kernel OS, EqDecision OS} : Kernel (Shared (Tagged OS)) :=
  tagged_kernel (λ A, sh_call).

(** A call that is made is answered. *)
Lemma shared_kernel_ends {OS} `{KernelLaws OS, EqDecision OS} c (s : Shared (Tagged OS)) :
  (kernel_call c s).1 = OutOfFuel → sh_waiting (kernel_call c s).2 = true.
Proof.
  assert (∀ A (m : GoM (Shared (Tagged OS)) A), ((m s).1 = OutOfFuel → sh_waiting (m s).2 = true) →
    ((_ ← m; mret ()) s).1 = OutOfFuel → sh_waiting ((_ ← m; mret ()) s).2 = true) as Hd.
  { intros A m. unfold mbind, go_mbind, go_bind. destruct (m s) as [[] ?]; simpl; try done. auto. }
  assert (∀ A (call : nat → GoM (Tagged OS) A), (∀ i x, (call i x).1 ≠ OutOfFuel) →
    (sh_call call s).1 = OutOfFuel → sh_waiting (sh_call call s).2 = true) as Hs.
  { intros A call Hcall. unfold sh_call. destruct (sh_coming s) as [|gap coming]; [done|].
    specialize (Hcall (sh_id s) (move gap (sh_now s))). by destruct (call _ _) as [[] ?]. }
  assert (∀ A (m : GoM OS A) x, (m (tg_os x)).1 ≠ OutOfFuel → (tag_call m x).1 ≠ OutOfFuel) as Ht.
  { intros A m x. unfold tag_call, go_zoom. by destruct (m (tg_os x)) as [[] ?]. }
  pose proof (λ c x, kernel_answers c (tg_os (OS := OS) x)) as Ha.
  destruct c as [p|p mode|p|p|p|p q|dir pre|f n|f n off|f data|f|f]; cbn [kernel_call];
    try apply Hd; apply Hs; intros i x.
  - exact (Ht _ _ x (proj1 (dropped_returns _ _) (Ha (KLstat p) x))).
  - apply Ht, (Ha (KMkdir p mode)).
  - pose proof (proj1 (dropped_returns _ _) (Ha (KOpen p) x)) as Ho. unfold tag_open.
    by destruct (os_Open p (tg_os x)) as [[] ?].
  - exact (Ht _ _ x (proj1 (dropped_returns _ _) (Ha (KReadlink p) x))).
  - apply Ht, (Ha (KRemove p)).
  - apply Ht, (Ha (KRename p q)).
  - pose proof (proj1 (dropped_returns _ _) (Ha (KTempFile dir pre) x)) as Ho. unfold tag_temp.
    by destruct (os_TempFile dir pre (tg_os x)) as [[] ?].
  - exact (Ht _ _ x (proj1 (dropped_returns _ _) (Ha (KRead f n) x))).
  - exact (Ht _ _ x (proj1 (dropped_returns _ _) (Ha (KReadAt f n off) x))).
  - exact (Ht _ _ x (proj1 (dropped_returns _ _) (Ha (KWrite f data) x))).
  - exact (Ht _ _ x (proj1 (dropped_returns _ _) (Ha (KReaddir f) x))).
  - apply Ht, (Ha (KClose f)).
Qed.

(** * What the requests do to the kernel's state *)

Section relations.
Context {OS : Type} `{KernelLaws OS, !RemoteView OS, !RemoteLaws OS, !DescriptorView OS,
  !DescriptorLaws OS, EqDecision OS}.
Context (rs : list string) (tree : string → option rnode) (known : bytes → Prop).
Abbreviation T := (Tagged OS).
Abbreviation local x := (os_local (tg_os x)).

(** The invariant: that of one request alone, what is tagged is in use, and the pinned descriptors
    are nobody's. *)
Record os_inv (pinned : gmap Z bytes) (x : T) : Prop := {
  oi_ok : os_ok rs tree known pinned (tg_os x);
  oi_fds fd i : tg_fds x !! fd = Some i → os_used (tg_os x) fd;
  oi_pinned fd c : pinned !! fd = Some c → tg_fds x !! fd = None;
  oi_temps p i : tg_temps x !! p = Some i → os_drawn (tg_os x) p ∧ ∃ n, p = temp_path rs n;
}.

Lemma pinned_image pinned x fd c :
  os_inv pinned x → pinned !! fd = Some c → os_image (tg_os x) !! fd = Some c.
Proof.
  intros Hx Hfd. destruct (ok_pins _ _ _ _ _ (oi_ok _ _ Hx)) as [_ Hp]. by eapply lookup_weaken.
Qed.
Lemma pinned_used pinned x fd c :
  os_inv pinned x → pinned !! fd = Some c → os_used (tg_os x) fd.
Proof. intros Hx Hfd. eapply image_used. by eapply pinned_image. Qed.

(** The state changed, but not the belongings of those in [safe], nor what is stored. *)
Record changed (safe : nat → Prop) (x y : T) : Prop := {
  ch_fds fd i : safe i → tg_fds x !! fd = Some i → tg_fds y !! fd = Some i;
  ch_temps p i : safe i → tg_temps x !! p = Some i → tg_temps y !! p = Some i;
  ch_handles fd i : safe i → tg_fds x !! fd = Some i → same_handle fd (tg_os x) (tg_os y);
  ch_files p i : safe i → tg_temps x !! p = Some i → local y !! p = local x !! p;
  ch_keys k c : is_key k = true → local x !! key_path rs k = Some (Regular c) →
    local y !! key_path rs k = Some (Regular c);
}.

(** What request [i] relies on while it reads from the descriptors in [pinned], and what it
    promises to all others, whatever they read from. *)
Definition rely (pinned : gmap Z bytes) (i : nat) : relation T := λ x y,
  os_inv pinned x → os_inv pinned y ∧ changed (λ j, j = i) x y.
Definition guar (i : nat) : relation T := λ x y,
  ∀ pinned, os_inv pinned x → os_inv pinned y ∧ changed (λ j, j ≠ i) x y.

#[export] Instance changed_preorder safe : PreOrder (changed safe).
Proof.
  split; [by split|]. intros x y z [? ? Hh1 Hf1 ?] [? ? Hh2 Hf2 ?].
  split; [by auto|by auto| | |by auto].
  - intros fd i Hi Hfd. etrans; [by apply (Hh1 _ i)|by apply (Hh2 _ i); auto].
  - intros p i Hi Hp. rewrite (Hf2 _ i), (Hf1 _ i); auto.
Qed.

#[export] Instance rely_preorder pinned i : PreOrder (rely pinned i).
Proof.
  split; [by intros x Hx|]. intros x y z Hxy Hyz Hx.
  destruct (Hxy Hx) as [Hy ?]. destruct (Hyz Hy) as [Hz ?]. split; [done|by etrans].
Qed.

Lemma guar_rely pinned i j x y : i ≠ j → guar j x y → rely pinned i x y.
Proof.
  intros Hij Hg Hx. destruct (Hg pinned Hx) as [Hy []]. split; [done|].
  split; auto; intros; subst; eauto.
Qed.

(** ** Calls *)

(** What a call does to the cache directory. *)
Record files_changed (i : nat) (x : T) (L' : gmap string node) : Prop := {
  fc_content : content_ok rs known L';
  fc_files p j : j ≠ i → tg_temps x !! p = Some j → L' !! p = local x !! p;
  fc_keys k c : is_key k = true → local x !! key_path rs k = Some (Regular c) →
    L' !! key_path rs k = Some (Regular c);
}.

Lemma files_same pinned i x : os_inv pinned x → files_changed i x (local x).
Proof. intros Hx. split; [apply Hx|done|done]. Qed.

(** A call on a descriptor that is the request's own, or on a pinned one that it does not
    close. *)
Definition own_call (i : nat) (x : T) (c : KernelCall) : Prop :=
  ∀ fd, concerns c = Some fd →
    tg_fds x !! fd = Some i ∨ (tg_fds x !! fd = None ∧ closes c = None).

Lemma closes_concerns c fd : closes c = Some fd → concerns c = Some fd.
Proof. by destruct c. Qed.

Section calls.
Context (pinned : gmap Z bytes).

Lemma call_step i c x fds temps :
  let s' := (kernel_call c (tg_os x)).2 in
  os_inv pinned x → own_call i x c → files_changed i x (os_local s') →
  (∀ fd j, tg_fds x !! fd = Some j → fds !! fd = Some j) →
  (∀ fd j, fds !! fd = Some j →
     tg_fds x !! fd = Some j ∨ ¬ os_used (tg_os x) fd ∧ os_used s' fd) →
  (∀ p j, tg_temps x !! p = Some j → temps !! p = Some j) →
  (∀ p j, temps !! p = Some j → tg_temps x !! p = Some j ∨
     os_drawn s' p ∧ ∃ n, p = temp_path rs n) →
  let y := {| tg_os := s'; tg_fds := fds; tg_temps := temps |} in
  os_inv pinned y ∧ guar i x y.
Proof.
  intros s' Hx0 Hown [Hc Hf Hk] Hfds Hfds' Htemps Htemps' y.
  assert (∀ pinned, os_inv pinned x → os_inv pinned y) as Hinv.
  { intros pinned' Hx. pose proof Hx as [[Hp _] Hu Hpin Hd]. split; simpl.
    - split; [|done]. split; [unfold s'; rewrite tree_kept; apply Hp|].
      apply map_subseteq_spec. intros fd c0 Hfd. apply image_kept; [|by eapply pinned_image].
      intros Hcl. destruct (Hown fd (closes_concerns _ _ Hcl)) as [Ho|[_ Ho]]; [|congruence].
      by rewrite (Hpin _ _ Hfd) in Ho.
    - intros fd j Hj. destruct (Hfds' _ _ Hj) as [Hold|[_ ?]]; [|done].
      apply used_kept. by eapply Hu.
    - intros fd c0 Hfd. destruct (fds !! fd) as [j|] eqn:E; [|done].
      destruct (Hfds' _ _ E) as [Hj|[Hnu _]]; [by rewrite (Hpin _ _ Hfd) in Hj|].
      destruct Hnu. by eapply pinned_used.
    - intros p j Hj. destruct (Htemps' _ _ Hj) as [Hold|?]; [|done].
      destruct (Hd _ _ Hold). split; [by apply drawn_kept|done]. }
  split; [by apply Hinv|]. intros pinned' Hx. split; [by apply Hinv|]. split; simpl; [by auto..| |by auto|done].
  intros fd j Hj Hfd. apply handle_kept; [by eapply oi_fds|]. intros Hcon.
  destruct (Hown fd Hcon) as [?|[? _]]; congruence.
Qed.

(** A call that gives out nothing. *)
Lemma plain_step {A} i c (call : GoM OS A) x :
  (∀ s, (kernel_call c s).2 = (call s).2) → os_inv pinned x → own_call i x c →
  files_changed i x (os_local (call (tg_os x)).2) →
  os_inv pinned (tag_call call x).2 ∧ guar i x (tag_call call x).2.
Proof.
  intros Hcall Hx Hown Hf. rewrite <- Hcall in Hf. unfold tag_call, go_zoom. specialize (Hcall (tg_os x)).
  destruct (call (tg_os x)) as [o s']. simpl in *. subst s'.
  apply (call_step i c x (tg_fds x) (tg_temps x)); auto.
Qed.

(** Opening. *)
Lemma open_step i p x :
  os_inv pinned x →
  os_inv pinned (tag_open i (os_Open p) x).2 ∧ guar i x (tag_open i (os_Open p) x).2.
Proof.
  intros Hx. pose proof (Open_spec p (tg_os x)) as Hspec.
  pose proof (Open_new p (tg_os x)) as Hnew. unfold tag_open.
  assert ((kernel_call (KOpen p) (tg_os x)).2 = (os_Open p (tg_os x)).2) as Hcall
    by (simpl; by rewrite dropped_state).
  destruct (os_Open p (tg_os x)) as [o s'] eqn:E. destruct Hspec as (_ & Hloc & _).
  cbn [snd] in Hcall |- *.
  assert (files_changed i x (os_local (kernel_call (KOpen p) (tg_os x)).2)) as Hf.
  { rewrite Hcall, Hloc. by eapply files_same. }
  subst s'. destruct o as [f|e| | |]; try (apply (call_step i (KOpen p) x); by auto).
  destruct (Hnew f _ eq_refl) as (Hn & Hus & _).
  apply (call_step i (KOpen p) x); auto; [done|..].
  - intros fd j Hj. rewrite lookup_insert_ne; [done|]. intros <-. by apply Hn, (oi_fds _ _ Hx _ j).
  - intros fd j. rewrite lookup_insert. case_decide as Hfd; [|by left]. subst fd. intros _. right.
    by split.
Qed.

(** Making a temporary file. *)
Lemma temp_step i x (Hg : Forall (λ n, good_name n = true) rs)
    (Hl : ∀ cs, cs ≠ [] → Forall (λ n, good_name n = true) cs → is_local (abs_path (rs ++ cs)) = true) :
  os_inv pinned x →
  let r := tag_temp i (os_TempFile (abs_path rs) "partial") x in
  os_inv pinned r.2 ∧ guar i x r.2 ∧
  match r.1 with
  | Ret f => (∃ n, f_name f = temp_path rs n) ∧ tg_fds r.2 !! f_fd f = Some i ∧
             tg_temps r.2 !! f_name f = Some i ∧
             os_writable (tg_os r.2) !! f_fd f = Some (f_name f) ∧
             local r.2 !! f_name f = Some (Regular [])
  | Err _ => True
  | _ => False
  end.
Proof.
  intros Hx. pose proof (TempFile_spec (abs_path rs) "partial" (tg_os x)) as Hspec.
  pose proof (TempFile_new (abs_path rs) "partial" (tg_os x)) as Hnew. unfold tag_temp.
  assert ((kernel_call (KTempFile (abs_path rs) "partial") (tg_os x)).2
    = (os_TempFile (abs_path rs) "partial" (tg_os x)).2) as Hcall by (simpl; by rewrite dropped_state).
  destruct (os_TempFile (abs_path rs) "partial" (tg_os x)) as [o s'] eqn:E.
  destruct Hspec as (Ha & _ & Hspec). cbn [snd] in Hcall. cbv zeta. cbn [fst snd].
  assert (∀ L', L' = local x → files_changed i x L') as Hsame by (intros ? ->; by eapply files_same).
  subst s'. destruct o as [f|e| | |]; try done; cbv beta zeta in Hspec.
  2:{ destruct (call_step i (KTempFile (abs_path rs) "partial") x (tg_fds x) (tg_temps x)); auto. done. }
  destruct (Hnew f _ eq_refl) as (Hn & Hus & Hnd & Hdr).
  destruct Hspec as ((n & _ & Hname) & Hwr & Hloc). rewrite temp_join in Hname by done.
  assert (is_local (f_name f) = true) as Hisl by (rewrite Hname; by apply local_temp).
  destruct (Hloc Hisl) as [Hnone Hloc']. clear Hloc.
  assert (∀ k, is_key k = true → f_name f ≠ key_path rs k) as Hkey
    by (intros k Hk; rewrite Hname; by apply not_eq_sym, key_temp_ne).
  destruct (call_step i (KTempFile (abs_path rs) "partial") x (<[f_fd f := i]> (tg_fds x))
    (<[f_name f := i]> (tg_temps x))) as [Hy Hgu]; [done|done| | | | | |].
  - rewrite Hloc'. destruct (ok_content _ _ _ _ _ (oi_ok _ _ Hx)) as [Hinv Hkn]. split; [split|..].
    + intros k nd Hk. rewrite lookup_insert_ne by auto. by apply Hinv.
    + intros k c Hk. rewrite lookup_insert_ne by auto. by apply Hkn.
    + intros p j _ Hp. rewrite lookup_insert_ne; [done|]. intros <-.
      by apply Hnd, (oi_temps _ _ Hx _ j).
    + intros k c Hk. by rewrite lookup_insert_ne by auto.
  - intros fd j Hj. rewrite lookup_insert_ne; [done|]. intros <-. by apply Hn, (oi_fds _ _ Hx _ j).
  - intros fd j. rewrite lookup_insert. case_decide as Hfd; [|by left]. subst fd. intros _. right.
    by split.
  - intros p j Hj. rewrite lookup_insert_ne; [done|]. intros <-. by apply Hnd, (oi_temps _ _ Hx _ j).
  - intros p j. rewrite lookup_insert. case_decide as Hp; [|by left]. subst p. intros _. right.
    split; [done|by exists n].
  - split; [done|]. split; [done|]. cbn [tg_os tg_fds tg_temps].
    rewrite !lookup_insert_eq, Hwr, Hloc', !lookup_insert_eq. split_and!; [by exists n|done..].
Qed.
End calls.
End relations.

(** * Calls of a request, and what stays true between them *)

Section protocol.
Context {OS : Type} `{KernelLaws OS, !RemoteView OS, !RemoteLaws OS, !DescriptorView OS,
  !DescriptorLaws OS, EqDecision OS, !Fuel}.
Context (globals : globalState) (rs : list string) (tree : string → option rnode)
  (rr : list string) (known : bytes → Prop).
Context (Hsetup : setup_ok (OS := OS) globals rs tree rr known).
Abbreviation T := (Tagged OS).
Abbreviation S := (Shared T).
Abbreviation at_ := (tree_at tree rr).
Abbreviation local x := (os_local (tg_os x)).
Abbreviation os_inv := (os_inv rs tree known).
Abbreviation rely := (rely rs tree known).
Abbreviation guar := (guar (OS := OS) rs tree known).

Definition shared_ok (pinned : gmap Z bytes) (s : S) : Prop :=
  good (rely pinned) guar s ∧ os_inv pinned (sh_now s).

(** What request [i] has to itself. *)
Definition own_fd (i : nat) (fd : Z) (x : T) : Prop := tg_fds x !! fd = Some i.
Definition reads (i : nat) (fd : Z) (c : bytes) (x : T) : Prop :=
  own_fd i fd x ∧ os_stream (tg_os x) !! fd = Some c.
Definition writes (i : nat) (fd : Z) (p : string) (x : T) : Prop :=
  own_fd i fd x ∧ os_writable (tg_os x) !! fd = Some p.
Definition shows (i : nat) (fd : Z) (c : bytes) (x : T) : Prop :=
  own_fd i fd x ∧ os_image (tg_os x) !! fd = Some c.
Definition lists (i : nat) (fd : Z) (l : list FileInfo) (x : T) : Prop :=
  own_fd i fd x ∧ os_listing (tg_os x) !! fd = Some l.
Definition own_temp (i : nat) (p : string) (x : T) : Prop := tg_temps x !! p = Some i.
Definition holds_file (i : nat) (p : string) (c : bytes) (x : T) : Prop :=
  own_temp i p x ∧ local x !! p = Some (Regular c).
Definition stores (k : string) (c : bytes) (x : T) : Prop :=
  is_key k = true ∧ local x !! key_path rs k = Some (Regular c).

(** Assertions that the other requests do not invalidate. *)
Class Stable (i : nat) (φ : T → Prop) : Prop :=
  stable x y : changed rs (λ j, j = i) x y → φ x → φ y.

Section stable.
Context (i : nat).
#[export] Instance stable_pure (P : Prop) : Stable i (λ _, P).
Proof. by intros x y _. Qed.
#[export] Instance stable_and φ ψ :
  Stable i φ → Stable i ψ → Stable i (λ x, φ x ∧ ψ x).
Proof. intros Hφ Hψ x y Hxy []. split; by eapply stable. Qed.
#[export] Instance stable_own_fd fd : Stable i (own_fd i fd).
Proof. intros x y []. unfold own_fd. auto. Qed.
#[export] Instance stable_reads fd c : Stable i (reads i fd c).
Proof.
  intros x y [Hfd _ Hh _ _] [Ho Hs]. split; [by apply Hfd|]. by rewrite (sm_stream _ _ _ (Hh fd i eq_refl Ho)).
Qed.
#[export] Instance stable_writes fd p : Stable i (writes i fd p).
Proof.
  intros x y [Hfd _ Hh _ _] [Ho Hs]. split; [by apply Hfd|]. by rewrite (sm_writable _ _ _ (Hh fd i eq_refl Ho)).
Qed.
#[export] Instance stable_shows fd c : Stable i (shows i fd c).
Proof.
  intros x y [Hfd _ Hh _ _] [Ho Hs]. split; [by apply Hfd|]. by rewrite (sm_image _ _ _ (Hh fd i eq_refl Ho)).
Qed.
#[export] Instance stable_lists fd l : Stable i (lists i fd l).
Proof.
  intros x y [Hfd _ Hh _ _] [Ho Hs]. split; [by apply Hfd|]. by rewrite (sm_listing _ _ _ (Hh fd i eq_refl Ho)).
Qed.
#[export] Instance stable_own_temp p : Stable i (own_temp i p).
Proof. intros x y []. unfold own_temp. auto. Qed.
#[export] Instance stable_holds_file p c : Stable i (holds_file i p c).
Proof. intros x y [_ Htmp _ Hf _] [Ho Hs]. split; [by apply Htmp|]. by rewrite (Hf p i). Qed.
#[export] Instance stable_stores k c : Stable i (stores k c).
Proof. intros x y [_ _ _ _ Hk] [? ?]. split; auto. Qed.
End stable.

Section rules.
Context {DB : Type} (pinned : gmap Z bytes) (i : nat).
Abbreviation W := (World S DB).
Implicit Types (φ : T → Prop) (w : W).

Definition holding φ (s : S) : Prop := shared_ok pinned s ∧ sh_id s = i ∧ φ (sh_now s).
(** It waits for the others, unless the copy loop is too short for some file. *)
Definition slow : Prop := ∃ cs info c, at_ cs = Some (RFile info c) ∧ (copy_fuel ≤ length c)%nat.
Definition awaits (s : S) : Prop :=
  shared_ok pinned s ∧ sh_id s = i ∧ (sh_waiting s = true ∨ slow).

(** The step of a call, from a state in which [φ] holds. *)
Definition steps {A} φ (Q : A → T → Prop) (E : error → T → Prop) (call : GoM T A) : Prop :=
  ∀ x, os_inv pinned x → φ x →
    os_inv pinned (call x).2 ∧ guar i x (call x).2 ∧
    match (call x).1 with
    | Ret a => Q a (call x).2
    | Err e => E e (call x).2
    | _ => False
    end.

Lemma call_post {A} φ (Q : A → T → Prop) E (call : nat → GoM T A) w :
  stats_wf (w_stats w) → holding φ (w_os w) → Stable i φ → steps φ Q E (call i) →
  os_post (λ a, holding (Q a)) (λ e, holding (E e)) awaits (on_os (sh_call call) w).
Proof.
  intros Hwf ([Hg Hx] & Hid & Hφ) Hst Hcall.
  assert (∀ x, rely pinned i (sh_now (w_os w)) x → os_inv pinned x ∧ φ x) as Hmoved.
  { intros x Hr. destruct (Hr Hx) as [Hx' Hch]. split; [done|]. by eapply Hst. }
  pose proof (sh_call_good (rely pinned) guar call (λ _, True) (λ o y, os_inv pinned y ∧
    match o with Ret a => Q a y | Err e => E e y | _ => False end) (w_os w) Hg) as Hs.
  unfold os_post, on_os, go_zoom. destruct (sh_call call (w_os w)) as [o s'].
  destruct Hs as (Hg' & Hid' & Hs).
  { rewrite Hid. intros x Hr. destruct (Hmoved x Hr) as [Hx' Hφ'].
    destruct (Hcall x Hx' Hφ') as (? & ? & ?). auto. }
  simpl. split; [done|]. destruct Hs as [(-> & Hnow & Hwait)|[Hx' Hs]].
  - split; [split; [done|by rewrite Hnow]|]. split; [congruence|by left].
  - destruct o; try done; (split; [by split|]); by split; [congruence|].
Qed.

Lemma counted_post {A} φ (Q : A → T → Prop) E d op (call : nat → GoM T A) w :
  stats_wf (w_stats w) → d ∈ allDomains → op ∈ allOsOps → holding φ (w_os w) →
  Stable i φ → steps φ Q E (call i) →
  os_post (λ a, holding (Q a)) (λ e, holding (E e)) awaits
    ((on_stats (AccountOsOp d op);; on_os (sh_call call)) w).
Proof.
  intros Hwf Hd Hop Hh Hst Hcall.
  apply (os_post_account _ _ _ {| ev_counter := COs d op; ev_amount := 0 |}); [done|done|].
  intros w' Hwf' Hw' _. eapply call_post; [done| |done|done]. by rewrite Hw'.
Qed.

Lemma holding_weaken φ ψ s : holding φ s → (∀ x, os_inv pinned x → φ x → ψ x) → holding ψ s.
Proof. intros ([Hg Hx] & Hid & Hφ) Hw. split; [done|]. split; [done|by apply Hw]. Qed.

(** A call that leaves the cache directory alone. *)
Lemma look_steps {A} c (call : GoM OS A) φ (Q : A → T → Prop) E :
  (∀ s, (kernel_call c s).2 = (call s).2) →
  (∀ x, os_inv pinned x → φ x → own_call i x c) →
  (∀ s, os_local (call s).2 = os_local s) →
  (∀ x, os_inv pinned x → φ x →
     let y := set_tg_os (call (tg_os x)).2 x in
     match (call (tg_os x)).1 with Ret a => Q a y | Err e => E e y | _ => False end) →
  steps φ Q E (tag_call call).
Proof.
  intros Hcall Hown Hloc HQ x Hx Hφ.
  destruct (plain_step rs tree known pinned i c call x) as [Hy Hg]; [done|done|by apply Hown| |].
  - rewrite Hloc. by eapply files_same.
  - split; [done|]. split; [done|]. specialize (HQ x Hx Hφ). unfold tag_call, go_zoom in *.
    by destruct (call (tg_os x)).
Qed.

Lemma remote_at cs : good_path cs → is_local (abs_path (rr ++ cs)) = false.
Proof. apply (to_remote _ _ _ (su_tree _ _ _ _ _ Hsetup)). Qed.

Lemma inv_tree x : os_inv pinned x → remote_tree (tg_os x) = tree.
Proof. intros Hx. apply (ok_pins _ _ _ _ _ (oi_ok _ _ _ _ _ Hx)). Qed.

Ltac on_path c := eapply (look_steps c); [intros; simpl; by rewrite ?dropped_state|by intros ? ? ? fd|..].

Lemma Lstat_steps cs :
  good_path cs →
  steps (λ _, True) (λ fi _, ∃ nd, at_ cs = Some nd ∧ fi = rnode_info nd)
    (λ e _, e ≠ EFuseENOENT ∧ (IsNotExist e = true → at_ cs = None))
    (tag_call (os_Lstat (abs_path (rr ++ cs)))).
Proof.
  intros Hcs. on_path (KLstat (abs_path (rr ++ cs))).
  - intros s. pose proof (Lstat_spec (abs_path (rr ++ cs)) s) as Hs.
    destruct (os_Lstat _ s). apply Hs.
  - intros x Hx _. pose proof (remote_Lstat (abs_path (rr ++ cs)) (tg_os x) (remote_at _ Hcs)) as Hl.
    pose proof (Lstat_spec (abs_path (rr ++ cs)) (tg_os x)) as Hs. rewrite (inv_tree _ Hx) in Hl.
    destruct (os_Lstat _ (tg_os x)) as [[fi|e| | |] s']; destruct Hs as (Ha & _); simpl in *; done.
Qed.

Lemma Readlink_steps cs :
  good_path cs →
  steps (λ _, True) (λ t _, ∃ info, at_ cs = Some (RLink info t)) (λ _ _, True)
    (tag_call (os_Readlink (abs_path (rr ++ cs)))).
Proof.
  intros Hcs. on_path (KReadlink (abs_path (rr ++ cs))).
  - intros s. pose proof (Readlink_spec (abs_path (rr ++ cs)) s) as Hs.
    destruct (os_Readlink _ s). apply Hs.
  - intros x Hx _. pose proof (remote_Readlink (abs_path (rr ++ cs)) (tg_os x)) as Hl.
    pose proof (Readlink_spec (abs_path (rr ++ cs)) (tg_os x)) as Hs. rewrite (inv_tree _ Hx) in Hl.
    destruct (os_Readlink _ (tg_os x)) as [[t|e| | |] s']; destruct Hs as (Ha & _); simpl in *; try done.
    eapply Hl; [by apply remote_at|done].
Qed.

(** Opening: [φ] is what is known of the path. *)
Lemma Open_steps p φ :
  steps φ (λ f x, own_fd i (f_fd f) x ∧ ∃ x0, os_inv pinned x0 ∧ φ x0 ∧
      os_Open p (tg_os x0) = (Ret f, tg_os x)) (λ _ _, True)
    (tag_open i (os_Open p)).
Proof.
  intros x Hx Hφ. destruct (open_step rs tree known pinned i p x Hx) as [Hy Hg].
  split; [done|]. split; [done|].
  unfold tag_open in *. pose proof (Open_spec p (tg_os x)) as Hs.
  destruct (os_Open p (tg_os x)) as [[f|e| | |] s'] eqn:E; destruct Hs as (Ha & _); simpl in *; try done.
  split; [unfold own_fd; simpl; apply lookup_insert_eq|]. by exists x.
Qed.

(** The counted call with the reader it returns. *)
Lemma Open_at d p φ w :
  stats_wf (w_stats w) → d ∈ allDomains → holding φ (w_os w) → Stable i φ →
  os_post (λ tr, holding (λ x, tr_domain tr = d ∧ own_fd i (f_fd (tr_file tr)) x ∧
      ∃ x0, os_inv pinned x0 ∧ φ x0 ∧ os_Open p (tg_os x0) = (Ret (tr_file tr), tg_os x)))
    (λ _, holding (λ _, True)) awaits (Open d p w).
Proof.
  intros Hwf Hd Hh Hst. unfold Open.
  apply (os_post_account _ _ _ {| ev_counter := COs d OpenOsOp; ev_amount := 0 |});
    [done|split; [done|in_ops]|]. intros w' Hwf' Hw' _. rewrite <- Hw' in Hh.
  eapply os_post_bind; [eapply call_post; [done|exact Hh|done|apply Open_steps]|].
  intros f w2 Hwf2 (Hok & Hid & Hq). split; [done|]. simpl. split; [done|]. by split.
Qed.

Lemma Readdir_steps f l0 :
  steps (lists i (f_fd f) l0) (λ l x, own_fd i (f_fd f) x ∧ Permutation l l0)
    (λ _, own_fd i (f_fd f)) (tag_call (file_Readdir f)).
Proof.
  eapply (look_steps (KReaddir f)).
  - intros s. simpl. by rewrite dropped_state.
  - intros x _ [Ho _] fd [= <-]. by left.
  - intros s. pose proof (Readdir_spec f s) as Hs. destruct (file_Readdir f s). apply Hs.
  - intros x Hx [Ho Hl]. pose proof (Readdir_spec f (tg_os x)) as Hs.
    pose proof (Readdir_listing f (tg_os x)) as Hr.
    destruct (file_Readdir f (tg_os x)) as [[l|e| | |] s']; destruct Hs as (Ha & _); simpl in *; try done.
    split; [done|]. by eapply Hr.
Qed.

(** Closing, with what else the request has. *)
Lemma Close_steps f φ :
  (∀ x, φ x → own_fd i (f_fd f) x) →
  (∀ x s, φ x → os_local s = local x → φ (set_tg_os s x)) →
  steps φ (λ _, φ) (λ _, φ) (tag_call (file_Close f)).
Proof.
  intros Ho Hφ. eapply (look_steps (KClose f)); [done|..].
  - intros x _ Hx fd [= <-]. left. by apply Ho.
  - intros s. pose proof (Close_spec f s) as Hs. destruct (file_Close f s). apply Hs.
  - intros x Hx Hp. pose proof (Close_spec f (tg_os x)) as Hs.
    destruct (file_Close f (tg_os x)) as [[u|e| | |] s']; destruct Hs as (Ha & Hl); simpl in *; try done;
      by apply Hφ.
Qed.

Lemma ReadAt_steps f n off c :
  pinned !! f_fd f = Some c → 0 ≤ off →
  steps (λ _, True) (λ '(data, err) _, err = None ∨ err = Some EEOF → data = take n (drop (Z.to_nat off) c))
    (λ _ _, True) (tag_call (file_ReadAt f n off)).
Proof.
  intros Hp Hoff. eapply (look_steps (KReadAt f n off)).
  - intros s. simpl. by rewrite dropped_state.
  - intros x Hx _ fd [= <-]. right. split; [|done]. by eapply oi_pinned.
  - intros s. pose proof (ReadAt_spec f n off s) as Hs. destruct (file_ReadAt f n off s). apply Hs.
  - intros x Hx _. pose proof (ReadAt_spec f n off (tg_os x)) as Hs.
    destruct (file_ReadAt f n off (tg_os x)) as [o s'].
    destruct Hs as (_ & data & err & -> & _ & Hdata). simpl. intros He. apply Hdata; [|done|done].
    eapply lookup_weaken; [done|]. apply (ok_pins _ _ _ _ _ (oi_ok _ _ _ _ _ Hx)).
Qed.

(** ** Storing contents *)

Lemma su_good : Forall (λ n, good_name n = true) rs.
Proof. apply (su_root _ _ _ _ _ Hsetup). Qed.
Lemma su_local cs :
  cs ≠ [] → Forall (λ n, good_name n = true) cs → is_local (abs_path (rs ++ cs)) = true.
Proof. apply (su_root _ _ _ _ _ Hsetup). Qed.
#[local] Hint Resolve su_good su_local : core.

Abbreviation cache := (NewContentCache (abs_path rs)).

Section copying.
(** The remote file, the temporary file and its path. *)
Context (src dst : File) (p : string).

Definition mine (x : T) : Prop := own_fd i (f_fd src) x ∧ own_fd i (f_fd dst) x ∧ own_temp i p x.
Definition copied (h : bytes) (x : T) : Prop := mine x ∧ local x !! p = Some (Regular h).
Definition copying (h rest : bytes) (x : T) : Prop :=
  copied h x ∧ os_stream (tg_os x) !! f_fd src = Some rest ∧
  os_writable (tg_os x) !! f_fd dst = Some p.

#[export] Instance stable_mine : Stable i mine.
Proof. unfold mine. apply _. Qed.
#[export] Instance stable_copied h : Stable i (copied h).
Proof.
  intros x y Hxy [Hm Hp]. split; [by eapply stable_mine|].
  eapply (stable_holds_file i p h x y Hxy). by split; [apply Hm|].
Qed.
#[export] Instance stable_copying h rest : Stable i (copying h rest).
Proof.
  intros x y Hxy (Hc & Hr & Hw). split; [by eapply stable_copied|]. destruct Hc as [(Hs & Hd & _) _].
  split; [eapply (stable_reads i _ rest x y Hxy); by split|eapply (stable_writes i _ p x y Hxy); by split].
Qed.

Lemma mine_temp x : os_inv pinned x → mine x → ∃ n, p = temp_path rs n.
Proof. intros Hx (_ & _ & Hp). by apply (oi_temps _ _ _ _ _ Hx) in Hp as [_ ?]. Qed.

Lemma Read_steps n h rest :
  steps (copying h rest)
    (λ '(data, err) x, (err = None → data ≠ [] ∨ n = 0%nat) ∧ ∃ rest', rest = data ++ rest' ∧
       (err = Some EEOF → rest' = []) ∧ copying h rest' x)
    (λ _ _, False) (tag_call (file_Read src n)).
Proof.
  eapply (look_steps (KRead src n)).
  - intros s. simpl. by rewrite dropped_state.
  - intros x _ [[(Ho & _) _] _] fd [= <-]. by left.
  - intros s. pose proof (Read_spec src n s) as Hs. destruct (file_Read src n s). apply Hs.
  - intros x Hx ((Hm & Hp) & Hr & Hw). pose proof (Read_spec src n (tg_os x)) as Hs.
    destruct (file_Read src n (tg_os x)) as [o s'].
    destruct Hs as (Hl & Hwr & data & err & -> & _ & Hsome & Hdata). simpl.
    destruct (Hdata _ Hr) as (rest' & -> & Hstr & Hend). split; [done|]. exists rest'.
    split_and!; [done|done|]. split; [split; [done|simpl; by rewrite Hl]|]. simpl.
    by rewrite Hstr, lookup_insert_eq, Hwr.
Qed.

(** What is written to the temporary file of a request is nobody else's. *)
Lemma temp_changed x L' nd :
  os_inv pinned x → mine x → L' = <[p := nd]> (local x) ∨ L' = delete p (local x) →
  files_changed rs known i x L'.
Proof.
  intros Hx Hm HL. destruct (mine_temp x Hx Hm) as [n Hn]. destruct Hm as (_ & _ & Htemp).
  assert (∀ q, q ≠ p → L' !! q = local x !! q) as Hq.
  { intros q Hq. destruct HL as [->| ->]; [by rewrite lookup_insert_ne|by rewrite lookup_delete_ne]. }
  assert (∀ k, is_key k = true → key_path rs k ≠ p) as Hkey by (intros k Hk; subst p; by apply key_temp_ne).
  destruct (ok_content _ _ _ _ _ (oi_ok _ _ _ _ _ Hx)) as [Hinv Hkn]. split; [split|..].
  - intros k nd' Hk. rewrite Hq by auto. by apply Hinv.
  - intros k c Hk. rewrite Hq by auto. by apply Hkn.
  - intros q j Hj Hqj. apply Hq. intros ->. unfold own_temp in Htemp. congruence.
  - intros k c Hk. by rewrite Hq by auto.
Qed.

Lemma Write_steps data h rest :
  steps (copying h rest)
    (λ '(nw, ew) x, (nw ≤ length data)%nat ∧ (nw ≠ length data → ew ≠ None) ∧
       copying (h ++ take nw data) rest x)
    (λ _ _, False) (tag_call (file_Write dst data)).
Proof.
  intros x Hx ((Hm & Hp) & Hr & Hw). pose proof (Write_spec dst data (tg_os x)) as Hs.
  destruct (plain_step rs tree known pinned i (KWrite dst data) (file_Write dst data) x) as [Hy Hg].
  - intros s. simpl. by rewrite dropped_state.
  - done.
  - intros fd [= <-]. left. apply Hm.
  - destruct (file_Write dst data (tg_os x)) as [o s'].
    destruct Hs as (_ & _ & nw & ew & _ & _ & _ & Hl). simpl.
    eapply temp_changed; [done|done|left]. exact (Hl _ _ Hw Hp).
  - split; [done|]. split; [done|]. unfold tag_call, go_zoom.
    destruct (file_Write dst data (tg_os x)) as [o s'].
    destruct Hs as (Hst & Hwr & nw & ew & -> & Hle & Hne & Hl). simpl. split_and!; [done|done|].
    specialize (Hl _ _ Hw Hp). split; [split; [done|]; simpl; by rewrite Hl, lookup_insert_eq|].
    simpl. by rewrite Hst, Hwr.
Qed.

Lemma tr_Read_at tr n h rest w :
  tr_file tr = src → tr_domain tr ∈ allDomains → stats_wf (w_stats w) →
  holding (copying h rest) (w_os w) →
  os_post (λ '(data, err), holding (λ x, (err = None → data ≠ [] ∨ n = 0%nat) ∧
       ∃ rest', rest = data ++ rest' ∧ (err = Some EEOF → rest' = []) ∧ copying h rest' x))
    (λ _ _, False) awaits (tr_Read tr n w).
Proof.
  intros Hsrc Hd Hwf Hh. unfold tr_Read. rewrite Hsrc.
  apply (os_post_account _ _ _ {| ev_counter := COs (tr_domain tr) ReadOsOp; ev_amount := 0 |});
    [done|split; [done|in_ops]|]. intros w1 Hwf1 Hw1 _. rewrite <- Hw1 in Hh.
  eapply (os_post_bind (λ r s, holding (λ x, let '(data, err) := r in (err = None → data ≠ [] ∨ n = 0%nat) ∧
    ∃ rest', rest = data ++ rest' ∧ (err = Some EEOF → rest' = []) ∧ copying h rest' x) s)).
  { eapply os_post_weaken; [eapply call_post; [done|exact Hh|apply _|apply Read_steps]|..|done].
    - intros [data err] s (Hok & Hid & Hq). by split.
    - by intros e s (_ & _ & ?). }
  intros [data err] w2 Hwf2 Hq. unfold account_read. destruct (_ && _); [|by split].
  apply (os_post_account _ _ _ {| ev_counter := CRead (tr_domain tr);
    ev_amount := Z.of_nat (length data) |}); [done|done|].
  intros w3 Hwf3 Hw3 _. split; [done|]. simpl. by rewrite Hw3.
Qed.

(** Before an iteration: what has been copied, and that the fuel is enough for what has not. *)
Definition copies (c : bytes) (fuel : nat) (h : bytes) (s : S) : Prop :=
  ∃ rest, c = h ++ rest ∧ ((length rest < fuel)%nat ∨ slow) ∧ holding (copying h rest) s.
Definition copy_done (c h : bytes) (err : option error) (s : S) : Prop :=
  holding (λ x, mine x ∧ (err = None → h = c ∧ copied h x)) s.

(** The end of an iteration, from a state where the data has been written. *)
Lemma copy2_iterated c h data rest fuel er s :
  c = h ++ data ++ rest → (er = Some EEOF → rest = []) →
  (er = None → (length rest < fuel)%nat ∨ slow) → holding (copying (h ++ data) rest) s →
  iterated (copies c) (copy_done c) fuel (h ++ data) er s.
Proof.
  intros E Hend Hfuel Hc. unfold iterated. destruct er as [e|].
  - assert (∀ err : option error, (err = None → e = EEOF) → copy_done c (h ++ data) err s) as Hq.
    { intros err Herr. destruct Hc as (Hok & Hid & [Hm Hp] & _). do 3 (split; [done|]). intros Herr'.
      rewrite E, Hend, app_nil_r by (by rewrite (Herr Herr')). by split. }
    by destruct e; apply Hq.
  - exists rest. rewrite <- app_assoc. auto.
Qed.

(** The copy is whole when the loop reports no error. *)
Lemma copy2_at tr fuel c : ∀ h n w,
  tr_file tr = src → tr_domain tr ∈ allDomains → stats_wf (w_stats w) → copies c fuel h (w_os w) →
  os_post (λ '(_, h', err), copy_done c h' err) (λ _ _, False) awaits (copy2_loop fuel dst tr h n w).
Proof.
  intros h n w Hsrc Hd Hwf Hh.
  apply (copy2_loop_rule dst tr (copies c)
    (λ k h' data er s, ∃ rest, c = h' ++ data ++ rest ∧ (er = Some EEOF → rest = []) ∧
       (er = None → (length rest < k)%nat ∨ slow) ∧ holding (copying h' rest) s) (copy_done c)); [..|done|done].
  - intros h' s (rest & _ & [Hf|Hs] & ? & ? & _); [lia|]. split; [done|]. split; [done|by right].
  - intros k h' w' Hwf' (rest & -> & Hf & Hc). eapply os_post_weaken; [by apply tr_Read_at| |done|done].
    intros [data er] s (Hok & Hid & Hsome & rest2 & -> & Hend & Hc'). exists rest2.
    split_and!; [done|done| |by split]. intros Her. destruct Hf as [Hf|Hs]; [left|by right].
    destruct (Hsome Her) as [Hne|]; [|done]. destruct data; [done|].
    rewrite length_app in Hf. simpl in Hf. lia.
  - intros k h' er s (rest & E & Hend & Hf & Hc). rewrite <- (app_nil_r h').
    eapply copy2_iterated; [exact E|exact Hend|exact Hf|by rewrite app_nil_r].
  - intros k h' data er w' Hwf' (rest & E & Hend & Hf & Hc).
    eapply os_post_weaken; [eapply call_post; [done|exact Hc|apply _|apply Write_steps]|..|done].
    + intros [nw ew] s (Hok & Hid & Hle & Hne & Hc'). case_bool_decide as Hall.
      * destruct Hall as [-> ->]. rewrite take_ge in Hc' by done. by eapply copy2_iterated.
      * intros e. split; [done|]. split; [done|]. split; [apply Hc'|done].
    + by intros e s (_ & _ & ?).
Qed.

(** ** Into its place *)

Lemma mine_plain {A} (call : GoM OS A) x : mine x → mine (tag_call call x).2.
Proof. unfold tag_call, go_zoom. by destruct (call (tg_os x)). Qed.

Lemma path_of k : is_key k = true → pathForKey cache k = Ret (key_path rs k).
Proof. exact (pathForKey_key rs su_good k). Qed.

Lemma HasKey_at k φ w :
  is_key k = true → stats_wf (w_stats w) → holding φ (w_os w) → Stable i φ →
  (∀ x s, φ x → os_local s = local x → φ (set_tg_os s x)) →
  os_post (λ b, holding (λ x, φ x ∧ ((b : bool) = true → is_Some (local x !! key_path rs k))))
    (λ _, holding φ) awaits (HasKey cache k w).
Proof.
  intros Hk Hwf Hh Hst Hφ. unfold HasKey. rewrite path_of by done.
  eapply (os_post_bind (λ q s, q = key_path rs k ∧ holding φ s)); [by split|].
  intros q w1 Hwf1 [-> Hh1].
  eapply (os_post_bind (λ r, holding (λ x, φ x ∧
    match r with inr _ => is_Some (local x !! key_path rs k) | inl e => True end))).
  - eapply os_post_weaken; [eapply (os_post_try _ _ (λ _ _, False)), counted_post with (φ := φ)
      (Q := λ _ x, φ x ∧ is_Some (local x !! key_path rs k)) (E := λ _, φ); [done|in_ops|in_ops|done|done|]|..|done|done].
    + eapply (look_steps (KLstat (key_path rs k))).
      * intros s. simpl. by rewrite dropped_state.
      * done.
      * intros s. pose proof (Lstat_spec (key_path rs k) s) as Hs. destruct (os_Lstat _ s). apply Hs.
      * intros x Hx Hp. pose proof (Lstat_spec (key_path rs k) (tg_os x)) as Hs.
        destruct (os_Lstat _ (tg_os x)) as [[fi|e| | |] s']; destruct Hs as (Ha & Hl & _ & _ & Hs);
          simpl in *; try done; [|by apply Hφ].
        split; [by apply Hφ|]. rewrite Hl. apply Hs. by apply (local_key rs su_local).
    + intros [e|fi] s (Hok & Hid & Hq); (split; [done|]); (split; [done|]); [by split|exact Hq].
  - intros [e|fi] w2 Hwf2 (Hok & Hid & Hp & Hs).
    + destruct (IsNotExist e); (split; [done|]); (split; [done|]); by split.
    + split; [done|]. split; [done|]. by split.
Qed.

Lemma Mkdir_steps k mode h :
  is_key k = true →
  steps (copied h) (λ _, copied h) (λ _, copied h) (tag_call (os_Mkdir (bucket_path rs k) mode)).
Proof.
  intros Hk x Hx [Hm Hp]. destruct (mine_temp x Hx Hm) as [n Hn].
  pose proof (Mkdir_spec (bucket_path rs k) mode (tg_os x)) as Hs.
  assert (p ≠ bucket_path rs k) as Hne by (rewrite Hn; by apply not_eq_sym, bucket_temp_ne).
  assert (∀ L', L' = local x ∨ local x !! bucket_path rs k = None ∧ L' = <[bucket_path rs k := Other]> (local x) →
    files_changed rs known i x L' ∧ L' !! p = Some (Regular h)) as HL.
  { intros L' [->|[Hnone ->]]; [by split; [eapply files_same|]|].
    assert (∀ k', is_key k' = true → key_path rs k' ≠ bucket_path rs k) as Hkey
      by (intros; by apply key_bucket_ne).
    destruct (ok_content _ _ _ _ _ (oi_ok _ _ _ _ _ Hx)) as [Hinv Hkn].
    split; [|by rewrite lookup_insert_ne]. split; [split|..].
    - intros k' nd Hk'. rewrite lookup_insert_ne by (by apply not_eq_sym, Hkey). by apply Hinv.
    - intros k' c Hk'. rewrite lookup_insert_ne by (by apply not_eq_sym, Hkey). by apply Hkn.
    - intros q j _ Hq. apply (oi_temps _ _ _ _ _ Hx) in Hq as [_ [n' ->]].
      by rewrite lookup_insert_ne by (by apply bucket_temp_ne).
    - intros k' c Hk'. by rewrite lookup_insert_ne by (by apply not_eq_sym, Hkey). }
  assert (os_local (os_Mkdir (bucket_path rs k) mode (tg_os x)).2 = local x ∨
    local x !! bucket_path rs k = None ∧
    os_local (os_Mkdir (bucket_path rs k) mode (tg_os x)).2 = <[bucket_path rs k := Other]> (local x)) as HL'.
  { destruct (os_Mkdir _ mode (tg_os x)) as [[u|e| | |] s']; destruct Hs as (Ha & _ & _ & Hs); try done;
      specialize (Hs (local_bucket rs su_local k Hk)); simpl; auto. }
  destruct (HL _ HL') as [Hf Hp'].
  destruct (plain_step rs tree known pinned i (KMkdir (bucket_path rs k) mode)
    (os_Mkdir (bucket_path rs k) mode) x) as [Hy Hg]; [done|done|done|done|].
  split; [done|]. split; [done|]. unfold tag_call, go_zoom.
  destruct (os_Mkdir _ mode (tg_os x)) as [[u|e| | |] s']; destruct Hs as (Ha & _); done.
Qed.

Lemma Rename_steps h :
  known h →
  steps (copied h) (λ _, mine) (λ _, mine) (tag_call (os_Rename p (key_path rs (digest h)))).
Proof.
  intros Hh x Hx [Hm Hp]. destruct (mine_temp x Hx Hm) as [n Hn].
  set (q := key_path rs (digest h)). pose proof (digest_is_key h) as Hk.
  pose proof (Rename_spec p q (tg_os x)) as Hs.
  assert (files_changed rs known i x (os_local (os_Rename p q (tg_os x)).2)) as Hf.
  { destruct (os_Rename p q (tg_os x)) as [o s']. destruct Hs as (Ha & Hs). simpl.
    specialize (Hs ltac:(rewrite Hn; by apply (local_temp rs su_local)) (local_key rs su_local _ Hk)).
    assert (os_local s' = local x ∨ os_local s' = <[q := Regular h]> (delete p (local x))) as [->| ->].
    { destruct o; auto. destruct Hs as (nd & Hnd & ->). right. congruence. }
    { by eapply files_same. }
    destruct (temp_changed x _ (Regular []) Hx Hm (or_intror eq_refl)) as [[Hinv Hkn] Hfl Hke].
    destruct (ok_content _ _ _ _ _ (oi_ok _ _ _ _ _ Hx)) as [Hinv0 Hkn0]. split; [split|..].
    - intros k nd Hk'. rewrite lookup_insert. case_decide as Hq; [|by apply Hinv].
      apply key_path_inj in Hq as <-; [|done..]. intros [= <-]. by exists h.
    - intros k c Hk'. rewrite lookup_insert. case_decide as Hq; [by intros [= <-]|by apply Hkn].
    - intros q' j Hj Hq'. rewrite lookup_insert_ne; [by eapply Hfl|].
      apply (oi_temps _ _ _ _ _ Hx) in Hq' as [_ [n' ->]]. by apply key_temp_ne.
    - intros k c Hk' Hc. rewrite lookup_insert. case_decide as Hq; [|by apply Hke].
      apply key_path_inj in Hq as <-; [|done..]. do 2 f_equal.
      destruct (Hinv0 _ _ Hk' Hc) as (c' & [= <-] & Hdc).
      apply (su_collision _ _ _ _ _ Hsetup); [done|by eapply Hkn0|done]. }
  destruct (plain_step rs tree known pinned i (KRename p q) (os_Rename p q) x) as [Hy Hg];
    [done|done|done|done|].
  split; [done|]. split; [done|]. pose proof (mine_plain (os_Rename p q) x Hm) as Hm'.
  unfold tag_call, go_zoom in *. by destruct (os_Rename p q (tg_os x)) as [[] s']; destruct Hs as (Ha & _).
Qed.

Lemma Remove_steps : steps mine (λ _, mine) (λ _, mine) (tag_call (os_Remove p)).
Proof.
  intros x Hx Hm. destruct (mine_temp x Hx Hm) as [n Hn].
  pose proof (Remove_spec p (tg_os x)) as Hs.
  destruct (plain_step rs tree known pinned i (KRemove p) (os_Remove p) x) as [Hy Hg]; [done|done|done| |].
  - destruct (os_Remove p (tg_os x)) as [o s']. destruct Hs as (Ha & Hs & _).
    specialize (Hs ltac:(rewrite Hn; by apply (local_temp rs su_local))). simpl.
    destruct o; rewrite Hs; try (by eapply files_same).
    eapply (temp_changed x _ (Regular [])); [done|done|by right].
  - split; [done|]. split; [done|]. pose proof (mine_plain (os_Remove p) x Hm) as Hm'.
    unfold tag_call, go_zoom in *. by destruct (os_Remove p (tg_os x)) as [[] s']; destruct Hs as (Ha & _).
Qed.

Lemma store_temp_at h w :
  known h → f_name dst = p → stats_wf (w_stats w) → holding (copied h) (w_os w) →
  os_post (λ k, holding (λ x, k = digest h ∧ mine x)) (λ _, holding mine) awaits
    (store_temp cache dst (digest h) w).
Proof.
  intros Hh Hname Hwf Hc. pose proof (digest_is_key h) as Hk. unfold store_temp.
  eapply os_post_bind.
  { apply os_post_wrap. eapply os_post_weaken;
      [eapply (HasKey_at (digest h) (copied h)); [done|done|exact Hc|apply _|]|..|done].
    - intros x s [Hm Hp] Hl. split; [done|]. simpl. by rewrite Hl.
    - intros b s Hb. exact Hb.
    - intros e s Hs. eapply holding_weaken; [exact Hs|]. by intros x _ [? _]. }
  intros [|] w1 Hwf1 Hw1.
  { split; [done|]. eapply holding_weaken; [exact Hw1|]. by intros x _ [[? _] _]. }
  apply holding_weaken with (ψ := copied h) in Hw1; [|by intros x _ [? _]].
  destruct (bucket_of_key (the_cache rs) _ Hk) as (Hb & _ & _ & _). unfold the_cache in Hb. rewrite Hb.
  eapply (os_post_bind (λ b s, b = String.substring 0 2 (digest h) ∧ holding (copied h) s)); [by split|].
  intros b w2 Hwf2 [-> Hw2]. change (root cache) with (abs_path rs).
  rewrite (bucket_join rs su_good _ Hk).
  eapply (os_post_bind (λ _, holding (copied h))).
  { eapply os_post_weaken; [eapply (os_post_try _ _ (λ _ _, False)), counted_post with (φ := copied h)
      (Q := λ _, copied h) (E := λ _, copied h); [done|in_ops|in_ops|done|apply _|by apply Mkdir_steps]|..|done|done].
    by intros [e|u] s. }
  intros r w3 Hwf3 Hw3. eapply (os_post_bind (λ _, holding (copied h))).
  { destruct r as [e|u]; [destruct (negb (IsExist e))|]; (split; [done|]); try exact Hw3.
    eapply holding_weaken; [exact Hw3|]. by intros x _ [? _]. }
  intros [] w4 Hwf4 Hw4. rewrite path_of by done.
  eapply (os_post_bind (λ q s, q = key_path rs (digest h) ∧ holding (copied h) s)); [by split|].
  intros q w5 Hwf5 [-> Hw5]. rewrite Hname. eapply os_post_bind.
  { eapply counted_post; [done|in_ops|in_ops|exact Hw5|apply _|by apply Rename_steps]. }
  intros u w6 Hwf6 Hw6. split; [done|]. eapply holding_weaken; [exact Hw6|]. by intros x _ ?.
Qed.

Lemma copied_close h x s : copied h x → os_local s = local x → copied h (set_tg_os s x).
Proof. intros [Hm Hp] Hl. split; [done|]. simpl. by rewrite Hl. Qed.

Lemma fetch_at path tr c w :
  known c → f_name dst = p → tr_file tr = src → tr_domain tr ∈ allDomains → stats_wf (w_stats w) →
  (length c < copy_fuel)%nat ∨ slow → holding (copying [] c) (w_os w) →
  os_post (λ k, holding (λ x, k = digest c ∧ mine x)) (λ _, holding mine) awaits
    (fetch cache path tr dst w).
Proof.
  intros Hc Hname Hsrc Hd Hwf Hfuel Hh. unfold fetch, copy2.
  eapply (os_post_bind (λ '(_, h, err), copy_done c h err)).
  { eapply os_post_weaken; [by eapply copy2_at; [..|exists c]|by intros [[? ?] ?]|done|done]. }
  intros [[n h] err] w1 Hwf1 (Hok & Hid & Hm & He). destruct err as [err|]; [by split|].
  destruct (He eq_refl) as [-> Hw1].
  assert (holding (copied c) (w_os w1)) as Hw1' by (by split).
  eapply (os_post_bind (λ _, holding (copied c))).
  { apply (os_post_ignore (holding (copied c))). unfold tr_Close. rewrite Hsrc.
    eapply counted_post; [done|done|in_ops|done|apply _|].
    apply Close_steps; [by intros x [[? _] _]|by intros; apply copied_close]. }
  intros u1 w2 Hwf2 Hw2. eapply (os_post_bind (λ _, holding (copied c))).
  { apply (os_post_ignore (holding (copied c))). eapply call_post; [done|done|apply _|].
    apply Close_steps; [by intros x [(_ & ? & _) _]|by intros; apply copied_close]. }
  intros u2 w3 Hwf3 Hw3. by apply store_temp_at.
Qed.
End copying.

Lemma TempFile_steps src c :
  steps (reads i (f_fd src) c)
    (λ f, copying src f (f_name f) [] c) (λ _, own_fd i (f_fd src))
    (tag_temp i (os_TempFile (abs_path rs) "partial")).
Proof.
  intros x Hx [Ho Hr]. pose proof (TempFile_spec (abs_path rs) "partial" (tg_os x)) as Hs.
  destruct (temp_step rs tree known pinned i x su_good su_local Hx) as (Hy & Hg & Hq).
  split; [done|]. split; [done|]. unfold tag_temp in *.
  destruct (os_TempFile (abs_path rs) "partial" (tg_os x)) as [[f|e| | |] s'];
    destruct Hs as (Ha & Hst & Hs); simpl in *; try done.
  destruct Hq as (_ & Hfd & Htmp & Hwr & Hl). split; [split; [|done]|split; [by apply Hst|done]].
  split; [|done]. unfold own_fd in *. simpl. rewrite lookup_insert. by case_decide.
Qed.

Lemma own_fd_close f : steps (own_fd i (f_fd f)) (λ _ _, True) (λ _ _, True) (tag_call (file_Close f)).
Proof.
  intros x Hx Ho. destruct (Close_steps f (own_fd i (f_fd f))) with (x := x) as (? & ? & Hq); try done.
  split; [done|]. split; [done|]. by destruct (tag_call (file_Close f) x).1.
Qed.

(** A deferred call after a function with a known result. *)
Lemma defer_holding {A B} (r : A) φ ψ (d : GoM W B) (m : GoM W A) w :
  os_post (λ a, holding (λ x, a = r ∧ φ x)) (λ _, holding φ) awaits (m w) →
  (∀ w', stats_wf (w_stats w') → holding φ (w_os w') →
     os_post (λ _, holding ψ) (λ _, holding ψ) awaits (d w')) →
  os_post (λ a, holding (λ x, a = r ∧ ψ x)) (λ _, holding ψ) awaits (go_defer d m w).
Proof.
  intros Hm Hd. eapply os_post_defer; [exact Hm|..|done]; [|by intros e w'; apply Hd].
  intros a w' Hwf (Hok & Hid & -> & Hφ).
  eapply os_post_weaken; [apply Hd; [done|by split; [|split; [|exact Hφ]]]|..|done];
    intros ? s Hs; (eapply holding_weaken; [exact Hs|done]).
Qed.

(** Whatever the others do, the contents of a file of the tree get under their digest. *)
Lemma PutContents_at cs info c w :
  good_path cs → at_ cs = Some (RFile info c) → stats_wf (w_stats w) →
  holding (λ _, True) (w_os w) →
  os_post (λ k, holding (λ _, k = digest c)) (λ _, holding (λ _, True)) awaits
    (PutContents cache (abs_path (rr ++ cs)) w).
Proof.
  intros Hcs Hat Hwf Hh. pose proof (su_files _ _ _ _ _ Hsetup _ _ _ Hcs Hat) as Hknown.
  unfold PutContents. eapply os_post_bind.
  { apply os_post_wrap. eapply os_post_weaken; [by eapply Open_at; [|in_ops|exact Hh|apply _]|..|done].
    - intros tr s Hs. eapply (holding_weaken _ (λ x, tr_domain tr = RemoteDomain ∧
        reads i (f_fd (tr_file tr)) c x)); [exact Hs|].
      intros x Hx (Hd & Ho & x0 & Hx0 & _ & Hop). split; [done|]. split; [done|].
      eapply remote_Open; [by apply remote_at|exact Hop|]. rewrite (inv_tree _ Hx0). exact Hat.
    - intros e s Hs. exact Hs. }
  intros tr w1 Hwf1 (Hok1 & Hid1 & Hdom & Hr).
  assert (tr_domain tr ∈ allDomains) as Hdom' by (rewrite Hdom; in_ops).
  eapply os_post_weaken; [apply (defer_holding (digest c) (own_fd i (f_fd (tr_file tr))) (λ _, True))|..|done].
  2:{ intros w2 Hwf2 Hw2. unfold tr_Close.
      eapply os_post_weaken; [eapply counted_post; [done|done|in_ops|exact Hw2|apply _|apply own_fd_close]|..|done];
        intros ? s Hs; (eapply holding_weaken; [exact Hs|done]). }
  2:{ intros k s Hs. eapply holding_weaken; [exact Hs|by intros x _ [? _]]. }
  2:done.
  eapply os_post_bind.
  { apply os_post_wrap. change (root cache) with (abs_path rs).
    eapply call_post; [done|by split; [|split; [|exact Hr]]|apply _|apply TempFile_steps]. }
  intros f w2 Hwf2 Hc. apply (defer_holding _ (mine (tr_file tr) f (f_name f))).
  - apply (defer_holding _ (mine (tr_file tr) f (f_name f))).
    { eapply fetch_at; try done. destruct (decide (length c < copy_fuel)%nat); [by left|right].
      exists cs, info, c. split; [done|lia]. }
    intros w3 Hwf3 Hw3. eapply counted_post; [done|in_ops|in_ops|exact Hw3|apply _|apply Remove_steps].
  - intros w3 Hwf3 Hw3.
    eapply os_post_weaken; [eapply call_post; [done|exact Hw3|apply _|
      apply (Close_steps f (mine (tr_file tr) f (f_name f))); [by intros x (_ & ? & _)|done]]|..|done];
      intros ? s Hs; (eapply holding_weaken; [exact Hs|by intros x _ [? _]]).
Qed.

(** And whoever opens the file under the digest finds them. *)
Lemma open_contents_at cs info c w :
  good_path cs → at_ cs = Some (RFile info c) → stats_wf (w_stats w) →
  holding (λ _, True) (w_os w) →
  os_post (λ tr, holding (λ x, tr_domain tr = LocalDomain ∧ shows i (f_fd (tr_file tr)) c x))
    (λ _, holding (λ _, True)) awaits
    ((path ← GetFileForContents cache (digest c); Open LocalDomain path) w).
Proof.
  intros Hcs Hat Hwf Hh. pose proof (digest_is_key c) as Hk. unfold GetFileForContents.
  eapply (os_post_bind (λ q, holding (λ x, q = key_path rs (digest c) ∧ stores (digest c) c x))).
  - eapply os_post_bind.
    { eapply os_post_weaken; [by eapply (HasKey_at (digest c) (λ _, True)); [|done|exact Hh|apply _|]|..|done];
        intros ? s Hs; exact Hs. }
    intros [|] w1 Hwf1 (Hok & Hid & _ & Hs); [|by split].
    rewrite path_of by done. split; [done|]. split; [done|]. split; [done|]. split; [done|]. split; [done|].
    destruct (Hs eq_refl) as [nd Hnd]. destruct Hok as [_ Hx].
    destruct (ok_content _ _ _ _ _ (oi_ok _ _ _ _ _ Hx)) as [Hinv Hkn].
    destruct (Hinv _ _ Hk Hnd) as (c' & -> & Hc').
    assert (c' = c) as ->; [|done].
    eapply (su_collision _ _ _ _ _ Hsetup); [by eapply Hkn| |done].
    exact (su_files _ _ _ _ _ Hsetup _ _ _ Hcs Hat).
  - intros q w1 Hwf1 (Hok & Hid & -> & Hst).
    eapply os_post_weaken; [eapply Open_at; [done|in_ops|by split; [|split; [|exact Hst]]|apply _]|..|done].
    + intros tr s Hs. eapply holding_weaken; [exact Hs|].
      intros x Hx (Hd & Ho & x0 & Hx0 & [_ Hfile] & Hop). split; [done|]. split; [done|].
      pose proof (Open_spec (key_path rs (digest c)) (tg_os x0)) as Hspec. rewrite Hop in Hspec.
      destruct Hspec as (_ & _ & _ & _ & Him). apply Him; [|done]. by apply (local_key rs su_local).
    + intros e s Hs. eapply holding_weaken; [exact Hs|done].
Qed.
End rules.

(** * The protocol *)

Section implementation.
Context (i : nat).

Definition opened_dir (f : File) (cs : list string) (x : T) : Prop :=
  own_fd i (f_fd f) x ∧ ∀ info l0, at_ cs = Some (RDir info l0) →
    ∃ l, os_listing (tg_os x) !! f_fd f = Some l ∧ Permutation l l0.

Definition shared_os_holds (pinned : gmap Z bytes) (h : Holding) (s : S) : Prop :=
  shared_ok pinned s ∧ sh_id s = i ∧
  match h with
  | Nothing => True
  | JustOpened f cs => opened_dir f cs (sh_now s)
  | HasOpen f => own_fd i (f_fd f) (sh_now s)
  end.
Definition shared_os_shows (pinned : gmap Z bytes) (s : S) (f : File) (c : bytes) : Prop :=
  shows i (f_fd f) c (sh_now s).

Lemma holds_holding pinned s : shared_os_holds pinned Nothing s → holding pinned i (λ _, True) s.
Proof. done. Qed.
Lemma awaits_holds pinned s : awaits pinned i s → shared_os_holds pinned Nothing s.
Proof. intros (Hok & Hid & _). by split. Qed.
Lemma holding_holds pinned φ s : holding pinned i φ s → shared_os_holds pinned Nothing s.
Proof. by intros (Hok & Hid & _). Qed.
#[local] Hint Resolve holding_holds awaits_holds : core.

Lemma shared_Open {DB} pinned cs (w : World S DB) :
  stats_wf (w_stats w) → shared_os_holds pinned Nothing (w_os w) → good_path cs →
  os_post (λ tr s, tr_domain tr = RemoteDomain ∧ shared_os_holds pinned (JustOpened (tr_file tr) cs) s)
    (λ _, shared_os_holds pinned Nothing) (shared_os_holds pinned Nothing)
    (Open RemoteDomain (abs_path (rr ++ cs)) w).
Proof.
  intros Hwf Hok Hcs.
  eapply os_post_weaken; [eapply Open_at; [done|in_ops|by apply holds_holding|apply _]|..]; [|eauto..].
  intros tr s ([Hg Hx] & Hid & Hd & Ho & x0 & Hx0 & _ & Hop). split; [done|]. split; [done|].
  split; [done|]. split; [done|]. intros info l0 Hat.
  destruct (Open_new _ _ _ _ Hop) as (_ & _ & Hl). apply (Hl (remote_at cs Hcs) info l0).
  rewrite (inv_tree _ _ Hx0). exact Hat.
Qed.

Lemma shared_Readdir {DB} pinned tr cs info l0 (w : World S DB) :
  stats_wf (w_stats w) → shared_os_holds pinned (JustOpened (tr_file tr) cs) (w_os w) →
  tr_domain tr ∈ allDomains → at_ cs = Some (RDir info l0) →
  os_post (λ l s, shared_os_holds pinned (HasOpen (tr_file tr)) s ∧ Permutation l l0)
    (λ _, shared_os_holds pinned (HasOpen (tr_file tr))) (shared_os_holds pinned Nothing)
    (tr_Readdir tr w).
Proof.
  intros Hwf (Hok & Hid & Ho & Hl) Hd Hat. destruct (Hl _ _ Hat) as (l' & Hl' & Hp).
  eapply os_post_weaken; [eapply (counted_post pinned i (lists i (f_fd (tr_file tr)) l'));
    [done|done|in_ops|by split|apply _|apply Readdir_steps]|..|by eauto].
  - intros l s (Hok' & Hid' & Ho' & Hp'). split; [by split|by etrans].
  - intros e s (Hok' & Hid' & Ho'). by split.
Qed.

Definition shared_protocol : OsProtocol globals tree rr S.
Proof.
  refine {| os_holds := shared_os_holds; os_shows := shared_os_shows |}.
  - intros pinned h s (Hok & Hid & _). by split.
  - intros pinned f cs s (Hok & Hid & Ho & _). by split.
  - intros DB pinned cs w Hwf Hok Hcs. eapply os_post_weaken;
      [eapply counted_post; [done|in_ops|in_ops|by apply holds_holding|apply _|by apply Lstat_steps]|..];
      [..|by eauto].
    + intros fi s (? & ? & ?). by split; [split|].
    + intros e s (? & ? & ?). by split; [split|].
  - intros DB pinned cs w Hwf Hok Hcs. eapply os_post_weaken;
      [eapply counted_post; [done|in_ops|in_ops|by apply holds_holding|apply _|by apply Readlink_steps]|..];
      [|by eauto..].
    intros t s (? & ? & ?). by split; [split|].
  - intros DB. apply shared_Open.
  - intros DB pinned tr cs info l0 w Hwf Hh _. by apply shared_Readdir.
  - intros DB pinned tr w Hwf (Hok & Hid & Ho) Hd. eapply os_post_weaken;
      [eapply (counted_post pinned i (own_fd i (f_fd (tr_file tr))));
        [done|done|in_ops|by split|apply _|apply own_fd_close]|by eauto..].
  - intros DB pinned cs info c w Hwf Hok Hcs Hat. rewrite (su_cache _ _ _ _ _ Hsetup).
    eapply os_post_weaken; [by eapply PutContents_at; [..|apply holds_holding]|..]; [|by eauto..].
    intros k s (? & ? & ?). by split; [split|].
  - intros DB pinned cs info c w Hwf Hok Hcs Hat. rewrite (su_cache _ _ _ _ _ Hsetup).
    eapply os_post_weaken; [by eapply open_contents_at; [..|apply holds_holding]|..]; [|by eauto..].
    intros tr s (? & Hid & Hd & Hs). by split; [split|].
  - intros DB pinned tr size off c w Hwf Hok Hdom Hfd Hoff. unfold tr_ReadAt.
    apply (os_post_account _ _ _ {| ev_counter := COs (tr_domain tr) ReadOsOp; ev_amount := 0 |});
      [done|split; [rewrite Hdom; by left|in_ops]|]. intros w1 Hwf1 Hw1 _. rewrite <- Hw1 in Hok.
    eapply os_post_bind.
    { eapply os_post_weaken; [eapply call_post; [done|by apply holds_holding|apply _|by apply ReadAt_steps]|..];
        [|by eauto..]. intros r s Hs. exact Hs. }
    intros [data err] w2 Hwf2 (Hok2 & Hid2 & Hdata). unfold account_read.
    destruct (_ && _); [|by split; [|split; [split|]]].
    apply (os_post_account _ _ _ {| ev_counter := CRead (tr_domain tr);
      ev_amount := Z.of_nat (length data) |}); [done|rewrite Hdom; by left|].
    intros w3 Hwf3 Hw3 _. split; [done|]. simpl. rewrite Hw3. by split; [split|].
Defined.
End implementation.
End protocol.
