(* ===== verification/Pool.v ===== *)
(** Requests that are served at the same time.

    bazil.org/fuse serves every request in a goroutine of its own.  A pool is a session with
    requests in flight: a request arrives when no other works on its node (the handlers of a node
    hold its lock from beginning to end), makes its calls of the kernel and the database one by
    one, in whatever states the others have left them ([pool_call]), and is answered when it is
    done ([finish]).  The code between two calls works on the request's own node.

    A request is a computation that runs to its end, so its progress is replayed: it is run from
    its start with the states in which its calls so far were made, and it waits at the call for
    which no state is known yet.  [replay_os] and [replay_db] say what one more known state
    changes.  PoolProofs.v has the invariant under every interleaving, PoolTheorems.v what it
    gives. *)
From S2P Require Import Prelude GoStrings GoPath Stats Types DirEntries Sql Sqlite Kernel.
From S2P Require Import Syscalls Metadata MetadataSpec MetadataProps WorldPost Md5 Content.
From S2P Require Import ContentProps Fs FsLogic FsProps Remote Coherence Growth HandlerLogic.
From S2P Require Import Served NodeServed Session Requests Simulation SessionProofs Shared.
From S2P Require Import Descriptors SharedOs.
#[local] Open Scope Z_scope.

#[local] Arguments Join : simpl never.

(** * The pool *)

(** A request in flight: the world when it arrived, its own part of the tables, and the moves of
    the kernel and the database it has seen. *)
Record Thread (OS DB : Type) : Type := {
  th_req : Request;
  th_world : World (Tagged OS) DB;
  th_nodes : gmap nat Node;
  th_files : gmap nat openFile;
  th_os_moves : list (Tagged OS * Tagged OS);
  th_db_moves : list (DB * DB);
}.
Arguments th_req {OS DB} t.
Arguments th_world {OS DB} t.
Arguments th_nodes {OS DB} t.
Arguments th_files {OS DB} t.
Arguments th_os_moves {OS DB} t.
Arguments th_db_moves {OS DB} t.
Arguments Build_Thread {OS DB} _ _ _ _ _ _.

(** A session with requests in flight; the key of a request is also the identifier of the node
    or handle it may hand out. *)
Record Pool (OS DB : Type) : Type := {
  pl_world : World (Tagged OS) DB;
  pl_nodes : gmap nat Node;
  pl_files : gmap nat openFile;
  pl_next : nat;
  pl_threads : gmap nat (Thread OS DB);
}.
Arguments pl_world {OS DB} p.
Arguments pl_nodes {OS DB} p.
Arguments pl_files {OS DB} p.
Arguments pl_next {OS DB} p.
Arguments pl_threads {OS DB} p.
Arguments Build_Pool {OS DB} _ _ _ _ _.

(** The part of a table that belongs to one request. *)
Definition own_part {A} (o : option nat) (m : gmap nat A) : gmap nat A :=
  match i ← o; x ← m !! i; Some (i, x) with Some (i, x) => {[i := x]} | None => ∅ end.

Definition untagged {OS} (s : OS) : Tagged OS := {| tg_os := s; tg_fds := ∅; tg_temps := ∅ |}.
(** Request [k] has nothing of its own any more. *)
Definition untag {OS} (k : nat) (x : Tagged OS) : Tagged OS :=
  {| tg_os := tg_os x; tg_fds := filter (λ fd, fd.2 ≠ k) (tg_fds x);
     tg_temps := filter (λ p, p.2 ≠ k) (tg_temps x) |}.

Definition with_os {OS OS' DB} (s : OS') (w : World OS DB) : World OS' DB :=
  {| w_stats := w_stats w; w_os := s; w_conn := w_conn w |}.

Section pool.
Context {OS DB : Type} `{Kernel OS, SqlEngine DB, Fuel, EqDecision OS, EqDecision DB}.
Context (globals : globalState) (remotedir : string).
Abbreviation SharedSession := (Session (Shared (Tagged OS)) (Shared DB)).
Abbreviation P := (Pool OS DB).
Abbreviation the_os w := (w_os w).
Abbreviation the_db w := (c_db (w_conn w)).

(** Request [k] as it begins, knowing the moves it will see. *)
Definition thread_start (k : nat) (th : Thread OS DB) : SharedSession :=
  let w := th_world th in
  {| ss_world := {| w_stats := w_stats w;
                    w_os := sh_start k (the_os w) (th_os_moves th);
                    w_conn := {| c_db := sh_start k (the_db w) (th_db_moves th);
                                 c_rt := c_rt (w_conn w) |} |};
     ss_nodes := th_nodes th; ss_files := th_files th; ss_next := k |}.

(** How far it has got. *)
Definition thread_run (k : nat) (th : Thread OS DB) : outcome Reply * SharedSession :=
  serve globals (th_req th) (thread_start k th).

Definition os_waits (t : SharedSession) : bool := sh_waiting (the_os (ss_world t)).
Definition db_waits (t : SharedSession) : bool := sh_waiting (the_db (ss_world t)).
Definition os_now (t : SharedSession) : Tagged OS := sh_now (the_os (ss_world t)).
Definition db_now (t : SharedSession) : DB := sh_now (the_db (ss_world t)).

(** A request that does not wait any more has been answered, or never will be. *)
Definition thread_done (k : nat) (th : Thread OS DB) : bool :=
  let t := (thread_run k th).2 in negb (os_waits t) && negb (db_waits t).

Definition tell_os (x now : Tagged OS) (th : Thread OS DB) : Thread OS DB :=
  {| th_req := th_req th; th_world := th_world th; th_nodes := th_nodes th; th_files := th_files th;
     th_os_moves := th_os_moves th ++ [(now, x)]; th_db_moves := th_db_moves th |}.
Definition tell_db (d now : DB) (th : Thread OS DB) : Thread OS DB :=
  {| th_req := th_req th; th_world := th_world th; th_nodes := th_nodes th; th_files := th_files th;
     th_os_moves := th_os_moves th; th_db_moves := th_db_moves th ++ [(now, d)] |}.

(** ** What happens in a pool *)

Definition set_pl_world (w : World (Tagged OS) DB) (p : P) : P :=
  {| pl_world := w; pl_nodes := pl_nodes p; pl_files := pl_files p; pl_next := pl_next p;
     pl_threads := pl_threads p |}.
Definition set_pl_threads (ths : gmap nat (Thread OS DB)) (p : P) : P :=
  {| pl_world := pl_world p; pl_nodes := pl_nodes p; pl_files := pl_files p; pl_next := pl_next p;
     pl_threads := ths |}.

(** A request arrives. *)
Definition new_thread (r : Request) (p : P) : Thread OS DB :=
  {| th_req := r; th_world := pl_world p; th_nodes := own_part (req_node r) (pl_nodes p);
     th_files := own_part (req_handle r) (pl_files p); th_os_moves := []; th_db_moves := [] |}.
Definition arrive (r : Request) (p : P) : P :=
  {| pl_world := pl_world p; pl_nodes := pl_nodes p; pl_files := pl_files p;
     pl_next := pl_next p + 1; pl_threads := <[pl_next p := new_thread r p]> (pl_threads p) |}.

(** Request [k] makes its next call. *)
Definition pool_call (k : nat) (p : P) : P :=
  match pl_threads p !! k with
  | None => p
  | Some th =>
      let t := (thread_run k th).2 in
      if os_waits t then
        let th' := tell_os (the_os (pl_world p)) (os_now t) th in
        set_pl_threads (<[k := th']> (pl_threads p))
          (set_pl_world (with_os (os_now (thread_run k th').2) (pl_world p)) p)
      else if db_waits t then
        let th' := tell_db (the_db (pl_world p)) (db_now t) th in
        set_pl_threads (<[k := th']> (pl_threads p))
          (set_pl_world (set_w_conn (set_db (db_now (thread_run k th').2) (w_conn (pl_world p)))
             (pl_world p)) p)
      else p
  end.

(** Request [k] is answered: its part of the tables is put back as it has made it.  The counters
    and the random numbers, which the requests share without regard to each other, are whatever
    they have become. *)
Definition finish (k : nat) (th : Thread OS DB) (st : Stats) (rt : Runtime) (p : P) : P :=
  let t := (thread_run k th).2 in
  {| pl_world := {| w_stats := st; w_os := untag k (the_os (pl_world p));
                    w_conn := {| c_db := the_db (pl_world p); c_rt := rt |} |};
     pl_nodes := ss_nodes t ∪ (pl_nodes p ∖ th_nodes th);
     pl_files := ss_files t ∪ (pl_files p ∖ th_files th);
     pl_next := pl_next p; pl_threads := delete k (pl_threads p) |}.

(** The session, without the requests in flight. *)
Definition pool_session (p : P) : Session OS DB :=
  {| ss_world := with_os (tg_os (the_os (pl_world p))) (pl_world p);
     ss_nodes := pl_nodes p; ss_files := pl_files p; ss_next := pl_next p |}.
Definition resume (s : Session OS DB) (p : P) : P :=
  {| pl_world := with_os (set_tg_os (the_os (ss_world s)) (the_os (pl_world p))) (ss_world s);
     pl_nodes := ss_nodes s; pl_files := ss_files s; pl_next := ss_next s;
     pl_threads := pl_threads p |}.
Definition pool_of (s : Session OS DB) : P :=
  {| pl_world := with_os (untagged (the_os (ss_world s))) (ss_world s);
     pl_nodes := ss_nodes s; pl_files := ss_files s; pl_next := ss_next s; pl_threads := ∅ |}.

(** The kernel knows the node or the handle of the request. *)
Definition known_to (p : P) (r : Request) : Prop :=
  (∀ i, req_node r = Some i → is_Some (pl_nodes p !! i)) ∧
  (∀ h, req_handle r = Some h → is_Some (pl_files p !! h)).
(** Nobody else holds the lock of its node, and nobody reads from a handle that is released. *)
Definition apart (p : P) (r : Request) : Prop :=
  map_Forall (λ _ th,
    (∀ i, req_node r = Some i → req_node (th_req th) ≠ Some i) ∧
    (∀ h, r = ReqRelease h → req_handle (th_req th) ≠ Some h)) (pl_threads p).

(** Requests that make at most one call. *)
Definition brief (r : Request) : bool :=
  match r with ReqRelease _ | ReqForget _ => true | _ => false end.

(** The steps: a request arrives; one in flight makes a call, or is answered; a brief request is
    served on the spot; the process ends, with whatever requests in flight, and the file system
    is mounted again. *)
Inductive pool_step (p : P) : list event → P → Prop :=
  | ps_arrive r :
      request_ok r → brief r = false → known_to p r → apart p r → pool_step p [] (arrive r p)
  | ps_call k : pool_step p [] (pool_call k p)
  | ps_finish k th st rt :
      pl_threads p !! k = Some th → thread_done k th = true → stats_wf st →
      pool_step p [EvServe (th_req th) (thread_run k th).1] (finish k th st rt p)
  | ps_brief r o s :
      brief r = true → apart p r → serve globals r (pool_session p) = (o, s) →
      pool_step p [EvServe r o] (resume s p)
  | ps_mount s :
      mount globals remotedir (ss_world (pool_session p)) = Ret s →
      pool_step p [EvMount] (pool_of s).

Inductive pool_run : P → list event → P → Prop :=
  | pr_nil p : pool_run p [] p
  | pr_snoc p tr p1 evs p2 :
      pool_run p tr p1 → pool_step p1 evs p2 → pool_run p (tr ++ evs) p2.
End pool.

(** ** Running a pool *)

#[export] Instance forall_some_dec {A} (o : option A) (Q : A → Prop) `{∀ a, Decision (Q a)} :
  Decision (∀ a, o = Some a → Q a).
Proof.
  refine (match o with Some a => cast_if (decide (Q a)) | None => left _ end);
    [by intros ? [= <-]|by intros HQ; specialize (HQ _ eq_refl)|done].
Defined.

#[export] Instance request_ok_dec r : Decision (request_ok r).
Proof. destruct r; simpl; apply _. Defined.

Section drive.
Context {OS DB : Type} `{Kernel OS, SqlEngine DB, Fuel, EqDecision OS, EqDecision DB}.
Context (globals : globalState) (remotedir : string).

#[export] Instance known_to_dec (p : Pool OS DB) r : Decision (known_to p r).
Proof. apply _. Defined.
#[export] Instance apart_dec (p : Pool OS DB) r : Decision (apart p r).
Proof.
  unfold apart. apply map_Forall_dec. intros k th. apply and_dec; [apply _|].
  destruct r as [| | | | | |h|]; try (left; by intros).
  refine (cast_if_not (decide (req_handle (th_req th) = Some h))); naive_solver.
Defined.

(** What happens next; when a request is answered, with what has become of the counters and the
    random numbers. *)
Inductive Turn : Type :=
  | Arrives (r : Request) | Calls (k : nat) | Answered (k : nat) (st : Stats) (rt : Runtime)
  | Brief (r : Request).

Definition turn_ok (t : Turn) : Prop :=
  match t with
  | Arrives r | Brief r => request_ok r
  | Calls _ => True
  | Answered _ st _ => stats_wf st
  end.

Definition take_turn (t : Turn) (p : Pool OS DB) : option (list event * Pool OS DB) :=
  match t with
  | Arrives r =>
      if decide (brief r = false ∧ known_to p r ∧ apart p r)
      then Some ([], arrive r p) else None
  | Calls k => Some ([], pool_call globals k p)
  | Answered k st rt =>
      th ← pl_threads p !! k;
      if thread_done globals k th
      then Some ([EvServe (th_req th) (thread_run globals k th).1],
                 finish globals k th st rt p)
      else None
  | Brief r =>
      if decide (brief r = true ∧ apart p r)
      then let '(o, s) := serve globals r (pool_session p) in Some ([EvServe r o], resume s p)
      else None
  end.

(** A pool in which the turns are given. *)
Fixpoint drive (turns : list Turn) (p : Pool OS DB) : option (list event * Pool OS DB) :=
  match turns with
  | [] => Some ([], p)
  | t :: turns =>
      '(evs, p1) ← take_turn t p; '(tr, p2) ← drive turns p1; Some (evs ++ tr, p2)
  end.

Lemma pool_run_app p tr p1 tr' p2 :
  pool_run globals remotedir p tr p1 → pool_run globals remotedir p1 tr' p2 →
  pool_run globals remotedir p (tr ++ tr') p2.
Proof.
  intros H1' H2'. induction H2' as [p1|p1 tr' p2 evs p3 H2' IH Hstep]; [by rewrite app_nil_r|].
  rewrite app_assoc. eapply pr_snoc; [by apply IH|done].
Qed.

Lemma take_turn_step t p evs p' :
  turn_ok t → take_turn t p = Some (evs, p') → pool_step globals remotedir p evs p'.
Proof.
  intros Hok. destruct t as [r|k|k st rt|r]; simpl.
  - destruct (decide _) as [(? & ? & ?)|]; [|done]. intros [= <- <-]. by constructor.
  - intros [= <- <-]. constructor.
  - destruct (pl_threads p !! k) as [th|] eqn:Hk; simpl; [|done].
    destruct (thread_done globals k th) eqn:Hd; [|done]. intros [= <- <-].
    by constructor.
  - destruct (decide _) as [[? ?]|]; [|done].
    destruct (serve globals r (pool_session p)) as [o s] eqn:Es. intros [= <- <-]. by constructor.
Qed.

(** Every step but a mount is such a turn. *)
Lemma step_take_turn p evs p' :
  pool_step globals remotedir p evs p' →
  (∃ t, turn_ok t ∧ take_turn t p = Some (evs, p')) ∨
  ∃ s, evs = [EvMount] ∧ mount globals remotedir (ss_world (pool_session p)) = Ret s ∧ p' = pool_of s.
Proof.
  intros [r Hreq Hb Hk Ha|k|k th st rt Hk Hdone Hst|r o s Hb Ha Ho|s Hm]; [left..|by right; exists s].
  - exists (Arrives r). split; [done|]. simpl. by rewrite decide_True.
  - by exists (Calls k).
  - exists (Answered k st rt). split; [done|]. simpl. by rewrite Hk; simpl; rewrite Hdone.
  - exists (Brief r). split; [by destruct r|]. simpl. rewrite decide_True by done. by rewrite Ho.
Qed.

Lemma drive_run turns p tr p' :
  Forall turn_ok turns → drive turns p = Some (tr, p') → pool_run globals remotedir p tr p'.
Proof.
  intros Hok. revert p tr.
  induction Hok as [|t turns Ht Hok IH]; intros p tr; simpl; [intros [= <- <-]; constructor|].
  destruct (take_turn t p) as [[evs p1]|] eqn:Et; simpl; [|done].
  destruct (drive turns p1) as [[tr' p2]|] eqn:Hd; simpl; [|done]. intros [= <- <-].
  eapply pool_run_app; [|by apply IH]. apply (pr_snoc _ _ p [] p evs p1); [constructor|].
  by eapply take_turn_step.
Qed.
End drive.

(** * A request that is told of one more move makes one more call *)

Section replay.
Context {OS DB : Type} `{Kernel OS, SqlEngine DB, Fuel, EqDecision OS, EqDecision DB}.
Context (globals : globalState).
Abbreviation T := (Tagged OS).
Abbreviation SharedSession := (Session (Shared T) (Shared DB)).
Abbreviation the_os t := (w_os (ss_world t)).
Abbreviation the_db t := (c_db (w_conn (ss_world t))).

Lemma extended_kernel gap : @KernelSim true (Shared T) (Shared T) _ _ (extended gap).
Proof. split; intros; apply extended_sim. Qed.
Lemma untouched_kernel : @KernelSim true (Shared T) (Shared T) _ _ untouched.
Proof. split; intros; apply untouched_sim. Qed.
Lemma extended_engine gap : @EngineSim true (Shared DB) (Shared DB) _ _ (extended gap).
Proof. split; intros; apply extended_sim. Qed.
Lemma untouched_engine : @EngineSim true (Shared DB) (Shared DB) _ _ untouched.
Proof. split; intros; apply untouched_sim. Qed.

(** A run with all moves used up changes nothing more. *)
Lemma serve_used_up r (t : SharedSession) :
  sh_coming (the_os t) = [] → sh_coming (the_db t) = [] →
  let t' := (serve globals r t).2 in
  (sh_coming (the_os t') = [] ∧ sh_now (the_os t') = sh_now (the_os t)) ∧
  (sh_coming (the_db t') = [] ∧ sh_now (the_db t') = sh_now (the_db t)).
Proof.
  intros Ho Hd t'. pose proof untouched_kernel as Hk. pose proof untouched_engine as He.
  pose proof (@sim_serve true (Shared T) (Shared T) (Shared DB) (Shared DB) _ _ untouched Hk
    _ _ untouched He _ globals r) as Hs.
  destruct (proj1 (sim_ahead _ _ _ Hs) t t) as [Ha Hb]; [by split|].
  destruct (Ha Ho) as (? & _ & ? & _). destruct (Hb Hd) as (? & _ & ? & _). by repeat split.
Qed.

Definition session_tell_os (gap : T * T) (t : SharedSession) : SharedSession :=
  {| ss_world := {| w_stats := w_stats (ss_world t); w_os := extend gap (the_os t);
                    w_conn := w_conn (ss_world t) |};
     ss_nodes := ss_nodes t; ss_files := ss_files t; ss_next := ss_next t |}.
Definition session_tell_db (gap : DB * DB) (t : SharedSession) : SharedSession :=
  {| ss_world := {| w_stats := w_stats (ss_world t); w_os := the_os t;
                    w_conn := {| c_db := extend gap (the_db t); c_rt := c_rt (w_conn (ss_world t)) |} |};
     ss_nodes := ss_nodes t; ss_files := ss_files t; ss_next := ss_next t |}.

Lemma replay_os r gap (t : SharedSession) :
  sh_waiting (the_os t) = false →
  let s := (serve globals r t).2 in let s' := (serve globals r (session_tell_os gap t)).2 in
  sh_waiting (the_os s) = true → sh_coming (the_db s) = [] →
  sh_coming (the_os s') = [] ∧
  sh_log (the_os s') = sh_log (the_os s) ++ [(move gap (sh_now (the_os s)), sh_now (the_os s'))] ∧
  sh_coming (the_db s') = [] ∧ sh_now (the_db s') = sh_now (the_db s).
Proof.
  intros Hw s s' Hs Hd. pose proof (extended_kernel gap) as Hk. pose proof untouched_engine as He.
  pose proof (@sim_serve true (Shared T) (Shared T) (Shared DB) (Shared DB) _ _ (extended gap) Hk
    _ _ untouched He _ globals r) as Hsim.
  destruct (sim_run _ _ _ Hsim t (session_tell_os gap t)) as [[_ ((_ & [_ Hw'] & _) & _)]|
    [[[(_ & _ & Hc & _ & Hl) Ha]|[_ []]] _]].
  - by repeat split.
  - fold s in Hw'. congruence.
  - destruct (Ha Hd) as (? & _ & ? & _). by repeat split.
Qed.

Lemma replay_db r gap (t : SharedSession) :
  sh_waiting (the_db t) = false →
  let s := (serve globals r t).2 in let s' := (serve globals r (session_tell_db gap t)).2 in
  sh_waiting (the_db s) = true → sh_coming (the_os s) = [] →
  sh_coming (the_db s') = [] ∧
  sh_log (the_db s') = sh_log (the_db s) ++ [(move gap (sh_now (the_db s)), sh_now (the_db s'))] ∧
  sh_coming (the_os s') = [] ∧ sh_now (the_os s') = sh_now (the_os s).
Proof.
  intros Hw s s' Hs Hd. pose proof untouched_kernel as Hk. pose proof (extended_engine gap) as He.
  pose proof (@sim_serve true (Shared T) (Shared T) (Shared DB) (Shared DB) _ _ untouched Hk
    _ _ (extended gap) He _ globals r) as Hsim.
  destruct (sim_run _ _ _ Hsim t (session_tell_db gap t)) as [[_ ((_ & _ & [_ Hw'] & _) & _)]|
    [[[[] _]|[Ha (_ & _ & Hc & _ & Hl)]] _]].
  - by repeat split.
  - fold s in Hw'. congruence.
  - destruct (Ha Hd) as (? & _ & ? & _). by repeat split.
Qed.
End replay.
