(* ===== verification/PoolProofs.v ===== *)
(** The invariant of a session with requests in flight.

    [flight_ok] says that each request has seen only moves that the others may make, and that the
    states in which it left the kernel and the database have moved on to the present ones in the
    same way; so whenever it is a request's turn, what it relies on holds. *)
From S2P Require Import Prelude GoStrings GoPath Stats Types DirEntries Sql Sqlite Kernel.
From S2P Require Import Syscalls Metadata MetadataSpec MetadataProps WorldPost Md5 Content.
From S2P Require Import ContentProps Fs FsLogic FsProps Remote Coherence Growth HandlerLogic.
From S2P Require Import Served NodeServed Session Requests Simulation SessionProofs Shared.
From S2P Require Import Descriptors SharedOs FsTermination Pool.
#[local] Open Scope Z_scope.

#[local] Arguments Join : simpl never.

Lemma own_part_lookup {A} o (ns : gmap nat A) i x :
  own_part o ns !! i = Some x → o = Some i ∧ ns !! i = Some x.
Proof.
  unfold own_part. destruct o as [j|]; simpl; [|done].
  destruct (ns !! j) as [y|] eqn:Hj; simpl; [|done].
  rewrite lookup_singleton. case_decide; [|done]. by intros [= <-]; subst.
Qed.

Lemma own_part_subseteq {A} o (ns : gmap nat A) : own_part o ns ⊆ ns.
Proof. apply map_subseteq_spec. intros i x Hx. by apply own_part_lookup in Hx as [_ ?]. Qed.

Lemma own_part_some {A} i (ns : gmap nat A) x :
  ns !! i = Some x → own_part (Some i) ns !! i = Some x.
Proof. intros Hx. unfold own_part. simpl. rewrite Hx. simpl. apply lookup_singleton_eq. Qed.

(** The part depends only on its own entry. *)
Lemma own_part_ext {A} o (ns ns' : gmap nat A) :
  (∀ i, o = Some i → ns' !! i = ns !! i) → own_part o ns' = own_part o ns.
Proof. intros Hn. unfold own_part. destruct o as [i|]; simpl; [|done]. by rewrite Hn. Qed.

(** * Merging the tables *)

Lemma merge_insert {A} (own rest : gmap nat A) i x :
  own ⊆ rest → <[i := x]> own ∪ (rest ∖ own) = <[i := x]> rest.
Proof. intros Hsub. by rewrite <- insert_union_l, map_difference_union. Qed.

Lemma merge_delete {A} (own rest : gmap nat A) i :
  own ⊆ rest → is_Some (own !! i) → delete i own ∪ (rest ∖ own) = delete i rest.
Proof.
  intros Hsub [x Hx]. apply map_eq. intros j. rewrite lookup_union, lookup_difference.
  destruct (decide (i = j)) as [->|Hne]; [by rewrite !lookup_delete_eq, Hx|].
  rewrite !lookup_delete_ne by done. destruct (own !! j) as [y|] eqn:Hy; simpl.
  - rewrite (lookup_weaken _ _ _ _ Hy Hsub). done.
  - by destruct (rest !! j).
Qed.


Section merge.
Context (globals : globalState) (tree : string → option rnode) (rr : list string).
Context (m : map_t) (id : nat) (shows : File → bytes → Prop) (Σ : Spec).

Lemma merge_nodes r o eff (own rest : gmap nat Node) :
  effect_ok globals tree rr m id shows Σ r o eff → own ⊆ rest →
  (∀ i, req_node r = Some i → (∃ cs, sp_nodes Σ !! i = Some cs) ∨ r = ReqForget i → is_Some (own !! i)) →
  eff_nodes eff id own ∪ (rest ∖ own) = eff_nodes eff id rest.
Proof.
  intros Hok Hsub Hown. destruct Hok; simpl.
  - by apply map_difference_union.
  - by apply merge_insert.
  - by apply merge_insert.
  - apply merge_delete; [done|]. eauto.
  - rewrite <- insert_union_l. f_equal. by apply merge_insert.
  - by apply merge_insert.
  - by apply map_difference_union.
  - by apply map_difference_union.
  - apply merge_delete; [done|]. eauto.
Qed.

Lemma merge_files eff (own rest : gmap nat openFile) :
  own ⊆ rest → eff_files eff id own ∪ (rest ∖ own) = eff_files eff id rest.
Proof. intros Hsub. destruct eff; simpl; try (by apply map_difference_union). by apply merge_insert. Qed.

End merge.

Section proofs.
Context {OS DB : Type} `{KernelLaws OS, !RemoteView OS, !RemoteLaws OS, !DescriptorView OS,
  !DescriptorLaws OS, SqlLaws DB, !Fuel, EqDecision OS, EqDecision DB}.
Context (globals : globalState) (rs : list string) (tree : string → option rnode)
  (rr : list string) (known : bytes → Prop).
Context (Hsetup : setup_ok (OS := OS) globals rs tree rr known).
Abbreviation T := (Tagged OS).
Abbreviation the_os w := (w_os w).
Abbreviation the_db w := (c_db (w_conn w)).
Abbreviation rely := (rely (OS := OS) rs tree known).
Abbreviation guar := (guar (OS := OS) rs tree known).
Abbreviation os_inv := (os_inv (OS := OS) rs tree known).
Abbreviation db_grows := (db_grows (DB := DB) tree rr).
Abbreviation thread_run := (thread_run globals).
Abbreviation protocol k := (shared_protocol globals rs tree rr known Hsetup k).
Abbreviation node_ok := (node_ok globals tree rr).

(** How request [k] began, when the database held [m] and the handle it reads delivers what
    [pinned] says, and the moves it has seen since. *)
Record began (m : map_t) (pinned : gmap Z bytes) (Σ : Spec) (k : nat) (th : Thread OS DB) : Prop := {
  bg_request : request_ok (th_req th) ∧ ∀ h, th_req th ≠ ReqRelease h;
  bg_stats : stats_wf (w_stats (th_world th));
  bg_os : os_inv pinned (the_os (th_world th));
  bg_db : db_ok tree rr m (db_rows (the_db (th_world th)));
  bg_nodes i nd : th_nodes th !! i = Some nd → ∃ cs, sp_nodes Σ !! i = Some cs ∧ node_ok m cs nd;
  bg_files h f : req_handle (th_req th) = Some h → th_files th !! h = Some f →
    ∃ c, sp_handles Σ !! h = Some c ∧ handle_on f c pinned;
  bg_os_moves : Forall (λ gap, rely pinned k gap.1 gap.2) (th_os_moves th);
  bg_db_moves : Forall (λ gap, db_grows gap.1 gap.2) (th_db_moves th);
}.

Lemma began_effected m pinned Σ k th :
  began m pinned Σ k th →
  effected globals tree rr (protocol k) m pinned Σ (th_req th) (thread_start k th) (thread_run k th).
Proof.
  intros [[Hreq Hrel] Hst Hos Hdb Hn Hf Hom Hdm].
  apply (serve_effected globals tree rr is_local (su_tree _ _ _ _ _ Hsetup) (protocol k)); try done.
Qed.

(** What its run leaves behind. *)
Lemma began_good m pinned Σ k th :
  began m pinned Σ k th →
  let t := (thread_run k th).2 in
  Forall (λ call, guar k call.1 call.2) (sh_log (the_os (ss_world t))) ∧
  Forall (λ call, db_grows call.1 call.2) (sh_log (the_db (ss_world t))).
Proof.
  intros Hth t. destruct (began_effected _ _ _ _ _ Hth) as (_ & m' & eff & _ & [Ho Hd] & _).
  fold t in Ho, Hd. destruct Ho as ([[_ Hl] _] & Hid & _). destruct Hd as [_ [_ Hl']].
  rewrite Hid in Hl. by split.
Qed.

(** * The invariant *)

(** The states in which the request has left the kernel and the database, and the present ones. *)
Record moved (pinned : gmap Z bytes) (k : nat) (th : Thread OS DB) (x : T) (d : DB) : Prop := {
  mv_os_used : sh_coming (the_os (ss_world (thread_run k th).2)) = [];
  mv_db_used : sh_coming (the_db (ss_world (thread_run k th).2)) = [];
  mv_os : rely pinned k (os_now (thread_run k th).2) x;
  mv_db : db_grows (db_now (thread_run k th).2) d;
}.

(** The part of the tables that is the request's own, and that its pins are on the handle it
    reads. *)
Record owns (pinned : gmap Z bytes) (th : Thread OS DB) (ns : gmap nat Node)
    (fs : gmap nat openFile) : Prop := {
  ow_nodes : th_nodes th = own_part (req_node (th_req th)) ns;
  ow_files : th_files th = own_part (req_handle (th_req th)) fs;
  ow_node i : req_node (th_req th) = Some i → is_Some (ns !! i);
  ow_handle h : req_handle (th_req th) = Some h → is_Some (fs !! h);
  ow_pins fd : is_Some (pinned !! fd) → ∃ h f rd, req_handle (th_req th) = Some h ∧
    fs !! h = Some f ∧ of_reader f = Some rd ∧ fd = f_fd (tr_file rd);
}.

Record thread_ok (Σ : Spec) (x : T) (d : DB) (ns : gmap nat Node) (fs : gmap nat openFile)
    (k : nat) (th : Thread OS DB) : Prop := {
  ht_inv : ∃ m pinned, began m pinned Σ k th ∧ moved pinned k th x d ∧ owns pinned th ns fs;
}.

Record flight_ok (m : map_t) (pinned : gmap Z bytes) (Σ : Spec) (p : Pool OS DB) : Prop := {
  fo_stats : stats_wf (w_stats (pl_world p));
  fo_os : os_inv pinned (the_os (pl_world p));
  fo_db : db_ok tree rr m (db_rows (the_db (pl_world p)));
  fo_tables : tables_ok globals tree rr m pinned Σ (pl_nodes p) (pl_files p);
  fo_next : fresh_from (pl_next p) (pl_nodes p) (pl_files p);
  fo_threads k th : pl_threads p !! k = Some th →
    thread_ok Σ (the_os (pl_world p)) (the_db (pl_world p)) (pl_nodes p) (pl_files p) k th;
  fo_ids k th : pl_threads p !! k = Some th →
    (k < pl_next p)%nat ∧ pl_nodes p !! k = None ∧ pl_files p !! k = None;
  fo_apart k1 k2 th1 th2 i : pl_threads p !! k1 = Some th1 → pl_threads p !! k2 = Some th2 →
    req_node (th_req th1) = Some i → req_node (th_req th2) = Some i → k1 = k2;
}.

(** ** A request arrives *)

(** The pin on the handle a request reads. *)
Lemma own_pins m pinned Σ ns fs r :
  tables_ok globals tree rr m pinned Σ ns fs →
  ∃ own, own ⊆ pinned ∧
    (∀ h f, req_handle r = Some h → fs !! h = Some f →
       ∃ c, sp_handles Σ !! h = Some c ∧ handle_on f c own) ∧
    (∀ fd, is_Some (own !! fd) → ∃ h f rd, req_handle r = Some h ∧ fs !! h = Some f ∧
       of_reader f = Some rd ∧ fd = f_fd (tr_file rd)).
Proof.
  intros [_ Hf _ _ _].
  destruct (h ← req_handle r; f ← fs !! h; Some (h, f)) as [[h f]|] eqn:E.
  - destruct (req_handle r) as [h'|] eqn:Hr; simpl in E; [|done].
    destruct (fs !! h') as [f'|] eqn:Hfh; simplify_eq/=.
    destruct (map_Forall2_lookup_r _ _ _ _ _ Hf Hfh) as (c & Hc & rd & Hrd & Hdom & Hp).
    exists {[f_fd (tr_file rd) := c]}. split; [by apply map_singleton_subseteq_l|]. split.
    + intros h2 f2 [= <-] Hf2. simplify_eq. exists c. split; [done|]. exists rd.
      split_and!; [done..|]. apply lookup_singleton_eq.
    + intros fd [c' Hfd]. apply lookup_singleton_Some in Hfd as [<- _]. by exists h, f, rd.
  - exists ∅. split; [apply map_empty_subseteq|]. split.
    + intros h f Hr Hfh. rewrite Hr in E. simpl in E. by rewrite Hfh in E.
    + intros fd [c Hfd]. by rewrite lookup_empty in Hfd.
Qed.

Lemma os_inv_less pinned own x : own ⊆ pinned → os_inv pinned x → os_inv own x.
Proof.
  intros Hsub [[[Ht Hp] Hc] Hf Hn Htm]. split; [|done| |done].
  - split; [|done]. split; [done|]. by etrans.
  - intros fd c Hfd. eapply Hn. by eapply lookup_weaken.
Qed.

Lemma arrive_ok m pinned Σ p r :
  flight_ok m pinned Σ p → request_ok r → brief r = false → known_to p r → apart p r →
  flight_ok m pinned Σ (arrive r p).
Proof.
  intros [Hst Hos Hdb Htab Hnx Hth Hid Hap] Hreq Hbrief [Hkn Hkh] Hapart.
  destruct (own_pins m pinned Σ _ _ r Htab) as (own & Hsub & Hown & Hpins).
  set (k := pl_next p). set (th := new_thread r p). split; simpl; [done|done|done|done| | | |].
  - intros i Hi. apply Hnx. lia.
  - intros j thj. rewrite lookup_insert. case_decide as Hj; [|by apply Hth]. intros [= <-]. subst j.
    fold th k. split. exists m, own.
    destruct (serve_used_up globals r (thread_start k th)) as [[Ho1 Ho2] [Hd1 Hd2]]; [done..|].
    change (serve globals r (thread_start k th)) with (thread_run k th) in *.
    split; [|split].
    + split; simpl; [|done|by eapply os_inv_less|done| | |constructor|constructor].
      * split; [done|]. by destruct r.
      * intros i nd (_ & Hnd)%own_part_lookup.
        destruct (map_Forall2_lookup_r _ _ _ _ _ (tb_nodes _ _ _ _ _ _ _ _ Htab) Hnd) as (cs & ? & ?).
        by exists cs.
      * intros h f Hr (_ & Hf)%own_part_lookup. by eapply Hown.
    + split; [done|done|unfold os_now; by rewrite Ho2|unfold db_now; by rewrite Hd2].
    + by split.
  - intros j thj. rewrite lookup_insert. case_decide as Hj.
    + intros _. subst j. destruct (Hnx k) as [? ?]; [done|]. split; [lia|done].
    + intros Hj'. destruct (Hid _ _ Hj') as (? & ? & ?). split; [lia|done].
  - assert (∀ j thj i, pl_threads p !! j = Some thj → req_node (th_req thj) = Some i →
      req_node r ≠ Some i) as Hother.
    { intros j thj i Hj Hi Hr. destruct (map_Forall_lookup_1 _ _ _ _ Hapart Hj) as [Hne _].
      by apply (Hne i). }
    intros k1 k2 th1 th2 i. rewrite !lookup_insert. repeat case_decide; subst; try done.
    + intros [= <-] H2' Hr1 Hr2. by destruct (Hother _ _ _ H2' Hr2).
    + intros H1' [= <-] Hr1 Hr2. by destruct (Hother _ _ _ H1' Hr1).
    + apply Hap.
Qed.

(** ** A request makes a call *)

Lemma thread_moves Σ x x' d d' ns fs k th :
  (∀ pinned, owns pinned th ns fs → rely pinned k x x') → db_grows d d' →
  thread_ok Σ x d ns fs k th → thread_ok Σ x' d' ns fs k th.
Proof.
  intros Hx Hd [(m & pinned & Hb & [? ? Ho Hdb] & Hown)]. split. exists m, pinned.
  split; [done|]. split; [|done]. split; [done|done|by etrans; [|apply Hx]|by etrans].
Qed.

(** The call of the request that waits for the kernel. *)
Lemma os_call_ok Σ x d ns fs k th :
  os_waits (thread_run k th).2 = true → thread_ok Σ x d ns fs k th →
  let th' := tell_os x (os_now (thread_run k th).2) th in
  let x' := os_now (thread_run k th').2 in
  guar k x x' ∧ thread_ok Σ x' d ns fs k th'.
Proof.
  intros Hwait [(m & pinned & Hb & [Hc1 Hc2 Ho Hdb] & Hown)] th' x'.
  set (now := os_now (thread_run k th).2) in *.
  destruct (replay_os globals (th_req th) (now, x) (thread_start k th)) as (Hc & Hl & Hc' & Hn'); [done..|].
  change (serve globals (th_req th) (session_tell_os (now, x) (thread_start k th)))
    with (thread_run k th') in *.
  change (serve globals (th_req th) (thread_start k th)) with (thread_run k th) in *.
  assert (began m pinned Σ k th') as Hb'.
  { destruct Hb. split; try done. simpl. by rewrite Forall_app, Forall_singleton. }
  destruct (began_good _ _ _ _ _ Hb') as [Hlog _].
  rewrite Hl, Forall_app, Forall_singleton in Hlog. destruct Hlog as [_ Hguar].
  change (guar k (move (now, x) now) x') in Hguar. unfold move in Hguar. simpl in Hguar.
  rewrite decide_True in Hguar by done. split; [done|]. split. exists m, pinned.
  split; [done|]. split; [|by destruct Hown]. split; [done|done|done|].
  unfold db_now in *. by rewrite Hn'.
Qed.

(** The call of the request that waits for the database. *)
Lemma db_call_ok Σ x d ns fs k th :
  db_waits (thread_run k th).2 = true → thread_ok Σ x d ns fs k th →
  let th' := tell_db d (db_now (thread_run k th).2) th in
  let d' := db_now (thread_run k th').2 in
  db_grows d d' ∧ thread_ok Σ x d' ns fs k th'.
Proof.
  intros Hwait [(m & pinned & Hb & [Hc1 Hc2 Ho Hdb] & Hown)] th' d'.
  set (now := db_now (thread_run k th).2) in *.
  destruct (replay_db globals (th_req th) (now, d) (thread_start k th)) as (Hc & Hl & Hc' & Hn'); [done..|].
  change (serve globals (th_req th) (session_tell_db (now, d) (thread_start k th)))
    with (thread_run k th') in *.
  change (serve globals (th_req th) (thread_start k th)) with (thread_run k th) in *.
  assert (began m pinned Σ k th') as Hb'.
  { destruct Hb. split; try done. simpl. by rewrite Forall_app, Forall_singleton. }
  destruct (began_good _ _ _ _ _ Hb') as [_ Hlog].
  rewrite Hl, Forall_app, Forall_singleton in Hlog. destruct Hlog as [_ Hguar].
  change (db_grows (move (now, d) now) d') in Hguar. unfold move in Hguar. simpl in Hguar.
  rewrite decide_True in Hguar by done. split; [done|]. split. exists m, pinned.
  split; [done|]. split; [|by destruct Hown]. split; [done|done| |done].
  unfold os_now in *. by rewrite Hn'.
Qed.

(** One thread has been replaced by one with the same request, and the world has moved on. *)
Lemma flight_call m m' pinned Σ p k th th' w :
  flight_ok m pinned Σ p → pl_threads p !! k = Some th → th_req th' = th_req th →
  stats_wf (w_stats w) → os_inv pinned (the_os w) → le m m' →
  db_ok tree rr m' (db_rows (the_db w)) →
  thread_ok Σ (the_os w) (the_db w) (pl_nodes p) (pl_files p) k th' →
  (∀ j pinned, j ≠ k → rely pinned j (the_os (pl_world p)) (the_os w)) →
  db_grows (the_db (pl_world p)) (the_db w) →
  flight_ok m' pinned Σ (set_pl_threads (<[k := th']> (pl_threads p)) (set_pl_world w p)).
Proof.
  intros [_ _ _ Htab Hnx Hth Hid Hap] Hk Hreq Hst Hos Hle Hdb Hok Hrely Hgrows.
  split; simpl; [done|done|done|by eapply tables_grown|done| | |].
  - intros j thj. rewrite lookup_insert. case_decide as Hj; [intros [= <-]; by subst|].
    intros Hjp. eapply thread_moves; [|done|by apply Hth]. intros own _. by apply Hrely.
  - intros j thj. rewrite lookup_insert. case_decide as Hj; [|by apply Hid].
    intros _. subst j. by eapply Hid.
  - intros k1 k2 th1 th2 i. rewrite !lookup_insert.
    repeat case_decide; subst; try done; intros H1' H2'; simplify_eq; rewrite ?Hreq; intros Hr1 Hr2;
      by eapply Hap.
Qed.

Lemma call_ok m pinned Σ p k :
  flight_ok m pinned Σ p → ∃ m', flight_ok m' pinned Σ (pool_call globals k p).
Proof.
  intros Hp. unfold pool_call. destruct (pl_threads p !! k) as [th|] eqn:Hk; [|by exists m].
  pose proof (fo_threads _ _ _ _ Hp _ _ Hk) as Hok. cbv zeta.
  destruct (os_waits _) eqn:Hwo; [|destruct (db_waits _) eqn:Hwd; [|by exists m]].
  - destruct (os_call_ok _ _ _ _ _ _ _ Hwo Hok) as [Hguar Hok'].
    destruct (Hguar pinned (fo_os _ _ _ _ Hp)) as [Hinv _]. exists m.
    eapply flight_call; try done; [apply Hp|apply Hp|].
    intros j own Hj. by eapply guar_rely; [|exact Hguar].
  - destruct (db_call_ok _ _ _ _ _ _ _ Hwd Hok) as [Hgrows Hok'].
    destruct (Hgrows m (fo_db _ _ _ _ Hp)) as (m' & Hle & Hm'). exists m'.
    eapply flight_call; try done; [apply Hp|apply Hp].
Qed.

(** ** A request is answered *)

(** A read that does not return is one that still waits for its turn. *)
Lemma read_waits h size off (t : Session (Shared (Tagged OS)) (Shared DB)) :
  (serve globals (ReqRead h size off) t).1 = OutOfFuel →
  sh_waiting (the_os (ss_world (serve globals (ReqRead h size off) t).2)) = true.
Proof.
  destruct (handle_halts (OS := Shared T) (DB := Shared DB) (λ s, sh_waiting s = true) (λ _, True)
    (λ _, False) shared_kernel_ends size off) as [Hr _].
  cbn [serve]. unfold on_handle, mbind, go_mbind, go_bind. destruct (ss_files t !! h) as [f|]; [|done].
  destruct (Hr (f, ss_world t) I) as [Hs _].
  destruct (openFile_Read size off (f, ss_world t)) as [[] [f' w']]; try done.
  intros _. by destruct (Hs eq_refl).
Qed.

(** The descriptors that request [k] has opened on contents. *)
Definition shown (k : nat) (x : T) (f : File) (c : bytes) : Prop := shows k (f_fd f) c x.

Lemma shown_unpinned pinned k x f c : os_inv pinned x → shown k x f c → pinned !! f_fd f = None.
Proof.
  intros Hx [Ho _]. destruct (pinned !! f_fd f) as [c'|] eqn:Hpin; [|done].
  pose proof (oi_pinned _ _ _ _ _ Hx _ _ Hpin) as Hn. unfold own_fd in Ho. congruence.
Qed.

(** What holds for the state a request left holds for the present one. *)
Lemma thread_effect m pinned Σ p k th :
  flight_ok m pinned Σ p → pl_threads p !! k = Some th →
  ∃ eff, effect_ok globals tree rr m k (shown k (the_os (pl_world p))) Σ (th_req th) (thread_run k th).1 eff ∧
    ss_nodes (thread_run k th).2 = eff_nodes eff k (th_nodes th) ∧
    ss_files (thread_run k th).2 = eff_files eff k (th_files th).
Proof.
  intros Hp Hk. destruct (fo_threads _ _ _ _ Hp _ _ Hk) as [(m0 & own & Hb & [_ _ Hrely Hgrows] & _)].
  destruct (began_effected _ _ _ _ _ Hb) as (_ & m' & eff & _ & [Ho [Hd _]] & Heff & Hn & Hf & _).
  exists eff. split; [|done]. destruct Ho as ([_ Hinv] & _ & _).
  destruct (Hgrows m' Hd) as (m2 & Hle & Hm2).
  assert (m2 = m) as -> by (eapply table_repr_inj; [apply Hm2|apply (fo_db _ _ _ _ Hp)]).
  eapply effect_mono; [exact Hle| | | |exact Heff]; [|done..].
  intros f c Hsh. destruct (Hrely Hinv) as [_ Hch]. exact (stable_shows rs k (f_fd f) c _ _ Hch Hsh).
Qed.

Lemma thread_hangs k th :
  (∀ h, th_req th ≠ ReqRelease h) → thread_done globals k th = true → (thread_run k th).1 = OutOfFuel →
  is_Some (req_node (th_req th)).
Proof.
  intros Hrel Hdone Ho. unfold thread_done in Hdone. apply andb_true_iff in Hdone as [Hw _].
  destruct (th_req th) as [i|i name|i|i|i|h size off|h|i] eqn:Hr; try by eexists.
  - unfold Pool.thread_run, os_waits in *. rewrite Hr in *. apply read_waits in Ho. by rewrite Ho in Hw.
  - by destruct (Hrel h).
Qed.

(** The requests in flight do not notice a change of the rest of the tables. *)
Lemma thread_ok_tables Σ Σ' x d ns ns' fs fs' k th :
  (∀ i, req_node (th_req th) = Some i → ns' !! i = ns !! i ∧ sp_nodes Σ' !! i = sp_nodes Σ !! i) →
  (∀ h, req_handle (th_req th) = Some h → fs' !! h = fs !! h ∧ sp_handles Σ' !! h = sp_handles Σ !! h) →
  thread_ok Σ x d ns fs k th → thread_ok Σ' x d ns' fs' k th.
Proof.
  intros Hn Hf [(m & own & Hb & Hmv & [Hon Hof Hin Hih Hpins])]. split. exists m, own. split; [|split; [done|]].
  - destruct Hb as [? ? ? ? Hbn Hbf ? ?]. split; try done.
    + intros i nd Hi. destruct (Hn i) as [_ ->]; [|by apply Hbn].
      rewrite Hon in Hi. by apply own_part_lookup in Hi as [? _].
    + intros h f Hh Hfh. destruct (Hf h Hh) as [_ ->]. by apply Hbf.
  - split.
    + rewrite Hon. symmetry. apply own_part_ext. intros i Hi. by apply Hn.
    + rewrite Hof. symmetry. apply own_part_ext. intros h Hh. by apply Hf.
    + intros i Hi. destruct (Hn i Hi) as [-> _]. by apply Hin.
    + intros h Hh. destruct (Hf h Hh) as [-> _]. by apply Hih.
    + intros fd Hfd. destruct (Hpins fd Hfd) as (h & f & rd & Hh & Hfh & ?). exists h, f, rd.
      destruct (Hf h Hh) as [-> _]. done.
Qed.

Lemma untag_inv pinned k x : os_inv pinned x → os_inv pinned (untag k x).
Proof.
  intros [? Hfds Hpin Htmp]. split; simpl; [done|..].
  - intros fd i [Hfd _]%map_lookup_filter_Some. by eapply Hfds.
  - intros fd c Hfd. apply map_lookup_filter_None. left. by eapply Hpin.
  - intros q i [Hq _]%map_lookup_filter_Some. by eapply Htmp.
Qed.

Lemma untag_rely pinned j k x : j ≠ k → rely pinned j x (untag k x).
Proof.
  intros Hjk Hx. split; [by apply untag_inv|]. split; simpl; try done.
  - intros fd i -> Hfd. by apply map_lookup_filter_Some.
  - intros q i -> Hq. by apply map_lookup_filter_Some.
Qed.

(** The descriptors that have come to be pinned belong to nobody any more. *)
Lemma untag_pins pinned pinned' k x :
  os_inv pinned x → pins_added (shown k x) pinned pinned' → os_inv pinned' (untag k x).
Proof.
  intros Hx [_ Hadd]. pose proof (untag_inv _ k _ Hx) as [[[Ht Hp] Hc] Hf Hn Htm].
  split; [|done| |done].
  - split; [|done]. split; [done|]. apply map_subseteq_spec. intros fd c Hfd.
    destruct (Hadd _ _ Hfd) as [Hold|(f & <- & _ & Him)]; [by eapply lookup_weaken|done].
  - intros fd c Hfd. destruct (Hadd _ _ Hfd) as [Hold|(f & <- & Ho & _)]; [by eapply Hn|].
    simpl. apply map_lookup_filter_None. right. intros i Hi Hne. unfold own_fd in Ho. simpl in *. congruence.
Qed.
End proofs.

(** * What a pool sees of the database *)

(** When all requests see only databases with [I], they leave only such ones. *)
Section pool_keeps.
Context {OS DB : Type} `{Kernel OS, SqlEngine DB, !Fuel, EqDecision OS, EqDecision DB} (I : DB → Prop).
Context (exec_keeps : ∀ st d, I d → I (db_exec st d).2) (query_keeps : ∀ q d, I d → I (db_query q d).2).

Definition thread_sees (th : Thread OS DB) : Prop :=
  I (c_db (w_conn (th_world th))) ∧ Forall (λ gap, I gap.2) (th_db_moves th).

Lemma thread_keeps globals k th : thread_sees th → I (db_now (thread_run globals k th).2).
Proof.
  intros Hth. apply (serve_keeps (only_sees I)).
  - intros st d. apply sh_call_keeps. intros _. apply exec_keeps.
  - intros q d. apply sh_call_keeps. intros _. apply query_keeps.
  - exact Hth.
Qed.

(** Everything a pool knows of the database has [I]. *)
Definition pool_sees (p : Pool OS DB) : Prop :=
  I (c_db (w_conn (pl_world p))) ∧ map_Forall (λ _ th, thread_sees th) (pl_threads p).

Lemma pool_call_keeps globals k p : pool_sees p → pool_sees (pool_call globals k p).
Proof.
  intros [Hd Hth]. unfold pool_call. destruct (pl_threads p !! k) as [th|] eqn:Hk; [|done].
  destruct (map_Forall_lookup_1 _ _ _ _ Hth Hk) as [Hw Hm].
  destruct (os_waits _); [|destruct (db_waits _); [|done]].
  - split; [done|]. by apply map_Forall_insert_2.
  - assert (thread_sees (tell_db (c_db (w_conn (pl_world p))) (db_now (thread_run globals k th).2) th))
      as Hth' by (split; [done|]; apply Forall_app; by repeat constructor).
    split; [by apply thread_keeps|]. by apply map_Forall_insert_2.
Qed.

Lemma take_turn_keeps globals t p evs p' :
  take_turn globals t p = Some (evs, p') → pool_sees p → pool_sees p'.
Proof.
  intros E Hp. pose proof Hp as [Hd Hth]. destruct t as [r|k|k st rt|r]; simpl in E.
  - destruct (decide _); [|done]. injection E as <- <-. split; [done|].
    apply map_Forall_insert_2; [|done]. by split.
  - injection E as <- <-. by apply pool_call_keeps.
  - destruct (pl_threads p !! k) as [th|]; [|done]. simpl in E. destruct (thread_done globals k th); [|done].
    injection E as <- <-. split; [done|]. by apply map_Forall_delete.
  - destruct (decide _); [|done].
    pose proof (serve_keeps I exec_keeps query_keeps globals r (pool_session p) Hd) as Hs.
    destruct (serve globals r (pool_session p)) as [o s]. injection E as <- <-. by split.
Qed.
End pool_keeps.
