(* ===== verification/PoolTheorems.v ===== *)
(** Requests that are served at the same time: every interleaving of their calls is answered as
    the abstract file system answers the requests one after the other. *)
From S2P Require Import Prelude GoStrings GoPath Stats Types DirEntries Sql Sqlite Kernel.
From S2P Require Import Syscalls Metadata MetadataSpec MetadataProps WorldPost Md5 Content.
From S2P Require Import ContentProps Fs FsLogic FsProps Remote Coherence Growth HandlerLogic.
From S2P Require Import Served NodeServed Session Requests Simulation SessionProofs Scenario.
From S2P Require Import SessionTheorems Shared Descriptors SharedOs FsTermination Pool PoolProofs.
#[local] Open Scope Z_scope.

#[local] Arguments Join : simpl never.

Lemma spec_run_app tree rr Σ tr Σ1 tr' Σ2 :
  spec_run tree rr Σ tr Σ1 → spec_run tree rr Σ1 tr' Σ2 → spec_run tree rr Σ (tr ++ tr') Σ2.
Proof.
  intros H1 H2. induction H2 as [Σ1|Σ1 tr' Σ2 ev Σ3 H2 IH Hstep]; [by rewrite app_nil_r|].
  rewrite app_assoc. eapply spec_snoc; [by apply IH|done].
Qed.

Lemma spec_run_cons tree rr Σ ev Σ1 tr Σ2 :
  spec_step tree rr Σ ev Σ1 → spec_run tree rr Σ1 tr Σ2 → spec_run tree rr Σ (ev :: tr) Σ2.
Proof.
  intros Hstep Hrun. induction Hrun as [Σ1|Σ1 tr Σ2 ev' Σ3 Hrun IH Hstep'].
  - apply (spec_snoc _ _ Σ [] Σ ev Σ1); [constructor|done].
  - rewrite app_comm_cons. eapply spec_snoc; [by apply IH|done].
Qed.

(** * The steps of a pool *)

Section steps.
Context {OS DB : Type} `{KernelLaws OS, !RemoteView OS, !RemoteLaws OS, !DescriptorView OS,
  !DescriptorLaws OS, SqlLaws DB, !Fuel, EqDecision OS, EqDecision DB}.
Context (globals : globalState) (rs : list string) (tree : string → option rnode)
  (rr : list string) (known : bytes → Prop).
Context (Hsetup : setup_ok (OS := OS) globals rs tree rr known).
Abbreviation the_os w := (w_os w).
Abbreviation the_db w := (c_db (w_conn w)).
Abbreviation refines := (refines globals rs tree rr known).
Abbreviation flight_ok := (flight_ok globals rs tree rr known).
Abbreviation thread_ok := (thread_ok globals rs tree rr known).
Abbreviation os_inv := (os_inv rs tree known).
Implicit Types (p : Pool OS DB) (th : Thread OS DB).

(** What a request in flight knows of the tables. *)
Lemma flight_owns m pinned Σ p j th :
  flight_ok m pinned Σ p → pl_threads p !! j = Some th →
  (∀ i, req_node (th_req th) = Some i → is_Some (pl_nodes p !! i)) ∧
  (∀ h, req_handle (th_req th) = Some h → is_Some (pl_files p !! h)) ∧
  request_ok (th_req th) ∧ (∀ h, th_req th ≠ ReqRelease h) ∧
  th_nodes th = own_part (req_node (th_req th)) (pl_nodes p) ∧
  th_files th = own_part (req_handle (th_req th)) (pl_files p).
Proof.
  intros Hp Hj. destruct (fo_threads _ _ _ _ _ _ _ _ _ Hp _ _ Hj) as [(m0 & own & Hb & _ & Hown)].
  destruct Hown. by destruct (bg_request _ _ _ _ _ _ _ _ _ _ Hb).
Qed.

(** The tables when request [k] is put back. *)
Lemma finish_tables m pinned Σ p k th eff :
  flight_ok m pinned Σ p → pl_threads p !! k = Some th →
  effect_ok globals tree rr m k (shown k (the_os (pl_world p))) Σ (th_req th) (thread_run globals k th).1 eff →
  ss_nodes (thread_run globals k th).2 = eff_nodes eff k (th_nodes th) →
  ss_files (thread_run globals k th).2 = eff_files eff k (th_files th) →
  ss_nodes (thread_run globals k th).2 ∪ (pl_nodes p ∖ th_nodes th) = eff_nodes eff k (pl_nodes p) ∧
  ss_files (thread_run globals k th).2 ∪ (pl_files p ∖ th_files th) = eff_files eff k (pl_files p).
Proof.
  intros Hp Hk Heff -> ->. destruct (flight_owns _ _ _ _ _ _ Hp Hk) as (Hn & _ & _ & _ & -> & ->).
  split; [|by apply merge_files, own_part_subseteq].
  eapply merge_nodes; [exact Heff|apply own_part_subseteq|]. intros i Hr _.
  destruct (Hn i Hr) as [x Hx]. rewrite Hr, (own_part_some i _ x Hx). by eexists.
Qed.

Lemma finish_ok m pinned Σ p k th st rt :
  flight_ok m pinned Σ p → pl_threads p !! k = Some th → thread_done globals k th = true →
  stats_wf st →
  ∃ Σ' pinned', spec_step tree rr Σ (EvServe (th_req th) (thread_run globals k th).1) Σ' ∧
    flight_ok m pinned' Σ' (finish globals k th st rt p).
Proof.
  intros Hp Hk Hdone Hst. destruct (thread_effect _ _ _ _ _ Hsetup m pinned Σ p k th Hp Hk) as (eff & Heff & En & Ef).
  destruct (finish_tables _ _ _ _ _ _ _ Hp Hk Heff En Ef) as [En' Ef'].
  destruct (flight_owns _ _ _ _ _ _ Hp Hk) as (Hkn & Hkh & _ & Hrel & _ & _).
  pose proof Hp as [_ Hos Hdb Htab Hnx Hth Hid Hap]. destruct (Hid _ _ Hk) as (Hlt & Hid1 & Hid2).
  destruct (commit globals tree rr m m _ pinned Σ (pl_nodes p) (pl_files p) k
    (shown k (the_os (pl_world p))) (th_req th) (thread_run globals k th).1 eff Htab Hid1 Hid2
    (reflexivity m) (proj1 Hdb)) as (Σ' & pinned' & Hstep & _ & Htab' & Hpins & Hsn & Hsh);
    [intros f c; by eapply shown_unpinned|by eapply thread_hangs|done|done|].
  exists Σ', pinned'. split; [done|].
  assert (∀ j thj i, pl_threads p !! j = Some thj → j ≠ k → req_node (th_req thj) = Some i →
    i ≠ k ∧ req_node (th_req th) ≠ Some i) as Hother.
  { intros j thj i Hj Hjk Hr. destruct (flight_owns _ _ _ _ _ _ Hp Hj) as (Hn & _).
    destruct (Hn i Hr). split; [congruence|]. intros Hri. apply Hjk. by eapply Hap. }
  unfold finish. rewrite En', Ef'. split; simpl; [done|by eapply untag_pins|done|done| | | |].
  - intros i Hi. destruct (Hnx i Hi) as [Hi1 Hi2]. rewrite eff_files_other by lia. split; [|done].
    erewrite eff_nodes_other; [done|exact Heff| |lia]. intros Hr. destruct (Hkn i Hr). congruence.
  - intros j thj [Hj Hjp]%lookup_delete_Some. destruct (flight_owns _ _ _ _ _ _ Hp Hjp) as (Hn & Hh & _).
    eapply thread_moves; [|done|].
    + intros own _. by apply untag_rely.
    + eapply thread_ok_tables; [| |by apply Hth].
      * intros i Hr. destruct (Hother j thj i) as [Hik Hne]; [done..|]. split; [|by apply Hsn].
        by eapply eff_nodes_other.
      * intros h Hr. assert (h ≠ k) as Hhk by (intros ->; destruct (Hh k Hr); congruence).
        split; [by apply eff_files_other|by apply Hsh].
  - intros j thj [Hj Hjp]%lookup_delete_Some. destruct (Hid _ _ Hjp) as (? & ? & ?).
    split; [done|]. rewrite eff_files_other by done. split; [|done].
    erewrite eff_nodes_other; [done|exact Heff| |done]. intros Hr. destruct (Hkn j Hr). congruence.
  - intros k1 k2 th1 th2 i [_ H1']%lookup_delete_Some [_ H2']%lookup_delete_Some. by eapply Hap.
Qed.

(** ** Brief requests *)

(** Closing a descriptor that is pinned for one handle only. *)
Lemma close_inv own f (x : Tagged OS) :
  own !! f_fd f = None → os_inv own x → os_inv own (set_tg_os (file_Close f (tg_os x)).2 x).
Proof.
  intros Hown [[Hp Hc] Hf Hn Htm]. pose proof (Close_spec f (tg_os x)) as Hspec.
  pose proof (pins_call tree own (file_Close f) (KClose f) (tg_os x)) as Hpins.
  pose proof (λ fd, used_kept (KClose f) (tg_os x) fd) as Hused.
  pose proof (λ q, drawn_kept (KClose f) (tg_os x) q) as Hdrawn. simpl in Hused, Hdrawn.
  simpl in Hused, Hdrawn.
  assert (pins tree own (file_Close f (tg_os x)).2) as Hp'.
  { apply Hpins; [intros; simpl; by rewrite ?dropped_state|by intros fd [= <-]|done]. }
  destruct (file_Close f (tg_os x)) as [o s']. destruct Hspec as [_ Hloc]. simpl in *.
  split; simpl; [|by eauto|done|].
  - split; [done|]. by rewrite Hloc.
  - intros q i Hq. destruct (Htm _ _ Hq). split; [by apply Hdrawn|done].
Qed.

Lemma close_rely own j f (x : Tagged OS) :
  own !! f_fd f = None → tg_fds x !! f_fd f = None →
  rely rs tree known own j x (set_tg_os (file_Close f (tg_os x)).2 x).
Proof.
  intros Hown Hfree Hx. split; [by apply close_inv|].
  pose proof (Close_spec f (tg_os x)) as Hspec.
  pose proof (λ fd, handle_kept (KClose f) (tg_os x) fd) as Hh. simpl in Hh.
  destruct (file_Close f (tg_os x)) as [o s']. destruct Hspec as [_ Hloc]. simpl in *.
  split; simpl; [done|done| |by rewrite Hloc|by rewrite Hloc].
  intros fd i -> Hfd. apply Hh; [by eapply oi_fds|]. intros [= Heq]. congruence.
Qed.

(** What releasing a handle does. *)
Lemma release_run (s : Session OS DB) h :
  stats_wf (w_stats (ss_world s)) →
  (∀ f, ss_files s !! h = Some f → ∃ rd, of_reader f = Some rd ∧ tr_domain rd = LocalDomain) →
  let '(o, s') := serve globals (ReqRelease h) s in
  stats_wf (w_stats (ss_world s')) ∧ w_conn (ss_world s') = w_conn (ss_world s) ∧
  ss_nodes s' = ss_nodes s ∧ ss_files s' = delete h (ss_files s) ∧ ss_next s' = ss_next s ∧
  (o = Ret RepDone ∨ ∃ e, o = Err e) ∧
  ((ss_files s !! h = None ∧ the_os (ss_world s') = the_os (ss_world s)) ∨
   ∃ f rd, ss_files s !! h = Some f ∧ of_reader f = Some rd ∧
     the_os (ss_world s') = (file_Close (tr_file rd) (the_os (ss_world s))).2).
Proof.
  intros Hst Hrd. cbn [serve]. unfold on_handle, mbind, go_mbind, go_bind, go_try.
  destruct (ss_files s !! h) as [f|] eqn:Hf.
  - destruct (Hrd f eq_refl) as (rd & Hr & Hdom).
    unfold openFile_Release, get_node, on_node, on_world, tr_Close, set_node, on_os, on_stats, mbind,
      go_mbind, go_bind, go_zoom, go_get, go_put. simpl. rewrite Hr. simpl.
    destruct (account_bumped {| ev_counter := COs (tr_domain rd) CloseOsOp; ev_amount := 0 |}
      (w_stats (ss_world s)) Hst) as (st & Hev & Hb); [split; [rewrite Hdom; by left|in_ops]|].
    apply bumped_wf in Hb; [|done]. unfold on_stats, go_zoom. simpl.
    change (AccountOsOp (tr_domain rd) CloseOsOp (w_stats (ss_world s)) = (Ret (), st)) in Hev.
    rewrite Hev. simpl.
    pose proof (Close_spec (tr_file rd) (the_os (ss_world s))) as Hspec.
    destruct (file_Close (tr_file rd) (the_os (ss_world s))) as [[[]|e| | |] x] eqn:Ec;
      destruct Hspec as [Ha _]; simpl in *; try done; rewrite delete_insert_eq;
      (split_and!; [done..|by eauto|right; exists f, rd; by rewrite Ec]).
  - simpl. split_and!; eauto.
Qed.

(** What is left of the pins after a release, and that the requests in flight do not rely on what
    has gone. *)
Lemma release_pins m pinned Σ p h x :
  flight_ok m pinned Σ p → apart p (ReqRelease h) →
  ((pl_files p !! h = None ∧ x = tg_os (the_os (pl_world p))) ∨
   ∃ f rd, pl_files p !! h = Some f ∧ of_reader f = Some rd ∧
     x = (file_Close (tr_file rd) (tg_os (the_os (pl_world p)))).2) →
  ∃ pinned', os_inv pinned' (set_tg_os x (the_os (pl_world p))) ∧
    tables_ok globals tree rr m pinned' (sp_del_handle h (with_inodes m Σ)) (pl_nodes p)
      (delete h (pl_files p)) ∧
    ∀ j thj own, pl_threads p !! j = Some thj → owns own thj (pl_nodes p) (pl_files p) →
      rely rs tree known own j (the_os (pl_world p)) (set_tg_os x (the_os (pl_world p))).
Proof.
  intros Hp Hapart Hx. pose proof Hp as [_ Hos _ Htab _ _ _ _].
  destruct Hx as [[Hnone ->]|(f & rd & Hfh & Hrd & ->)].
  - exists pinned.
    assert (set_tg_os (tg_os (the_os (pl_world p))) (the_os (pl_world p)) = the_os (pl_world p)) as ->
      by (by destruct (the_os (pl_world p))).
    split_and!; [done|by eapply tables_no_file|done].
  - destruct (map_Forall2_lookup_r _ _ _ _ _ (tb_files _ _ _ _ _ _ _ _ Htab) Hfh)
      as (c & _ & rd' & Hrd' & _ & Hpin). simplify_eq.
    exists (delete (f_fd (tr_file rd)) pinned). split_and!; [|by eapply tables_file_dropped|].
    + apply close_inv; [apply lookup_delete_eq|]. eapply os_inv_less; [apply delete_subseteq|done].
    + intros j thj own Hj Hown. apply close_rely; [|by eapply oi_pinned].
      destruct (own !! f_fd (tr_file rd)) as [c'|] eqn:E; [|done].
      destruct (ow_pins _ _ _ _ Hown (f_fd (tr_file rd))) as (h' & f' & rd'' & Hh' & Hf' & Hr' & Heq);
        [by eexists|].
      assert (h' = h) as -> by (by eapply (tb_fds _ _ _ _ _ _ _ _ Htab)).
      destruct (map_Forall_lookup_1 _ _ _ _ Hapart Hj) as [_ Hne]. by destruct (Hne h eq_refl).
Qed.

Lemma owns_less own th ns fs h :
  owns own th ns (delete h fs) → (∃ own', owns own' th ns fs) → owns own th ns fs.
Proof.
  intros [_ _ _ _ Hpo] [own' [? ? ? ? _]]. split; [done..|]. intros fd Hfd.
  destruct (Hpo fd Hfd) as (h' & f' & rd' & ? & (_ & ?)%lookup_delete_Some & ? & ?). by exists h', f', rd'.
Qed.

Lemma release_ok m pinned Σ p h o s' :
  flight_ok m pinned Σ p → apart p (ReqRelease h) →
  serve globals (ReqRelease h) (pool_session p) = (o, s') →
  ∃ Σ' pinned', spec_step tree rr Σ (EvServe (ReqRelease h) o) Σ' ∧ flight_ok m pinned' Σ' (resume s' p).
Proof.
  intros Hp Hapart Hserve. pose proof Hp as [Hst Hos Hdb Htab Hnx Hth Hid Hap].
  pose proof (release_run (pool_session p) h Hst) as Hrun. rewrite Hserve in Hrun. simpl in Hrun.
  destruct Hrun as (Hst' & Hc & Hn & Hf & Hnext & Ho & Hw).
  { intros f Hf. destruct (map_Forall2_lookup_r _ _ _ _ _ (tb_files _ _ _ _ _ _ _ _ Htab) Hf)
      as (c & _ & rd & ? & ? & _). by exists rd. }
  destruct (release_pins _ _ _ _ _ _ Hp Hapart Hw) as (pinned' & Hos' & Htab' & Hrely).
  exists (sp_del_handle h (with_inodes m Σ)), pinned'. split.
  { constructor; [|by apply ans_release; auto].
    eapply inodes_of_grow; [reflexivity|apply Hdb|apply Htab|done]. }
  split; simpl; rewrite ?Hn, ?Hf, ?Hnext, ?Hc; [done..|by apply fresh_dropped| | |done].
  - intros j thj Hj. eapply thread_moves; [|done|].
    + intros own Hown. eapply Hrely; [done|]. eapply owns_less; [done|].
      destruct (Hth _ _ Hj) as [(m0 & own0 & _ & _ & ?)]. by exists own0.
    + eapply (thread_ok_tables globals rs tree rr known Σ); [by intros i _| |by apply Hth]. intros h' Hh'.
      destruct (map_Forall_lookup_1 _ _ _ _ Hapart Hj) as [_ Hne]. specialize (Hne h eq_refl).
      simpl. rewrite !lookup_delete_ne by congruence. done.
  - intros j thj Hj. destruct (Hid _ _ Hj) as (? & ? & ?). rewrite lookup_delete_None. auto.
Qed.

Lemma forget_ok m pinned Σ p i :
  flight_ok m pinned Σ p → apart p (ReqForget i) →
  ∃ Σ', spec_step tree rr Σ (EvServe (ReqForget i) (Ret RepDone)) Σ' ∧
    flight_ok m pinned Σ' (resume (set_nodes (delete i (pl_nodes p)) (pool_session p)) p).
Proof.
  intros Hp Hapart. pose proof Hp as [Hst Hos Hdb Htab Hnx Hth Hid Hap].
  assert (∀ j thj i', pl_threads p !! j = Some thj → req_node (th_req thj) = Some i' → i ≠ i') as Hother.
  { intros j thj i' Hj Hi' ->. destruct (map_Forall_lookup_1 _ _ _ _ Hapart Hj) as [Hne _].
    by destruct (Hne i' eq_refl). }
  exists (spec_after m (pl_next p) (ReqForget i) (NodeLost i) [] Σ). split.
  { constructor; [|by apply ans_forget]. eapply inodes_of_grow; [reflexivity|apply Hdb|apply Htab|done]. }
  split; simpl; [done| |done|by eapply tables_node_lost| | | |done].
  - by destruct (the_os (pl_world p)).
  - intros j Hj. rewrite lookup_delete_None. destruct (Hnx j Hj). auto.
  - intros j thj Hj.
    assert (set_tg_os (tg_os (the_os (pl_world p))) (the_os (pl_world p)) = the_os (pl_world p)) as ->
      by (by destruct (the_os (pl_world p))).
    eapply (thread_ok_tables globals rs tree rr known Σ); [| |by apply Hth]; [|done].
    intros i' Hi'. simpl. rewrite !lookup_delete_ne by (by eapply Hother). done.
  - intros j thj Hj. destruct (Hid _ _ Hj) as (? & ? & ?). rewrite lookup_delete_None. auto.
Qed.

(** ** Mounting *)

(** What is on the disk at any moment is fit for another mount. *)
Lemma flight_disk m pinned Σ p :
  flight_ok m pinned Σ p → disk_ok rs tree rr known m (ss_world (pool_session p)).
Proof.
  intros Hp. split; [|apply (fo_db _ _ _ _ _ _ _ _ _ Hp)].
  destruct (oi_ok _ _ _ _ _ (fo_os _ _ _ _ _ _ _ _ _ Hp)) as [[Ht _] Hc].
  split; [|done]. split; [done|]. apply map_empty_subseteq.
Qed.

(** A session without requests in flight. *)
Lemma flight_session m pinned Σ p :
  flight_ok m pinned Σ p →
  session_ok globals rs tree rr known m pinned (with_inodes m Σ) (pool_session p).
Proof.
  intros [Hst Hos Hdb [? ? ? ? _] Hnx _ _ _]. split; [|by split|done|done].
  split; [done|by apply Hos|done].
Qed.
Lemma session_flight m pinned Σ s :
  session_ok globals rs tree rr known m pinned Σ s → flight_ok m pinned Σ (pool_of s).
Proof.
  intros [[Hst Hos Hdb] Htab Hnx _]. by split.
Qed.
End steps.

(** * Every interleaving *)

Section results.
Context {OS DB : Type} `{KernelLaws OS, !RemoteView OS, !RemoteLaws OS, !DescriptorView OS,
  !DescriptorLaws OS, SqlLaws DB, !Fuel, EqDecision OS, EqDecision DB}.
Context (globals : globalState) (rs : list string) (tree : string → option rnode)
  (rr : list string) (known : bytes → Prop).
Context (Hsetup : setup_ok (OS := OS) globals rs tree rr known).
Abbreviation W := (World OS DB).
Abbreviation refines := (refines globals rs tree rr known).
Abbreviation flight_ok := (flight_ok globals rs tree rr known).
Abbreviation pool_run := (pool_run globals (abs_path rr)).

Lemma pool_step_ok m pinned Σ p evs p' :
  pool_step globals (abs_path rr) p evs p' → flight_ok m pinned Σ p →
  ∃ m' pinned' Σ', spec_run tree rr Σ evs Σ' ∧ flight_ok m' pinned' Σ' p'.
Proof.
  assert (∀ ev Σ', spec_step tree rr Σ ev Σ' → spec_run tree rr Σ [ev] Σ') as Hone.
  { intros ev Σ' Hstep. eapply spec_run_cons; [done|constructor]. }
  intros Hstep Hp. destruct Hstep as [r Hreq Hb Hk Ha|k|k th st rt Hk Hdone Hst|r o s Hb Ha Ho|s Hm].
  - exists m, pinned, Σ. split; [constructor|by eapply arrive_ok].
  - destruct (call_ok globals rs tree rr known Hsetup m pinned Σ p k Hp) as [m' Hp'].
    exists m', pinned, Σ. by split; [constructor|].
  - destruct (finish_ok globals rs tree rr known Hsetup m pinned Σ p k th st rt)
      as (Σ' & pinned' & Hs & Hp'); [done..|]. exists m, pinned', Σ'. auto.
  - destruct r; try done.
    + destruct (release_ok globals rs tree rr known m pinned Σ p h o s) as (Σ' & pinned' & Hs & Hp');
        [done..|]. exists m, pinned', Σ'. auto.
    + injection Ho as <- <-. destruct (forget_ok globals rs tree rr known m pinned Σ p i) as (Σ' & Hs & Hp');
        [done..|]. exists m, pinned, Σ'. auto.
  - destruct (mount_ok globals rs tree rr known Hsetup m _ s (flight_disk globals rs tree rr known _ _ _ _ Hp) Hm)
      as (Σ' & Hg & Hn & Hh & m' & pinned' & Hs).
    exists m', pinned', Σ'. split; [|by apply session_flight]. apply Hone. constructor; [|done|done].
    eapply inodes_grow_trans; [|exact Hg].
    eapply inodes_of_grow; [reflexivity|apply (fo_db _ _ _ _ _ _ _ _ _ Hp)|
      apply (fo_tables _ _ _ _ _ _ _ _ _ Hp)|done].
Qed.

Lemma pool_run_flight m pinned Σ p tr p' :
  pool_run p tr p' → flight_ok m pinned Σ p →
  ∃ m' pinned' Σ', spec_run tree rr Σ tr Σ' ∧ flight_ok m' pinned' Σ' p'.
Proof.
  induction 1 as [p|p tr p1 evs p2 Hrun IH Hstep]; intros Hp; [exists m, pinned, Σ; by split; [constructor|]|].
  destruct (IH Hp) as (m1 & pinned1 & Σ1 & Hspec1 & Hp1).
  destruct (pool_step_ok _ _ _ _ _ _ Hstep Hp1) as (m2 & pinned2 & Σ2 & Hspec2 & Hp2).
  exists m2, pinned2, Σ2. split; [by eapply spec_run_app|done].
Qed.

Lemma mounted_flight m w s :
  disk_ok rs tree rr known m w → mount globals (abs_path rr) w = Ret s →
  ∃ m' pinned Σ, sp_nodes Σ = {[0%nat := []]} ∧ sp_handles Σ = ∅ ∧ inodes_of m ⊆ sp_inodes Σ ∧
    flight_ok m' pinned Σ (pool_of s).
Proof.
  intros Hd Hm. destruct (mount_ok globals rs tree rr known Hsetup m w s Hd Hm)
    as (Σ & [Hg _] & Hn & Hh & m' & pinned & Hs).
  exists m', pinned, Σ. split_and!; [done..|]. by apply session_flight.
Qed.

(** C2 (refinement).  Requests that are served at the same time are served correctly: after a
    mount on a good disk, whatever requests arrive while others are in flight, in every
    interleaving of their calls of the kernel and of the database, the answers, in the order in
    which they are given, are those of the abstract file system that serves one request after the
    other; processes may end and mounts follow at any moment; and when no request is in flight,
    the session is the abstract state reached. *)
Theorem interleavings_refine_tree (m : gmap string CachedRow) (w : W) (s0 : Session OS DB)
    (p : Pool OS DB) (tr : list event) :
  disk_ok rs tree rr known m w → mount globals (abs_path rr) w = Ret s0 →
  pool_run (pool_of s0) tr p →
  ∃ Σ0 Σ, sp_nodes Σ0 = {[0%nat := []]} ∧ sp_handles Σ0 = ∅ ∧ inodes_of m ⊆ sp_inodes Σ0 ∧
    spec_run tree rr Σ0 tr Σ ∧
    ∃ m', sp_inodes Σ ⊆ inodes_of m' ∧ refines (pool_session p) (with_inodes m' Σ).
Proof.
  intros Hd Hm Hrun.
  destruct (mounted_flight m w s0 Hd Hm) as (m0 & pinned0 & Σ0 & Hn & Hh & Hi & Hp0).
  destruct (pool_run_flight _ _ _ _ _ _ Hrun Hp0) as (m' & pinned & Σ & Hspec & Hp).
  exists Σ0, Σ. split_and!; [done..|]. exists m'. split; [apply (fo_tables _ _ _ _ _ _ _ _ _ Hp)|].
  exists m', pinned. by apply flight_session.
Qed.

(** C5 (safety).  At every moment of every interleaving no request has panicked or exited the
    process, and neither would a mount of what is on the disk at that moment. *)
Theorem no_interleaving_panics (m : gmap string CachedRow) (w : W) (s0 : Session OS DB)
    (p : Pool OS DB) (tr : list event) :
  disk_ok rs tree rr known m w → mount globals (abs_path rr) w = Ret s0 →
  pool_run (pool_of s0) tr p →
  map_Forall (λ k th, match (thread_run globals k th).1 with Panic _ | Fatal _ => False | _ => True end)
    (pl_threads p) ∧
  match mount globals (abs_path rr) (ss_world (pool_session p)) with
  | Panic _ | Fatal _ => False
  | _ => True
  end.
Proof.
  intros Hd Hm Hrun.
  destruct (mounted_flight m w s0 Hd Hm) as (m0 & pinned0 & Σ0 & _ & _ & _ & Hp0).
  destruct (pool_run_flight _ _ _ _ _ _ Hrun Hp0) as (m' & pinned & Σ & _ & Hp). split.
  - intros k th Hk. destruct (thread_effect _ _ _ _ _ Hsetup _ _ _ _ _ _ Hp Hk) as (eff & Heff & _).
    by destruct Heff.
  - eapply (mount_fails_cleanly globals rs tree rr known Hsetup m'). by eapply flight_disk.
Qed.
End results.

(** * On a concrete installation *)

(** SQLite's result code for a violated constraint. *)
Definition ErrConstraint : Z := 19.

(** A request that is served while no other is in flight. *)
Definition answered (k : nat) : Turn := Answered k NewStats sample_runtime.
Definition undisturbed (k : nat) (r : Request) : list Turn :=
  Arrives r :: repeat (Calls k) 30 ++ [answered k].
Definition start_pool : Pool MemOs MemDb := pool_of (start cached_globals).

(** Two nodes for one directory, a node for a file; then lookups of the same name in both nodes of
    the directory while the file is fetched and opened, attributes of the node found meanwhile,
    and a read. *)
Definition busy_turns : list Turn :=
  undisturbed 1 (ReqLookup 0 "d") ++ undisturbed 2 (ReqLookup 0 "d") ++
  undisturbed 3 (ReqLookup 0 "a") ++
  [Arrives (ReqLookup 1 "b"); Arrives (ReqLookup 2 "b"); Arrives (ReqOpen 3)] ++
  concat (repeat [Calls 4; Calls 5; Calls 6] 8) ++
  [answered 4; Arrives (ReqAttr 4); answered 5; Calls 7; Calls 7] ++ repeat (Calls 6) 10 ++
  [answered 6; answered 7] ++ undisturbed 8 (ReqRead 6 3 1).

Lemma busy_turns_ok : Forall turn_ok busy_turns.
Proof.
  unfold busy_turns, undisturbed, answered. cbn [app repeat concat].
  repeat (constructor; [first [exact NewStats_wf|exact I|done|simpl; lia]|]). constructor.
Qed.

(** The second lookup to insert the name fails. *)
Definition busy_trace : list event :=
  [EvServe (ReqLookup 0 "d") (Ret (RepNode 1)); EvServe (ReqLookup 0 "d") (Ret (RepNode 2));
   EvServe (ReqLookup 0 "a") (Ret (RepNode 3)); EvServe (ReqLookup 1 "b") (Ret (RepNode 4));
   EvServe (ReqLookup 2 "b") (Err (ESqlite ErrConstraint)); EvServe (ReqOpen 3) (Ret (RepHandle 6));
   EvServe (ReqAttr 4) (Ret (RepAttr (attr_of 4 (sub_file_info))));
   EvServe (ReqRead 6 3 1) (Ret (RepData (String.list_ascii_of_string "ell")))].

Definition busy_pool : Pool MemOs MemDb :=
  match drive cached_globals busy_turns start_pool with Some (_, p) => p | None => start_pool end.

Lemma busy_drive : drive cached_globals busy_turns start_pool = Some (busy_trace, busy_pool).
Proof. vm_compute. reflexivity. Qed.

Lemma interleavings_refine_tree_witness :
  ∃ Σ0 Σ, sp_nodes Σ0 = {[0%nat := []]} ∧ sp_handles Σ0 = ∅ ∧ inodes_of ∅ ⊆ sp_inodes Σ0 ∧
    spec_run scenario_tree ["r"] Σ0 busy_trace Σ ∧
    ∃ m', sp_inodes Σ ⊆ inodes_of m' ∧
      SessionProofs.refines cached_globals ["cache"] scenario_tree ["r"] scenario_known
        (pool_session busy_pool) (with_inodes m' Σ).
Proof.
  exact (interleavings_refine_tree cached_globals ["cache"] scenario_tree ["r"] scenario_known
    (scenario_setup cached_globals eq_refl) ∅ scenario_world (start cached_globals) busy_pool busy_trace
    scenario_disk cached_mounts (drive_run cached_globals "/r" _ _ _ _ busy_turns_ok busy_drive)).
Defined.

(** The same with the requests in the middle of their calls. *)
Definition midway_turns : list Turn := take 105 busy_turns.
Definition midway_trace : list event := take 3 busy_trace.
Definition midway_pool : Pool MemOs MemDb :=
  match drive cached_globals midway_turns start_pool with Some (_, p) => p | None => start_pool end.
Lemma midway_drive : drive cached_globals midway_turns start_pool = Some (midway_trace, midway_pool).
Proof. vm_compute. reflexivity. Qed.

Lemma no_interleaving_panics_witness :
  size (pl_threads midway_pool) = 3%nat ∧
  map_Forall (λ k th, match (thread_run cached_globals k th).1 with Panic _ | Fatal _ => False | _ => True end)
    (pl_threads midway_pool) ∧
  match mount cached_globals (abs_path ["r"]) (ss_world (pool_session midway_pool)) with
  | Panic _ | Fatal _ => False
  | _ => True
  end.
Proof.
  split; [by vm_compute|].
  exact (no_interleaving_panics cached_globals ["cache"] scenario_tree ["r"] scenario_known
    (scenario_setup cached_globals eq_refl) ∅ scenario_world (start cached_globals) midway_pool midway_trace
    scenario_disk cached_mounts
    (drive_run cached_globals "/r" _ _ _ _ (Forall_take _ _ _ busy_turns_ok) midway_drive)).
Defined.

Definition lookups_twice : list Turn :=
  undisturbed 1 (ReqLookup 0 "d") ++ undisturbed 2 (ReqLookup 0 "d").
Definition race_turns : list Turn :=
  lookups_twice ++ [Arrives (ReqLookup 1 "b"); Arrives (ReqLookup 2 "b")] ++
  concat (repeat [Calls 3; Calls 4] 8) ++ [answered 3; answered 4].
Definition orderly_turns : list Turn :=
  lookups_twice ++ undisturbed 3 (ReqLookup 1 "b") ++ undisturbed 4 (ReqLookup 2 "b").
Definition lookups_trace (o : outcome Reply) : list event :=
  [EvServe (ReqLookup 0 "d") (Ret (RepNode 1)); EvServe (ReqLookup 0 "d") (Ret (RepNode 2));
   EvServe (ReqLookup 1 "b") (Ret (RepNode 3)); EvServe (ReqLookup 2 "b") o].

(** Requests on two nodes of one directory are not kept apart by the nodes' locks: two
    lookups of a name that the cache does not have yet can both miss it, and the one that comes
    second with its insertion fails with the constraint error of the database; served one after
    the other both succeed. *)
Theorem racing_lookups_conflict :
  fst <$> drive cached_globals race_turns start_pool
    = Some (lookups_trace (Err (ESqlite ErrConstraint))) ∧
  fst <$> drive cached_globals orderly_turns start_pool = Some (lookups_trace (Ret (RepNode 4))).
Proof. split; vm_compute; reflexivity. Qed.
