(* ===== verification/Progress.v ===== *)
(** A request in flight makes finitely many calls, and when it has made them it has been answered.

    The first part lifts the termination of the handlers (FsTermination.v) to requests and to those
    in flight: one that does not wait any more has returned, while the database is not contended
    and the copy loop is long enough for the files of the tree.  The second part is about the
    number of calls: on a system that tells a request beforehand all that the others are ever going
    to do ([Streamed]) it runs to its end without waiting, and that run is ahead of every one in
    which it is still in flight. *)
From S2P Require Import Prelude GoStrings GoPath Stats Types DirEntries Sql Sqlite Kernel.
From S2P Require Import Syscalls Metadata MetadataSpec MetadataProps WorldPost Md5 Content.
From S2P Require Import ContentProps Fs FsLogic FsProps FsTheorems Remote Coherence Growth.
From S2P Require Import HandlerLogic Served NodeServed Session Requests Simulation.
From S2P Require Import SessionProofs Shared Descriptors SharedOs FsTermination Pool PoolProofs.
#[local] Open Scope Z_scope.

#[local] Arguments Join : simpl never.

(** * Requests end *)

Section requests.
Context {OS DB : Type} `{Kernel OS, SqlEngine DB, !Fuel}.
Context (globals : globalState).
Abbreviation S := (Session OS DB).
Abbreviation W := (World OS DB).
(** As in FsTermination.v. *)
Context (stalls : OS → Prop) (quiet waits : DB → Prop).
Context (kernel_ends : ∀ c s, (kernel_call c s).1 = OutOfFuel → stalls (kernel_call c s).2).
Context (exec_quiet : ∀ st d, quiet d → ends_quietly quiet waits (db_exec st d)).
Context (query_quiet : ∀ q d, quiet d → ends_quietly quiet waits (db_query q d)).
Context (some_fuel : (0 < retry_fuel)%nat).
Abbreviation quiet_world := (quiet_world quiet).
Abbreviation stuck_world := (stuck_world stalls waits).

Definition quiet_session (s : S) : Prop := quiet_world (ss_world s).
Definition stuck_session (s : S) : Prop := stuck_world (ss_world s).
Abbreviation Ends := (ends quiet_session stuck_session).
Abbreviation HandlerEnds := (ends (quiet_state quiet) (stuck_state stalls waits)).

Lemma on_node_at_ends {N A} i (select : Node → option N) wrap (m : GoM (N * W) A) (s : S) :
  quiet_session s →
  (∀ nd n, ss_nodes s !! i = Some nd → select nd = Some n → HandlerEnds m (n, ss_world s)) →
  Ends (on_node_at i select wrap m) s.
Proof.
  intros Hq Hm. unfold ends, on_node_at.
  destruct (ss_nodes s !! i) as [nd|] eqn:Hi; [|by split]. simpl.
  destruct (select nd) as [n|] eqn:Hn; [|by split].
  destruct (Hm nd n eq_refl Hn) as [Ho Hs].
  by destruct (m (n, ss_world s)) as [o [n' w']].
Qed.

Lemma on_node_at_halts {N A} i (select : Node → option N) wrap (m : GoM (N * W) A) (s : S) :
  quiet_session s → halts (quiet_state quiet) (stuck_state stalls waits) m →
  Ends (on_node_at i select wrap m) s.
Proof. intros Hq Hm. apply on_node_at_ends; [done|]. intros nd n _ _. by apply Hm. Qed.

Lemma on_handle_ends {A} h (m : GoM (openFile * W) A) (s : S) :
  quiet_session s → halts (quiet_state quiet) (stuck_state stalls waits) m → Ends (on_handle h m) s.
Proof.
  intros Hq Hm. unfold ends, on_handle. destruct (ss_files s !! h) as [f|]; [|by split].
  destruct (Hm (f, ss_world s) Hq) as [Ho Hs]. by destruct (m (f, ss_world s)) as [o [n' w']].
Qed.

Lemma serve_attr_ends i (s : S) : quiet_session s → Ends (serve_attr i) s.
Proof.
  intros Hq. pose proof (dir_call_halts globals _ _ _ kernel_ends exec_quiet query_quiet some_fuel CallDirAttr) as Hd.
  pose proof (file_attr_halts globals _ _ _ kernel_ends exec_quiet query_quiet some_fuel) as Hf.
  pose proof (symlink_call_halts _ _ _ kernel_ends exec_quiet query_quiet some_fuel CallSymlinkAttr) as Hl.
  apply halts_dropped in Hd, Hf, Hl. unfold ends, serve_attr.
  destruct (ss_nodes s !! i) as [[]|]; [..|by split]; by apply on_node_at_halts.
Qed.

(** Opening a file ends when its contents are stored. *)
Lemma request_ends r (s : S) :
  quiet_session s → stats_wf (w_stats (ss_world s)) →
  (∀ i f st, r = ReqOpen i → ss_nodes s !! i = Some (NodeFile f) → stats_wf st →
     ends quiet_world stuck_world (PutContents (g_content globals) (file_belowPath f))
       (set_w_stats st (ss_world s))) →
  (serve globals r s).1 = OutOfFuel → stuck_session (serve globals r s).2.
Proof.
  intros Hq Hwf Hput. apply (proj1 (A := _ → _) (B := quiet_session (serve globals r s).2)).
  pose proof (λ n, Lookup_halts globals _ _ _ kernel_ends exec_quiet query_quiet some_fuel n) as Hlookup.
  pose proof (ReadDirAll_halts _ _ _ kernel_ends exec_quiet query_quiet some_fuel) as Hread.
  pose proof (Readlink_handler_halts _ _ _ kernel_ends exec_quiet query_quiet some_fuel) as Hlink.
  pose proof (λ size off, proj1 (handle_halts _ quiet waits kernel_ends size off)) as Hdata.
  pose proof (proj2 (handle_halts _ quiet waits kernel_ends 0 0)) as Hclose.
  assert (∀ r : Reply, halts quiet_session stuck_session (mret (M := GoM S) r)) as Hret
    by (intros; by apply halts_const).
  change (Ends (serve globals r) s). destruct r as [i|i name|i|i|i|h size off|h|i]; cbn [serve].
  - apply ends_bind; [by apply serve_attr_ends|done].
  - apply ends_bind; [by apply on_node_at_halts|]. intros n. apply halts_bind; [|done]. by intros t Ht.
  - apply ends_bind; [by apply on_node_at_halts|done].
  - apply ends_bind; [|intros f; apply halts_bind; [by intros t Ht|done]].
    apply on_node_at_ends; [done|]. intros nd n Hi Hn. destruct nd as [| |]; try done.
    injection Hn as <-. eapply File_Open_ends; [done..| |done]. intros st Hst. by eapply Hput.
  - apply ends_bind; [by apply on_node_at_halts|done].
  - apply ends_bind; [by apply on_handle_ends|done].
  - apply ends_bind; [by apply ends_try, on_handle_ends|]. intros o. apply halts_bind; [by intros t Ht|].
    intros _. destruct o; [by apply halts_const|done].
  - by split.
Qed.
End requests.

(** * Requests in flight *)

(** A call of a shared database that does not wait is answered, and without contention when the
    states the request sees are quiet. *)
Lemma sh_call_quiet {X A} `{EqDecision X} (quiet : X → Prop) (call : GoM X A) :
  (∀ x, quiet x → ends_quietly quiet (λ _, False) (call x)) →
  ∀ s, only_sees quiet s →
    ends_quietly (only_sees quiet) (λ s, sh_waiting s = true) (sh_call (λ _, call) s).
Proof.
  intros Hcall s [Hn Hc]. unfold ends_quietly, sh_call. destruct (sh_coming s) as [|gap coming]; [by split|].
  inversion Hc as [|? ? Hg Hc']; subst.
  destruct (Hcall (move gap (sh_now s))) as (Hb & Hf & Hq); [by unfold move; case_decide|].
  destruct (call _) as [o x]. simpl in *. split; [done|]. split; [|by split]. intros Ho. by destruct (Hf Ho).
Qed.

Section flight.
Context {OS DB : Type} `{KernelLaws OS, !RemoteView OS, !RemoteLaws OS, !DescriptorView OS,
  !DescriptorLaws OS, SqlLaws DB, !Fuel, EqDecision OS, EqDecision DB}.
Context (globals : globalState) (rs : list string) (tree : string → option rnode)
  (rr : list string) (known : bytes → Prop).
Context (Hsetup : setup_ok (OS := OS) globals rs tree rr known).
(** The databases that answer no call with contention, and files that fit into the copy loop. *)
Context (quiet : DB → Prop).
Context (exec_quiet : ∀ st d, quiet d → (db_exec st d).1 ≠ Err (ESqlite ErrBusy) ∧ quiet (db_exec st d).2).
Context (query_quiet : ∀ q d, quiet d → (db_query q d).1 ≠ Err (ESqlite ErrBusy) ∧ quiet (db_query q d).2).
Context (some_fuel : (0 < retry_fuel)%nat).
Context (short : ∀ cs info c, tree_at tree rr cs = Some (RFile info c) → (length c < copy_fuel)%nat).
Abbreviation began := (began globals rs tree rr known).
Abbreviation waiting := (λ s, sh_waiting s = true).

Lemma began_holding m pinned Σ k th :
  began m pinned Σ k th →
  holding rs tree known pinned k (λ _, True) (sh_start k (w_os (th_world th)) (th_os_moves th)).
Proof. intros []. split; [|done]. split; [|done]. by split. Qed.

(** A request that has stopped without a result waits for its turn. *)
Lemma began_waits m pinned Σ k th :
  began m pinned Σ k th → thread_sees quiet th → thread_done globals k th = true →
  (thread_run globals k th).1 ≠ OutOfFuel.
Proof.
  intros Hb [Hd Hm] Hdone Ho. destruct (engine_ends quiet exec_quiet query_quiet) as [He Hq].
  unfold thread_done in Hdone. apply andb_true_iff in Hdone as [Hno Hnd].
  assert (stuck_session waiting waiting (thread_run globals k th).2) as [Hw|Hw].
  2, 3: unfold os_waits, db_waits in *; rewrite ?Hw in *; done.
  apply (request_ends globals waiting (only_sees quiet) waiting shared_kernel_ends); [..|done|by split| | |done].
  - intros st. apply sh_call_quiet, He.
  - intros q. apply sh_call_quiet, Hq.
  - apply Hb.
  - intros i f st Hr Hf Hst. simpl in Hf.
    destruct (bg_nodes _ _ _ _ _ _ _ _ _ _ Hb _ _ Hf) as (cs & _ & Hok).
    destruct (file_entry _ _ _ _ _ _ Hok) as (info & c & Hat).
    rewrite (na_below _ _ _ _ _ _ _ _ _ Hok), (su_cache _ _ _ _ _ Hsetup).
    pose proof (PutContents_at globals rs tree rr known Hsetup (DB := Shared DB) pinned k cs info c
      (set_w_stats st (ss_world (thread_start k th))) (na_good _ _ _ _ _ _ _ _ _ Hok) Hat Hst
      (began_holding _ _ _ _ _ Hb)) as [_ Hput].
    pose proof (PutContents_conn (NewContentCache (abs_path rs)) (abs_path (rr ++ cs))
      (set_w_stats st (ss_world (thread_start k th)))) as Hconn.
    split.
    + destruct (PutContents _ _ _) as [[] w']; try done. intros _. left.
      destruct Hput as (_ & _ & [Hw|(cs' & info' & c' & Hat' & Hc')]); [done|].
      specialize (short _ _ _ Hat'). lia.
    + unfold same_conn in Hconn. unfold FsTermination.quiet_world. by rewrite Hconn.
Qed.
End flight.

(** * Requests make finitely many calls *)

(** A system that is told beforehand of all that the others are going to do. *)
Record Streamed (X : Type) : Type := {
  st_id : nat;
  st_now : X;
  st_calls : nat;                   (* how many calls have been made *)
  st_moves : nat → X * X;           (* what happens before each of them *)
}.
Arguments st_id {X} s.
Arguments st_now {X} s.
Arguments st_calls {X} s.
Arguments st_moves {X} s.
Arguments Build_Streamed {X} _ _ _ _.

Definition st_call {X A} `{EqDecision X} (call : nat → GoM X A) : GoM (Streamed X) A := λ s,
  let '(o, after) := call (st_id s) (move (st_moves s (st_calls s)) (st_now s)) in
  (o, {| st_id := st_id s; st_now := after; st_calls := st_calls s + 1; st_moves := st_moves s |}).

Definition st_start {X} (id : nat) (x : X) (moves : nat → X * X) : Streamed X :=
  {| st_id := id; st_now := x; st_calls := 0; st_moves := moves |}.

#[export] Instance Streamed_kernel {OS} `{Kernel OS, EqDecision OS} : Kernel (Streamed (Tagged OS)) :=
  tagged_kernel (λ A, st_call).
#[export] Instance Streamed_engine {DB} `{SqlEngine DB, EqDecision DB} : SqlEngine (Streamed DB) := {|
  db_rows s := db_rows (st_now s);
  db_affinity := db_affinity (DB := DB);
  db_exec st := st_call (λ _, db_exec st);
  db_query q := st_call (λ _, db_query q);
|}.

(** A list of moves is the beginning of a stream. *)
Definition begins {X} (l : list X) (f : nat → X) : Prop := ∀ n x, l !! n = Some x → f n = x.

Section streamed.
Context {X : Type} `{EqDecision X} (total : nat).

(** In step with a request that is told of [total] moves in all: the same calls for as long as it
    does not wait, and more of them when it does. *)
#[local, refine] Instance streams : Pairing (Shared X) (Streamed X) := {|
  sync s t := st_id t = sh_id s ∧ st_now t = sh_now s ∧
    (st_calls t + length (sh_coming s) = total)%nat ∧
    ∀ n g, sh_coming s !! n = Some g → st_moves t (st_calls t + n) = g;
  parted s t := (total ≤ st_calls t)%nat;
  ahead s t := (total ≤ st_calls t + length (sh_coming s))%nat;
|}.
Proof. intros s t (_ & _ & Hc & _). lia. Defined.

Lemma streamed_sim {A} (call : nat → GoM X A) : sim true (sh_call call) (st_call call).
Proof.
  split.
  - intros s t (Hid & Hn & Hc & Hm). unfold sh_call, st_call. rewrite Hid, Hn.
    destruct (sh_coming s) as [|gap coming] eqn:E; simpl in *.
    + right. split; [|done]. destruct (call _ _) as [o x]. simpl. lia.
    + left. pose proof (Hm 0%nat gap eq_refl) as Hgap. rewrite Nat.add_0_r in Hgap. rewrite Hgap.
      destruct (call _ _) as [o x]. simpl. split_and!; [done..|lia|].
      intros n g Hg. rewrite <- (Hm (Datatypes.S n) g Hg). f_equal. lia.
  - split; [|done]. intros s t Hs. unfold st_call. destruct (call _ _) as [o x]. simpl in *. lia.
  - split; [|done]. intros s t Hs. unfold st_call. destruct (call _ _) as [o x]. simpl in *. lia.
Qed.
End streamed.

Section finitely.
Context {OS DB : Type} `{Kernel OS, SqlEngine DB, !Fuel, EqDecision OS, EqDecision DB}.
Context (globals : globalState).
Abbreviation T := (Tagged OS).
Implicit Types th : Thread OS DB.

(** The run of a request that never waits. *)
Definition stream_start (k : nat) th (os_moves : nat → T * T) (db_moves : nat → DB * DB) :
    Session (Streamed T) (Streamed DB) :=
  let w := th_world th in
  {| ss_world := {| w_stats := w_stats w; w_os := st_start k (w_os w) os_moves;
                    w_conn := {| c_db := st_start k (c_db (w_conn w)) db_moves;
                                 c_rt := c_rt (w_conn w) |} |};
     ss_nodes := th_nodes th; ss_files := th_files th; ss_next := k |}.

(** Its calls are all that a request can ever make before it has stopped waiting. *)
Lemma calls_bounded k th os_moves db_moves :
  begins (th_os_moves th) os_moves → begins (th_db_moves th) db_moves →
  sh_coming (w_os (ss_world (thread_run globals k th).2)) = [] →
  sh_coming (c_db (w_conn (ss_world (thread_run globals k th).2))) = [] →
  let w := ss_world (serve globals (th_req th) (stream_start k th os_moves db_moves)).2 in
  (length (th_os_moves th) ≤ st_calls (w_os w))%nat ∧
  (length (th_db_moves th) ≤ st_calls (c_db (w_conn w)))%nat.
Proof.
  intros Hom Hdm Ho Hd w.
  assert (@KernelSim true (Shared T) (Streamed T) _ _ (streams (length (th_os_moves th)))) as Hk
    by (split; intros; apply streamed_sim).
  assert (@EngineSim true (Shared DB) (Streamed DB) _ _ (streams (length (th_db_moves th)))) as He
    by (split; intros; apply streamed_sim).
  pose proof (@sim_serve true (Shared T) (Streamed T) (Shared DB) (Streamed DB) _ _
    (streams (length (th_os_moves th))) Hk _ _ (streams (length (th_db_moves th))) He _ globals (th_req th)) as Hs.
  pose proof (sim_run _ _ _ Hs (thread_start k th) (stream_start k th os_moves db_moves)) as Hrun.
  fold (thread_run globals k th) in Hrun.
  destruct Hrun as [[_ Hsync]|[Hparted _]].
  - split; [|done]. split; [done|]. split; split; simpl; [done..| |done]; by split_and!.
  - apply sync_ahead in Hsync. simpl in Hsync. rewrite Ho, Hd in Hsync. simpl in Hsync. fold w in Hsync. lia.
  - simpl in Hparted. rewrite Ho, Hd in Hparted. simpl in Hparted. fold w in Hparted. lia.
Qed.
End finitely.
