(* ===== verification/Liveness.v ===== *)
(** Every request is answered.

    A run that never ends is a sequence of turns and of the pools they lead to.  It is fair when
    every request in flight gets on again and again: it makes its next call, or is answered when
    it has made them all.  The number of calls it has made grows with every such turn, and is
    bounded by those of the run in which it is told beforehand what the others do (Progress.v). *)
From Stdlib Require Import Epsilon.
From S2P Require Import Prelude GoStrings GoPath Stats Types DirEntries Sql Sqlite Kernel.
From S2P Require Import Syscalls Metadata MetadataSpec MetadataProps WorldPost Md5 Content.
From S2P Require Import ContentProps Fs FsLogic FsProps Remote Coherence Growth HandlerLogic.
From S2P Require Import Served NodeServed Session Requests Simulation SessionProofs Scenario.
From S2P Require Import SessionTheorems Shared Descriptors SharedOs FsTermination Pool.
From S2P Require Import PoolProofs PoolTheorems Progress.
#[local] Open Scope Z_scope.

#[local] Arguments Join : simpl never.

(** * Runs that never end *)

Section runs.
Context {OS DB : Type} `{Kernel OS, SqlEngine DB, !Fuel, EqDecision OS, EqDecision DB}.
Context (globals : globalState).
Implicit Types (p : Pool OS DB) (th : Thread OS DB).

Definition infinite_run (turns : nat → Turn) (pools : nat → Pool OS DB) : Prop :=
  ∀ n, turn_ok (turns n) ∧
    ∃ evs, take_turn globals (turns n) (pools n) = Some (evs, pools (Datatypes.S n)).

(** Request [k] makes its next call in this turn, or is answered. *)
Definition gets_on (k : nat) (t : Turn) p : Prop :=
  match t with
  | Calls j => j = k ∧ ∃ th, pl_threads p !! k = Some th ∧ thread_done globals k th = false
  | Answered j _ _ => j = k
  | _ => False
  end.

Definition fair (turns : nat → Turn) (pools : nat → Pool OS DB) : Prop :=
  ∀ k n, is_Some (pl_threads (pools n) !! k) → ∃ n', (n ≤ n')%nat ∧ gets_on k (turns n') (pools n').

(** ** A request later in a run *)

Record later th th' : Prop := {
  la_same : th_req th' = th_req th ∧ th_world th' = th_world th ∧ th_nodes th' = th_nodes th ∧
            th_files th' = th_files th;
  la_os : th_os_moves th `prefix_of` th_os_moves th';
  la_db : th_db_moves th `prefix_of` th_db_moves th';
}.
#[export] Instance later_preorder : PreOrder later.
Proof.
  split; [by split|]. intros th1 th2 th3 [(? & ? & ? & ?) ? ?] [(? & ? & ? & ?) ? ?].
  split; [split_and!; congruence|by etrans..].
Qed.

(** The calls it has made. *)
Definition calls_made th : nat := (length (th_os_moves th) + length (th_db_moves th))%nat.

Lemma later_tell_os x now th : later th (tell_os x now th).
Proof. split; [done|by apply prefix_app_r|done]. Qed.
Lemma later_tell_db d now th : later th (tell_db d now th).
Proof. split; [done|done|by apply prefix_app_r]. Qed.

Definition answers (k : nat) (t : Turn) : Prop := ∃ st rt, t = Answered k st rt.

(** A turn in which a request is not answered leaves it in flight, with one call more if the turn
    was its own. *)
Lemma turn_later k t p evs p' th :
  take_turn globals t p = Some (evs, p') → (k < pl_next p)%nat → pl_threads p !! k = Some th →
  answers k t ∨
  ∃ th', pl_threads p' !! k = Some th' ∧ later th th' ∧
    (gets_on k t p → calls_made th' = Datatypes.S (calls_made th)).
Proof.
  intros Ht Hlt Hk. destruct t as [r|j|j st rt|r]; simpl in Ht.
  - right. destruct (decide _); [|done]. injection Ht as <- <-. exists th. simpl.
    rewrite lookup_insert_ne by lia. done.
  - right. injection Ht as <- <-. unfold pool_call.
    destruct (decide (j = k)) as [->|Hne].
    + rewrite Hk. unfold gets_on, thread_done.
      assert (∀ c : Prop, (∃ th0, pl_threads p !! k = Some th0 ∧ thread_done globals k th0 = false) →
        thread_done globals k th = true → c) as Hno by (intros c (? & ? & ?) ?; simplify_eq; congruence).
      unfold thread_done in Hno. destruct (os_waits _) eqn:Ho; [|destruct (db_waits _) eqn:Hd]; simpl.
      * eexists. split; [apply lookup_insert_eq|]. split; [apply later_tell_os|]. intros _.
        unfold calls_made. simpl. rewrite length_app. simpl. lia.
      * eexists. split; [apply lookup_insert_eq|]. split; [apply later_tell_db|]. intros _.
        unfold calls_made. simpl. rewrite length_app. simpl. lia.
      * exists th. split; [done|]. split; [done|]. intros [_ Hg]. by apply Hno.
    + exists th. split; [|split; [done|by intros []]].
      destruct (pl_threads p !! j) as [thj|]; [|done].
      destruct (os_waits _); [|destruct (db_waits _); [|done]]; simpl; by rewrite lookup_insert_ne.
  - destruct (decide (j = k)) as [->|Hne]; [by left; exists st, rt|right].
    destruct (pl_threads p !! j) as [thj|]; simpl in Ht; [|done].
    destruct (thread_done globals j thj); [|done]. injection Ht as <- <-.
    exists th. simpl. by rewrite lookup_delete_ne.
  - right. destruct (decide _); [|done]. destruct (serve _ _ _) as [o s]. injection Ht as <- <-.
    by exists th.
Qed.
End runs.

(** * One request of a run *)

Section request.
Context {OS DB : Type} `{Kernel OS, SqlEngine DB, !Fuel, EqDecision OS, EqDecision DB}.
Context (globals : globalState) (turns : nat → Turn) (pools : nat → Pool OS DB).
Context (runs : infinite_run globals turns pools) (is_fair : fair globals turns pools).
(** What is known of a request in flight: its identifier has been given out, and it has seen all
    the moves it has been told of. *)
Context (given : ∀ n k th, pl_threads (pools n) !! k = Some th →
  (k < pl_next (pools n))%nat ∧
  sh_coming (w_os (ss_world (thread_run globals k th).2)) = [] ∧
  sh_coming (c_db (w_conn (ss_world (thread_run globals k th).2))) = []).
Context (k start : nat) (th0 : Thread OS DB) (begun : pl_threads (pools start) !! k = Some th0).
Implicit Types th : Thread OS DB.

(** In flight from [start] to [n], without an answer in between. *)
Record in_flight (n : nat) th : Prop := {
  if_start : (start ≤ n)%nat;
  if_now : pl_threads (pools n) !! k = Some th;
  if_pending j : (start ≤ j < n)%nat → ¬ answers k (turns j);
}.

Lemma in_flight_start : in_flight start th0.
Proof. split; [lia|done|lia]. Qed.

Lemma in_flight_next n th :
  in_flight n th →
  answers k (turns n) ∨
  ∃ th', in_flight (Datatypes.S n) th' ∧ later th th' ∧
    (gets_on globals k (turns n) (pools n) → calls_made th' = Datatypes.S (calls_made th)).
Proof.
  intros [Hs Hn Hp]. destruct (runs n) as (_ & evs & Hev). destruct (given _ _ _ Hn) as [Hlt _].
  destruct (turn_later _ _ _ _ _ _ _ Hev Hlt Hn) as [Ha|(th' & Hth' & Hl & Hc)]; [by left|].
  destruct (turns n) as [r|j|j st rt|r] eqn:Et.
  3:{ destruct (decide (j = k)) as [->|Hne]; [left; by exists st, rt|]. right.
      exists th'. split; [|done]. split; [lia|done|]. intros i Hi.
      destruct (decide (i = n)) as [->|]; [|apply Hp; lia]. rewrite Et. by intros (? & ? & [=]). }
  all: right; exists th'; split; [|done]; split; [lia|done|]; intros i Hi;
    (destruct (decide (i = n)) as [->|]; [|apply Hp; lia]); rewrite Et; by intros (? & ? & [=]).
Qed.

(** At every later time it is in flight, or has been answered meanwhile. *)
Lemma in_flight_later n th n' :
  in_flight n th → (n ≤ n')%nat →
  (∃ j thj, (n ≤ j < n')%nat ∧ in_flight j thj ∧ answers k (turns j)) ∨
  ∃ th', in_flight n' th' ∧ later th th'.
Proof.
  intros Hn Hle. induction Hle as [|n' Hle IH]; [right; by exists th|].
  destruct IH as [(j & thj & Hj & ? & ?)|(th' & Hth' & Hl)]; [left; exists j, thj; split_and!; [lia..|done|done]|].
  destruct (in_flight_next _ _ Hth') as [Ha|(th2 & Hth2 & Hl2 & _)].
  - left. exists n', th'. split_and!; [lia..|done|done].
  - right. exists th2. split; [done|by etrans].
Qed.

Lemma in_flight_order n th n' th' : in_flight n th → in_flight n' th' → (n ≤ n')%nat → later th th'.
Proof.
  intros Hn Hn' Hle. destruct (in_flight_later _ _ _ Hn Hle) as [(j & thj & Hj & [? _ _] & Ha)|(th2 & Hth2 & Hl)].
  - destruct Hn' as [_ _ Hp]. destruct (Hp j); [lia|done].
  - destruct Hn' as [_ Hn' _], Hth2 as [_ Hth2 _]. by simplify_eq.
Qed.

(** ** All the moves it is ever told of *)

Definition all_moves {A} (moves : Thread OS DB → list A) (default : A) (i : nat) : A :=
  epsilon (inhabits default) (λ g, ∃ n th, in_flight n th ∧ moves th !! i = Some g).

Lemma all_moves_begin {A} (moves : Thread OS DB → list A) default n th :
  (∀ th th', later th th' → moves th `prefix_of` moves th') →
  in_flight n th → begins (moves th) (all_moves moves default).
Proof.
  intros Hmoves Hn i g Hg. unfold all_moves.
  destruct (epsilon_spec (inhabits default) (λ g, ∃ n th, in_flight n th ∧ moves th !! i = Some g))
    as (n' & th' & Hn' & Hg'); [by exists g, n, th|].
  destruct (decide (n ≤ n')%nat).
  - pose proof (prefix_lookup_Some _ _ _ _ Hg (Hmoves _ _ (in_flight_order _ _ _ _ Hn Hn' ltac:(lia)))).
    congruence.
  - pose proof (prefix_lookup_Some _ _ _ _ Hg' (Hmoves _ _ (in_flight_order _ _ _ _ Hn' Hn ltac:(lia)))).
    congruence.
Qed.

(** So the number of its calls is bounded. *)
Lemma calls_made_bounded : ∃ b, ∀ n th, in_flight n th → (calls_made th ≤ b)%nat.
Proof.
  set (os_moves := all_moves th_os_moves (w_os (th_world th0), w_os (th_world th0))).
  set (db_moves := all_moves th_db_moves (c_db (w_conn (th_world th0)), c_db (w_conn (th_world th0)))).
  set (w := ss_world (serve globals (th_req th0) (stream_start k th0 os_moves db_moves)).2).
  exists (st_calls (w_os w) + st_calls (c_db (w_conn w)))%nat. intros n th Hn.
  destruct (given _ _ _ (if_now _ _ Hn)) as (_ & Ho & Hd).
  destruct (calls_bounded globals k th os_moves db_moves) as [Hbo Hbd]; [..|done|done|].
  - eapply all_moves_begin; [by intros ? ? []|done].
  - eapply all_moves_begin; [by intros ? ? []|done].
  - destruct (la_same _ _ (in_flight_order _ _ _ _ in_flight_start Hn (if_start _ _ Hn))) as (Hr & Hw & Hns & Hfs).
    assert (stream_start k th os_moves db_moves = stream_start k th0 os_moves db_moves) as E
      by (unfold stream_start; by rewrite Hw, Hns, Hfs).
    rewrite Hr, E in Hbo, Hbd. unfold calls_made, w. lia.
Qed.

(** And fairness lets it make any number of calls before it is answered. *)
Lemma calls_made_grow b :
  (∃ n th, in_flight n th ∧ answers k (turns n)) ∨
  ∃ n th, in_flight n th ∧ (b ≤ calls_made th)%nat.
Proof.
  induction b as [|b [?|(n & th & Hn & Hb)]]; [right|by left|].
  - exists start, th0. split; [apply in_flight_start|lia].
  - destruct (is_fair k n) as (n' & Hle & Hg); [by eexists; apply Hn|].
    destruct (in_flight_later _ _ _ Hn Hle) as [(j & thj & _ & ? & ?)|(th' & Hth' & Hl)];
      [by left; exists j, thj|].
    destruct (in_flight_next _ _ Hth') as [?|(th2 & Hth2 & Hl2 & Hc)]; [by left; exists n', th'|].
    right. exists (Datatypes.S n'), th2. split; [done|]. rewrite (Hc Hg).
    pose proof (prefix_length _ _ (la_os _ _ Hl)). pose proof (prefix_length _ _ (la_db _ _ Hl)).
    unfold calls_made in *. lia.
Qed.

Lemma answered_in_the_end : ∃ n th, in_flight n th ∧ answers k (turns n).
Proof.
  destruct calls_made_bounded as [b Hb]. destruct (calls_made_grow (Datatypes.S b)) as [?|(n & th & Hn & Hc)]; [done|].
  specialize (Hb _ _ Hn). lia.
Qed.
End request.

(** * Every request *)

Section results.
Context {OS DB : Type} `{KernelLaws OS, !RemoteView OS, !RemoteLaws OS, !DescriptorView OS,
  !DescriptorLaws OS, SqlLaws DB, !Fuel, EqDecision OS, EqDecision DB}.
Context (globals : globalState) (rs : list string) (tree : string → option rnode)
  (rr : list string) (known : bytes → Prop).
Context (Hsetup : setup_ok (OS := OS) globals rs tree rr known).
Context (turns : nat → Turn) (pools : nat → Pool OS DB) (runs : infinite_run globals turns pools).
Abbreviation flight_ok := (flight_ok globals rs tree rr known).

Lemma run_flight m pinned Σ n :
  flight_ok m pinned Σ (pools 0%nat) → ∃ m' pinned' Σ', flight_ok m' pinned' Σ' (pools n).
Proof.
  intros Hz. induction n as [|n (m1 & pinned1 & Σ1 & Hn)]; [by exists m, pinned, Σ|].
  destruct (runs n) as (Hok & evs & Hev).
  destruct (pool_step_ok globals rs tree rr known Hsetup _ _ _ _ _ _
    (take_turn_step globals (abs_path rr) _ _ _ _ Hok Hev) Hn) as (m2 & pinned2 & Σ2 & _ & ?).
  by exists m2, pinned2, Σ2.
Qed.

Lemma run_sees (quiet : DB → Prop) n :
  (∀ st d, quiet d → quiet (db_exec st d).2) → (∀ q d, quiet d → quiet (db_query q d).2) →
  pool_sees quiet (pools 0%nat) → pool_sees quiet (pools n).
Proof.
  intros He Hq Hz. induction n as [|n Hn]; [done|]. destruct (runs n) as (_ & evs & Hev).
  by eapply take_turn_keeps.
Qed.

Lemma flight_given m pinned Σ p k th :
  flight_ok m pinned Σ p → pl_threads p !! k = Some th →
  (k < pl_next p)%nat ∧
  sh_coming (w_os (ss_world (thread_run globals k th).2)) = [] ∧
  sh_coming (c_db (w_conn (ss_world (thread_run globals k th).2))) = [].
Proof.
  intros Hp Hk. split; [by eapply fo_ids|].
  destruct (fo_threads _ _ _ _ _ _ _ _ _ Hp _ _ Hk) as [(m0 & own & _ & [? ? _ _] & _)]. done.
Qed.

(** C6 (liveness).  Every request is answered: in every run of requests served at the same time
    that never ends and in which every request in flight gets to make its calls and is answered
    when it has made them, each request in flight is answered after finitely many turns, with a
    reply or an error, as long as the database is not contended and the files of the tree are
    shorter than the copy loop's fuel. *)
Theorem every_request_answered (quiet : DB → Prop) (m : gmap string CachedRow) (w : World OS DB)
    (s0 : Session OS DB) :
  (∀ st d, quiet d → (db_exec st d).1 ≠ Err (ESqlite ErrBusy) ∧ quiet (db_exec st d).2) →
  (∀ q d, quiet d → (db_query q d).1 ≠ Err (ESqlite ErrBusy) ∧ quiet (db_query q d).2) →
  (0 < retry_fuel)%nat →
  (∀ cs info c, tree_at tree rr cs = Some (RFile info c) → (length c < copy_fuel)%nat) →
  disk_ok rs tree rr known m w → quiet (c_db (w_conn w)) →
  mount globals (abs_path rr) w = Ret s0 → pools 0%nat = pool_of s0 → fair globals turns pools →
  ∀ n k th, pl_threads (pools n) !! k = Some th →
  ∃ n' st rt o, (n ≤ n')%nat ∧ turns n' = Answered k st rt ∧
    take_turn globals (turns n') (pools n') = Some ([EvServe (th_req th) o], pools (Datatypes.S n')) ∧
    match o with Ret _ | Err _ => True | _ => False end.
Proof.
  intros He Hq Hfuel Hshort Hd Hdb Hm Hpools Hfair n k th Hk.
  destruct (mounted_flight globals rs tree rr known Hsetup m w s0 Hd Hm) as (m0 & pinned0 & Σ0 & _ & _ & _ & Hp0).
  rewrite <- Hpools in Hp0.
  assert (pool_sees quiet (pools 0%nat)) as Hs0.
  { rewrite Hpools. split; [|apply map_Forall_empty]. simpl. unfold mount in Hm.
    pose proof (rootNode_keeps quiet (λ st d H, proj2 (He st d H)) (λ q d H, proj2 (Hq q d H))
      globals (abs_path rr) (set_w_stats NewStats w) Hdb) as Hr.
    destruct (rootNode _ _ _) as [[] w']; try done. by injection Hm as <-. }
  assert (∀ i j thj, pl_threads (pools i) !! j = Some thj → (j < pl_next (pools i))%nat ∧
    sh_coming (w_os (ss_world (thread_run globals j thj).2)) = [] ∧
    sh_coming (c_db (w_conn (ss_world (thread_run globals j thj).2))) = []) as Hgiven.
  { intros i j thj. destruct (run_flight _ _ _ i Hp0) as (m1 & pinned1 & Σ1 & Hi). by eapply flight_given. }
  destruct (answered_in_the_end globals turns pools runs Hfair Hgiven k n th Hk)
    as (n' & th' & Hn' & st & rt & Ha).
  destruct (run_flight _ _ _ n' Hp0) as (m1 & pinned1 & Σ1 & Hflight).
  pose proof (run_sees quiet n' (λ st d H, proj2 (He st d H)) (λ q d H, proj2 (Hq q d H)) Hs0) as [_ Hsees].
  destruct (runs n') as (_ & evs & Hev). rewrite Ha in Hev. pose proof Hev as Hev'. simpl in Hev'.
  rewrite (if_now _ _ _ _ _ _ Hn') in Hev'. simpl in Hev'.
  destruct (thread_done globals k th') eqn:Hdone; [|done]. injection Hev' as <- _.
  exists n', st, rt, (thread_run globals k th').1. split; [by apply Hn'|]. split; [done|].
  destruct (la_same _ _ (in_flight_order globals turns pools runs Hgiven k n _ _ _ _
    (in_flight_start _ _ _ _ _ Hk) Hn' (if_start _ _ _ _ _ _ Hn'))) as [Hr _].
  split; [by rewrite Ha, Hev, Hr|].
  destruct (thread_effect _ _ _ _ _ Hsetup _ _ _ _ _ _ Hflight (if_now _ _ _ _ _ _ Hn')) as (eff & Heff & _).
  destruct (fo_threads _ _ _ _ _ _ _ _ _ Hflight _ _ (if_now _ _ _ _ _ _ Hn')) as [(mb & own & Hb & _)].
  pose proof (began_waits globals rs tree rr known Hsetup quiet He Hq Hfuel Hshort _ _ _ _ _ Hb
    (map_Forall_lookup_1 _ _ _ _ Hsees (if_now _ _ _ _ _ _ Hn')) Hdone) as Hno.
  by destruct Heff.
Qed.
End results.

(** * On a concrete installation *)

(** The run that takes the turns of a list, and nothing ever happens afterwards. *)
Section rests.
Context {OS DB : Type} `{Kernel OS, SqlEngine DB, !Fuel, EqDecision OS, EqDecision DB}.
Context (globals : globalState).

Definition rest_turns (l : list Turn) (n : nat) : Turn := nth n l (Calls 0).
Definition rest_pools (l : list Turn) (p : Pool OS DB) (n : nat) : Pool OS DB :=
  match drive globals (take n l) p with Some (_, q) => q | None => p end.

Lemma drive_app l1 l2 p :
  drive globals (l1 ++ l2) p =
  '(tr1, p1) ← drive globals l1 p; '(tr2, p2) ← drive globals l2 p1; Some (tr1 ++ tr2, p2).
Proof.
  revert p. induction l1 as [|t l1 IH]; intros p; simpl.
  - by destruct (drive globals l2 p) as [[]|].
  - destruct (take_turn globals t p) as [[evs p1]|]; [simpl|done]. rewrite IH.
    destruct (drive globals l1 p1) as [[tr1 p2]|]; [simpl|done].
    destruct (drive globals l2 p2) as [[tr2 p3]|]; [simpl|done]. by rewrite app_assoc.
Qed.

Lemma rest_run l p tr p' :
  Forall turn_ok l → drive globals l p = Some (tr, p') → pl_threads p' = ∅ →
  infinite_run globals (rest_turns l) (rest_pools l p).
Proof.
  intros Hok Hd Hempty n. unfold rest_turns, rest_pools. destruct (decide (n < length l)%nat) as [Hn|Hn].
  - destruct (lookup_lt_is_Some_2 l n Hn) as [t Ht]. rewrite (nth_lookup_Some _ _ _ _ Ht).
    split; [by eapply Forall_lookup_1|]. rewrite (take_S_r _ _ _ Ht).
    rewrite <- (take_drop_middle _ _ _ Ht), drive_app in Hd.
    rewrite drive_app. destruct (drive globals (take n l) p) as [[tr1 p1]|]; [simpl in *|done].
    destruct (take_turn globals t p1) as [[evs p2]|]; [simpl in *|done]. by exists evs.
  - rewrite nth_overflow, !take_ge by lia. split; [done|]. rewrite Hd. simpl. exists [].
    unfold pool_call. by rewrite Hempty, lookup_empty.
Qed.

(** A run that has answered everything is fair. *)
Lemma rest_fair l p tr p' :
  Forall turn_ok l → drive globals l p = Some (tr, p') → pl_threads p' = ∅ →
  (∀ n k th, pl_threads (rest_pools l p n) !! k = Some th →
    (k < pl_next (rest_pools l p n))%nat ∧
    sh_coming (w_os (ss_world (thread_run globals k th).2)) = [] ∧
    sh_coming (c_db (w_conn (ss_world (thread_run globals k th).2))) = []) →
  fair globals (rest_turns l) (rest_pools l p).
Proof.
  intros Hok Hd Hempty Hgiven k n [th Hk].
  destruct (in_flight_later globals _ _ (rest_run _ _ _ _ Hok Hd Hempty) Hgiven k n n th (n + length l))
    as [(j & thj & Hj & _ & st & rt & Ha)|(th' & Hth' & _)].
  - by eapply in_flight_start.
  - lia.
  - exists j. split; [lia|]. by rewrite Ha.
  - destruct Hth' as [_ Hth' _]. unfold rest_pools in Hth'. rewrite take_ge in Hth' by lia.
    by rewrite Hd, Hempty, lookup_empty in Hth'.
Qed.
End rests.

Lemma scenario_short cs info c :
  tree_at scenario_tree ["r"] cs = Some (RFile info c) → (length c < copy_fuel)%nat.
Proof.
  intros Hat%scenario_entries.
  destruct Hat as [[_ [=]]|[[_ [= _ ->]]|[[_ [=]]|[[_ [=]]|[_ [= _ ->]]]]]]; simpl; lia.
Qed.

Definition busy_pools : nat → Pool MemOs MemDb := rest_pools cached_globals busy_turns start_pool.

Lemma busy_settles : pl_threads busy_pool = ∅.
Proof. vm_compute. reflexivity. Qed.
Lemma busy_runs : infinite_run cached_globals (rest_turns busy_turns) busy_pools.
Proof. exact (rest_run _ _ _ _ _ busy_turns_ok busy_drive busy_settles). Qed.

Lemma busy_given n k th :
  pl_threads (busy_pools n) !! k = Some th →
  (k < pl_next (busy_pools n))%nat ∧
  sh_coming (w_os (ss_world (thread_run cached_globals k th).2)) = [] ∧
  sh_coming (c_db (w_conn (ss_world (thread_run cached_globals k th).2))) = [].
Proof.
  intros Hk. pose proof (scenario_setup cached_globals eq_refl) as Hsetup.
  destruct (mounted_flight cached_globals ["cache"] scenario_tree ["r"] scenario_known Hsetup ∅
    scenario_world (start cached_globals) scenario_disk cached_mounts) as (m & pinned & Σ & _ & _ & _ & Hp).
  destruct (run_flight cached_globals ["cache"] scenario_tree ["r"] scenario_known Hsetup
    _ _ busy_runs m pinned Σ n Hp) as (m' & pinned' & Σ' & Hn). by eapply flight_given.
Qed.

Lemma busy_fair : fair cached_globals (rest_turns busy_turns) busy_pools.
Proof. exact (rest_fair _ _ _ _ _ busy_turns_ok busy_drive busy_settles busy_given). Qed.

(** The three requests that are in flight after 105 turns. *)
Lemma every_request_answered_witness :
  size (pl_threads (busy_pools 105)) = 3%nat ∧
  ∀ k th, pl_threads (busy_pools 105) !! k = Some th →
  ∃ n' st rt o, (105 ≤ n')%nat ∧ rest_turns busy_turns n' = Answered k st rt ∧
    take_turn cached_globals (rest_turns busy_turns n') (busy_pools n')
      = Some ([EvServe (th_req th) o], busy_pools (Datatypes.S n')) ∧
    match o with Ret _ | Err _ => True | _ => False end.
Proof.
  split; [by vm_compute|]. assert (0 < retry_fuel)%nat as Hf by (simpl; lia).
  exact (every_request_answered cached_globals ["cache"] scenario_tree ["r"] scenario_known
    (scenario_setup cached_globals eq_refl) (rest_turns busy_turns) busy_pools busy_runs
    (λ d, mem_faults d = []) ∅ scenario_world (start cached_globals) mem_exec_quiet mem_query_quiet Hf
    scenario_short scenario_disk eq_refl cached_mounts eq_refl busy_fair 105%nat).
Defined.
