(* ===== verification/Concurrent.v ===== *)
(** The process of [fs.Loop] with requests in flight: the pool of Pool.v as a way of serving
    (Loop.v), with the promises that the theorems on the process and on [main] ask for.

    A turn is one call of the kernel or the database of one of the requests, or the arrival or
    the answer of one, so that a signal, an unmount or the end of the process can come between
    any two calls. *)
From S2P Require Import Prelude GoStrings GoPath Stats Types DirEntries Sql Sqlite Kernel.
From S2P Require Import Syscalls Metadata MetadataSpec MetadataProps WorldPost Md5 Content.
From S2P Require Import ContentProps Fs FsLogic Opening CommandLine Remote Coherence Served.
From S2P Require Import Session Requests Simulation SessionProofs Scenario SessionTheorems.
From S2P Require Import Loop LoopTheorems WholeProgram Shared Descriptors SharedOs.
From S2P Require Import Pool PoolProofs PoolTheorems.
#[local] Open Scope Z_scope.
#[local] Arguments rootNode : simpl never.
#[local] Arguments serve : simpl never.

(** * The pool as a server *)

(** How the goroutine of a turn has ended, if it has. *)
Definition turn_outcome (evs : list event) : outcome () :=
  match evs with [EvServe _ o] => ended_as o | _ => Ret () end.

#[export] Instance pooled {OS DB} `{Kernel OS, SqlEngine DB, Fuel, EqDecision OS, EqDecision DB} :
    Server OS DB (Pool OS DB) Turn := {|
  sv_idle w := pool_of {| ss_world := w; ss_nodes := ∅; ss_files := ∅; ss_next := 0 |};
  sv_attach root w := pool_of (Root root w);
  sv_turn globals t p := '(evs, p') ← take_turn globals t p; Some (turn_outcome evs, p');
  sv_ok := turn_ok;
  sv_settled p := bool_decide (pl_threads p = ∅);
  sv_world p := ss_world (pool_session p);
|}.

#[export] Instance pooled_laws {OS DB}
    `{Kernel OS, SqlEngine DB, Fuel, EqDecision OS, EqDecision DB} :
  ServerLaws OS DB (Pool OS DB) Turn.
Proof. split; by intros; repeat match goal with w : World _ _ |- _ => destruct w end. Qed.

(** * It serves the tree *)

Section serves.
Context {OS DB : Type} `{KernelLaws OS, !RemoteView OS, !RemoteLaws OS, !DescriptorView OS,
  !DescriptorLaws OS, SqlLaws DB, !Fuel, EqDecision OS, EqDecision DB}.
Context (globals : globalState) (rs : list string) (tree : string → option rnode)
  (rr : list string) (known : bytes → Prop).
Context (Hsetup : setup_ok (OS := OS) globals rs tree rr known).
Abbreviation flight_ok := (flight_ok globals rs tree rr known).

(** A pool that serves the tree, with everything that was on the disk [m]. *)
Definition pool_from (m : gmap string CachedRow) (p : Pool OS DB) : Prop :=
  ∃ m' pinned Σ, flight_ok m' pinned Σ p ∧ inodes_of m ⊆ sp_inodes Σ.

Lemma spec_turn_outcome Σ evs Σ' msg :
  spec_run tree rr Σ evs Σ' → turn_outcome evs ≠ Fatal msg ∧ turn_outcome evs ≠ Panic msg.
Proof.
  intros Hrun. destruct evs as [|[r o|] [|]]; try done. simpl.
  inversion Hrun as [|? tr Σ1 ev Σ2 Hrun1 Hstep Heq]; subst.
  destruct tr as [|? []]; simplify_eq/=. inversion Hstep as [? ? ? _ Ha|]; subst.
  destruct o; try done; inversion Ha; subst; naive_solver.
Qed.

Lemma pooled_serves : ServesTree (S := Pool OS DB) globals rs tree rr known pool_from.
Proof.
  split.
  - intros m root w (Σ & (m' & pinned & Hs) & Hi). exists m', pinned, Σ.
    split; [by apply session_flight|done].
  - intros m t p o p' (m' & pinned & Σ & Hp & Hi) Hok. simpl.
    destruct (take_turn globals t p) as [[evs p1]|] eqn:Et; [|done]. intros [= <- <-].
    apply (take_turn_step globals (abs_path rr)) in Et; [|done].
    destruct (pool_step_ok globals rs tree rr known Hsetup _ _ _ _ _ _ Et Hp)
      as (m2 & pinned2 & Σ2 & Hrun & Hp2). split.
    + exists m2, pinned2, Σ2. split; [done|]. etrans; [done|]. by eapply spec_run_inodes.
    + intros msg. by eapply spec_turn_outcome.
  - intros m p (m' & pinned & Σ & Hp & Hi). exists m'.
    split; [by eapply flight_disk|]. etrans; [done|]. apply (fo_tables _ _ _ _ _ _ _ _ _ Hp).
Qed.
End serves.

(** * It leaves alone what the prepared statements leave alone *)

#[export] Instance pooled_leaves_alone {OS DB A}
    `{Kernel OS, SqlEngine DB, !Fuel, EqDecision OS, EqDecision DB} (f : DB → A) (v : A)
    (f_exec : ∀ st, framed (same f) (db_exec st)) (f_query : ∀ q, framed (same f) (db_query q)) globals :
  LeavesAlone (S := Pool OS DB) globals f v (pool_sees (λ d, f d = v)).
Proof.
  split; simpl.
  - intros w Hw. by split.
  - intros root w Hw. by split.
  - intros t p o p' Hp. destruct (take_turn globals t p) as [[evs p1]|] eqn:Et; [|done].
    intros [= _ <-]. eapply take_turn_keeps; [..|exact Et|exact Hp];
      [by apply exec_watched|by apply query_watched].
  - by intros p [Hd _].
Qed.

(** * Killed with requests in flight *)

(** C11 (invariant).  A process that serves requests at the same time can be killed, or end in any
    other way, between any two calls of the requests it has in flight: none of them has panicked or
    exited the process; the disk it leaves is one on which the program can be started again, with
    every inode number that was given out before; and in every interleaving of the requests that
    the next process serves, the answers are those of the abstract file system of the remote
    tree. *)
Theorem killed_in_flight {OS DB} `{KernelLaws OS, !RemoteView OS, !RemoteLaws OS,
    !DescriptorView OS, !DescriptorLaws OS, SqlLaws DB, !Fuel, EqDecision OS, EqDecision DB}
    (globals : globalState) (rs : list string) (tree : string → option rnode) (rr : list string)
    (known : bytes → Prop) (m : gmap string CachedRow) (w : World OS DB)
    (p : Process (Pool OS DB)) :
  setup_ok (OS := OS) globals rs tree rr known → disk_ok rs tree rr known m w →
  process_reaches globals (abs_path rr) w p →
  let left := sv_world (pr_session p) in
  (pr_main p = AtServe →
   map_Forall (λ k th, match (thread_run globals k th).1 with Panic _ | Fatal _ => False | _ => True end)
     (pl_threads (pr_session p))) ∧
  (∃ m', disk_ok rs tree rr known m' left ∧ inodes_of m ⊆ inodes_of m') ∧
  (∀ s0 tr p', mount globals (abs_path rr) left = Ret s0 →
     pool_run globals (abs_path rr) (pool_of s0) tr p' →
     ∃ Σ0 Σ, inodes_of m ⊆ sp_inodes Σ0 ∧ sp_nodes Σ0 = {[0%nat := []]} ∧ spec_run tree rr Σ0 tr Σ).
Proof.
  intros Hsetup Hd Hp left.
  destruct (disk_survives globals rs tree rr known _ m w p Hsetup
    (pooled_serves globals rs tree rr known Hsetup) Hd Hp) as [(m' & Hm' & Hi) Hserve].
  split_and!; [|by exists m'|].
  - intros (m1 & pinned & Σ & Hf & _)%Hserve k th Hk.
    destruct (thread_effect _ _ _ _ _ Hsetup _ _ _ _ _ _ Hf Hk) as (eff & Heff & _). by destruct Heff.
  - intros s0 tr p' Hm Hrun.
    destruct (mounted_flight globals rs tree rr known Hsetup m' left s0 Hm' Hm)
      as (m0 & pinned & Σ0 & Hn & _ & Hi0 & Hp0).
    destruct (pool_run_flight globals rs tree rr known Hsetup _ _ _ _ _ _ Hrun Hp0)
      as (m1 & pinned1 & Σ & Hspec & _).
    exists Σ0, Σ. split_and!; [by etrans|done|done].
Qed.

(** The turns of PoolTheorems.v up to where three requests are in flight, and a signal that cannot
    be caught. *)
Definition served_turns : list (Action Turn) :=
  [DoMount None; DoGo; DoNotify; DoRoot] ++ (DoTurn <$> midway_turns) ++ [GetSignal (OtherSignal 9)].
Definition killed_midway : Process (Pool MemOs MemDb) :=
  default (process_start scenario_world)
    (process_run cached_globals "/r" served_turns (process_start scenario_world)).

Lemma killed_midway_reaches : process_reaches cached_globals "/r" scenario_world killed_midway.
Proof.
  unfold killed_midway.
  destruct (process_run cached_globals "/r" served_turns (process_start scenario_world)) as [p|] eqn:E;
    [|apply reaches_start].
  eapply process_run_reaches; [|apply reaches_start|exact E]. apply (turns_are_ok turn_ok).
  apply Forall_app. split; [by repeat constructor|]. apply Forall_app. split; [|by repeat constructor].
  apply Forall_fmap, Forall_take, busy_turns_ok.
Qed.

Lemma killed_in_flight_witness :
  pr_main killed_midway = AtServe ∧ size (pl_threads (pr_session killed_midway)) = 3%nat ∧
  pr_death killed_midway = Some (Killed (OtherSignal 9)) ∧
  (∃ m', disk_ok ["cache"] scenario_tree ["r"] scenario_known m' (sv_world (pr_session killed_midway)) ∧
         inodes_of ∅ ⊆ inodes_of m').
Proof.
  split; [by vm_compute|]. split; [by vm_compute|]. split; [by vm_compute|].
  exact (proj1 (proj2 (killed_in_flight cached_globals ["cache"] scenario_tree ["r"] scenario_known ∅
    scenario_world killed_midway (scenario_setup cached_globals eq_refl) scenario_disk
    killed_midway_reaches))).
Defined.
